(* ===== verification/_CoqProject ===== *)
-Q . S2P
Prelude.v
Bitfield.v
AtomicList.v
Memory.v
ChunkedBump.v
Arenas.v
SpinLock.v
CondVar.v
ChunkedList.v
Packed.v
ChunkedListSpec.v
ChunkedListOps.v
RefCount.v
Access.v
Resource.v
Guards.v
FieldGuards.v
Entries.v
ResourceUser.v
TaskProperties.v
Graph.v
GraphNotify.v
GraphInv.v
GraphInit.v
GraphSubmit.v
GraphEvents.v
GraphDemote.v
System.v
SystemSafe.v
SystemLive.v
SystemRun.v
SystemProps.v
SystemEvents.v
SystemDemote.v
GraphActivate.v
SystemActivate.v
Nesting.v
Serial.v
SpaceCount.v
Shutdown.v
Barrier.v
GraphResults.v
Futures.v
Progress.v
ParserYield.v
ParserWait.v
FollowerRace.v
TaskBase.v
RequestPool.v
CudaEvents.v
Workers.v
Scheduler.v
Startup.v
Tags.v
TaskBuilder.v
WorkerLoop.v
MPIWorker.v
Runtime.v
CudaWorker.v
ConcurrentList.v
