(* ===== verification/Prelude.v ===== *)
(** * redGrapes: a verification of the task runtime

    redGrapes is a C++20 header library that runs tasks on worker threads.  A
    program emplaces tasks and names the accesses each makes to its resources;
    the runtime keeps, per resource, the list of tasks that use it, makes every
    new task wait for the older tasks of its space it conflicts with, and hands
    the tasks that wait for nothing to the workers.  This development models the
    code under [src/redGrapes] and proves what makes it correct.

    ** How the parts fit together

    The program calls [RedGrapes::emplace_task], which picks a worker, builds a
    task and submits it to the current task space.  [TaskSpace::submit] enters
    the task in the user list of each of its resources (a [ChunkedList]) and, in
    a child space, as a predecessor of its parent.  The scheduler puts it into
    the emplacement queue of a worker.  A worker that takes it runs
    [init_graph], which adds edges from conflicting older users; the edges are
    followers of events, and the counter of an event is what is still due to
    it.  When the counter of a pre-event falls to one the task is ready and is
    given to the scheduler ([activate_task]), unless the worker that is
    initializing it keeps it.  The worker runs it; when it returns its
    post-event is notified, which notifies the followers, and once the result
    has been taken as well the task is freed.

    ** Files

    Shared:
    - [Prelude]: fallible results ([res], with its monad), machine words, sums
      over finite maps, reachability of step relations, tactics and hints.

    Containers and memory ([util/], [memory/], [sync/]):
    - [Bitfield] is [util/bitfield.hpp]; [AtomicList] is [util/atomic_list.hpp],
      with its compare-and-swap loop for any number of threads in
      [AtomicList.Concurrent]; [ChunkedList] is [util/chunked_list.hpp], its
      abstract content and representation invariant are in [ChunkedListSpec],
      the refinement theorems in [ChunkedListOps]; [Packed]: the pointer and the
      flag of an iterator in one word; [RefCount] has the reference count of one
      item under any number of iterators, [ConcurrentList] a list into which any
      number of threads push and from which they remove, one access to a shared
      variable per step.
    - [Memory] is [memory/block.hpp] and [bump_allocator.hpp]; [ChunkedBump] is
      [memory/chunked_bump_alloc.hpp]; [Arenas]: one such allocator per worker
      ([memory/allocator.hpp], [TaskFreeCtx.hpp]).
    - [SpinLock] is [sync/spinlock.hpp], [CondVar] is [sync/cv.hpp], as steps of
      any number of threads.

    Accesses and resources ([resource/]):
    - [Access]: the access policies [io], [area], [combine], [field].
      [Resource]: resource identities and type-erased accesses; the class
      [AccessOps] is what the task graph uses of an access and [AccessLaws]
      what it relies on, and [erased_laws] discharges them.  [Guards]:
      [ioresource.hpp]; [FieldGuards]: [fieldresource.hpp].  [ResourceUser]: the
      access list of a task, conflict and containment of tasks, and patches.
    - [Entries]: the abstract content of a user list.

    The task graph ([scheduler/event.*], [task/property/graph.*],
    [task/task_space.hpp]):
    - [Graph] has the store ([World]: tasks, external events, spaces, users of
      resources, and the calls made so far) and every operation on it.
      [GraphNotify]: [notify] ends; [GraphInv]: the invariant [Inv] of the edge
      counters and what one notification does; [GraphInit]: [init_graph];
      [GraphSubmit]: [submit]; [GraphEvents]: external events and pausing;
      [GraphActivate]: who is handed to the scheduler; [GraphResults]: result
      events and the removal of tasks.

    The runtime:
    - [System]: all handlers as the step relation [step], whose invariant is
      [invariant]; [SystemSafe] (every step keeps it), [SystemLive] (who waits
      for whom), [SystemRun] (steps that can be executed), [SystemProps],
      [SystemEvents], [SystemActivate] (the properties).
    - [Nesting]: [globalSpace.hpp] and [backtrace]; [SpaceCount] and [Barrier]:
      the task counter of a space and [barrier]; [Futures]: [task/future.hpp]
      and results; [Progress]: the work left in a system that gets no new tasks.
    - [Serial]: the functions of the tasks, as actions on a memory, among the steps
      of [System].

    Workers and schedulers ([dispatch/], [scheduler/]):
    - [Workers] (queues, worker states, stealing), [Scheduler] (the interface
      [IScheduler] and the two schedulers), [WorkerLoop] (gathering and
      executing tasks over any graph that meets [TaskGraphLaws]), [Runtime] (the
      graph of [System] meets them), [RequestPool] ([dispatch/mpi]).
    - [Shutdown]: the threads of the workers from their start to their join;
      [MPIWorker] ([dispatch/mpi/mpiWorker.hpp]): the worker of a thread of its
      own; [CudaEvents] ([dispatch/cuda]): the recycling and polling of CUDA
      events, [CudaWorker]: the worker and the scheduler that use them;
      [Startup]: the constructor of [RedGrapes]; [Tags]: several schedulers, and
      which of them a task belongs to.

    What the program calls ([redGrapes.hpp], [task/]):
    - [TaskProperties]: the properties a task is composed of, and what the
      arguments of its function add to them; [TaskBuilder]: emplacing tasks
      through builders; [TaskBase]: the calls of a task's function, which may wait
      in between; [ParserYield]: waiting outside of tasks, [ParserWait]: the same
      interleaved with the notification; [FollowerRace]: entering a follower while
      its event is being reached; [GraphDemote], [SystemDemote]: [update_properties], by which a running task gives up
      accesses.

    ** What is proved

    - Serializability ([Serial]): the memory is at any time as if the tasks of a
      space, each with all tasks below it, had been run one after the other in the
      order of their submission.
    - Order and exclusion ([SystemProps]): in every interleaving of the handlers
      a task that has started finds every earlier conflicting task of its space
      finished; conflicting tasks never run together; a parent finishes after
      its children; no handler fails an assertion; if no task lists a resource
      twice, something is ready whenever nothing runs, and without new tasks every
      run ends, with all tasks finished and removed ([Progress]).  A task that does
      list one twice waits for itself ([waits_for_itself]).
    - Hand-over ([SystemActivate], [Runtime], [WorkerLoop], [Scheduler]): a task
      is given to a worker once for every time it becomes ready, and none is
      lost between the queues; with several schedulers it goes to its own ([Tags]).
    - Events, barrier, futures ([SystemEvents], [Barrier], [Futures]): a task
      that made an event is not finished before it is reached, a task that
      yields for one is ready again exactly when it is, provided that the event is
      not notified in the middle of the pause; [barrier] returns when
      all is finished and is woken by the step that makes it so; a future gives
      the value the function returned and its task stays in memory until then.
    - The steps inside two handlers: a dependency that [init_graph] enters is never
      lost, while a task that pauses may be lost or made ready twice
      ([FollowerRace]); the parser never sleeps through the result it waits for
      ([ParserWait]).
    - CUDA ([CudaWorker]): a task that launched work into a stream is not finished
      before the external event queued with the CUDA event of that work is reached;
      the worker loop notifies these events in the order they were queued in, each
      once and after the query of its CUDA event succeeded.
    - Emplacing ([TaskBuilder], [TaskBase]): every emplaced task is submitted once;
      with stack switching what a task does is done once, in order.
    - Demotion ([SystemDemote]), as far as it goes: [update_properties] gives up the
      edges to tasks that no longer conflict, without harm if no edge is entered
      twice and none leads to a parent; the two other cases are code bugs below.
    - Startup and memory ([Startup], [Arenas]): workers have distinct ids and an
      arena each, and blocks in use never overlap.
    - Shutdown ([Shutdown]): however the threads interleave, the destructor can
      stop and join every worker.
    - Properties ([TaskProperties]): a patch is applied property by property up to
      the first exception; the order of a task's arguments does not matter.
    - Accesses ([Access], [ResourceUser]): conflict of field accesses is overlap
      of boxes, and containment of accesses implies containment of conflicts.
    - Containers ([ChunkedListOps], [Bitfield], [AtomicList], [Memory],
      [ChunkedBump]): refinement of lists of positions and values, of the
      sequence of matching bits, and of sets of disjoint blocks.  An item that
      every iterator acquired with its increment is destroyed once, by the last
      ([RefCount]).  Pushes may interleave in any way: once they have returned, the
      list represents what was pushed, no push is stuck, and an iteration from an own
      entry, as in [init_graph], sees all older elements ([ConcurrentList]).
    - Where the code does not do what it means to, a theorem or an example says
      what it does instead: [destroy_chunk_correct], [exclude_start_ignored],
      [allocate_never_returns], [apply_patch_ignores_old],
      [emplace_workers_correct], [wake_skips_first], [activate_compares_ids],
      [barrier_in_task_never_returns], [get_twice], [construct_fails],
      [parent_edge_lost], [double_edge_lost], [no_switching_repeats],
      [external_event_not_told], [demotion_rejected], [add_resource_duplicates],
      [acquire_deceived], [destructor_lost], [wrapped_access_ignored], [task_text],
      [record_needs_stream], [neighbour_wake_fails],
      [elements_hidden], [pause_wakes], [cuda_dependency_lost],
      [activate_outside_worker], [pools_share_counter], [waits_for_itself].

    ** Conventions, bounds and fuel

    Integers of the program are [Z] with their wrap-around written out
    ([wrap n], [u8], [u32], [u64]); identities of tasks, spaces, events and
    resources are [nat]; a pointer that may be null is an [option].  Code that
    can fail returns [res]: a failed [assert] is [AssertFailed], an exception
    [Throw], and what C++ leaves undefined [Undefined].  Asserts are modelled as
    they are compiled in debug builds.

    Loops and recursions that are not structural take fuel, and a theorem says
    how much is enough: [notify] needs one more than the number of pending
    edges ([notify_fuel], [notify_spec]); [gather_task] one more than the
    number of new tasks ([gather_fuel]); the loops of [ChunkedList] as many as
    slots ([acquire_fuel]) or chunks ([push_fuel]); [alloc_fuel] two turns,
    unless the request cannot be served, in which case no fuel is enough
    ([allocate_never_returns]); the word search of [Bitfield] the number of
    words.

    In [System] one step is one handler; a handler is not interrupted in the
    model.  For entering a dependency this is what the lock of the user list
    guarantees ([FollowerRace.dependency_never_lost]).  For a task that pauses the
    code has no such guarantee: an event that is notified within [sg_pause] may be
    missed ([FollowerRace.pause_wakes]), so what [System] says of paused tasks holds
    of runs in which no notification comes in the middle of a pause.  The same is
    so for dependencies on pre-events ([cuda_dependency_lost]).  The counters of
    events are 16 bits wide; steps that add edges require room for them ([room]).
    Finer interleavings are modelled where the code is lock-free on its own:
    [AtomicList.Concurrent], [SpinLock], [CondVar], [Shutdown], [RefCount],
    [ConcurrentList], [ParserWait], [FollowerRace].  The pushes into a user list are not under its lock, and what
    a removal at the same time may do to them ([elements_hidden]) is not part of
    [System].

    ** Not modelled

    Tracing and logging ([util/trace.*], [util/demangled_name.hpp]), type-level
    plumbing ([util/traits.hpp], [util/tuple_map.hpp], [util/bind_args.hpp]),
    the vendored concurrent queue (behind the class [TaskQueue]), and the
    libraries the code calls: hwloc, MPI, CUDA, Boost.Context; where a component
    uses them they are parameters.  The CUPLA dispatcher is written against an
    earlier version of the task graph ([in_edges], an untyped [EventPtr]) and
    has no meaning against this one.  The binding to processing units and memory
    is not represented; a machine ([WorkerLoop], [MPIWorker], [CudaWorker]) has one
    scheduler for all its tasks, [Tags] has several but no graph.  In
    [ChunkedListOps] one thread at a time works on a list; in [ConcurrentList] an
    iteration is not interrupted, and the counts of an item are one step ([RefCount]
    has theirs).  The counters of the round robin, static in their functions, are
    shared by all pools ([Scheduler.Statics]); that of [activate_task] exists once per
    thread.  [current_worker_id] is taken to be set on a worker thread, though
    [WorkerThread::run] assigns through it while it is empty.
    With CUDA tasks an edge may start at the pre-event of the first task
    ([cuda_task_dependency_type]), in the hope that streams keep the order; the task
    graph here is that of the schedulers that do not override this.
    [update_properties] is no step of [System]: it may drop the edge to the parent
    ([parent_edge_lost]), after which [parent_finishes_last] would not hold. *)

From Stdlib Require Import ZArith Lia Bool.
From stdpp Require Import base list gmap sets strings relations.

(** * Results of fallible code

    [Throw] is a C++ exception, [AssertFailed] a failing [assert],
    [Undefined] an access the language leaves undefined (out-of-range vector
    index, null dereference), [OutOfFuel] a loop or recursion that did not end
    within the fuel given to the model. *)

Inductive error : Type :=
  | Throw (msg : string)
  | AssertFailed
  | Undefined
  | OutOfFuel.

Inductive res (A : Type) : Type :=
  | Ok (a : A)
  | Err (e : error).
Arguments Ok {A} a.
Arguments Err {A} e.

#[export] Instance error_eq_dec : EqDecision error.
Proof. solve_decision. Defined.

#[export] Instance res_eq_dec {A} `{EqDecision A} : EqDecision (res A).
Proof. solve_decision. Defined.

#[export] Instance res_ret : MRet res := fun A a => Ok a.

#[export] Instance res_bind : MBind res :=
  fun A B f m => match m with Ok a => f a | Err e => Err e end.

#[export] Instance res_fmap : FMap res :=
  fun A B f m => match m with Ok a => Ok (f a) | Err e => Err e end.

(** Dereferencing something that may be absent. *)
Definition deref {A} (o : option A) : res A :=
  match o with Some a => Ok a | None => Err Undefined end.

(** [assert(b)] *)
Definition cpp_assert (b : bool) : res unit :=
  if b then Ok tt else Err AssertFailed.

Definition is_ok {A} (r : res A) : bool :=
  match r with Ok _ => true | Err _ => false end.

Lemma bind_Ok {A B} (m : res A) (f : A -> res B) (b : B) :
  m ≫= f = Ok b <-> exists a, m = Ok a /\ f a = Ok b.
Proof.
  destruct m as [a | e]; simpl; split.
  - intros H. exists a. split; [reflexivity | exact H].
  - intros (a' & Ha & Hf). injection Ha as ->. exact Hf.
  - discriminate.
  - intros (a' & Ha & _). discriminate.
Qed.

Lemma deref_Ok {A} (o : option A) (a : A) : deref o = Ok a <-> o = Some a.
Proof. destruct o; simpl; split; congruence. Qed.

Lemma cpp_assert_Ok (b : bool) (u : unit) : cpp_assert b = Ok u <-> b = true.
Proof. destruct b, u; simpl; split; congruence. Qed.

(** Inverts every monadic hypothesis that returned [Ok]. *)
Ltac res_inv :=
  repeat match goal with
    | H : mbind _ _ = Ok _ |- _ =>
        let x := fresh "v" in let Hx := fresh "Hv" in
        apply bind_Ok in H as (x & Hx & H)
    | H : deref _ = Ok _ |- _ => apply deref_Ok in H
    | H : cpp_assert _ = Ok _ |- _ => apply cpp_assert_Ok in H
    | H : Ok _ = Ok _ |- _ => injection H as H
    | H : mret _ = Ok _ |- _ => injection H as H
    | H : Err _ = Ok _ |- _ => discriminate H
    | H : (_, _) = (_, _) |- _ => injection H as H
    end; simplify_eq.

(** Programs of several threads: thread [t] goes on to [p].  [f] tells which operation
    each is about to perform. *)
Definition set_pc {PC : Type} (t : nat) (p : PC) (f : nat -> PC) : nat -> PC :=
  fun u => if decide (t = u) then p else f u.

Lemma set_pc_eq {PC} t (p : PC) f : set_pc t p f t = p.
Proof. unfold set_pc. rewrite decide_True by reflexivity. reflexivity. Qed.

Lemma set_pc_ne {PC} t (p : PC) f u : t <> u -> set_pc t p f u = f u.
Proof. intros Hne. unfold set_pc. rewrite decide_False by exact Hne. reflexivity. Qed.

Create HintDb word.

(** * Machine words

    A [w]-bit unsigned value is a [Z] in [0, 2^w); every operation that can
    leave that range is written with its wrap-around. *)

Open Scope Z_scope.

Definition wrap (w z : Z) : Z := z mod 2 ^ w.

(** Two's complement reading of the low [w] bits. *)
Definition swrap (w z : Z) : Z := (z + 2 ^ (w - 1)) mod 2 ^ w - 2 ^ (w - 1).

Declare Scope word_scope.
Delimit Scope word_scope with word.
Notation "'u8' x" := (wrap 8 x) (at level 10, x at level 9) : word_scope.
Notation "'u16' x" := (wrap 16 x) (at level 10, x at level 9) : word_scope.
Notation "'u32' x" := (wrap 32 x) (at level 10, x at level 9) : word_scope.
Notation "'u64' x" := (wrap 64 x) (at level 10, x at level 9) : word_scope.
Notation "'s16' x" := (swrap 16 x) (at level 10, x at level 9) : word_scope.
Open Scope word_scope.

(** [~x] on a 64-bit word. *)
Definition not64 (x : Z) : Z := u64 (Z.lnot x).

Definition is_word (w z : Z) : Prop := 0 <= z < 2 ^ w.

Lemma wrap_small (w z : Z) : 0 <= z < 2 ^ w -> wrap w z = z.
Proof. apply Z.mod_small. Qed.

Lemma wrap_is_word (w z : Z) : 0 <= w -> is_word w (wrap w z).
Proof.
  intros Hw. unfold is_word, wrap. apply Z.mod_pos_bound.
  apply Z.pow_pos_nonneg; lia.
Qed.

Lemma wrap_wrap (w z : Z) : 0 <= w -> wrap w (wrap w z) = wrap w z.
Proof. intros Hw. apply wrap_small, wrap_is_word, Hw. Qed.

Lemma swrap_small (w z : Z) :
  0 < w -> - 2 ^ (w - 1) <= z < 2 ^ (w - 1) -> swrap w z = z.
Proof.
  intros Hw Hz. unfold swrap.
  assert (H2 : 2 ^ w = 2 * 2 ^ (w - 1)).
  { rewrite <- Z.pow_succ_r by lia. f_equal. lia. }
  rewrite Z.mod_small; lia.
Qed.

Lemma wrap_testbit (w z i : Z) :
  0 <= w -> Z.testbit (wrap w z) i = (i <? w) && Z.testbit z i.
Proof.
  intros Hw. unfold wrap. destruct (Z.ltb_spec i w) as [Hi | Hi]; simpl.
  - destruct (Z.leb_spec 0 i) as [H0 | H0].
    + apply Z.mod_pow2_bits_low. lia.
    + rewrite !Z.testbit_neg_r; auto.
  - apply Z.mod_pow2_bits_high. lia.
Qed.

Lemma testbit_high (w v i : Z) :
  0 <= w -> is_word w v -> w <= i -> Z.testbit v i = false.
Proof.
  intros Hw Hv Hi. rewrite <- (wrap_small w v) by exact Hv.
  rewrite wrap_testbit by lia. replace (i <? w) with false by lia. reflexivity.
Qed.

Lemma is_word_land (w a b : Z) : 0 <= w -> is_word w a -> is_word w b -> is_word w (Z.land a b).
Proof.
  intros Hw Ha Hb.
  assert (E : Z.land a b = wrap w (Z.land a b)).
  { apply Z.bits_inj'. intros i Hi. rewrite wrap_testbit by lia.
    destruct (Z.ltb_spec i w); [reflexivity |].
    rewrite Z.land_spec, (testbit_high w a) by auto. reflexivity. }
  rewrite E. apply wrap_is_word, Hw.
Qed.

Lemma is_word_lor (w a b : Z) : 0 <= w -> is_word w a -> is_word w b -> is_word w (Z.lor a b).
Proof.
  intros Hw Ha Hb.
  assert (E : Z.lor a b = wrap w (Z.lor a b)).
  { apply Z.bits_inj'. intros i Hi. rewrite wrap_testbit by lia.
    destruct (Z.ltb_spec i w); [reflexivity |].
    rewrite Z.lor_spec, (testbit_high w a), (testbit_high w b) by auto. reflexivity. }
  rewrite E. apply wrap_is_word, Hw.
Qed.

Lemma not64_testbit (x i : Z) :
  0 <= i -> Z.testbit (not64 x) i = (i <? 64) && negb (Z.testbit x i).
Proof.
  intros Hi. unfold not64. rewrite wrap_testbit by lia.
  rewrite Z.lnot_spec by exact Hi. reflexivity.
Qed.

Lemma is_word_not64 (x : Z) : is_word 64 (not64 x).
Proof. apply wrap_is_word. lia. Qed.

Lemma shiftl1_testbit (k i : Z) :
  0 <= k -> 0 <= i -> Z.testbit (Z.shiftl 1 k) i = (i =? k).
Proof.
  intros Hk Hi. rewrite Z.shiftl_1_l, Z.pow2_bits_eqb by exact Hk. apply Z.eqb_sym.
Qed.

#[export] Hint Resolve wrap_is_word is_word_land is_word_lor is_word_not64 : word.
#[export] Hint Extern 1 (_ <= _) => lia : word.

(** Two non-negative words are equal when their low [w] bits are. *)
Lemma word_bits_eq (w a b : Z) :
  0 <= w -> is_word w a -> is_word w b ->
  (forall i, 0 <= i < w -> Z.testbit a i = Z.testbit b i) -> a = b.
Proof.
  intros Hw Ha Hb H. apply Z.bits_inj'. intros i Hi.
  destruct (Z.ltb_spec i w) as [Hlt | Hge]; [apply H; lia |].
  rewrite (testbit_high w a), (testbit_high w b); auto.
Qed.

(** * Lists *)

(** The integers [a], [a+1], ..., [b-1]. *)
Definition zrange (a b : Z) : list Z :=
  (fun i => a + Z.of_nat i) <$> seq 0 (Z.to_nat (b - a)).

Lemma elem_of_zrange (a b i : Z) : i ∈ zrange a b <-> a <= i < b.
Proof.
  unfold zrange. rewrite list_elem_of_fmap. split.
  - intros (n & -> & Hn). apply elem_of_seq in Hn. lia.
  - intros Hi. exists (Z.to_nat (i - a)). split; [lia |].
    apply elem_of_seq. lia.
Qed.

Lemma NoDup_zrange (a b : Z) : NoDup (zrange a b).
Proof. unfold zrange. apply NoDup_fmap_2; [intros x y E; lia | apply NoDup_seq]. Qed.

Lemma zrange_nil (a b : Z) : b <= a -> zrange a b = [].
Proof. intros H. unfold zrange. replace (Z.to_nat (b - a)) with 0%nat by lia. reflexivity. Qed.

Lemma zrange_cons (a b : Z) : a < b -> zrange a b = a :: zrange (a + 1) b.
Proof.
  intros H. unfold zrange.
  replace (Z.to_nat (b - a)) with (S (Z.to_nat (b - (a + 1)))) by lia.
  simpl. f_equal; [lia |].
  rewrite <- fmap_S_seq, <- list_fmap_compose.
  apply list_fmap_ext. intros i x _. simpl. lia.
Qed.

Lemma zrange_shift (c a b : Z) : zrange (c + a) (c + b) = (fun i => c + i) <$> zrange a b.
Proof.
  unfold zrange. replace (c + b - (c + a)) with (b - a) by lia.
  rewrite <- list_fmap_compose. apply list_fmap_ext. intros i x _. simpl. lia.
Qed.

Lemma zrange_app (a b c : Z) : a <= b <= c -> zrange a b ++ zrange b c = zrange a c.
Proof.
  intros H. remember (Z.to_nat (b - a)) as n eqn:Hn. revert a H Hn.
  induction n as [| n IH]; intros a H Hn.
  - replace a with b by lia. rewrite (zrange_nil b b) by lia. reflexivity.
  - rewrite (zrange_cons a b), (zrange_cons a c) by lia. simpl. f_equal. apply IH; lia.
Qed.

(** [List.filter] keeps boolean tests, which evaluate. *)
Lemma bfilter_fmap {A B} (p : B -> bool) (g : A -> B) (l : list A) :
  List.filter p (g <$> l) = g <$> List.filter (fun x => p (g x)) l.
Proof.
  induction l as [| x l IH]; [reflexivity |].
  rewrite fmap_cons. simpl. destruct (p (g x)); rewrite IH; reflexivity.
Qed.

Lemma bfilter_filter {A} (p q : A -> bool) (l : list A) :
  List.filter p (List.filter q l) = List.filter (fun x => q x && p x) l.
Proof.
  induction l as [| x l IH]; [reflexivity |].
  simpl. destruct (q x) eqn:Eq; simpl; [destruct (p x); rewrite IH |]; auto.
Qed.

Lemma bfilter_zrange_sub (a b lo hi : Z) :
  lo <= a -> a <= b -> b <= hi ->
  List.filter (fun i => (a <=? i) && (i <? b)) (zrange lo hi) = zrange a b.
Proof.
  intros H1 H2 H3.
  rewrite <- (zrange_app lo a hi), <- (zrange_app a b hi), !List.filter_app by lia.
  assert (Hnone : forall x y, (y <= a \/ b <= x) ->
    List.filter (fun i => (a <=? i) && (i <? b)) (zrange x y) = []).
  { intros x y Hxy. destruct (List.filter _ (zrange x y)) as [| i l] eqn:E; [reflexivity |].
    assert (Hin : In i (i :: l)) by (left; reflexivity). rewrite <- E in Hin.
    apply filter_In in Hin as [Hin Hb]. apply list_elem_of_In, elem_of_zrange in Hin. lia. }
  rewrite (Hnone lo a), (Hnone b hi), app_nil_r by lia. simpl. clear Hnone.
  assert (Hall : forall i, In i (zrange a b) -> (a <=? i) && (i <? b) = true).
  { intros i Hi. apply list_elem_of_In, elem_of_zrange in Hi. lia. }
  induction (zrange a b) as [| i l IH]; [reflexivity |]. simpl.
  rewrite Hall by (left; reflexivity). f_equal. apply IH. intros j Hj. apply Hall. right. exact Hj.
Qed.

(** * Sums over finite maps *)

Section MapSum.
Context {A : Type} (f : nat -> A -> nat).

Definition map_sum (m : gmap nat A) : nat := sum_list ((fun p => f (fst p) (snd p)) <$> map_to_list m).

Lemma map_sum_insert_new m i x : m !! i = None -> map_sum (<[i := x]> m) = (f i x + map_sum m)%nat.
Proof.
  intros Hi. unfold map_sum.
  assert (E : map_to_list (<[i := x]> m) ≡ₚ (i, x) :: map_to_list m) by (apply map_to_list_insert, Hi).
  rewrite E. reflexivity.
Qed.

Lemma map_sum_delete m i x : m !! i = Some x -> map_sum m = (f i x + map_sum (delete i m))%nat.
Proof.
  intros Hi. rewrite <- map_sum_insert_new by apply lookup_delete_eq.
  rewrite insert_delete_id by exact Hi. reflexivity.
Qed.

Lemma map_sum_insert m i x y :
  m !! i = Some y -> (map_sum (<[i := x]> m) + f i y = f i x + map_sum m)%nat.
Proof.
  intros Hi. rewrite (map_sum_delete m i y Hi), <- insert_delete_eq.
  rewrite map_sum_insert_new by apply lookup_delete_eq. lia.
Qed.

Lemma map_sum_zero m : (forall i x, m !! i = Some x -> f i x = 0%nat) -> map_sum m = 0%nat.
Proof.
  induction m as [| i x m Hi IH] using map_ind; intros H; [reflexivity |].
  rewrite map_sum_insert_new by exact Hi. rewrite (H i x) by apply lookup_insert_eq.
  rewrite IH; [reflexivity |]. intros j y Hj. apply (H j y).
  rewrite lookup_insert_ne by congruence. exact Hj.
Qed.

Lemma map_sum_le m i x : m !! i = Some x -> (f i x <= map_sum m)%nat.
Proof. intros Hi. rewrite (map_sum_delete m i x Hi). lia. Qed.

Lemma map_sum_mono m : forall m', (forall i x', m' !! i = Some x' -> exists x, m !! i = Some x /\ (f i x' <= f i x)%nat) ->
  (map_sum m' <= map_sum m)%nat.
Proof.
  intros m'. revert m. induction m' as [| i x' m' Hi IH] using map_ind; intros m H.
  - unfold map_sum at 1. rewrite map_to_list_empty. simpl. lia.
  - rewrite map_sum_insert_new by exact Hi. destruct (H i x') as (x & Hx & Hle); [apply lookup_insert_eq |].
    rewrite (map_sum_delete m i x Hx). apply Nat.add_le_mono; [exact Hle |]. apply IH.
    intros j y Hj. assert (Hne : i <> j) by congruence.
    destruct (H j y) as (z & Hz & Hlz); [rewrite lookup_insert_ne by exact Hne; exact Hj |].
    exists z. rewrite lookup_delete_ne by exact Hne. auto.
Qed.
End MapSum.

(** * Reachability and invariants of step relations *)

Section Reachability.
Context {State : Type} (init : State -> Prop) (step : State -> State -> Prop).

Definition reachable (s : State) : Prop := exists s0, init s0 /\ rtc step s0 s.

Lemma reachable_init (s : State) : init s -> reachable s.
Proof. intros H. exists s. split; [exact H | apply rtc_refl]. Qed.

Lemma reachable_step (s s' : State) : reachable s -> step s s' -> reachable s'.
Proof.
  intros (s0 & Hi & Hr) Hs. exists s0. split; [exact Hi |].
  eapply rtc_r; eauto.
Qed.

(** The invariant rule. *)
Lemma reachable_invariant (I : State -> Prop) :
  (forall s, init s -> I s) ->
  (forall s s', I s -> step s s' -> I s') ->
  forall s, reachable s -> I s.
Proof.
  intros Hinit Hstep s (s0 & Hi & Hr).
  assert (I s0) as H0 by auto. clear Hi.
  induction Hr as [s | s1 s2 s3 H12 H23 IH]; eauto.
Qed.
End Reachability.
