(* ===== verification/Bitfield.v ===== *)
(** The lock-free bit array [AtomicBitfield] of [redGrapes/util/bitfield.hpp]:
    one bit per worker, kept in 64-bit words.  [set] and [get] are the atomic
    operations, [probe_by_value] the search the worker pool uses to find a free
    or a busy worker.  The search is generic in the callback it calls on every
    candidate, which may change the world it runs in. *)

From Stdlib Require Import ZArith Lia Bool.
From stdpp Require Import base list strings pretty.
From S2P Require Import Prelude.

Open Scope Z_scope.
Open Scope word_scope.

Module Bitfield.

Definition bitfield_len : Z := 64.

Record AtomicBitfield : Type := mkBitfield { m_size : Z; state : list Z }.

(** [ceil( a / b )] on 64-bit operands *)
Definition ceil_div (a b : Z) : Z := u64 (u64 (a + b) - 1) / b.

(** The vector is value-initialised: every word starts at zero. *)
Definition make (n : Z) : AtomicBitfield :=
  mkBitfield n (replicate (Z.to_nat (ceil_div n bitfield_len)) 0).

Definition size (bf : AtomicBitfield) : Z := m_size bf.

(** The macro [__INDEX_CALC]: word, bit and mask of index [i]. *)
Definition index_calc (i : Z) : Z * Z * Z :=
  let j := i / bitfield_len in
  let k := i mod bitfield_len in
  (j, k, u64 (Z.shiftl 1 k)).

(** Indexing the vector out of range is undefined behaviour. *)
Definition word_at (st : list Z) (j : Z) : res Z := deref (st !! Z.to_nat j).

Definition store_word (bf : AtomicBitfield) (j w : Z) : AtomicBitfield :=
  mkBitfield (m_size bf) (<[Z.to_nat j := w]> (state bf)).

(** Returns the previous value of the bit and the new bit field. *)
Definition set (idx : Z) (new_value : bool) (bf : AtomicBitfield) : res (bool * AtomicBitfield) :=
  let '(chunk_idx, _, mask) := index_calc idx in
  old_val ← word_at (state bf) chunk_idx;
  let new_val := if new_value then Z.lor old_val mask else Z.land old_val (not64 mask) in
  Ok (negb (Z.land old_val mask =? 0), store_word bf chunk_idx new_val).

Definition get (idx : Z) (bf : AtomicBitfield) : res bool :=
  let '(chunk_idx, _, mask) := index_calc idx in
  w ← word_at (state bf) chunk_idx;
  Ok (negb (Z.land w mask =? 0)).

(** One line [if(v & m) c -= d;] of the bit hack. *)
Definition hack_step (v m d c : Z) : Z := if Z.land v m =? 0 then c else c - d.

(** Index of the first set bit ([64] when there is none). *)
Definition first_one_idx (v0 : Z) : Z :=
  let v := Z.land v0 (u64 (- v0)) in
  let c := 64 in
  let c := if v =? 0 then c else c - 1 in
  let c := hack_step v 0x00000000FFFFFFFF 32 c in
  let c := hack_step v 0x0000FFFF0000FFFF 16 c in
  let c := hack_step v 0x00FF00FF00FF00FF 8 c in
  let c := hack_step v 0x0F0F0F0F0F0F0F0F 4 c in
  let c := hack_step v 0x3333333333333333 2 c in
  hack_step v 0x5555555555555555 1 c.

Definition all_ones : Z := 0xFFFFFFFFFFFFFFFF.

(** [(uint64_t(1) << n) - 1] *)
Definition low_mask (n : Z) : Z := u64 (u64 (Z.shiftl 1 n) - 1).

(** [if(auto x = m) return x;] followed by [k]. *)
Definition or_else {S T} (m : res (option T * S)) (k : S -> res (option T * S))
    : res (option T * S) :=
  '(x, s) ← m;
  match x with Some x => Ok (Some x, s) | None => k s end.

Section Probe.
(** [S] is the state the callback [f] works on; the words of the bit field are
    re-read from it at every step, as the code does. *)
Context {S T : Type}.
Variable bits : S -> list Z.
Variable f : Z -> S -> res (option T * S).

(** The loop of [probe_chunk_by_value]. *)
Fixpoint probe_chunk_by_value (fuel : nat) (j mask : Z) (expected_value : bool) (s : S)
    : res (option T * S) :=
  match fuel with
  | O => Err OutOfFuel
  | Datatypes.S fuel =>
      w ← word_at (bits s) j;
      let field := if expected_value then w else not64 w in
      let masked_field := Z.land field mask in
      if masked_field =? 0 then Ok (None, s)
      else
        let k := first_one_idx masked_field in
        if k <? bitfield_len then
          or_else (f (u32 (j * bitfield_len + k)) s)
            (probe_chunk_by_value fuel j (Z.land mask (not64 (u64 (Z.shiftl 1 k))))
               expected_value)
        else probe_chunk_by_value fuel j mask expected_value s
  end.

(** Every candidate clears one of 64 mask bits, so 65 rounds are enough. *)
Definition chunk_fuel : nat := 65.

(** The third loop of [probe_by_value], over the remaining chunks. *)
Fixpoint probe_remaining (bs : list Z) (start_field_idx n last_chunk_bits : Z)
    (expected_value : bool) (s : S) : res (option T * S) :=
  match bs with
  | [] => Ok (None, s)
  | b :: bs =>
      let field_idx := u64 (start_field_idx + b) mod n in
      let mask :=
        if (field_idx =? u64 (n - 1)) && negb (last_chunk_bits =? 0)
        then Z.land all_ones (low_mask last_chunk_bits) else all_ones in
      or_else (probe_chunk_by_value chunk_fuel field_idx mask expected_value s)
        (probe_remaining bs start_field_idx n last_chunk_bits expected_value)
  end.

Definition probe_by_value (sz : Z) (expected_value : bool) (start_idx : Z)
    (exclude_start : bool) (s : S) : res (option T * S) :=
  if sz <=? start_idx then Ok (None, s)
  else
    let n := Z.of_nat (length (bits s)) in
    let start_field_idx := start_idx / bitfield_len in
    let first_mask := u64 (Z.shiftl all_ones (start_idx mod bitfield_len)) in
    let second_mask := not64 first_mask in
    let last_chunk_bits := sz mod bitfield_len in
    let last := (start_field_idx =? u64 (n - 1)) && negb (last_chunk_bits =? 0) in
    let second_mask :=
      if last then Z.land second_mask (low_mask last_chunk_bits) else second_mask in
    let second_mask :=
      if exclude_start
      then Z.land second_mask (not64 (u64 (Z.shiftl 1 (start_idx mod bitfield_len))))
      else second_mask in
    or_else (probe_chunk_by_value chunk_fuel start_field_idx second_mask expected_value s)
      (fun s =>
        let first_mask :=
          if last then Z.land first_mask (low_mask last_chunk_bits) else first_mask in
        or_else (probe_chunk_by_value chunk_fuel start_field_idx first_mask expected_value s)
          (probe_remaining (zrange 1 (ceil_div sz bitfield_len)) start_field_idx n
             last_chunk_bits expected_value)).

(** ** Reference definition of the search *)

(** Calls [f] on the indices of [l] in order, up to the first success. *)
Fixpoint find_first (l : list Z) (s : S) : res (option T * S) :=
  match l with
  | [] => Ok (None, s)
  | i :: l => or_else (f i s) (find_first l)
  end.

End Probe.

(** The bit at index [i] of a list of words. *)
Definition bit_at (st : list Z) (i : Z) : bool :=
  Z.testbit (default 0 (st !! Z.to_nat (i / bitfield_len))) (i mod bitfield_len).

Definition bit_is (st : list Z) (expected : bool) (i : Z) : bool := eqb (bit_at st i) expected.

(** The indices of word [j] of a field of [sz] bits. *)
Definition chunk_indices (sz j : Z) : list Z :=
  zrange (bitfield_len * j) (Z.min (bitfield_len * (j + 1)) sz).

(** The order in which the search visits the indices: the word of the start
    index from its first bit up to the start, then from the start to the end of
    that word, then the following words cyclically. *)
Definition probe_order (sz start : Z) : list Z :=
  let n := ceil_div sz bitfield_len in
  let c := start / bitfield_len in
  zrange (bitfield_len * c) start
  ++ zrange start (Z.min (bitfield_len * (c + 1)) sz)
  ++ concat ((fun b => chunk_indices sz ((c + b) mod n)) <$> zrange 1 n).

Record wf (bf : AtomicBitfield) : Prop := {
  wf_size : 0 <= m_size bf <= 2 ^ 32;
  wf_length : Z.of_nat (length (state bf)) = ceil_div (m_size bf) bitfield_len;
  wf_words : Forall (is_word 64) (state bf)
}.

(** [print]: the words in hexadecimal, padded to 16 digits. *)
Fixpoint hex_digits (fuel : nat) (z : Z) : string :=
  match fuel with
  | O => EmptyString
  | Datatypes.S fuel =>
      String.append (hex_digits fuel (z / 16))
        (match String.get (Z.to_nat (z mod 16)) "0123456789abcdef" with
         | Some c => String c EmptyString
         | None => EmptyString
         end)
  end.

Definition extract_state (bf : AtomicBitfield) : list Z := (fun w => w) <$> state bf.

Fixpoint print_words (first : bool) (ws : list Z) : string :=
  match ws with
  | [] => ""
  | w :: ws =>
      String.append (if first then "" else ", ")
        (String.append "0x" (String.append (hex_digits 16 w) (print_words false ws)))
  end.

Definition print (id : Z) (bf : AtomicBitfield) : string :=
  String.append "AtomicBitfield(size="
    (String.append (pretty (m_size bf))
      (String.append ", Calling WorkerId="
        (String.append (pretty id)
          (String.append ", state=["
            (String.append (print_words true (extract_state bf)) "])"))))).

Example print_example :
  print 3 (mkBitfield 7 [255])
  = "AtomicBitfield(size=7, Calling WorkerId=3, state=[0x00000000000000ff])"%string.
Proof. reflexivity. Qed.

(** ** The bit hack *)

Definition bit_tail (v : Z) : Z :=
  let c := if v =? 0 then 64 else 64 - 1 in
  let c := hack_step v 0x00000000FFFFFFFF 32 c in
  let c := hack_step v 0x0000FFFF0000FFFF 16 c in
  let c := hack_step v 0x00FF00FF00FF00FF 8 c in
  let c := hack_step v 0x0F0F0F0F0F0F0F0F 4 c in
  let c := hack_step v 0x3333333333333333 2 c in
  hack_step v 0x5555555555555555 1 c.

Lemma bit_tail_pow2 (k : Z) : 0 <= k < 64 -> bit_tail (2 ^ k) = k.
Proof.
  intros Hk.
  assert (H : forallb (fun k => bit_tail (2 ^ k) =? k) (zrange 0 64) = true)
    by (vm_compute; reflexivity).
  rewrite forallb_forall in H.
  apply Z.eqb_eq, H, list_elem_of_In, elem_of_zrange. exact Hk.
Qed.

(** Isolating the lowest set bit. *)
Lemma isolate_lowest (v k : Z) :
  is_word 64 v -> 0 <= k -> Z.testbit v k = true ->
  (forall i, 0 <= i < k -> Z.testbit v i = false) ->
  Z.land v (u64 (- v)) = 2 ^ k.
Proof.
  intros Hv Hk Hbit Hlow.
  assert (Hk64 : k < 64).
  { destruct (Z.ltb_spec k 64) as [|Hge]; [assumption |].
    rewrite (testbit_high 64 v) in Hbit by (auto; lia). discriminate. }
  assert (Hdiv : v = 2 ^ k * (2 * (v / 2 ^ (k + 1)) + 1)).
  { rewrite (Z.div_mod v (2 ^ k)) at 1 by (apply Z.pow_nonzero; lia).
    replace (v mod 2 ^ k) with 0.
    2: { symmetry. apply Z.bits_inj'. intros i Hi. rewrite Z.bits_0.
         destruct (Z.ltb_spec i k).
         - rewrite Z.mod_pow2_bits_low by lia. apply Hlow. lia.
         - apply Z.mod_pow2_bits_high. lia. }
    rewrite Z.add_0_r. f_equal.
    rewrite Z.pow_add_r, <- Z.div_div by (try apply Z.pow_nonzero; lia).
    change (2 ^ 1) with 2.
    rewrite (Z.div_mod (v / 2 ^ k) 2) at 1 by lia. f_equal.
    rewrite <- Z.bit0_mod, Z.div_pow2_bits, Z.add_0_l, Hbit by lia. reflexivity. }
  set (m := v / 2 ^ (k + 1)) in *.
  apply Z.bits_inj'. intros i Hi.
  rewrite Z.land_spec, wrap_testbit by lia.
  rewrite Z.pow2_bits_eqb by lia.
  assert (Hneg : - v = 2 ^ k * (2 * Z.lnot m + 1)).
  { rewrite Hdiv. unfold Z.lnot. lia. }
  destruct (Z.ltb_spec i k) as [Hik | Hik].
  { rewrite Hlow by lia. replace (k =? i) with false by lia. reflexivity. }
  rewrite Hneg. rewrite Hdiv at 1. rewrite !(Z.mul_comm (2 ^ k)).
  rewrite !Z.mul_pow2_bits by lia.
  destruct (Z.eqb_spec k i) as [<- | Hne].
  - rewrite Z.sub_diag, !Z.testbit_odd_0.
    replace (k <? 64) with true by lia. reflexivity.
  - replace (i - k) with (Z.succ (i - k - 1)) by lia.
    rewrite !Z.testbit_odd_succ, Z.lnot_spec by lia.
    destruct (Z.testbit m _), (i <? 64); reflexivity.
Qed.

Lemma first_one_idx_lowest (v k : Z) :
  is_word 64 v -> 0 <= k -> Z.testbit v k = true ->
  (forall i, 0 <= i < k -> Z.testbit v i = false) ->
  first_one_idx v = k.
Proof.
  intros Hv Hk Hbit Hlow.
  assert (Hk64 : k < 64).
  { destruct (Z.ltb_spec k 64) as [|Hge]; [assumption |].
    rewrite (testbit_high 64 v) in Hbit by (auto; lia). discriminate. }
  unfold first_one_idx. rewrite (isolate_lowest v k) by assumption.
  apply bit_tail_pow2. lia.
Qed.

(** Every non-zero word has a lowest set bit. *)
Lemma lowest_bit_exists (v : Z) :
  is_word 64 v -> v <> 0 ->
  exists k, 0 <= k < 64 /\ Z.testbit v k = true /\
    (forall i, 0 <= i < k -> Z.testbit v i = false).
Proof.
  intros Hv Hnz.
  assert (Hex : exists n : nat, Z.testbit v (Z.of_nat n) = true).
  { exists (Z.to_nat (Z.log2 v)). unfold is_word in Hv.
    rewrite Z2Nat.id by apply Z.log2_nonneg. apply Z.bit_log2. lia. }
  destruct Hex as [n Hn].
  induction n as [n IH] using lt_wf_ind.
  destruct (decide (Exists (fun i => Z.testbit v i = true) (zrange 0 (Z.of_nat n))))
    as [He | Hne].
  - apply Exists_exists in He as (i & Hi & Hb). apply elem_of_zrange in Hi.
    apply (IH (Z.to_nat i)); [lia |]. rewrite Z2Nat.id by lia. exact Hb.
  - exists (Z.of_nat n). split; [| split].
    + split; [lia |]. destruct (Z.ltb_spec (Z.of_nat n) 64) as [|Hge]; [assumption |].
      rewrite (testbit_high 64 v) in Hn by (auto; lia). discriminate.
    + exact Hn.
    + intros i Hi. destruct (Z.testbit v i) eqn:E; [| reflexivity].
      exfalso. apply Hne, Exists_exists. exists i.
      split; [apply elem_of_zrange; lia | exact E].
Qed.

(** ** The search agrees with its reference definition *)

Lemma or_else_None {S T} (m : res (option T * S)) (k : S -> res (option T * S)) (s : S) :
  or_else m k = Ok (None, s) -> exists s1, m = Ok (None, s1) /\ k s1 = Ok (None, s).
Proof.
  unfold or_else. intros H. apply bind_Ok in H as ([x s1] & H1 & H).
  destruct x; [discriminate | eauto].
Qed.

Lemma or_else_congr {S T} (m1 m2 : res (option T * S)) (k1 k2 : S -> res (option T * S)) :
  m1 = m2 -> (forall s, m2 = Ok (None, s) -> k1 s = k2 s) -> or_else m1 k1 = or_else m2 k2.
Proof.
  intros -> H. unfold or_else. destruct m2 as [[[x |] s] | e]; simpl; auto.
Qed.

Lemma or_else_assoc {S T} (m : res (option T * S)) (k1 k2 : S -> res (option T * S)) :
  or_else (or_else m k1) k2 = or_else m (fun s => or_else (k1 s) k2).
Proof. destruct m as [[[x |] s] | e]; reflexivity. Qed.

Lemma find_first_app {S T} (f : Z -> S -> res (option T * S)) (l1 l2 : list Z) (s : S) :
  find_first f (l1 ++ l2) s = or_else (find_first f l1 s) (find_first f l2).
Proof.
  revert s. induction l1 as [| i l1 IH]; intros s; [reflexivity |].
  cbn [find_first app]. rewrite or_else_assoc. apply or_else_congr; auto.
Qed.

Lemma find_first_frame {S T B} (good : B -> Prop) (g : S -> B) (f : Z -> S -> res (option T * S)) :
  (forall i s s', good (g s) -> f i s = Ok (None, s') -> g s' = g s) ->
  forall l s s', good (g s) -> find_first f l s = Ok (None, s') -> g s' = g s.
Proof.
  intros Hf l. induction l as [| i l IH]; intros s s' Hg H.
  - injection H as ->. reflexivity.
  - apply or_else_None in H as (s1 & H1 & H). pose proof (Hf _ _ _ Hg H1) as E.
    rewrite <- E. apply IH; [rewrite E; exact Hg | exact H].
Qed.

Lemma filter_zrange_least (p : Z -> bool) (a b k : Z) :
  a <= k < b -> p k = true -> (forall i, a <= i < k -> p i = false) ->
  List.filter p (zrange a b) = k :: List.filter p (zrange (k + 1) b).
Proof.
  intros Hk Hpk Hlow.
  remember (Z.to_nat (k - a)) as n eqn:Hn. revert a Hk Hlow Hn.
  induction n as [| n IH]; intros a Hk Hlow Hn.
  - replace a with k by lia. rewrite (zrange_cons k) by lia. simpl. rewrite Hpk. reflexivity.
  - rewrite zrange_cons by lia. simpl. rewrite Hlow by lia.
    apply IH; try lia. intros i Hi. apply Hlow. lia.
Qed.

Lemma filter_zrange_none (p : Z -> bool) (a b : Z) :
  (forall i, a <= i < b -> p i = false) -> List.filter p (zrange a b) = [].
Proof.
  intros H. destruct (List.filter p (zrange a b)) as [| i l] eqn:E; [reflexivity |].
  assert (Hin : In i (List.filter p (zrange a b))) by (rewrite E; left; reflexivity).
  apply filter_In in Hin as [Hin Hp].
  apply list_elem_of_In, elem_of_zrange in Hin. rewrite H in Hp by lia. discriminate.
Qed.

Lemma filter_zrange_ext (p q : Z -> bool) (a b : Z) :
  (forall i, a <= i < b -> p i = q i) ->
  List.filter p (zrange a b) = List.filter q (zrange a b).
Proof.
  intros H. apply filter_ext_in. intros i Hi.
  apply H, elem_of_zrange, list_elem_of_In, Hi.
Qed.

(** The candidates of one probe of word [j] with mask [m]. *)
Definition candidates (w m : Z) (e : bool) : list Z :=
  List.filter (fun k => Z.testbit m k && eqb (Z.testbit w k) e) (zrange 0 64).

Lemma candidates_length (w m : Z) (e : bool) : (length (candidates w m e) <= 64)%nat.
Proof.
  unfold candidates. etransitivity; [apply filter_length_le |].
  reflexivity.
Qed.

Lemma field_testbit (w : Z) (e : bool) (i : Z) :
  0 <= i < 64 -> Z.testbit (if e then w else not64 w) i = eqb (Z.testbit w i) e.
Proof.
  intros Hi. destruct e.
  - destruct (Z.testbit w i); reflexivity.
  - rewrite not64_testbit by lia. replace (i <? 64) with true by lia.
    destruct (Z.testbit w i); reflexivity.
Qed.

Lemma candidates_step (w m : Z) (e : bool) :
  is_word 64 w -> is_word 64 m ->
  let masked := Z.land (if e then w else not64 w) m in
  (masked = 0 /\ candidates w m e = []) \/
  (masked <> 0 /\ exists k, first_one_idx masked = k /\ 0 <= k < 64 /\
   is_word 64 (Z.land m (not64 (u64 (Z.shiftl 1 k)))) /\
   candidates w m e = k :: candidates w (Z.land m (not64 (u64 (Z.shiftl 1 k)))) e).
Proof.
  intros Hw Hm masked.
  assert (Hmw : is_word 64 masked).
  { apply is_word_land; [lia | | assumption]. destruct e; auto with word. }
  assert (Hbits : forall i, 0 <= i < 64 ->
            Z.testbit masked i = Z.testbit m i && eqb (Z.testbit w i) e).
  { intros i Hi. unfold masked. rewrite Z.land_spec, field_testbit by lia. apply andb_comm. }
  destruct (decide (masked = 0)) as [H0 | Hnz]; [left | right].
  { split; [assumption |]. apply filter_zrange_none. intros i Hi.
    rewrite <- Hbits, H0 by lia. apply Z.bits_0. }
  destruct (lowest_bit_exists masked Hmw Hnz) as (k & Hk & Hbk & Hlow).
  assert (Hsh : u64 (Z.shiftl 1 k) = Z.shiftl 1 k).
  { apply wrap_small. rewrite Z.shiftl_1_l. split; [lia |].
    apply Z.pow_lt_mono_r; lia. }
  split; [assumption |]. exists k.
  split; [apply first_one_idx_lowest; assumption || lia |].
  split; [lia |]. split; [apply is_word_land; auto with word lia |].
  unfold candidates.
  rewrite (filter_zrange_least _ 0 64 k); [| lia | rewrite <- Hbits by lia; assumption |].
  2: { intros i Hi. rewrite <- Hbits by lia. apply Hlow. lia. }
  f_equal. rewrite Hsh.
  assert (Hclr : forall i, 0 <= i < 64 ->
     Z.testbit (Z.land m (not64 (Z.shiftl 1 k))) i = Z.testbit m i && negb (i =? k)).
  { intros i Hi. rewrite Z.land_spec, not64_testbit, shiftl1_testbit by lia.
    replace (i <? 64) with true by lia. reflexivity. }
  set (q := fun i => Z.testbit (Z.land m _) i && _).
  assert (Hq : List.filter q (zrange 0 64) = List.filter q (zrange (k + 1) 64)).
  { assert (Hsplit : forall n : nat, Z.of_nat n <= k + 1 ->
       List.filter q (zrange 0 64) = List.filter q (zrange (Z.of_nat n) 64)).
    { induction n as [| n IH]; intros Hn; [reflexivity |].
      rewrite IH by lia. rewrite (zrange_cons (Z.of_nat n)) by lia. simpl.
      assert (q (Z.of_nat n) = false) as ->.
      { unfold q. rewrite Hclr by lia.
        destruct (Z.eqb_spec (Z.of_nat n) k) as [-> |]; [rewrite andb_false_r; reflexivity |].
        rewrite andb_true_r, <- Hbits by lia. apply Hlow. lia. }
      replace (Z.of_nat n + 1) with (Z.of_nat (Datatypes.S n)) by lia. reflexivity. }
    rewrite (Hsplit (Z.to_nat (k + 1))) by lia. rewrite Z2Nat.id by lia. reflexivity. }
  rewrite Hq. apply filter_zrange_ext. intros i Hi. unfold q. rewrite Hclr by lia.
  replace (i =? k) with false by lia. rewrite andb_true_r. reflexivity.
Qed.

#[local] Arguments first_one_idx : simpl never.
#[local] Arguments not64 : simpl never.
#[local] Arguments wrap : simpl never.
#[local] Arguments Z.land : simpl never.
#[local] Arguments Z.shiftl : simpl never.
#[local] Arguments Z.mul : simpl never.
#[local] Arguments Z.add : simpl never.
#[local] Opaque candidates first_one_idx wrap not64 Z.land Z.shiftl.

Section ProbeSpec.
Context {S T : Type}.
Variable bits : S -> list Z.
Variable f : Z -> S -> res (option T * S).
(** A callback that rejects a candidate leaves the bits of a good state alone. *)
Variable good : S -> Prop.
Hypothesis f_frame : forall i s s', good s -> f i s = Ok (None, s') -> bits s' = bits s /\ good s'.

(** The chunk loop visits the candidates in ascending order. *)
Lemma probe_chunk_candidates (fuel : nat) (j m w : Z) (e : bool) (s : S) :
  good s -> bits s !! Z.to_nat j = Some w -> is_word 64 w -> is_word 64 m ->
  (length (candidates w m e) < fuel)%nat ->
  probe_chunk_by_value bits f fuel j m e s
  = find_first f ((fun k => u32 (j * bitfield_len + k)) <$> candidates w m e) s.
Proof using f_frame.
  revert m s. induction fuel as [| fuel IH]; intros m s Hg Hj Hw Hm Hf; [lia |].
  cbn [probe_chunk_by_value]. unfold word_at. rewrite Hj.
  cbn [deref mbind res_bind].
  destruct (candidates_step w m e Hw Hm) as [[H0 Hc] | (Hnz & k & Hfk & Hk & Hm' & Hc)].
  { rewrite H0, Hc. reflexivity. }
  apply Z.eqb_neq in Hnz. rewrite Hnz, Hfk. clear Hnz Hfk.
  assert ((k <? bitfield_len) = true) as -> by (apply Z.ltb_lt; apply Hk).
  rewrite Hc, fmap_cons. cbn [find_first].
  apply or_else_congr; [reflexivity |]. intros s' Hfs.
  destruct (f_frame _ _ _ Hg Hfs) as [Eb Hg']. apply IH; auto.
  - rewrite Eb. exact Hj.
  - rewrite Hc in Hf. cbn [length] in Hf. lia.
Qed.

#[local] Transparent candidates wrap.

(** A mask with bits [a .. b) probes the indices [64 j + a .. 64 j + b). *)
Lemma probe_chunk_range (j m a b : Z) (e : bool) (s : S) :
  good s -> Forall (is_word 64) (bits s) -> is_word 64 m ->
  0 <= j < Z.of_nat (length (bits s)) -> 64 * (j + 1) <= 2 ^ 32 ->
  0 <= a <= b -> b <= 64 ->
  (forall i, 0 <= i < 64 -> Z.testbit m i = (a <=? i) && (i <? b)) ->
  probe_chunk_by_value bits f chunk_fuel j m e s
  = find_first f (List.filter (bit_is (bits s) e) (zrange (64 * j + a) (64 * j + b))) s.
Proof using f_frame.
  intros Hg Hws Hm Hj Hj32 Ha Hb Hbits.
  destruct (lookup_lt_is_Some_2 (bits s) (Z.to_nat j)) as [w Hw]; [lia |].
  assert (Hww : is_word 64 w) by (eapply Forall_lookup_1; eauto).
  rewrite (probe_chunk_candidates chunk_fuel j m w e s Hg Hw Hww Hm).
  2: { pose proof (candidates_length w m e). unfold chunk_fuel. lia. }
  f_equal. rewrite zrange_shift, bfilter_fmap.
  assert (E : candidates w m e
    = List.filter (fun k => bit_is (bits s) e (64 * j + k)) (zrange a b)).
  { rewrite <- (bfilter_zrange_sub a b 0 64), bfilter_filter by lia.
    unfold candidates.
    apply filter_zrange_ext. intros k Hk. rewrite Hbits by lia. f_equal.
    unfold bit_is, bit_at, bitfield_len.
    rewrite Z.mul_comm, Z.div_add_l, Z.div_small, Z.add_0_r by lia.
    rewrite Z.add_comm, Z.mod_add, Z.mod_small by lia. rewrite Hw. reflexivity. }
  rewrite E. apply list_fmap_ext. intros i k Hk.
  apply list_elem_of_lookup_2, list_elem_of_In, filter_In in Hk as [Hk _].
  apply list_elem_of_In, elem_of_zrange in Hk.
  unfold bitfield_len. rewrite Z.mul_comm. apply wrap_small. lia.
Qed.
End ProbeSpec.

Lemma all_ones_testbit (i : Z) : 0 <= i -> Z.testbit all_ones i = (i <? 64).
Proof.
  intros Hi. change all_ones with (Z.ones 64). rewrite Z.testbit_ones by lia.
  replace (0 <=? i) with true by lia. reflexivity.
Qed.

Lemma is_word_all_ones : is_word 64 all_ones.
Proof. unfold is_word, all_ones. lia. Qed.

Lemma low_mask_testbit (n i : Z) :
  0 <= n < 64 -> 0 <= i -> Z.testbit (low_mask n) i = (i <? n).
Proof.
  intros Hn Hi. unfold low_mask.
  assert (H1 : 0 < 2 ^ n) by (apply Z.pow_pos_nonneg; lia).
  assert (H2 : 2 ^ n < 2 ^ 64) by (apply Z.pow_lt_mono_r; lia).
  rewrite (wrap_small 64 (Z.shiftl 1 n)) by (rewrite Z.shiftl_1_l; lia).
  rewrite wrap_small by (rewrite Z.shiftl_1_l; lia).
  replace (Z.shiftl 1 n - 1) with (Z.ones n) by (rewrite Z.ones_equiv, Z.shiftl_1_l; lia).
  rewrite Z.testbit_ones by lia. replace (0 <=? i) with true by lia. reflexivity.
Qed.

Lemma first_mask_testbit (r i : Z) :
  0 <= r < 64 -> 0 <= i < 64 ->
  Z.testbit (u64 (Z.shiftl all_ones r)) i = (r <=? i).
Proof.
  intros Hr Hi. rewrite wrap_testbit, Z.shiftl_spec by lia.
  replace (i <? 64) with true by lia. simpl.
  destruct (Z.leb_spec r i).
  - rewrite all_ones_testbit by lia. lia.
  - apply Z.testbit_neg_r. lia.
Qed.

Lemma is_word_low_mask (n : Z) : is_word 64 (low_mask n).
Proof. apply wrap_is_word. lia. Qed.

#[local] Hint Resolve is_word_all_ones is_word_low_mask : word.

Lemma ceil_div_eq (n : Z) : 0 <= n <= 2 ^ 32 -> ceil_div n bitfield_len = (n + 63) / 64.
Proof.
  intros Hn. unfold ceil_div, bitfield_len.
  rewrite (wrap_small 64 (n + 64)), wrap_small by lia. f_equal. lia.
Qed.

Lemma wf_index (bf : AtomicBitfield) (i : Z) :
  wf bf -> 0 <= i < m_size bf -> 0 <= i / 64 < Z.of_nat (length (state bf)).
Proof.
  intros [Hs Hl _] Hi. rewrite Hl, ceil_div_eq by lia.
  pose proof (Z.div_mod i 64 ltac:(lia)). pose proof (Z.mod_pos_bound i 64 ltac:(lia)).
  pose proof (Z.div_mod (m_size bf + 63) 64 ltac:(lia)).
  pose proof (Z.mod_pos_bound (m_size bf + 63) 64 ltac:(lia)). lia.
Qed.

Lemma shiftl1_wrapped_testbit (r i : Z) :
  0 <= r < 64 -> 0 <= i < 64 -> Z.testbit (u64 (Z.shiftl 1 r)) i = (i =? r).
Proof.
  intros Hr Hi. rewrite wrap_testbit, shiftl1_testbit by lia.
  replace (i <? 64) with true by lia. reflexivity.
Qed.

(** Discharges the side conditions of the probes: words, ranges, mask bits. *)
Ltac mask_bits :=
  intros i Hi;
  repeat first
    [ rewrite Z.land_spec | rewrite not64_testbit by lia
    | rewrite shiftl1_wrapped_testbit by lia
    | rewrite low_mask_testbit by lia | rewrite first_mask_testbit by lia
    | rewrite all_ones_testbit by lia ]; lia.

Ltac probe_side :=
  first
    [ assumption | congruence | lia
    | repeat apply is_word_land; solve [auto with word | lia]
    | mask_bits ].

Section ProbeByValue.
Context {S T : Type}.
Variable bf_of : S -> AtomicBitfield.
Variable f : Z -> S -> res (option T * S).
Hypothesis f_frame : forall i s s', wf (bf_of s) -> f i s = Ok (None, s') -> bf_of s' = bf_of s.

Let good (s : S) : Prop := wf (bf_of s).
Let bits (s : S) : list Z := state (bf_of s).

Lemma bits_frame : forall i s s', good s -> f i s = Ok (None, s') -> bits s' = bits s /\ good s'.
Proof using f_frame.
  intros i s s' Hg H. pose proof (f_frame _ _ _ Hg H) as E. unfold bits, good. rewrite E. split; [reflexivity | exact Hg].
Qed.

(** Probing word [j] completely, the last word only up to the size. *)
Lemma probe_whole_chunk (j n sz : Z) (e : bool) (s : S) :
  wf (bf_of s) -> sz = m_size (bf_of s) -> n = Z.of_nat (length (bits s)) -> 0 <= j < n ->
  probe_chunk_by_value bits f chunk_fuel j
    (if (j =? u64 (n - 1)) && negb (sz mod bitfield_len =? 0)
     then Z.land all_ones (low_mask (sz mod bitfield_len)) else all_ones) e s
  = find_first f (List.filter (bit_is (bits s) e) (chunk_indices sz j)) s.
Proof using f_frame.
  intros Hwf -> -> Hj. pose proof Hwf as [Hs Hl Hws]. fold (bits s) in Hl, Hws.
  set (sz := m_size (bf_of s)) in *. set (n := Z.of_nat (length (bits s))) in *.
  rewrite ceil_div_eq in Hl by lia. unfold bitfield_len.
  pose proof (Z.div_mod (sz + 63) 64 ltac:(lia)) as Hd.
  pose proof (Z.mod_pos_bound (sz + 63) 64 ltac:(lia)) as Hr.
  pose proof (Z.div_mod sz 64 ltac:(lia)) as Hd'.
  pose proof (Z.mod_pos_bound sz 64 ltac:(lia)) as Hr'.
  rewrite (wrap_small 64 (n - 1)) by lia.
  unfold chunk_indices, bitfield_len.
  destruct ((j =? n - 1) && negb (sz mod 64 =? 0)) eqn:Elast.
  - rewrite (probe_chunk_range bits f good bits_frame j _ 0 (sz mod 64)) by probe_side.
    do 3 f_equal; lia.
  - rewrite (probe_chunk_range bits f good bits_frame j _ 0 64) by probe_side.
    do 3 f_equal; lia.
Qed.

Lemma probe_remaining_spec (bs : list Z) (c n sz : Z) (e : bool) (s : S) :
  wf (bf_of s) -> sz = m_size (bf_of s) -> n = Z.of_nat (length (bits s)) ->
  0 <= c < n -> (forall b, b ∈ bs -> 0 <= b < n) ->
  probe_remaining bits f bs c n (sz mod bitfield_len) e s
  = find_first f (List.filter (bit_is (bits s) e)
      (concat ((fun b => chunk_indices sz ((c + b) mod n)) <$> bs))) s.
Proof using f_frame.
  revert s. induction bs as [| b bs IH]; intros s Hwf Hsz Hn Hc Hbs; [reflexivity |].
  rewrite fmap_cons. cbn [probe_remaining concat].
  rewrite List.filter_app, find_first_app.
  assert (Hb : 0 <= b < n) by (apply Hbs; left).
  pose proof (wf_size _ Hwf). pose proof (wf_length _ Hwf) as Hl.
  rewrite ceil_div_eq in Hl by lia. fold (bits s) in Hl. rewrite <- Hn in Hl.
  rewrite (wrap_small 64 (c + b)) by (pose proof (Z.div_le_upper_bound (m_size (bf_of s) + 63) 64 (2 ^ 32)); lia).
  rewrite (probe_whole_chunk _ n sz e s) by (auto; apply Z.mod_pos_bound; lia).
  apply or_else_congr; [reflexivity |]. intros s' E.
  assert (Hbf : bf_of s' = bf_of s) by exact (find_first_frame wf bf_of f f_frame _ _ _ Hwf E).
  assert (bits s' = bits s) as Hbits by (unfold bits; rewrite Hbf; reflexivity).
  rewrite IH; rewrite ?Hbf, ?Hbits; auto.
  intros b' Hb'. apply Hbs. right. exact Hb'.
Qed.

#[local] Opaque probe_chunk_by_value find_first wrap low_mask all_ones chunk_fuel
  probe_remaining zrange.

(** The two probes of the start word: below the start index, then from it on. *)
Lemma probe_start_word (c r lo hi sz m : Z) (e : bool) (s : S) :
  wf (bf_of s) -> sz = m_size (bf_of s) -> 0 <= c < Z.of_nat (length (bits s)) ->
  0 <= lo <= hi -> hi <= 64 -> is_word 64 m ->
  (forall i, 0 <= i < 64 -> Z.testbit m i = (lo <=? i) && (i <? hi)) ->
  probe_chunk_by_value bits f chunk_fuel c m e s
  = find_first f (List.filter (bit_is (bits s) e) (zrange (64 * c + lo) (64 * c + hi))) s.
Proof using f_frame.
  intros Hwf -> Hc Hlo Hhi Hm Hbits. pose proof Hwf as [Hs Hl Hws].
  apply (probe_chunk_range bits f good bits_frame); auto.
  fold (bits s) in Hl. rewrite ceil_div_eq in Hl by lia.
  pose proof (Z.div_mod (m_size (bf_of s) + 63) 64 ltac:(lia)).
  pose proof (Z.mod_pos_bound (m_size (bf_of s) + 63) 64 ltac:(lia)). lia.
Qed.

Lemma bf_same (l : list Z) (s s' : S) :
  wf (bf_of s) -> find_first f l s = Ok (None, s') -> bf_of s' = bf_of s.
Proof using f_frame. apply (find_first_frame wf bf_of f f_frame). Qed.

Lemma probe_by_value_reference (e : bool) (start : Z) (excl : bool) (s : S) :
  wf (bf_of s) -> 0 <= start < m_size (bf_of s) ->
  probe_by_value bits f (m_size (bf_of s)) e start excl s
  = find_first f
      (List.filter (bit_is (bits s) e) (probe_order (m_size (bf_of s)) start)) s.
Proof using f_frame.
  intros Hwf Hst. unfold probe_by_value, probe_order.
  replace (m_size (bf_of s) <=? start) with false by lia.
  pose proof Hwf as [Hs Hl Hws]. pose proof (wf_index _ _ Hwf Hst) as Hc.
  fold (bits s) in Hl, Hws, Hc. rewrite ceil_div_eq in Hl by lia.
  remember (m_size (bf_of s)) as sz eqn:Hsz. remember (Z.of_nat (length (bits s))) as n eqn:Hn.
  set (c := start / bitfield_len) in *. set (r := start mod bitfield_len) in *.
  assert (Hsr : start = 64 * c + r /\ 0 <= r < 64).
  { pose proof (Z.div_mod start 64 ltac:(lia)).
    pose proof (Z.mod_pos_bound start 64 ltac:(lia)). subst c r. unfold bitfield_len. lia. }
  destruct Hsr as [Hsr Hrr]. change (start / 64) with c in Hc.
  pose proof (Z.div_mod (sz + 63) 64 ltac:(lia)) as Hd.
  pose proof (Z.mod_pos_bound (sz + 63) 64 ltac:(lia)) as Hr.
  pose proof (Z.div_mod sz 64 ltac:(lia)) as Hd'.
  pose proof (Z.mod_pos_bound sz 64 ltac:(lia)) as Hr'.
  rewrite (wrap_small 64 (n - 1)) by lia. cbv zeta.
  set (l := sz mod bitfield_len) in *. change (sz mod 64) with l in *.
  assert (Hbs : forall b, b ∈ zrange 1 n -> 0 <= b < n)
    by (intros b Hb; apply elem_of_zrange in Hb; lia).
  rewrite !List.filter_app, !find_first_app.
  apply or_else_congr.
  { rewrite (probe_start_word c r 0 r sz).
    - do 3 f_equal; unfold bitfield_len; lia.
    - probe_side.
    - probe_side.
    - probe_side.
    - probe_side.
    - probe_side.
    - destruct excl, ((c =? n - 1) && negb (l =? 0)); probe_side.
    - destruct excl, ((c =? n - 1) && negb (l =? 0)) eqn:Elast; probe_side. }
  intros s1 E1. pose proof (bf_same _ _ _ Hwf E1) as Hbf1.
  assert (Hb1 : bits s1 = bits s) by (unfold bits; rewrite Hbf1; reflexivity).
  rewrite find_first_app. apply or_else_congr.
  { rewrite <- Hb1.
    destruct ((c =? n - 1) && negb (l =? 0)) eqn:Elast.
    - rewrite (probe_start_word c r r l sz) by (rewrite ?Hb1, ?Hbf1; probe_side).
      do 3 f_equal; unfold bitfield_len; lia.
    - rewrite (probe_start_word c r r 64 sz) by (rewrite ?Hb1, ?Hbf1; probe_side).
      do 3 f_equal; unfold bitfield_len; lia. }
  intros s2 E2. assert (Hwf1 : wf (bf_of s1)) by (rewrite Hbf1; exact Hwf).
  pose proof (bf_same _ _ _ Hwf1 E2) as Hbf2.
  assert (Hb2 : bits s2 = bits s) by (unfold bits; rewrite Hbf2, Hbf1; reflexivity).
  rewrite ceil_div_eq, <- Hl by lia.
  rewrite (probe_remaining_spec _ c n sz e s2) by (rewrite ?Hb2, ?Hbf2, ?Hbf1; auto).
  rewrite Hb2. reflexivity.
Qed.
End ProbeByValue.

#[local] Transparent probe_chunk_by_value find_first wrap low_mask all_ones chunk_fuel
  probe_remaining zrange first_one_idx not64 Z.land Z.shiftl.

(** ** The single-bit operations *)

Lemma land_bit (w k : Z) : 0 <= k -> negb (Z.land w (Z.shiftl 1 k) =? 0) = Z.testbit w k.
Proof.
  intros Hk.
  assert (E : forall i, 0 <= i ->
    Z.testbit (Z.land w (Z.shiftl 1 k)) i = Z.testbit w i && (i =? k)).
  { intros i Hi. rewrite Z.land_spec, shiftl1_testbit by lia. reflexivity. }
  destruct (Z.testbit w k) eqn:Ew.
  - destruct (Z.eqb_spec (Z.land w (Z.shiftl 1 k)) 0) as [H0 | _]; [| reflexivity].
    specialize (E k Hk). rewrite H0, Z.bits_0, Ew, Z.eqb_refl in E. discriminate.
  - assert (Z.land w (Z.shiftl 1 k) = 0) as ->; [| reflexivity].
    apply Z.bits_inj'. intros i Hi. rewrite E, Z.bits_0 by lia.
    destruct (Z.eqb_spec i k) as [-> |]; [rewrite Ew |]; rewrite ?andb_false_r; reflexivity.
Qed.

Lemma index_calc_eq (i : Z) :
  0 <= i -> index_calc i = (i / 64, i mod 64, Z.shiftl 1 (i mod 64)) /\ 0 <= i mod 64 < 64.
Proof.
  intros Hi. pose proof (Z.mod_pos_bound i 64 ltac:(lia)). split; [| assumption].
  unfold index_calc, bitfield_len. f_equal. apply wrap_small. rewrite Z.shiftl_1_l.
  split; [lia |]. apply Z.pow_lt_mono_r; lia.
Qed.

Lemma get_bit_at (bf : AtomicBitfield) (i : Z) :
  wf bf -> 0 <= i < m_size bf -> get i bf = Ok (bit_at (state bf) i).
Proof.
  intros Hwf Hi. pose proof (wf_index _ _ Hwf Hi) as Hj.
  unfold get. destruct (index_calc_eq i ltac:(lia)) as [-> Hk].
  destruct (lookup_lt_is_Some_2 (state bf) (Z.to_nat (i / 64))) as [w Hw]; [lia |].
  unfold word_at. rewrite Hw. simpl. rewrite land_bit by lia.
  unfold bit_at, bitfield_len. rewrite Hw. reflexivity.
Qed.

(** What one word looks like after [set]. *)
Definition set_word (w k : Z) (v : bool) : Z :=
  if v then Z.lor w (Z.shiftl 1 k) else Z.land w (not64 (Z.shiftl 1 k)).

Lemma set_word_testbit (w k i : Z) (v : bool) :
  is_word 64 w -> 0 <= k < 64 -> 0 <= i < 64 ->
  Z.testbit (set_word w k v) i = if i =? k then v else Z.testbit w i.
Proof.
  intros Hw Hk Hi. unfold set_word.
  destruct v; rewrite ?Z.lor_spec, ?Z.land_spec, ?not64_testbit, shiftl1_testbit by lia;
    replace (i <? 64) with true by lia; destruct (i =? k), (Z.testbit w i); reflexivity.
Qed.

Lemma set_ok (bf : AtomicBitfield) (i : Z) (v : bool) :
  wf bf -> 0 <= i < m_size bf ->
  exists w, state bf !! Z.to_nat (i / 64) = Some w /\ is_word 64 w /\
    set i v bf = Ok (bit_at (state bf) i,
                     store_word bf (i / 64) (set_word w (i mod 64) v)).
Proof.
  intros Hwf Hi. pose proof (wf_index _ _ Hwf Hi) as Hj.
  unfold set. destruct (index_calc_eq i ltac:(lia)) as [-> Hk].
  destruct (lookup_lt_is_Some_2 (state bf) (Z.to_nat (i / 64))) as [w Hw]; [lia |].
  exists w. split; [exact Hw |].
  split; [eapply Forall_lookup_1; [apply Hwf | exact Hw] |].
  unfold word_at. rewrite Hw. simpl. rewrite land_bit by lia.
  unfold bit_at, bitfield_len. rewrite Hw. reflexivity.
Qed.

Lemma is_word_set_word (w k : Z) (v : bool) :
  is_word 64 w -> 0 <= k < 64 -> is_word 64 (set_word w k v).
Proof.
  intros Hw Hk. unfold set_word.
  assert (is_word 64 (Z.shiftl 1 k)).
  { rewrite Z.shiftl_1_l. split; [lia |]. apply Z.pow_lt_mono_r; lia. }
  destruct v; auto with word.
Qed.

Lemma wf_store (bf : AtomicBitfield) (j w : Z) :
  wf bf -> is_word 64 w -> wf (store_word bf j w).
Proof.
  intros [Hs Hl Hws] Hw. constructor; simpl; [assumption | |].
  - rewrite length_insert. assumption.
  - apply Forall_insert; assumption.
Qed.

Lemma bit_at_store (bf : AtomicBitfield) (i j w : Z) (v : bool) :
  wf bf -> 0 <= i < m_size bf -> 0 <= j < m_size bf -> is_word 64 w ->
  state bf !! Z.to_nat (i / 64) = Some w ->
  bit_at (state (store_word bf (i / 64) (set_word w (i mod 64) v))) j
  = if j =? i then v else bit_at (state bf) j.
Proof.
  intros Hwf Hi Hj Hw Hl. unfold bit_at, bitfield_len. simpl.
  pose proof (wf_index _ _ Hwf Hi) as Hii. pose proof (wf_index _ _ Hwf Hj) as Hjj.
  pose proof (Z.div_mod i 64 ltac:(lia)). pose proof (Z.mod_pos_bound i 64 ltac:(lia)).
  pose proof (Z.div_mod j 64 ltac:(lia)). pose proof (Z.mod_pos_bound j 64 ltac:(lia)).
  destruct (decide (j / 64 = i / 64)) as [E | Hne].
  - rewrite E, list_lookup_insert_eq by lia. simpl. rewrite Hl. simpl.
    rewrite set_word_testbit by (assumption || lia).
    replace (j mod 64 =? i mod 64) with (j =? i) by lia. reflexivity.
  - rewrite list_lookup_insert_ne by lia. replace (j =? i) with false by lia. reflexivity.
Qed.

Lemma wf_make (n : Z) : 0 <= n <= 2 ^ 32 -> wf (make n).
Proof.
  intros Hn. constructor; simpl.
  - exact Hn.
  - rewrite length_replicate, ceil_div_eq by exact Hn.
    apply Z2Nat.id, Z.div_pos; lia.
  - apply Forall_replicate. unfold is_word. lia.
Qed.

(** ** Properties *)

(** C37 (probe): the masked word-by-word search with its bit hack is the plain
    search: it calls the callback on exactly the indices below the size whose
    bit has the expected value, in the order [probe_order], up to the first
    success, whatever the value of [exclude_start]; it always ends within its
    fuel.  That order is the code's: the indices of the start's word below the start,
    then the start and those above it, then the following words cyclically, each
    from its lowest index.  The comment of the method prefers the indices that
    follow the start to those before it, which is not what it does. *)
Theorem probe_by_value_correct {S T} (bf_of : S -> AtomicBitfield)
    (f : Z -> S -> res (option T * S))
    (f_frame : forall i s s', wf (bf_of s) -> f i s = Ok (None, s') -> bf_of s' = bf_of s)
    (e : bool) (start : Z) (excl : bool) (s : S)
    (Hwf : wf (bf_of s)) (Hstart : 0 <= start < m_size (bf_of s)) :
  probe_by_value (fun s => state (bf_of s)) f (m_size (bf_of s)) e start excl s
  = find_first f
      (List.filter (bit_is (state (bf_of s)) e) (probe_order (m_size (bf_of s)) start)) s.
Proof. exact (probe_by_value_reference bf_of f f_frame e start excl s Hwf Hstart). Qed.

Lemma probe_by_value_correct_witness :
  wf (mkBitfield 70 [2 ^ 63; 4]) /\
  probe_by_value (fun s => state s) (fun i s => Ok (Some i, s)) 70 true 65 true
    (mkBitfield 70 [2 ^ 63; 4])
  = Ok (Some 66, mkBitfield 70 [2 ^ 63; 4]).
Proof.
  assert (Hwf : wf (mkBitfield 70 [2 ^ 63; 4])).
  { constructor; [simpl; lia | reflexivity |].
    repeat constructor; unfold is_word; lia. }
  split; [exact Hwf |].
  refine (eq_trans (probe_by_value_correct (S := AtomicBitfield) (fun s => s)
             (fun i s => Ok (Some i, s)) ltac:(discriminate) true 65 true
             (mkBitfield 70 [2 ^ 63; 4]) Hwf ltac:(simpl; lia)) _).
  vm_compute. reflexivity.
Defined.

(** (exclude): [exclude_start] never changes what the search does: the start
    index is probed even when the caller asks to exclude it. *)
Theorem exclude_start_ignored {S T} (bits : S -> list Z) (f : Z -> S -> res (option T * S))
    (sz : Z) (e : bool) (start : Z) (s : S) (Hstart : 0 <= start) :
  probe_by_value bits f sz e start true s = probe_by_value bits f sz e start false s.
Proof.
  unfold probe_by_value. destruct (sz <=? start); [reflexivity |]. cbv zeta.
  pose proof (Z.mod_pos_bound start 64 ltac:(lia)) as Hr. unfold bitfield_len.
  set (r := start mod 64) in *. set (last := _ && _).
  apply or_else_congr; [| intros s' _; reflexivity].
  apply (f_equal (fun m => probe_chunk_by_value bits f chunk_fuel (start / 64) m e s)).
  apply (word_bits_eq 64); [lia | destruct last; auto with word | destruct last; auto with word |].
  intros i Hi. rewrite Z.land_spec, not64_testbit, shiftl1_wrapped_testbit by lia.
  replace (i <? 64) with true by lia. simpl.
  destruct (Z.eqb_spec i r) as [-> |]; [| apply andb_true_r].
  rewrite andb_false_r. symmetry.
  assert (E : Z.testbit (not64 (u64 (Z.shiftl all_ones r))) r = false).
  { rewrite not64_testbit, first_mask_testbit, Z.leb_refl by lia. apply andb_false_r. }
  destruct last; [rewrite Z.land_spec |]; rewrite E; reflexivity.
Qed.

Lemma exclude_start_ignored_witness :
  0 <= 3 /\
  probe_by_value (fun s => state s) (fun i s => Ok (Some i, s)) 8 true 3 true (mkBitfield 8 [8])
  = Ok (Some 3, mkBitfield 8 [8]).
Proof.
  split; [lia |].
  rewrite (exclude_start_ignored (fun s => state s) (fun i s => Ok (Some i, s)) 8 true 3
             (mkBitfield 8 [8]) ltac:(lia)).
  vm_compute. reflexivity.
Defined.

(** (first_one): the bit hack returns the index of the lowest set bit of a
    non-zero 64-bit word and 64 for zero. *)
Theorem first_one_idx_correct (v : Z) (Hv : is_word 64 v) :
  (v = 0 -> first_one_idx v = 64) /\
  (v <> 0 -> 0 <= first_one_idx v < 64 /\ Z.testbit v (first_one_idx v) = true /\
     forall i, 0 <= i < first_one_idx v -> Z.testbit v i = false).
Proof.
  split; [intros ->; reflexivity |]. intros Hnz.
  destruct (lowest_bit_exists v Hv Hnz) as (k & Hk & Hb & Hlow).
  rewrite (first_one_idx_lowest v k Hv (proj1 Hk) Hb Hlow). auto.
Qed.

Lemma first_one_idx_correct_witness :
  is_word 64 (2 ^ 63 + 2 ^ 40) /\ first_one_idx (2 ^ 63 + 2 ^ 40) = 40 /\
  Z.testbit (2 ^ 63 + 2 ^ 40) 40 = true.
Proof.
  assert (Hw : is_word 64 (2 ^ 63 + 2 ^ 40)) by (unfold is_word; lia).
  split; [exact Hw |].
  destruct (first_one_idx_correct (2 ^ 63 + 2 ^ 40) Hw) as [_ H].
  specialize (H ltac:(lia)). split; [vm_compute; reflexivity | vm_compute in H; apply H].
Defined.

(** (set_get): [set] returns the old value of its bit, stores the new one,
    leaves every other bit as it was and keeps the field well formed. *)
Theorem set_correct (bf : AtomicBitfield) (i : Z) (v : bool)
    (Hwf : wf bf) (Hi : 0 <= i < m_size bf) :
  exists old bf', set i v bf = Ok (old, bf') /\ wf bf' /\ m_size bf' = m_size bf /\
    get i bf = Ok old /\ get i bf' = Ok v /\
    (forall j, 0 <= j < m_size bf -> j <> i -> get j bf' = get j bf).
Proof.
  destruct (set_ok bf i v Hwf Hi) as (w & Hl & Hw & Hset).
  pose proof (Z.mod_pos_bound i 64 ltac:(lia)).
  set (bf' := store_word bf (i / 64) (set_word w (i mod 64) v)) in *.
  assert (Hwf' : wf bf') by (apply wf_store, is_word_set_word; auto).
  exists (bit_at (state bf) i), bf'. split; [exact Hset |]. split; [exact Hwf' |].
  split; [reflexivity |]. split; [apply get_bit_at; assumption |].
  assert (Hsz : m_size bf' = m_size bf) by reflexivity.
  split; [| intros j Hj Hne]; rewrite !get_bit_at by (rewrite ?Hsz; assumption);
    unfold bf'; rewrite bit_at_store by (assumption || lia).
  - rewrite Z.eqb_refl. reflexivity.
  - replace (j =? i) with false by lia. reflexivity.
Qed.

Lemma set_correct_witness :
  exists old bf', set 69 true (make 70) = Ok (old, bf') /\ old = false /\ get 69 bf' = Ok true.
Proof.
  assert (Hwf : wf (make 70)) by (apply wf_make; lia).
  destruct (set_correct (make 70) 69 true Hwf ltac:(simpl; lia))
    as (old & bf' & Hset & _ & _ & Hold & Hnew & _).
  exists old, bf'. split; [exact Hset |]. split; [| exact Hnew].
  vm_compute in Hold. congruence.
Defined.

End Bitfield.
