(* ===== verification/AtomicList.v ===== *)
(** The singly linked list of chunks [AtomicList] of
    [redGrapes/util/atomic_list.hpp].  Control blocks live in a heap
    [nodes] keyed by their identity, the [shared_ptr]s are those keys.  The
    first part is the list as one thread sees it; [Module Concurrent] is the
    compare-and-swap loop of [append_item] run by any number of threads. *)

From Stdlib Require Import ZArith Lia.
From stdpp Require Import base gmap list relations.
From S2P Require Import Prelude.

Open Scope nat_scope.

Module AtomicList.

(** [ItemControlBlock]; [item_data_ptr] is the item itself. *)
Record ItemControlBlock (D : Type) : Type := mkCB {
  deleted : bool;
  prev : option nat;
  item_data : D
}.
Arguments mkCB {D} _ _ _.
Arguments deleted {D} _.
Arguments prev {D} _.
Arguments item_data {D} _.

Record AtomicList (D : Type) : Type := mkList {
  nodes : gmap nat (ItemControlBlock D);
  head : option nat;
  next_id : nat
}.
Arguments mkList {D} _ _ _.
Arguments nodes {D} _.
Arguments head {D} _.
Arguments next_id {D} _.

Section Ops.
Context {D : Type}.
Implicit Types l : AtomicList D.

Definition empty_list : AtomicList D := mkList ∅ None 0.

Definition get_node (id : nat) l : res (ItemControlBlock D) := deref (nodes l !! id).

Definition put_node (id : nat) (n : ItemControlBlock D) l : AtomicList D :=
  mkList (<[id := n]> (nodes l)) (head l) (next_id l).

Definition set_prev (id : nat) (p : option nat) l : res (AtomicList D) :=
  n ← get_node id l;
  Ok (put_node id (mkCB (deleted n) p (item_data n)) l).

(** The item behind an iterator ([operator->]). *)
Definition get (id : nat) l : res D := item_data <$> get_node id l.

Definition set_data (id : nat) (d : D) l : res (AtomicList D) :=
  n ← get_node id l;
  Ok (put_node id (mkCB (deleted n) (prev n) d) l).

(** [while(p && p->deleted) p = p->prev;] *)
Fixpoint skip_loop (fuel : nat) (p : option nat) l : res (option nat) :=
  match fuel with
  | O => Err OutOfFuel
  | S fuel =>
      match p with
      | None => Ok None
      | Some id =>
          n ← get_node id l;
          if deleted n then skip_loop fuel (prev n) l else Ok p
      end
  end.

Definition skip_deleted_prev (id : nat) l : res (AtomicList D) :=
  n ← get_node id l;
  p ← skip_loop (S (next_id l)) (prev n) l;
  set_prev id p l.

(** An iterator is the control block it points at, [None] at the end. *)
Definition BackwardIterator : Type := option nat.

Definition rbegin l : BackwardIterator := head l.
Definition rend : BackwardIterator := None.

(** [operator++] *)
Definition iter_next (it : BackwardIterator) l : res (BackwardIterator * AtomicList D) :=
  match it with
  | None => Ok (None, l)
  | Some c =>
      l ← skip_deleted_prev c l;
      n ← get_node c l;
      Ok (prev n, l)
  end.

Definition optimize (it : BackwardIterator) l : res (AtomicList D) :=
  match it with
  | None => Ok l
  | Some c => skip_deleted_prev c l
  end.

(** Flags the control block as deleted. *)
Definition erase (it : BackwardIterator) l : res (AtomicList D) :=
  c ← deref it;
  n ← get_node c l;
  Ok (put_node c (mkCB true (prev n) (item_data n)) l).

(** [std::allocate_shared<ItemControlBlock>]: a floating control block. *)
Definition make_node (d : D) l : nat * AtomicList D :=
  (next_id l,
   mkList (<[next_id l := mkCB false None d]> (nodes l)) (head l) (S (next_id l))).

(** One successful round of the loop in [append_item]. *)
Definition append_item (new_head : nat) l : res (BackwardIterator * AtomicList D) :=
  let old_head := head l in
  l ← set_prev new_head old_head l;
  Ok (old_head, mkList (nodes l) (Some new_head) (next_id l)).

Definition try_append_first_item (new_head : nat) l : bool * AtomicList D :=
  match head l with
  | None => (true, mkList (nodes l) (Some new_head) (next_id l))
  | Some _ => (false, l)
  end.

Definition allocate_item (d : D) l : res (BackwardIterator * AtomicList D) :=
  let '(id, l) := make_node d l in append_item id l.

Definition try_allocate_first_item (d : D) l : bool * AtomicList D :=
  let '(id, l) := make_node d l in try_append_first_item id l.

(** [for(it = from; it != rend(); ++it)]: the control blocks it visits. *)
Fixpoint traverse (fuel : nat) (it : BackwardIterator) l : res (list nat * AtomicList D) :=
  match fuel with
  | O => Err OutOfFuel
  | S fuel =>
      match it with
      | None => Ok ([], l)
      | Some c =>
          '(it, l) ← iter_next it l;
          '(ids, l) ← traverse fuel it l;
          Ok (c :: ids, l)
      end
  end.
End Ops.

(** ** Layout of a chunk allocation

    [allocate_item] asks the allocator for [chunk_capacity] bytes plus the
    control block and hands the item the rest of the block. *)
Section Layout.
(** [sizeof(ItemControlBlock)] and [sizeof(Item)] of the compiler. *)
Variables sizeof_cb sizeof_item : Z.

Definition shared_ptr_size : Z := 512.
Definition get_controlblock_size : Z := (sizeof_cb + shared_ptr_size)%Z.
Definition get_chunk_allocsize (chunk_capacity : Z) : Z :=
  (chunk_capacity + get_controlblock_size)%Z.

(** The block given to the constructor of [Item], as (pointer, length). *)
Definition item_block (base chunk_capacity : Z) : Z * Z :=
  let blk_ptr := (u64 (base + get_controlblock_size))%word in
  let blk_len := (u64 (chunk_capacity - get_controlblock_size))%word in
  ((u64 (blk_ptr + sizeof_item))%word, (u64 (blk_len - sizeof_item))%word).
End Layout.

(** ** The chain of control blocks *)

Section Chain.
Context {D : Type}.
Implicit Types l : AtomicList D.

Inductive path l : option nat -> list nat -> Prop :=
  | path_nil : path l None []
  | path_cons id n ids :
      nodes l !! id = Some n -> path l (prev n) ids -> path l (Some id) (id :: ids).

Record wf l : Prop := {
  wf_prev : forall id n, nodes l !! id = Some n ->
    (id < next_id l)%nat /\
    (forall p, prev n = Some p -> (p < id)%nat /\ is_Some (nodes l !! p));
  wf_head : forall h, head l = Some h -> is_Some (nodes l !! h)
}.

Definition is_deleted l (id : nat) : bool :=
  match nodes l !! id with Some n => deleted n | None => false end.

Definition alive l (id : nat) : bool := negb (is_deleted l id).

(** What [skip_deleted_prev] leaves of a chain: its deleted prefix is gone. *)
Fixpoint drop_deleted l (ids : list nat) : list nat :=
  match ids with
  | [] => []
  | id :: ids' => if is_deleted l id then drop_deleted l ids' else ids
  end.

(** The control blocks of two lists carry the same items and flags. *)
Definition same_items l l' : Prop :=
  next_id l' = next_id l /\ head l' = head l /\
  forall id, (fun n => (deleted n, item_data n)) <$> nodes l' !! id
           = (fun n => (deleted n, item_data n)) <$> nodes l !! id.

Lemma same_items_refl l : same_items l l.
Proof. repeat split. Qed.

Lemma same_items_trans l1 l2 l3 : same_items l1 l2 -> same_items l2 l3 -> same_items l1 l3.
Proof.
  intros (Hn & Hh & H) (Hn' & Hh' & H').
  split; [congruence |]. split; [congruence |]. intros id. rewrite H', H. reflexivity.
Qed.

Lemma same_items_deleted l l' id : same_items l l' -> is_deleted l' id = is_deleted l id.
Proof.
  intros (_ & _ & H). specialize (H id). unfold is_deleted.
  destruct (nodes l' !! id), (nodes l !! id); simpl in H; congruence.
Qed.

Lemma path_fun l o ids ids' : path l o ids -> path l o ids' -> ids = ids'.
Proof.
  intros H. revert ids'. induction H as [| id n ids Hn H IH]; intros ids' H'; inversion H'.
  - reflexivity.
  - simplify_eq. f_equal. auto.
Qed.

Lemma path_ids l o ids : wf l -> path l o ids ->
  Forall (fun id => is_Some (nodes l !! id) /\ (id < next_id l)%nat) ids.
Proof.
  intros Hwf H. induction H as [| id n ids Hn H IH]; constructor; [| exact IH].
  split; [exists n; exact Hn |]. exact (proj1 (wf_prev l Hwf id n Hn)).
Qed.

(** Along a chain the identities decrease. *)
Lemma path_below l id ids : wf l -> path l (Some id) (id :: ids) ->
  Forall (fun j => (j < id)%nat) ids.
Proof.
  intros Hwf. revert id. induction ids as [| j ids IH]; intros id H; constructor.
  - inversion H as [| ? n ? Hn Hp]; simplify_eq. inversion Hp; simplify_eq.
    eapply wf_prev; eauto.
  - inversion H as [| ? n ? Hn Hp]; simplify_eq.
    assert (prev n = Some j) as Ej by (inversion Hp; congruence).
    rewrite Ej in Hp. eapply Forall_impl; [apply IH; exact Hp |].
    intros k Hk. destruct (wf_prev l Hwf id n Hn) as [_ Hlt].
    destruct (Hlt j Ej). simpl in *. lia.
Qed.

Lemma path_length l o ids : wf l -> path l o ids -> (length ids <= next_id l)%nat.
Proof.
  intros Hwf. destruct ids as [| id ids]; [simpl; lia |]. intros H.
  assert (Hlt : (id < next_id l)%nat) by (apply path_ids in H; [inversion H; tauto | exact Hwf]).
  assert (o = Some id) as -> by (inversion H; congruence).
  enough (length ids <= id)%nat by (simpl; lia). clear Hlt.
  revert id H. induction ids as [| j ids IH]; intros id H; simpl; [lia |].
  pose proof (path_below l id (j :: ids) Hwf H) as Hb. inversion Hb; subst.
  inversion H as [| ? n ? Hn Hp]; simplify_eq.
  assert (prev n = Some j) as Ej by (inversion Hp; congruence). rewrite Ej in Hp.
  specialize (IH j Hp). lia.
Qed.

Lemma path_exists l o : wf l -> (forall h, o = Some h -> is_Some (nodes l !! h)) ->
  exists ids, path l o ids.
Proof.
  intros Hwf Ho. destruct o as [id |]; [| exists []; constructor].
  destruct (Ho id eq_refl) as [n Hn]. clear Ho.
  revert n Hn. induction id as [id IH] using lt_wf_ind. intros n Hn.
  destruct (wf_prev l Hwf id n Hn) as [_ Hp].
  destruct (prev n) as [p |] eqn:Ep.
  - destruct (Hp p eq_refl) as [Hlt [np Hnp]].
    destruct (IH p Hlt np Hnp) as [ids Hids].
    exists (id :: ids). econstructor; [exact Hn |]. rewrite Ep. exact Hids.
  - exists [id]. econstructor; [exact Hn |]. rewrite Ep. constructor.
Qed.

(** A chain only depends on the control blocks on it. *)
Lemma path_local l l' o ids :
  path l o ids -> (forall id, id ∈ ids -> nodes l' !! id = nodes l !! id) -> path l' o ids.
Proof.
  intros H. induction H as [| id n ids Hn H IH]; intros E; [constructor |].
  econstructor; [rewrite E by left; exact Hn |].
  apply IH. intros j Hj. apply E. right. exact Hj.
Qed.

Lemma skip_loop_spec l fuel p ids :
  path l p ids -> (length ids < fuel)%nat ->
  skip_loop fuel p l = Ok (hd_error (drop_deleted l ids)) /\
  path l (hd_error (drop_deleted l ids)) (drop_deleted l ids).
Proof.
  revert p ids. induction fuel as [| fuel IH]; intros p ids H Hf; [lia |].
  inversion H as [| id n ids' Hn Hp]; subst; simpl.
  { split; constructor. }
  unfold get_node, is_deleted. rewrite Hn. simpl.
  destruct (deleted n) eqn:Ed.
  - simpl in Hf. apply IH; [exact Hp | lia].
  - simpl. auto.
Qed.

Lemma drop_deleted_suffix l ids : exists pre, ids = pre ++ drop_deleted l ids /\
  Forall (fun id => is_deleted l id = true) pre.
Proof.
  induction ids as [| id ids (pre & E & Hpre)]; simpl.
  - exists []. split; [reflexivity | constructor].
  - destruct (is_deleted l id) eqn:Ed.
    + exists (id :: pre). split; [simpl; f_equal; exact E | constructor; assumption].
    + exists []. split; [reflexivity | constructor].
Qed.

Lemma drop_deleted_sub l ids id : id ∈ drop_deleted l ids -> id ∈ ids.
Proof.
  destruct (drop_deleted_suffix l ids) as (pre & E & _).
  intros H. rewrite E. apply elem_of_app. right. exact H.
Qed.

(** Skipping removes deleted control blocks only. *)
Lemma drop_deleted_alive l ids :
  List.filter (alive l) (drop_deleted l ids) = List.filter (alive l) ids.
Proof.
  induction ids as [| id ids IH]; [reflexivity |]. cbn [drop_deleted].
  assert (Ea : alive l id = negb (is_deleted l id)) by reflexivity.
  destruct (is_deleted l id); simpl; rewrite Ea; simpl; [exact IH | reflexivity].
Qed.

Lemma wf_put l id n :
  wf l -> is_Some (nodes l !! id) ->
  (forall p, prev n = Some p -> (p < id)%nat /\ is_Some (nodes l !! p)) -> wf (put_node id n l).
Proof.
  intros [Hp Hh] [n0 Hn0] Hprev. constructor; simpl.
  - intros j m Hm. destruct (decide (id = j)) as [<- | Hne].
    + rewrite lookup_insert_eq in Hm. injection Hm as <-.
      split; [exact (proj1 (Hp _ _ Hn0)) |]. intros p Ep. destruct (Hprev p Ep) as [Hlt Hs].
      split; [exact Hlt |]. rewrite lookup_insert_ne by lia. exact Hs.
    + rewrite lookup_insert_ne in Hm by exact Hne. destruct (Hp j m Hm) as [Hlt Hs].
      split; [exact Hlt |]. intros p Ep. destruct (Hs p Ep) as [Hpj Hps].
      split; [exact Hpj |]. destruct (decide (id = p)) as [<- |].
      * rewrite lookup_insert_eq. eauto.
      * rewrite lookup_insert_ne; auto.
  - intros h Eh. destruct (decide (id = h)) as [<- |].
    + rewrite lookup_insert_eq. eauto.
    + rewrite lookup_insert_ne; auto.
Qed.

(** [skip_deleted_prev] relinks [c] to its first live predecessor. *)
Lemma skip_deleted_prev_spec l c ids :
  wf l -> path l (Some c) (c :: ids) ->
  exists l', skip_deleted_prev c l = Ok l' /\ wf l' /\ same_items l l' /\
    path l' (Some c) (c :: drop_deleted l ids) /\
    (forall id, id <> c -> nodes l' !! id = nodes l !! id).
Proof.
  intros Hwf H. pose proof (path_below l c ids Hwf H) as Hb.
  inversion H as [| ? n ? Hn Hp]; simplify_eq.
  pose proof (path_length _ _ _ Hwf Hp) as Hlen.
  destruct (skip_loop_spec l (S (next_id l)) (prev n) ids Hp ltac:(lia)) as [Hs Hps].
  unfold skip_deleted_prev, set_prev, get_node. rewrite Hn. cbn [deref mbind res_bind].
  rewrite Hs. cbn [mbind res_bind].
  eexists. split; [reflexivity |].
  assert (Hlt : forall id, id ∈ drop_deleted l ids -> (id < c)%nat).
  { intros id Hid. apply drop_deleted_sub in Hid.
    rewrite Forall_forall in Hb. exact (Hb id Hid). }
  assert (Hother : forall id, id <> c ->
    nodes (put_node c (mkCB (deleted n) (hd_error (drop_deleted l ids)) (item_data n)) l) !! id
    = nodes l !! id).
  { intros id Hne. simpl. apply lookup_insert_ne. congruence. }
  split; [| split; [| split]].
  - apply wf_put; [exact Hwf | eauto |]. simpl. intros p Ep.
    destruct (drop_deleted l ids) as [| q qs] eqn:Ed; [discriminate |]. injection Ep as ->.
    split; [apply Hlt; left |].
    inversion Hps; simplify_eq; eauto.
  - split; [reflexivity |]. split; [reflexivity |]. intros id. simpl.
    destruct (decide (c = id)) as [<- | Hne].
    + rewrite lookup_insert_eq, Hn. reflexivity.
    + rewrite lookup_insert_ne by exact Hne. reflexivity.
  - econstructor; [simpl; apply lookup_insert_eq |]. simpl.
    eapply path_local; [exact Hps |]. intros id Hid. apply Hother.
    specialize (Hlt id Hid). lia.
  - exact Hother.
Qed.

Lemma iter_next_spec l c ids :
  wf l -> path l (Some c) (c :: ids) ->
  exists l', iter_next (Some c) l = Ok (hd_error (drop_deleted l ids), l') /\ wf l' /\
    same_items l l' /\ path l' (Some c) (c :: drop_deleted l ids) /\
    path l' (hd_error (drop_deleted l ids)) (drop_deleted l ids) /\
    (forall id, id <> c -> nodes l' !! id = nodes l !! id).
Proof.
  intros Hwf H. destruct (skip_deleted_prev_spec l c ids Hwf H) as (l' & Hs & Hwf' & Hsame & Hp & Ho).
  exists l'. unfold iter_next. rewrite Hs. cbn [mbind res_bind]. unfold get_node.
  inversion Hp as [| ? n ? Hn Hp']; simplify_eq. rewrite Hn. cbn [deref mbind res_bind].
  assert (prev n = hd_error (drop_deleted l ids)) as E
    by (inversion Hp'; simplify_eq/=; congruence).
  rewrite E in *. auto 10.
Qed.

(** [l'] is [l] after some deleted control blocks were unlinked. *)
Definition skips l l' : Prop :=
  same_items l l' /\ wf l' /\
  (forall o ids, path l o ids -> exists ids', path l' o ids' /\
     List.filter (alive l) ids' = List.filter (alive l) ids /\
     hd_error ids' = hd_error ids /\ (forall id, id ∈ ids' -> id ∈ ids)).

Lemma skips_refl l : wf l -> skips l l.
Proof.
  intros Hwf. split; [apply same_items_refl |]. split; [exact Hwf |].
  intros o ids H. exists ids. auto.
Qed.

Lemma alive_same l l' id : same_items l l' -> alive l' id = alive l id.
Proof. intros H. unfold alive. rewrite (same_items_deleted l l' id H). reflexivity. Qed.

Lemma filter_alive_same l l' ids :
  same_items l l' -> List.filter (alive l') ids = List.filter (alive l) ids.
Proof. intros H. apply List.filter_ext. intros id. apply alive_same, H. Qed.

Lemma skips_trans l1 l2 l3 : skips l1 l2 -> skips l2 l3 -> skips l1 l3.
Proof.
  intros (Hs & Hwf & Hp) (Hs' & Hwf' & Hp').
  split; [eapply same_items_trans; eassumption |]. split; [exact Hwf' |].
  intros o ids H. destruct (Hp o ids H) as (ids1 & H1 & E1 & Eh1 & Hin1).
  destruct (Hp' o ids1 H1) as (ids2 & H2 & E2 & Eh2 & Hin2).
  exists ids2. split; [exact H2 |].
  rewrite !(filter_alive_same l1 l2) in E2 by exact Hs.
  split; [congruence |]. split; [congruence |]. auto.
Qed.

Lemma skip_deleted_prev_skips l c ids :
  wf l -> path l (Some c) (c :: ids) ->
  exists l', skip_deleted_prev c l = Ok l' /\ skips l l' /\
    path l' (Some c) (c :: drop_deleted l ids).
Proof.
  intros Hwf Hpc.
  destruct (skip_deleted_prev_spec l c ids Hwf Hpc) as (l' & Hs & Hwf' & Hsame & Hp & Ho).
  exists l'. split; [exact Hs |]. split; [| exact Hp].
  split; [exact Hsame |]. split; [exact Hwf' |].
  intros o js H. induction H as [| id n js Hn H IH].
  - exists []. split; [constructor |]. auto.
  - destruct (decide (id = c)) as [-> | Hne].
    + assert (js = ids) as ->.
      { inversion Hpc as [| ? n' ? Hn' Hp']; simplify_eq. eapply path_fun; eassumption. }
      exists (c :: drop_deleted l ids). split; [exact Hp |].
      split; [simpl; rewrite drop_deleted_alive; reflexivity |]. split; [reflexivity |].
      intros id Hid. apply elem_of_cons in Hid as [-> | Hid]; [left | right].
      eapply drop_deleted_sub, Hid.
    + destruct IH as (js' & Hp' & E & _ & Hin).
      exists (id :: js'). split; [econstructor; [rewrite Ho by exact Hne; exact Hn | exact Hp'] |].
      split; [simpl; rewrite E; reflexivity |]. split; [reflexivity |].
      intros j Hj. apply elem_of_cons in Hj as [-> | Hj]; [left | right; auto].
Qed.

Lemma iter_next_skips l c ids :
  wf l -> path l (Some c) (c :: ids) ->
  exists l', iter_next (Some c) l = Ok (hd_error (drop_deleted l ids), l') /\ skips l l' /\
    path l' (hd_error (drop_deleted l ids)) (drop_deleted l ids).
Proof.
  intros Hwf Hpc. destruct (skip_deleted_prev_skips l c ids Hwf Hpc) as (l' & Hs & Hsk & _).
  destruct (iter_next_spec l c ids Hwf Hpc) as (l2 & Hn & _ & _ & _ & Hp & _).
  assert (l2 = l') as ->.
  { unfold iter_next in Hn. rewrite Hs in Hn. cbn [mbind res_bind] in Hn.
    apply bind_Ok in Hn as (? & _ & Hn). congruence. }
  exists l'. auto.
Qed.

(** The ids a traversal from a live or deleted start visits. *)
Definition visited l (ids : list nat) : list nat :=
  match ids with [] => [] | c :: ids => c :: List.filter (alive l) ids end.

Lemma drop_deleted_head l ids c rest :
  drop_deleted l ids = c :: rest ->
  List.filter (alive l) ids = c :: List.filter (alive l) rest.
Proof.
  intros E. rewrite <- (drop_deleted_alive l ids), E.
  assert (is_deleted l c = false).
  { revert E. induction ids as [| j ids IH]; simpl; [discriminate |].
    destruct (is_deleted l j) eqn:Ej; [exact IH |]. congruence. }
  simpl. unfold alive at 1. rewrite H. reflexivity.
Qed.

Lemma traverse_spec l o ids fuel :
  wf l -> path l o ids -> (length ids < fuel)%nat ->
  exists l', traverse fuel o l = Ok (visited l ids, l') /\ wf l' /\ same_items l l' /\
    path l' o (visited l ids) /\
    (forall id, (forall c, o = Some c -> (c < id)%nat) -> nodes l' !! id = nodes l !! id).
Proof.
  revert l o ids. induction fuel as [| fuel IH]; intros l o ids Hwf Hp Hf; [lia |].
  destruct ids as [| c ids].
  { inversion Hp; subst. exists l. split; [reflexivity |]. split; [exact Hwf |].
    split; [apply same_items_refl |]. split; [constructor | reflexivity]. }
  assert (o = Some c) as -> by (inversion Hp; congruence).
  destruct (iter_next_spec l c ids Hwf Hp) as (l1 & Hn & Hwf1 & Hs1 & Hp1 & Hp1' & Ho1).
  assert (Hlen : (length (drop_deleted l ids) < fuel)%nat).
  { destruct (drop_deleted_suffix l ids) as (pre & E & _).
    assert (length ids = length (pre ++ drop_deleted l ids)) as El by (rewrite <- E; reflexivity).
    rewrite length_app in El. simpl in Hf. lia. }
  destruct (IH l1 _ _ Hwf1 Hp1' Hlen) as (l2 & Ht & Hwf2 & Hs2 & Hp2 & Ho2).
  assert (Hvis : visited l1 (drop_deleted l ids) = List.filter (alive l) ids).
  { destruct (drop_deleted l ids) as [| d rest] eqn:Ed; simpl.
    - rewrite <- (drop_deleted_alive l ids), Ed. reflexivity.
    - rewrite (filter_alive_same l l1) by exact Hs1.
      symmetry. apply drop_deleted_head, Ed. }
  rewrite Hvis in *.
  exists l2. cbn [traverse visited]. rewrite Hn. cbn [mbind res_bind]. rewrite Ht.
  cbn [mbind res_bind].
  pose proof (path_below l1 c _ Hwf1 Hp1) as Hb.
  assert (Hc : nodes l2 !! c = nodes l1 !! c).
  { apply Ho2. intros d Hd. destruct (drop_deleted l ids) as [| d' rest]; [discriminate |].
    simpl in Hd. injection Hd as <-. inversion Hb; subst. assumption. }
  split; [reflexivity |]. split; [exact Hwf2 |].
  split; [eapply same_items_trans; eassumption |]. split.
  - inversion Hp1 as [| ? n ? Hnc Hpc]; simplify_eq.
    econstructor; [rewrite Hc; exact Hnc |].
    replace (prev n) with (hd_error (drop_deleted l ids)); [exact Hp2 |].
    inversion Hpc; simplify_eq/=; congruence.
  - intros id Hid. specialize (Hid c eq_refl). rewrite Ho2, Ho1; [reflexivity | lia |].
    intros d Hd. destruct (drop_deleted l ids) as [| d' rest]; [discriminate |].
    simpl in Hd. injection Hd as <-. inversion Hb; subst. simpl in *. lia.
Qed.

Lemma list_wf_empty : wf (@empty_list D).
Proof.
  constructor; simpl.
  - intros id n Hn. rewrite lookup_empty in Hn. discriminate.
  - discriminate.
Qed.

Lemma allocate_item_spec l d ids :
  wf l -> path l (head l) ids ->
  exists l', allocate_item d l = Ok (head l, l') /\ wf l' /\
    path l' (head l') (next_id l :: ids) /\ head l' = Some (next_id l) /\
    nodes l' !! next_id l = Some (mkCB false (head l) d) /\
    next_id l' = S (next_id l) /\
    (forall id, id <> next_id l -> nodes l' !! id = nodes l !! id).
Proof.
  intros Hwf Hp. unfold allocate_item, make_node, append_item, set_prev, get_node. simpl.
  rewrite lookup_insert_eq. simpl. unfold put_node. simpl.
  eexists. split; [reflexivity |]. simpl.
  assert (Hother : forall id, id <> next_id l ->
    <[next_id l := mkCB false (head l) d]> (<[next_id l := mkCB false None d]> (nodes l)) !! id
    = nodes l !! id).
  { intros id Hne. rewrite !lookup_insert_ne by congruence. reflexivity. }
  assert (Hfresh : nodes l !! next_id l = None).
  { destruct (nodes l !! next_id l) as [n |] eqn:E; [| reflexivity].
    pose proof (proj1 (wf_prev l Hwf _ _ E)). lia. }
  split; [| split; [| split; [reflexivity | split; [apply lookup_insert_eq | auto]]]].
  - constructor; simpl.
    + intros id n Hn. destruct (decide (id = next_id l)) as [-> | Hne].
      * rewrite lookup_insert_eq in Hn. injection Hn as <-. simpl. split; [lia |].
        intros p Ep. destruct (wf_head l Hwf p Ep) as [m Hm].
        assert (p < next_id l)%nat by exact (proj1 (wf_prev l Hwf _ _ Hm)).
        split; [lia |]. rewrite Hother by lia. eauto.
      * rewrite Hother in Hn by exact Hne. destruct (wf_prev l Hwf _ _ Hn) as [Hlt Hpr].
        split; [lia |]. intros p Ep. destruct (Hpr p Ep) as [Hpl Hps].
        split; [lia |]. rewrite Hother by lia. exact Hps.
    + intros h Eh. injection Eh as <-. rewrite lookup_insert_eq. eauto.
  - econstructor; [simpl; apply lookup_insert_eq |]. simpl.
    eapply path_local; [exact Hp |]. intros id Hid. apply Hother.
    pose proof (path_ids l _ _ Hwf Hp) as Hids. rewrite Forall_forall in Hids.
    specialize (Hids id Hid). lia.
Qed.

Lemma path_same_prev l l' o ids :
  path l o ids -> (forall id, prev <$> nodes l' !! id = prev <$> nodes l !! id) -> path l' o ids.
Proof.
  intros H E. induction H as [| id n ids Hn H IH]; [constructor |].
  specialize (E id) as Ei. rewrite Hn in Ei. simpl in Ei.
  destruct (nodes l' !! id) as [n' |] eqn:En'; [| discriminate].
  injection Ei as Ei. econstructor; [exact En' |]. rewrite Ei. exact IH.
Qed.

Lemma erase_spec l c n :
  nodes l !! c = Some n ->
  erase (Some c) l = Ok (put_node c (mkCB true (prev n) (item_data n)) l).
Proof. intros Hn. unfold erase, get_node. simpl. rewrite Hn. reflexivity. Qed.

Lemma put_same_prev l c n n' :
  nodes l !! c = Some n -> prev n' = prev n ->
  forall id, prev <$> nodes (put_node c n' l) !! id = prev <$> nodes l !! id.
Proof.
  intros Hn E id. simpl. destruct (decide (c = id)) as [<- |].
  - rewrite lookup_insert_eq, Hn. simpl. congruence.
  - rewrite lookup_insert_ne by assumption. reflexivity.
Qed.

Lemma wf_put_same_prev l c n n' :
  wf l -> nodes l !! c = Some n -> prev n' = prev n -> wf (put_node c n' l).
Proof.
  intros Hwf Hn E. apply wf_put; [exact Hwf | eauto |]. rewrite E.
  exact (proj2 (wf_prev l Hwf c n Hn)).
Qed.

(** ** Properties *)

(** (traverse): walking the list from its newest control block visits that
    one and every control block not flagged deleted, newest first, ends
    within [length + 1] steps, leaves all items and flags alone and unlinks
    the deleted control blocks it skipped. *)
Theorem traverse_correct l ids
    (Hwf : wf l) (Hp : path l (head l) ids) :
  exists l', traverse (S (length ids)) (rbegin l) l = Ok (visited l ids, l') /\ wf l' /\
    same_items l l' /\ path l' (head l') (visited l ids).
Proof.
  destruct (traverse_spec l (head l) ids (S (length ids)) Hwf Hp ltac:(lia))
    as (l' & Ht & Hwf' & Hs & Hp' & _).
  exists l'. split; [exact Ht |]. split; [exact Hwf' |]. split; [exact Hs |].
  destruct Hs as (_ & -> & _). exact Hp'.
Qed.

(** (allocate): allocating an item makes it the head of the chain in front of
    all earlier control blocks; erasing a control block other than the head
    takes exactly that one out of the next traversal. *)
Theorem allocate_then_erase l d ids c
    (Hwf : wf l) (Hp : path l (head l) ids) (Hc : c ∈ ids) :
  exists l1 l2, allocate_item d l = Ok (head l, l1) /\ erase (Some c) l1 = Ok l2 /\
    wf l2 /\ path l1 (head l1) (next_id l :: ids) /\
    path l2 (head l2) (next_id l :: ids) /\
    visited l2 (next_id l :: ids)
    = List.filter (fun id => negb (id =? c)%nat) (visited l1 (next_id l :: ids)).
Proof.
  destruct (allocate_item_spec l d ids Hwf Hp)
    as (l1 & Ha & Hwf1 & Hp1 & Hh1 & Hn1 & _ & Ho1).
  pose proof (path_ids l _ _ Hwf Hp) as Hids. rewrite Forall_forall in Hids.
  destruct (Hids c Hc) as [[n Hn] Hlt].
  assert (Hn' : nodes l1 !! c = Some n) by (rewrite Ho1 by lia; exact Hn).
  exists l1. eexists. split; [exact Ha |]. split; [exact (erase_spec l1 c n Hn') |].
  split; [eapply wf_put_same_prev; eauto |]. split; [exact Hp1 |].
  split.
  - eapply path_same_prev; [exact Hp1 |]. eapply put_same_prev; eauto.
  - simpl. replace (next_id l =? c)%nat with false by (symmetry; apply Nat.eqb_neq; lia).
    simpl. f_equal. rewrite bfilter_filter. apply List.filter_ext. intros id.
    unfold alive, is_deleted. simpl.
    destruct (Nat.eqb_spec id c) as [-> | Hne].
    + rewrite lookup_insert_eq. simpl. rewrite andb_false_r. reflexivity.
    + rewrite lookup_insert_ne by congruence. rewrite andb_true_r. reflexivity.
Qed.
End Chain.

(** A list of three control blocks whose middle one is deleted. *)
Definition sample : AtomicList nat :=
  mkList (<[2 := mkCB false (Some 1) 12]> (<[1 := mkCB true (Some 0) 11]>
           {[ 0 := mkCB false None 10 ]})) (Some 2) 3.

Lemma list_sample_wf : wf sample /\ path sample (head sample) [2; 1; 0].
Proof.
  split.
  - constructor.
    + intros id n Hn. unfold sample in *. simpl in *.
      rewrite !lookup_insert in Hn. rewrite lookup_singleton in Hn.
      repeat case_decide; simplify_eq; simpl;
        (split; [lia |]); intros p Ep; simplify_eq; (split; [lia |]); eexists; reflexivity.
    + intros h Eh. injection Eh as <-. eexists. reflexivity.
  - repeat (econstructor; [reflexivity |]). constructor.
Qed.

Lemma traverse_correct_witness :
  exists l', traverse 4 (rbegin sample) sample = Ok ([2; 0], l').
Proof.
  destruct list_sample_wf as [Hwf Hp].
  destruct (traverse_correct sample [2; 1; 0] Hwf Hp) as (l' & Ht & _).
  exists l'. exact Ht.
Defined.

Lemma allocate_then_erase_witness :
  exists l1 l2, allocate_item 13 sample = Ok (Some 2, l1) /\ erase (Some 2) l1 = Ok l2 /\
    visited l1 [3; 2; 1; 0] = [3; 2; 0] /\ visited l2 [3; 2; 1; 0] = [3; 0].
Proof.
  destruct list_sample_wf as [Hwf Hp].
  destruct (allocate_then_erase sample 13 [2; 1; 0] 2 Hwf Hp ltac:(left))
    as (l1 & l2 & Ha & He & _).
  exists l1, l2. split; [exact Ha |]. split; [exact He |].
  vm_compute in Ha. injection Ha as <-. vm_compute in He. injection He as <-.
  split; reflexivity.
Defined.

(** * The compare-and-swap loop of [append_item], run concurrently

    Thread [i] appends its own floating control block [i].  One step is one
    atomic access: load [head], store [prev] of the new block, compare and
    swap [head]. *)
Module Concurrent.

Inductive pc : Type :=
  | Load
  | Store (old_head : option nat)
  | Cas (old_head : option nat)
  | Done.

Record state : Type := mkState {
  c_head : option nat;
  c_prev : gmap nat (option nat);
  c_pc : nat -> pc
}.

(** One step of thread [i]; the loop ends at [Done]. *)
Definition thread_step (i : nat) (s : state) : state :=
  match c_pc s i with
  | Load => mkState (c_head s) (c_prev s) (set_pc i (Store (c_head s)) (c_pc s))
  | Store old => mkState (c_head s) (<[i := old]> (c_prev s)) (set_pc i (Cas old) (c_pc s))
  | Cas old =>
      if decide (c_head s = old)
      then mkState (Some i) (c_prev s) (set_pc i Done (c_pc s))
      else mkState (c_head s) (c_prev s) (set_pc i Load (c_pc s))
  | Done => s
  end.

Definition step (s s' : state) : Prop := exists i, s' = thread_step i s.

(** The list is empty and no thread has started. *)
Definition init (s : state) : Prop :=
  c_head s = None /\ c_prev s = ∅ /\ forall i, c_pc s i = Load.

Inductive chain (prevs : gmap nat (option nat)) : option nat -> list nat -> Prop :=
  | chain_nil : chain prevs None []
  | chain_cons i p ids : prevs !! i = Some p -> chain prevs p ids -> chain prevs (Some i) (i :: ids).

Lemma chain_insert prevs o ids i p :
  chain prevs o ids -> i ∉ ids -> chain (<[i := p]> prevs) o ids.
Proof.
  intros H. induction H as [| j q ids Hj H IH]; intros Hi; [constructor |].
  apply not_elem_of_cons in Hi as [Hne Hi].
  econstructor; [rewrite lookup_insert_ne by congruence; exact Hj | auto].
Qed.

(** The appended blocks form a chain without repetition, and a thread about to
    compare and swap has linked its block to the head it loaded. *)
Definition inv (s : state) : Prop :=
  (exists ids, chain (c_prev s) (c_head s) ids /\ NoDup ids /\
     forall i, i ∈ ids <-> c_pc s i = Done) /\
  (forall i old, c_pc s i = Cas old -> c_prev s !! i = Some old).

Lemma set_pc_done i p f j :
  f i <> Done -> p <> Done -> set_pc i p f j = Done <-> f j = Done.
Proof.
  intros Hf Hp. destruct (decide (j = i)) as [-> |].
  - rewrite set_pc_eq. split; congruence.
  - rewrite set_pc_ne by congruence. reflexivity.
Qed.

Lemma append_inv_init s : init s -> inv s.
Proof.
  intros (Hh & Hp & Hpc). split.
  - exists []. rewrite Hh. split; [constructor |]. split; [constructor |].
    intros i. rewrite Hpc. split; [intros H; inversion H | discriminate].
  - intros i old H. rewrite Hpc in H. discriminate.
Qed.

Lemma append_inv_step s s' : inv s -> step s s' -> inv s'.
Proof.
  intros [(ids & Hc & Hnd & Hdone) Hcas] (i & ->). unfold thread_step.
  destruct (c_pc s i) as [| old | old |] eqn:Ei.
  - split; simpl.
    + exists ids. split; [exact Hc |]. split; [exact Hnd |]. intros j.
      rewrite Hdone, set_pc_done by congruence. reflexivity.
    + intros j old Hj. destruct (decide (j = i)) as [-> |].
      * rewrite set_pc_eq in Hj. discriminate.
      * rewrite set_pc_ne in Hj by congruence. auto.
  - assert (Hi : i ∉ ids) by (rewrite Hdone; congruence).
    split; simpl.
    + exists ids. split; [apply chain_insert; assumption |]. split; [exact Hnd |]. intros j.
      rewrite Hdone, set_pc_done by congruence. reflexivity.
    + intros j old' Hj. destruct (decide (j = i)) as [-> |].
      * rewrite set_pc_eq in Hj. injection Hj as ->. apply lookup_insert_eq.
      * rewrite set_pc_ne in Hj by congruence. rewrite lookup_insert_ne by congruence. auto.
  - assert (Hi : i ∉ ids) by (rewrite Hdone; congruence).
    destruct (decide (c_head s = old)) as [Eh | Hne]; split; simpl.
    + exists (i :: ids). split; [| split].
      * econstructor; [apply Hcas; exact Ei | rewrite <- Eh; exact Hc].
      * constructor; assumption.
      * intros j. rewrite elem_of_cons, Hdone. destruct (decide (j = i)) as [-> |].
        -- rewrite set_pc_eq. tauto.
        -- rewrite set_pc_ne by congruence. tauto.
    + intros j old' Hj. destruct (decide (j = i)) as [-> |].
      * rewrite set_pc_eq in Hj. discriminate.
      * rewrite set_pc_ne in Hj by congruence. auto.
    + exists ids. split; [exact Hc |]. split; [exact Hnd |]. intros j.
      rewrite Hdone, set_pc_done by congruence. reflexivity.
    + intros j old' Hj. destruct (decide (j = i)) as [-> |].
      * rewrite set_pc_eq in Hj. discriminate.
      * rewrite set_pc_ne in Hj by congruence. auto.
  - split; [exists ids; auto | exact Hcas].
Qed.

(** (append): however the threads interleave, the blocks whose [append_item]
    has returned are exactly the blocks reachable from [head], each once: no
    append is lost and none links the list into a cycle. *)
Theorem append_all_linked (s : state) (Hr : reachable init step s) :
  exists ids, chain (c_prev s) (c_head s) ids /\ NoDup ids /\
    forall i, i ∈ ids <-> c_pc s i = Done.
Proof.
  exact (proj1 (reachable_invariant init step inv append_inv_init append_inv_step s Hr)).
Qed.

Definition start : state := mkState None ∅ (fun _ => Load).

(** Thread 0 loses the race against thread 1 and retries. *)
Definition schedule : list nat := [0; 0; 1; 1; 1; 0; 0; 0; 0].

Lemma append_run_reachable (tr : list nat) (s : state) :
  reachable init step s -> reachable init step (fold_left (fun s i => thread_step i s) tr s).
Proof.
  revert s. induction tr as [| i tr IH]; intros s H; simpl; [exact H |].
  apply IH. eapply reachable_step; [exact H |]. exists i. reflexivity.
Qed.

Lemma append_all_linked_witness :
  let s := fold_left (fun s i => thread_step i s) schedule start in
  c_head s = Some 0 /\ c_pc s 0 = Done /\ c_pc s 1 = Done /\
  exists ids, chain (c_prev s) (c_head s) ids /\ NoDup ids /\
    forall i, i ∈ ids <-> c_pc s i = Done.
Proof.
  split; [vm_compute; reflexivity |]. split; [vm_compute; reflexivity |].
  split; [vm_compute; reflexivity |].
  apply (append_all_linked (fold_left (fun s i => thread_step i s) schedule start)).
  apply append_run_reachable, reachable_init. repeat split.
Defined.

End Concurrent.

End AtomicList.
