(* ===== verification/Memory.v ===== *)
(** Memory blocks and the bump allocator of [redGrapes/memory/block.hpp] and
    [bump_allocator.hpp], and the size classes of [ChunkedBumpAlloc].  Addresses
    are 64-bit words. *)

From Stdlib Require Import ZArith Lia Bool.
From stdpp Require Import base list.
From S2P Require Import Prelude.

Open Scope Z_scope.
Open Scope word_scope.

Module Memory.

(** ** Blocks *)

Record Block : Type := mkBlock { ptr : Z; len : Z }.

#[export] Instance Block_eq_dec : EqDecision Block.
Proof. solve_decision. Defined.

Definition block_eqb (a b : Block) : bool := (ptr a =? ptr b) && (len a =? len b).

(** [operator bool] *)
Definition block_bool (b : Block) : bool := negb (ptr b =? 0).

Definition null : Block := mkBlock 0 0.

(** ** BumpAllocator *)

Record BumpAllocator : Type := mkBump {
  next_addr : Z;
  count : Z;
  lower_limit : Z;
  upper_limit : Z
}.

Definition make_bump (blk : Block) : BumpAllocator :=
  let upper := u64 (ptr blk + len blk) in mkBump upper 0 (ptr blk) upper.

Definition reset (a : BumpAllocator) : BumpAllocator :=
  mkBump (upper_limit a) 0 (lower_limit a) (upper_limit a).

Definition bump_empty (a : BumpAllocator) : bool := count a =? 0.

Definition full (a : BumpAllocator) : bool := next_addr a <=? lower_limit a.

Definition owns (blk : Block) (a : BumpAllocator) : bool :=
  (lower_limit a <=? ptr blk) && (ptr blk <? upper_limit a).

Definition bump_allocate (n_bytes : Z) (a : BumpAllocator) : Block * BumpAllocator :=
  let addr := u64 (next_addr a - n_bytes) in
  if lower_limit a <=? addr
  then (mkBlock addr n_bytes, mkBump addr (u16 (count a + 1)) (lower_limit a) (upper_limit a))
  else (null, mkBump addr (count a) (lower_limit a) (upper_limit a)).

(** The number of allocations before this one was given back. *)
Definition bump_deallocate (blk : Block) (a : BumpAllocator) : res (Z * BumpAllocator) :=
  _ ← cpp_assert (owns blk a);
  Ok (count a, mkBump (next_addr a) (u16 (count a - 1)) (lower_limit a) (upper_limit a)).

(** ** Size classes *)

Definition smear (k s : Z) : Z := Z.lor s (Z.shiftr s k).

Definition roundup_to_poweroftwo (s : Z) : Z :=
  let s := u64 (s - 1) in
  let s := smear 0x1 s in
  let s := smear 0x2 s in
  let s := smear 0x4 s in
  let s := smear 0x8 s in
  let s := smear 0x10 s in
  let s := smear 0x20 s in
  u64 (s + 1).

(** *** Correctness of the bit trick *)

Lemma existsb_zrange_iff (p : Z -> bool) a b : existsb p (zrange a b) = true <-> exists i, a <= i < b /\ p i = true.
Proof.
  rewrite existsb_exists. split; intros (i & Hi & Hp); exists i.
  - apply list_elem_of_In, elem_of_zrange in Hi. auto.
  - split; [apply list_elem_of_In, elem_of_zrange, Hi | exact Hp].
Qed.

(** [y] has a bit exactly where [x] has one at most [m - 1] places further up. *)
Definition smeared (m x y : Z) : Prop :=
  forall i, 0 <= i -> Z.testbit y i = existsb (fun d => Z.testbit x (i + d)) (zrange 0 m).

Lemma smeared_refl x : smeared 1 x x.
Proof. intros i Hi. simpl. rewrite orb_false_r. f_equal. lia. Qed.

Lemma smeared_step m x y : 0 < m -> smeared m x y -> smeared (2 * m) x (smear m y).
Proof.
  intros Hm H i Hi. unfold smear. rewrite Z.lor_spec, Z.shiftr_spec, !H by lia.
  rewrite <- (zrange_app 0 m (2 * m)), existsb_app by lia. f_equal.
  replace (2 * m) with (m + m) by lia. replace (zrange m (m + m)) with (zrange (m + 0) (m + m)) by (f_equal; lia).
  rewrite zrange_shift. apply eq_true_iff_eq. rewrite !existsb_exists.
  split; intros (d & Hd & Hb).
  - exists (m + d). split; [apply in_map, Hd | rewrite <- Hb; f_equal; lia].
  - apply in_map_iff in Hd as (e & <- & He). exists e. split; [exact He | rewrite <- Hb; f_equal; lia].
Qed.

Lemma smeared_ones x y : 0 < x < 2 ^ 64 -> smeared 64 x y -> 0 <= y -> y = Z.ones (Z.log2 x + 1).
Proof.
  intros Hx H Hy. apply Z.bits_inj'. intros i Hi. rewrite H by exact Hi.
  assert (Hl : 0 <= Z.log2 x < 64) by (split; [apply Z.log2_nonneg | apply Z.log2_lt_pow2; lia]).
  rewrite Z.testbit_ones_nonneg by lia. apply eq_true_iff_eq.
  rewrite existsb_zrange_iff, Z.ltb_lt. split.
  - intros (d & Hd & Hb). destruct (Z.lt_ge_cases i (Z.log2 x + 1)) as [| Hge]; [assumption |].
    rewrite Z.bits_above_log2 in Hb by lia. discriminate.
  - intros Hlt. exists (Z.log2 x - i). split; [lia |].
    replace (i + (Z.log2 x - i)) with (Z.log2 x) by lia. apply Z.bit_log2. lia.
Qed.

Lemma smear_nonneg k s : 0 <= s -> 0 <= smear k s.
Proof. intros Hs. unfold smear. apply Z.lor_nonneg. split; [exact Hs | apply Z.shiftr_nonneg, Hs]. Qed.

Lemma roundup_eq s : 1 < s <= 2 ^ 63 -> roundup_to_poweroftwo s = 2 ^ (Z.log2 (s - 1) + 1).
Proof.
  intros Hs. unfold roundup_to_poweroftwo. rewrite (wrap_small 64 (s - 1)) by lia. set (x := s - 1).
  assert (Hx : 0 < x < 2 ^ 63) by lia.
  set (y := smear 0x20 _).
  assert (Hy : smeared 64 x y).
  { repeat match goal with |- smeared ?m _ _ =>
      first [apply smeared_refl | apply (smeared_step (m / 2)); [reflexivity |]] end. }
  assert (H0 : 0 <= y) by (repeat apply smear_nonneg; lia).
  rewrite (smeared_ones x y) by (lia || assumption).
  assert (Hl : 0 <= Z.log2 x < 63) by (split; [apply Z.log2_nonneg | apply Z.log2_lt_pow2; lia]).
  rewrite Z.ones_equiv. replace (Z.pred (2 ^ (Z.log2 x + 1)) + 1) with (2 ^ (Z.log2 x + 1)) by lia.
  apply wrap_small. split; [apply Z.pow_nonneg; lia |]. apply Z.pow_lt_mono_r; lia.
Qed.

(** (roundup): a request of 1 to 2^63 bytes is rounded to the least power of
    two that holds it; the sizes outside of that range become 0. *)
Theorem roundup_correct (s : Z) :
  (1 <= s <= 2 ^ 63 -> exists k, 0 <= k <= 63 /\ roundup_to_poweroftwo s = 2 ^ k /\ s <= 2 ^ k < 2 * s) /\
  (s = 0 \/ 2 ^ 63 < s < 2 ^ 64 -> roundup_to_poweroftwo s = 0).
Proof.
  split.
  - intros Hs. destruct (Z.eq_dec s 1) as [-> | Hne]; [exists 0; vm_compute; intuition congruence |].
    exists (Z.log2 (s - 1) + 1). rewrite roundup_eq by lia.
    pose proof (Z.log2_spec (s - 1) ltac:(lia)) as [Hlo Hhi]. pose proof (Z.log2_nonneg (s - 1)).
    assert (Z.log2 (s - 1) < 63) by (apply Z.log2_lt_pow2; lia).
    rewrite Z.pow_succ_r in Hhi by lia. rewrite Z.pow_add_r by lia. change (2 ^ 1) with 2.
    split; [lia |]. split; [reflexivity | lia].
  - intros [-> | Hs]; [vm_compute; reflexivity |].
    unfold roundup_to_poweroftwo. rewrite (wrap_small 64 (s - 1)) by lia. set (x := s - 1).
    assert (Hx : 2 ^ 63 <= x < 2 ^ 64) by lia. set (y := smear 0x20 _).
    assert (Hy : smeared 64 x y).
    { repeat match goal with |- smeared ?m _ _ =>
        first [apply smeared_refl | apply (smeared_step (m / 2)); [reflexivity |]] end. }
    assert (H0 : 0 <= y) by (repeat apply smear_nonneg; lia).
    rewrite (smeared_ones x y) by (lia || assumption).
    assert (El : Z.log2 x = 63).
    { apply Z.log2_unique; [lia |]. split; [lia |]. change (2 ^ Z.succ 63) with (2 ^ 64). lia. }
    rewrite El. reflexivity.
Qed.

Lemma roundup_correct_witness : exists k, 0 <= k <= 63 /\ roundup_to_poweroftwo 48 = 2 ^ k /\ 48 <= 2 ^ k < 2 * 48.
Proof. apply (proj1 (roundup_correct 48)). lia. Defined.

(** ** Blocks handed out by a bump allocator *)

Definition disjoint (a b : Block) : Prop := ptr a + len a <= ptr b \/ ptr b + len b <= ptr a.

(** [live] are the blocks handed out and not given back. *)
Record bump_wf (a : BumpAllocator) (live : list Block) : Prop := {
  bw_limits : 0 < lower_limit a <= upper_limit a /\ upper_limit a < 2 ^ 64;
  bw_next : 0 <= next_addr a <= upper_limit a;
  bw_count : count a = Z.of_nat (length live);
  bw_bytes : Z.of_nat (length live) <= upper_limit a - Z.max (next_addr a) (lower_limit a);
  bw_live : forall b, b ∈ live -> lower_limit a <= ptr b /\ 0 < len b /\ next_addr a <= ptr b /\
    ptr b + len b <= upper_limit a;
  bw_disjoint : forall i j b c, live !! i = Some b -> live !! j = Some c -> i <> j -> disjoint b c
}.

Lemma make_bump_wf blk : 0 < ptr blk -> 0 <= len blk -> ptr blk + len blk < 2 ^ 64 -> bump_wf (make_bump blk) [].
Proof.
  intros H1 H2 H3. unfold make_bump. rewrite wrap_small by lia. constructor; simpl.
  - lia.
  - lia.
  - lia.
  - lia.
  - intros b Hb. inversion Hb.
  - intros i j b c Hi. rewrite lookup_nil in Hi. discriminate.
Qed.

Lemma bump_allocate_ok n a live :
  bump_wf a live -> 0 < n -> upper_limit a - lower_limit a < 2 ^ 16 -> lower_limit a <= next_addr a - n ->
  exists b a', bump_allocate n a = (b, a') /\ len b = n /\ bump_wf a' (b :: live) /\
    lower_limit a' = lower_limit a /\ upper_limit a' = upper_limit a /\
    (forall c, c ∈ live -> disjoint b c).
Proof.
  intros [Hl Hn Hc Hbs Hv Hd] Hpos Hroom Hfit. unfold bump_allocate. rewrite (wrap_small 64) by lia.
  replace (lower_limit a <=? next_addr a - n) with true by lia.
  rewrite (wrap_small 16) by lia. eexists _, _. split; [reflexivity |]. split; [reflexivity |].
  assert (Hdis : forall c, c ∈ live -> disjoint (mkBlock (next_addr a - n) n) c).
  { intros c Hin. destruct (Hv c Hin) as (_ & _ & Hnx & _). left. simpl. lia. }
  split; [| split; [reflexivity | split; [reflexivity | exact Hdis]]].
  constructor; simpl.
  - exact Hl.
  - lia.
  - lia.
  - lia.
  - intros b Hb. apply elem_of_cons in Hb as [-> | Hb]; [simpl; lia |]. destruct (Hv b Hb) as (? & ? & ? & ?). lia.
  - intros [| i] [| j] b c Hi Hj Hne; simpl in Hi, Hj.
    + lia.
    + injection Hi as <-. apply Hdis. eapply list_elem_of_lookup_2; eassumption.
    + injection Hj as <-. destruct (Hdis b) as [Hx | Hx]; [eapply list_elem_of_lookup_2; eassumption | right; exact Hx | left; exact Hx].
    + eapply Hd; eauto.
Qed.

Lemma bump_allocate_full n a live :
  bump_wf a live -> 0 < n <= next_addr a -> next_addr a - n < lower_limit a ->
  exists a', bump_allocate n a = (null, a') /\ bump_wf a' live /\
    lower_limit a' = lower_limit a /\ upper_limit a' = upper_limit a /\ full a' = true.
Proof.
  intros [Hl Hn Hc Hbs Hv Hd] Hpos Hfit. unfold bump_allocate. rewrite (wrap_small 64) by lia.
  replace (lower_limit a <=? next_addr a - n) with false by lia.
  eexists. split; [reflexivity |]. split; [| split; [reflexivity | split; [reflexivity | unfold full; simpl; lia]]].
  constructor; simpl; auto; [lia | lia |].
  intros b Hb. destruct (Hv b Hb) as (? & ? & ? & ?). lia.
Qed.

Lemma bump_deallocate_ok b a l1 l2 :
  bump_wf a (l1 ++ b :: l2) -> upper_limit a - lower_limit a < 2 ^ 16 ->
  exists a', bump_deallocate b a = Ok (Z.of_nat (length (l1 ++ b :: l2)), a') /\ bump_wf a' (l1 ++ l2) /\
    lower_limit a' = lower_limit a /\ upper_limit a' = upper_limit a /\ next_addr a' = next_addr a.
Proof.
  intros [Hl Hn Hc Hbs Hv Hd] Hcap. destruct (Hv b) as (Hb1 & Hb2 & Hb3 & Hb4); [apply elem_of_app; right; left |].
  unfold bump_deallocate, owns.
  replace ((lower_limit a <=? ptr b) && (ptr b <? upper_limit a)) with true by lia.
  cbn [cpp_assert mbind res_bind]. rewrite Hc.
  assert (El : length (l1 ++ b :: l2) = S (length (l1 ++ l2))) by (rewrite !length_app; simpl; lia).
  rewrite (wrap_small 16) by lia.
  eexists. split; [reflexivity |]. split; [| split; [reflexivity | split; reflexivity]]. constructor; simpl; auto.
  - lia.
  - lia.
  - intros c Hin. apply Hv. apply elem_of_app in Hin as [Hin | Hin]; apply elem_of_app; [left; exact Hin | right; right; exact Hin].
  - assert (Hsh : forall i c, (l1 ++ l2) !! i = Some c ->
      (l1 ++ b :: l2) !! (if (i <? length l1)%nat then i else S i) = Some c).
    { intros i c Hi. destruct (Nat.ltb_spec i (length l1)) as [Hlt | Hge].
      - rewrite lookup_app_l in Hi |- * by lia. exact Hi.
      - rewrite lookup_app_r in Hi by lia. rewrite lookup_app_r by lia.
        replace (S i - length l1)%nat with (S (i - length l1)) by lia. exact Hi. }
    intros i j c d Hi Hj Hne. apply Hsh in Hi, Hj. eapply Hd; [exact Hi | exact Hj |].
    destruct (Nat.ltb_spec i (length l1)), (Nat.ltb_spec j (length l1)); lia.
Qed.
End Memory.
