(* ===== verification/ChunkedBump.v ===== *)
(** The allocator of a worker, [ChunkedBumpAlloc] of
    [redGrapes/memory/chunked_bump_alloc.hpp]: a list of bump allocators over
    chunks of memory.  The memory of the chunks comes from the backing allocator
    (hwloc), which is a parameter. *)

From Stdlib Require Import ZArith Lia Bool.
From stdpp Require Import base list gmap.
From S2P Require Import Prelude AtomicList Memory.

Open Scope Z_scope.
Open Scope word_scope.

Module ChunkedBump.
Import AtomicList Memory.

Section ChunkedBump.
(** [sizeof(ItemControlBlock)], [sizeof(BumpAllocator)], the capacity of a chunk,
    and the address the backing allocator returns for each chunk. *)
Context (sizeof_cb sizeof_bump chunk_size : Z) (chunk_ptr : nat -> Z).

(** How many chunks the memory has room for. *)
Context (max_chunks : nat).

Definition ChunkedBumpAlloc : Type := AtomicList BumpAllocator.

Implicit Types (l : ChunkedBumpAlloc).

Definition no_chunks : ChunkedBumpAlloc := empty_list.

(** The bump allocator in a new chunk manages the rest of the chunk. *)
Definition new_chunk (id : nat) : BumpAllocator :=
  let '(p, n) := item_block sizeof_cb sizeof_bump (chunk_ptr id) chunk_size in make_bump (mkBlock p n).

Definition add_chunk l : res ChunkedBumpAlloc :=
  '(_, l) ← allocate_item (new_chunk (next_id l)) l; Ok l.

(** The loop of [allocate]. *)
Fixpoint alloc_loop (fuel : nat) (alloc_size : Z) l : res (Block * ChunkedBumpAlloc) :=
  match fuel with
  | O => Err OutOfFuel
  | S fuel =>
      match rbegin l with
      | Some chunk =>
          a ← AtomicList.get chunk l;
          let '(blk, a) := bump_allocate alloc_size a in
          l ← set_data chunk a l;
          if block_bool blk then Ok (blk, l) else l ← add_chunk l; alloc_loop fuel alloc_size l
      | None => l ← add_chunk l; alloc_loop fuel alloc_size l
      end
  end.

(** Three rounds: no chunk, a full chunk, the new chunk. *)
Definition alloc_fuel : nat := 3.

Definition allocate (n : Z) l : res (Block * ChunkedBumpAlloc) :=
  let alloc_size := roundup_to_poweroftwo n in
  if alloc_size <=? chunk_size then alloc_loop alloc_fuel alloc_size l else Ok (null, l).

(** The loop of [deallocate]; a block of no chunk is ignored. *)
Fixpoint dealloc_loop (fuel : nat) (pr it : BackwardIterator) (blk : Block) l : res ChunkedBumpAlloc :=
  match fuel with
  | O => Err OutOfFuel
  | S fuel =>
      match it with
      | None => Ok l
      | Some chunk =>
          a ← AtomicList.get chunk l;
          if owns blk a then
            '(old_count, a) ← bump_deallocate blk a;
            l ← set_data chunk a l;
            if (old_count =? 1) && full a then l ← erase it l; optimize pr l else Ok l
          else
            '(next, l) ← iter_next it l;
            dealloc_loop fuel it next blk l
      end
  end.

Definition deallocate (blk : Block) l : res ChunkedBumpAlloc :=
  dealloc_loop (S (next_id l)) (rbegin l) (rbegin l) blk l.

(** ** What is assumed of the backing allocator *)

Definition lower (id : nat) : Z := chunk_ptr id + get_controlblock_size sizeof_cb + sizeof_bump.
Definition upper (id : nat) : Z := chunk_ptr id + chunk_size.

(** The bytes of a chunk that can be handed out. *)
Definition usable : Z := chunk_size - get_controlblock_size sizeof_cb - sizeof_bump.

(** Chunks do not overlap, lie within the address space and not in its first
    [chunk_size] bytes; a chunk holds less than 2^16 bytes. *)
Record backing : Prop := {
  bk_sizes : 0 <= sizeof_cb /\ 0 <= sizeof_bump /\ 0 <= usable < 2 ^ 16;
  bk_range : forall id, (id < max_chunks)%nat -> chunk_size <= chunk_ptr id /\ chunk_ptr id + get_chunk_allocsize sizeof_cb chunk_size < 2 ^ 64;
  bk_disjoint : forall i j, (i < max_chunks)%nat -> (j < max_chunks)%nat -> i <> j -> upper i <= chunk_ptr j \/ upper j <= chunk_ptr i
}.

Context (Hbk : backing).

Lemma new_chunk_eq id : (id < max_chunks)%nat -> new_chunk id = mkBump (upper id) 0 (lower id) (upper id).
Proof.
  intros Hid. destruct (bk_sizes Hbk) as (H1 & H2 & H3). pose proof (bk_range Hbk id Hid) as Hr.
  unfold usable, get_chunk_allocsize, get_controlblock_size, shared_ptr_size in *.
  unfold new_chunk, item_block, get_controlblock_size, shared_ptr_size, make_bump. simpl.
  unfold lower, upper, get_controlblock_size, shared_ptr_size.
  rewrite (wrap_small 64 (chunk_ptr id + (sizeof_cb + 512))) by lia.
  rewrite (wrap_small 64 (chunk_size - (sizeof_cb + 512))) by lia.
  rewrite (wrap_small 64 (chunk_ptr id + (sizeof_cb + 512) + sizeof_bump)) by lia.
  rewrite (wrap_small 64 (chunk_size - (sizeof_cb + 512) - sizeof_bump)) by lia.
  rewrite (wrap_small 64) by lia. f_equal; lia.
Qed.

Lemma limits id : (id < max_chunks)%nat -> 0 < lower id <= upper id /\ upper id < 2 ^ 64 /\ upper id - lower id = usable /\
  chunk_ptr id <= lower id /\ usable <= lower id.
Proof.
  intros Hid. destruct (bk_sizes Hbk) as (H1 & H2 & H3). pose proof (bk_range Hbk id Hid) as Hr.
  unfold lower, upper, usable, get_chunk_allocsize, get_controlblock_size, shared_ptr_size in *. lia.
Qed.

(** ** The invariant; [live id] are the blocks of chunk [id] in use *)

Implicit Types live : nat -> list Block.

Record CB0 l live : Prop := {
  cb_wf : wf l;
  cb_max : (next_id l <= max_chunks)%nat;
  cb_chunk : forall id n, nodes l !! id = Some n ->
    bump_wf (item_data n) (live id) /\ lower_limit (item_data n) = lower id /\
    upper_limit (item_data n) = upper id /\
    (deleted n = true -> live id = [] /\ full (item_data n) = true);
  cb_path : exists ids, path l (head l) ids /\ forall id, live id <> [] -> id ∈ ids
}.

(** The newest chunk never overflowed: an overflow makes a newer one. *)
Definition head_ok l : Prop :=
  forall h n, head l = Some h -> nodes l !! h = Some n -> lower h <= next_addr (item_data n).

Definition CB l live : Prop := CB0 l live /\ head_ok l.

Definition update (id : nat) (bs : list Block) live : nat -> list Block :=
  fun j => if decide (id = j) then bs else live j.

Lemma update_eq id bs live : update id bs live id = bs.
Proof. unfold update. rewrite decide_True by reflexivity. reflexivity. Qed.

Lemma update_ne id bs live j : id <> j -> update id bs live j = live j.
Proof. intros Hne. unfold update. rewrite decide_False by exact Hne. reflexivity. Qed.

Lemma CB_empty : CB no_chunks (fun _ => []).
Proof.
  split; [constructor |].
  - apply list_wf_empty.
  - simpl. lia.
  - intros id n Hn. simpl in Hn. rewrite lookup_empty in Hn. discriminate.
  - exists []. split; [constructor | intros id Hn; congruence].
  - intros h n Hh. discriminate.
Qed.

Lemma live_node l live id : CB0 l live -> live id <> [] ->
  exists n, nodes l !! id = Some n /\ deleted n = false.
Proof.
  intros [Hwf Hmax Hc (ids & Hp & Hin)] Hl. pose proof (path_ids l _ _ Hwf Hp) as Hids.
  rewrite Forall_forall in Hids. destruct (Hids id (Hin id Hl)) as [[n Hn] _].
  exists n. split; [exact Hn |]. destruct (deleted n) eqn:Ed; [| reflexivity].
  destruct (Hc id n Hn) as (_ & _ & _ & Hd). destruct (Hd Ed). contradiction.
Qed.

Lemma node_lt l live id n : CB0 l live -> nodes l !! id = Some n -> (id < max_chunks)%nat.
Proof.
  intros Hcb Hn. pose proof (cb_max _ _ Hcb). pose proof (proj1 (wf_prev l (cb_wf _ _ Hcb) id n Hn)). lia.
Qed.

Lemma set_data_eq l id n d : nodes l !! id = Some n ->
  set_data id d l = Ok (put_node id (mkCB (deleted n) (prev n) d) l).
Proof. intros Hn. unfold set_data, get_node. rewrite Hn. reflexivity. Qed.

Lemma CB_ext l live live' : (forall id, live' id = live id) -> CB l live' -> CB l live.
Proof.
  intros E [[Hwf Hmax Hc (ids & Hp & Hin)] Hh]. split; [constructor | exact Hh].
  - exact Hwf.
  - exact Hmax.
  - intros id n Hn. rewrite <- E. auto.
  - exists ids. split; [exact Hp |]. intros id. rewrite <- E. auto.
Qed.

(** Replacing one chunk. *)
Lemma CB0_put l live id n n' bs :
  CB0 l live -> nodes l !! id = Some n -> prev n' = prev n ->
  bump_wf (item_data n') bs -> lower_limit (item_data n') = lower id -> upper_limit (item_data n') = upper id ->
  (deleted n' = true -> bs = [] /\ full (item_data n') = true) ->
  (bs <> [] -> live id <> [] \/ head l = Some id) ->
  CB0 (put_node id n' l) (update id bs live).
Proof.
  intros [Hwf Hmax Hc (ids & Hp & Hin)] Hn Eprev Hb Hlo Hup Hdel Hmem. constructor.
  - eapply wf_put_same_prev; eassumption.
  - exact Hmax.
  - intros j m Hm. simpl in Hm. apply lookup_insert_Some in Hm as [(<- & <-) | (Hne & Hm)].
    + rewrite update_eq. auto.
    + rewrite update_ne by exact Hne. auto.
  - exists ids. split; [eapply path_same_prev; [exact Hp | eapply put_same_prev; eassumption] |].
    intros j Hj. destruct (decide (id = j)) as [<- | Hne].
    + rewrite update_eq in Hj. destruct (Hmem Hj) as [Hl | Hhe]; [auto |].
      rewrite Hhe in Hp. inversion Hp; subst. left.
    + rewrite update_ne in Hj by exact Hne. auto.
Qed.

Lemma head_ok_put l id n' :
  head_ok l -> (head l = Some id -> lower id <= next_addr (item_data n')) -> head_ok (put_node id n' l).
Proof.
  intros Hh Hn h m Eh Hm. simpl in Hm. apply lookup_insert_Some in Hm as [(<- & <-) | (Hne & Hm)]; [auto | eauto].
Qed.

(** Adding a chunk: it becomes the head, fresh. *)
Lemma add_chunk_ok l live : CB0 l live -> (next_id l < max_chunks)%nat ->
  exists l', add_chunk l = Ok l' /\ CB l' live /\ head l' = Some (next_id l) /\
    nodes l' !! next_id l = Some (mkCB false (head l) (new_chunk (next_id l))) /\ live (next_id l) = [] /\
    next_id l' = S (next_id l).
Proof.
  intros Hcb Hroom. pose proof Hcb as [Hwf Hmax Hc (ids & Hp & Hin)].
  assert (Hfresh : live (next_id l) = []).
  { destruct (live (next_id l)) eqn:E; [reflexivity |]. exfalso.
    destruct (live_node l live (next_id l) Hcb) as (n & Hn & _); [congruence |].
    pose proof (proj1 (wf_prev l Hwf _ _ Hn)). lia. }
  destruct (allocate_item_spec l (new_chunk (next_id l)) ids Hwf Hp) as (l' & E & Hwf' & Hp' & Hh' & Hn' & Hnx & Ho).
  exists l'. unfold add_chunk. rewrite E. cbn [mbind res_bind]. split; [reflexivity |].
  destruct (limits (next_id l) Hroom) as (L1 & L2 & L3 & L4 & L5).
  split; [| split; [exact Hh' | split; [exact Hn' | split; [exact Hfresh | exact Hnx]]]].
  split; [constructor |].
  - exact Hwf'.
  - lia.
  - intros id n Hn. destruct (decide (id = next_id l)) as [-> | Hne].
    + rewrite Hn' in Hn. injection Hn as <-. cbn [item_data deleted]. rewrite Hfresh, new_chunk_eq by exact Hroom.
      cbn [lower_limit upper_limit next_addr count].
      split; [| split; [reflexivity | split; [reflexivity | discriminate]]].
      constructor; simpl; try lia.
      * intros b Hb. inversion Hb.
      * intros i j b c Hi. rewrite lookup_nil in Hi. discriminate.
    + rewrite Ho in Hn by exact Hne. auto.
  - exists (next_id l :: ids). split; [exact Hp' |]. intros id Hid. right. auto.
  - intros h n Eh Hn. rewrite Hh' in Eh. injection Eh as <-. rewrite Hn' in Hn. injection Hn as <-.
    cbn [item_data]. rewrite new_chunk_eq by exact Hroom. cbn [next_addr]. lia.
Qed.

(** ** Allocation *)

(** The result of an allocation of [s] bytes. *)
Definition allocated (s : Z) l live (r : res (Block * ChunkedBumpAlloc)) : Prop :=
  exists blk l' c, r = Ok (blk, l') /\ len blk = s /\ block_bool blk = true /\
    lower c <= ptr blk /\ ptr blk + s <= upper c /\
    (forall id b, b ∈ live id -> disjoint blk b) /\ CB l' (update c (blk :: live c) live).

Lemma other_chunk l live c id blk b :
  CB0 l live -> (c < max_chunks)%nat -> lower c <= ptr blk -> ptr blk + len blk <= upper c -> c <> id -> b ∈ live id -> disjoint blk b.
Proof.
  intros Hcb Hc H1 H2 Hne Hb.
  destruct (live_node l live id Hcb) as (n & Hn & _); [intros E; rewrite E in Hb; inversion Hb |].
  destruct (cb_chunk _ _ Hcb id n Hn) as (Hw & El & Eu & _).
  destruct (bw_live _ _ Hw b Hb) as (B1 & B2 & B3 & B4).
  pose proof (node_lt l live id n Hcb Hn) as Hid.
  destruct (limits c Hc) as (_ & _ & _ & C1 & _). destruct (limits id Hid) as (_ & _ & _ & C2 & _).
  unfold disjoint. destruct (bk_disjoint Hbk c id Hc Hid Hne) as [Hd | Hd]; lia.
Qed.

(** The head has room. *)
Lemma alloc_head l live s h n fuel :
  CB l live -> head l = Some h -> nodes l !! h = Some n -> deleted n = false -> 0 < s ->
  lower h <= next_addr (item_data n) - s -> allocated s l live (alloc_loop (S fuel) s l).
Proof.
  intros [Hcb Hhd] Hh Hn Hdel Hs Hfit. destruct (cb_chunk _ _ Hcb h n Hn) as (Hw & El & Eu & _).
  pose proof (node_lt l live h n Hcb Hn) as Hid.
  destruct (limits h Hid) as (L1 & L2 & L3 & L4 & L5). destruct (bk_sizes Hbk) as (_ & _ & Hus).
  destruct (bump_allocate_ok s (item_data n) (live h) Hw Hs ltac:(lia) ltac:(lia))
    as (blk & a' & Ea & Elen & Hw' & El' & Eu' & Hdis).
  cbn [alloc_loop]. unfold rbegin. rewrite Hh. unfold AtomicList.get, get_node. rewrite Hn. simpl fmap.
  cbn [mbind res_bind]. rewrite Ea, (set_data_eq l h n a' Hn). cbn [mbind res_bind].
  destruct (bw_live _ _ Hw' blk ltac:(left)) as (B1 & B2 & B3 & B4).
  assert (Hbool : block_bool blk = true) by (unfold block_bool; lia). rewrite Hbool.
  exists blk. eexists. exists h. split; [reflexivity |]. split; [exact Elen |]. split; [exact Hbool |].
  split; [lia |]. split; [lia |]. split.
  - intros id b Hb. destruct (decide (h = id)) as [<- | Hne]; [auto |].
    apply (other_chunk l live h id); auto; lia.
  - split; [apply (CB0_put l live h n); simpl; auto; congruence |].
    apply head_ok_put; [exact Hhd |]. simpl.
    intros _. pose proof (bw_next _ _ Hw). unfold bump_allocate in Ea.
    rewrite (wrap_small 64) in Ea by lia.
    replace (lower_limit (item_data n) <=? next_addr (item_data n) - s) with true in Ea by lia.
    injection Ea as <- <-. simpl. lia.
Qed.

Lemma alloc_fresh l live s fuel :
  CB0 l live -> (next_id l < max_chunks)%nat -> 0 < s <= usable ->
  exists l1, add_chunk l = Ok l1 /\ allocated s l live (alloc_loop (S fuel) s l1).
Proof.
  intros Hcb Hroom Hs. destruct (add_chunk_ok l live Hcb Hroom) as (l1 & E & Hcb1 & Hh & Hn & Hf & _).
  exists l1. split; [exact E |].
  destruct (limits (next_id l) Hroom) as (L1 & L2 & L3 & L4 & L5).
  apply (alloc_head l1 live s (next_id l) _ fuel Hcb1 Hh Hn); [reflexivity | lia |].
  cbn [item_data]. rewrite new_chunk_eq by exact Hroom. cbn [next_addr]. lia.
Qed.

(** The head overflows: a new chunk is made. *)
Lemma alloc_overflow l live s h n fuel :
  CB l live -> (next_id l < max_chunks)%nat -> head l = Some h -> nodes l !! h = Some n -> 0 < s <= usable ->
  next_addr (item_data n) - s < lower h -> allocated s l live (alloc_loop (S (S fuel)) s l).
Proof.
  intros [Hcb Hhd] Hroom Hh Hn Hs Hno. pose proof (Hhd h n Hh Hn) as Hnx.
  destruct (cb_chunk _ _ Hcb h n Hn) as (Hw & El & Eu & Hdel).
  pose proof (node_lt l live h n Hcb Hn) as Hid.
  destruct (limits h Hid) as (L1 & L2 & L3 & L4 & L5).
  destruct (bump_allocate_full s (item_data n) (live h) Hw ltac:(lia) ltac:(lia))
    as (a' & Ea & Hw' & El' & Eu' & Hfull).
  remember (S fuel) as fuel' eqn:Ef. cbn [alloc_loop]. unfold rbegin. rewrite Hh.
  unfold AtomicList.get, get_node. rewrite Hn. simpl fmap.
  cbn [mbind res_bind]. rewrite Ea, (set_data_eq l h n a' Hn). cbn [mbind res_bind].
  change (block_bool null) with false. cbn iota.
  set (l0 := put_node h (mkCB (deleted n) (prev n) a') l).
  assert (Hcb0 : CB0 l0 (update h (live h) live)).
  { apply (CB0_put l live h n); simpl; auto; try congruence.
    intros Hd. split; [apply Hdel, Hd | exact Hfull]. }
  destruct (alloc_fresh l0 _ s fuel Hcb0 Hroom Hs) as (l1 & E1 & blk & l' & c & E & B1 & B2 & B3 & B4 & B5 & B6).
  subst fuel'. rewrite E1. cbn [mbind res_bind].
  assert (Eup : forall id, update h (live h) live id = live id)
    by (intros id; unfold update; destruct (decide (h = id)) as [<- |]; reflexivity).
  exists blk, l', c. split; [exact E |]. split; [exact B1 |]. split; [exact B2 |]. split; [exact B3 |].
  split; [exact B4 |]. split; [intros id b Hb; apply (B5 id); rewrite Eup; exact Hb |].
  eapply CB_ext; [| exact B6]. intros id. destruct (decide (c = id)) as [<- | Hne].
  - rewrite !update_eq, Eup. reflexivity.
  - rewrite !(update_ne c) by exact Hne. apply Eup.
Qed.

Lemma alloc_loop_ok l live s : CB l live -> (next_id l < max_chunks)%nat -> 0 < s <= usable -> allocated s l live (alloc_loop alloc_fuel s l).
Proof.
  intros [Hcb Hhd] Hroom Hs. unfold alloc_fuel. destruct (head l) as [h |] eqn:Hh.
  2: { remember 2%nat as fuel eqn:Ef. cbn [alloc_loop]. unfold rbegin. rewrite Hh.
       destruct (alloc_fresh l live s 1 Hcb Hroom Hs) as (l1 & E & Ha). rewrite E. subst fuel. exact Ha. }
  destruct (wf_head l (cb_wf _ _ Hcb) h Hh) as [n Hn].
  destruct (cb_chunk _ _ Hcb h n Hn) as (Hw & El & Eu & Hdel).
  destruct (Z.le_gt_cases (lower h) (next_addr (item_data n) - s)) as [Hfit | Hno].
  - apply (alloc_head l live s h n 2 (conj Hcb Hhd) Hh Hn); [| lia | exact Hfit].
    destruct (deleted n); [| reflexivity]. destruct (Hdel eq_refl) as [_ Hf]. unfold full in Hf. lia.
  - apply (alloc_overflow l live s h n 1 (conj Hcb Hhd) Hroom Hh Hn Hs). lia.
Qed.
(** ** Giving back *)

Lemma CB_skips l l' live : CB l live -> skips l l' -> CB l' live.
Proof.
  intros [[Hwf Hmax Hc (ids & Hp & Hin)] Hh] ((En & Ehd & Hs) & Hwf' & Hpath).
  assert (Hback : forall id n', nodes l' !! id = Some n' -> exists n, nodes l !! id = Some n /\
    deleted n = deleted n' /\ item_data n = item_data n').
  { intros id n' Hn'. specialize (Hs id). rewrite Hn' in Hs. destruct (nodes l !! id) as [n |]; [| discriminate].
    injection Hs as E1 E2. exists n. auto. }
  split; [constructor |].
  - exact Hwf'.
  - lia.
  - intros id n' Hn'. destruct (Hback id n' Hn') as (n & Hn & <- & <-). auto.
  - destruct (Hpath _ _ Hp) as (ids' & Hp' & Ef & _ & _). exists ids'. rewrite Ehd. split; [exact Hp' |].
    intros id Hid. assert (Hal : id ∈ List.filter (alive l) ids').
    { rewrite Ef. apply list_elem_of_In, filter_In. split; [apply list_elem_of_In, Hin, Hid |].
      destruct (live_node l live id) as (n & Hn & Hd); [constructor; eauto | exact Hid |].
      unfold alive, is_deleted. rewrite Hn, Hd. reflexivity. }
    apply list_elem_of_In, filter_In in Hal as [Hal _]. apply list_elem_of_In, Hal.
  - intros h n' Eh Hn'. destruct (Hback h n' Hn') as (n & Hn & _ & <-). apply Hh; [congruence | exact Hn].
Qed.

(** The chunk that owns a block in use is the one it was taken from. *)
Lemma owns_chunk l live c d n b : CB0 l live -> b ∈ live c -> nodes l !! d = Some n ->
  owns b (item_data n) = bool_decide (d = c).
Proof.
  intros Hcb Hb Hn. destruct (cb_chunk _ _ Hcb d n Hn) as (Hw & El & Eu & _).
  destruct (live_node l live c Hcb) as (m & Hm & _); [intros E; rewrite E in Hb; inversion Hb |].
  destruct (cb_chunk _ _ Hcb c m Hm) as (Hwc & Elc & Euc & _).
  destruct (bw_live _ _ Hwc b Hb) as (B1 & B2 & B3 & B4). unfold owns. rewrite El, Eu.
  destruct (bool_decide (d = c)) eqn:E.
  - apply bool_decide_eq_true in E as ->. lia.
  - apply bool_decide_eq_false in E. pose proof (node_lt l live c m Hcb Hm) as Hc.
    pose proof (node_lt l live d n Hcb Hn) as Hd0.
    destruct (limits c Hc) as (_ & _ & _ & C1 & _). destruct (limits d Hd0) as (_ & _ & _ & C2 & _).
    destruct (bk_disjoint Hbk d c Hd0 Hc E) as [Hd | Hd]; lia.
Qed.

Lemma optimize_ok l live pr : CB l live -> (forall p, pr = Some p -> is_Some (nodes l !! p)) ->
  exists l', optimize pr l = Ok l' /\ CB l' live.
Proof.
  intros Hcb Hpr. destruct pr as [p |]; [| exists l; auto]. destruct (Hpr p eq_refl) as [n Hn].
  destruct (path_exists l (Some p) (cb_wf _ _ (proj1 Hcb))) as [ids Hp]; [intros h E; injection E as <-; eauto |].
  inversion Hp as [| ? ? ids' ? Hp']; subst.
  destruct (skip_deleted_prev_skips l p ids' (cb_wf _ _ (proj1 Hcb)) Hp) as (l' & E & Hsk & _).
  exists l'. split; [exact E | eapply CB_skips; eassumption].
Qed.

Lemma dealloc_here l live pr c n b (l1 l2 : list Block) :
  CB l live -> nodes l !! c = Some n -> live c = l1 ++ b :: l2 ->
  (forall p, pr = Some p -> is_Some (nodes l !! p)) ->
  exists old a l', bump_deallocate b (item_data n) = Ok (old, a) /\
    (l ← set_data c a l; if (old =? 1) && full a then l ← erase (Some c) l; optimize pr l else Ok l) = Ok l' /\
    CB l' (update c (l1 ++ l2) live).
Proof.
  intros [Hcb Hh] Hn El Hpr. destruct (cb_chunk _ _ Hcb c n Hn) as (Hw & Elo & Eup & Hdel). rewrite El in Hw.
  pose proof (node_lt l live c n Hcb Hn) as Hid.
  destruct (limits c Hid) as (L1 & L2 & L3 & L4 & L5). destruct (bk_sizes Hbk) as (_ & _ & Hus).
  destruct (bump_deallocate_ok b (item_data n) l1 l2 Hw ltac:(lia)) as (a & E & Hw' & El' & Eu' & En').
  exists (Z.of_nat (length (l1 ++ b :: l2))), a. set (l0 := put_node c (mkCB (deleted n) (prev n) a) l).
  assert (Hnd : deleted n = false) by (destruct (deleted n); [destruct (Hdel eq_refl) as [E0 _]; rewrite El in E0; destruct l1; discriminate | reflexivity]).
  assert (Hcb0 : CB l0 (update c (l1 ++ l2) live)).
  { split.
    - apply (CB0_put l live c n); simpl; auto; try congruence. intros _. left. rewrite El. destruct l1; discriminate.
    - apply head_ok_put; [exact Hh |]. simpl. intros Ehd. rewrite En'. apply Hh; assumption. }
  rewrite (set_data_eq l c n a Hn). cbn [mbind res_bind]. fold l0.
  destruct ((Z.of_nat (length (l1 ++ b :: l2)) =? 1) && full a) eqn:Ec.
  2: { exists l0. auto. }
  apply andb_true_iff in Ec as [Elen Hfull]. apply Z.eqb_eq in Elen.
  assert (El0 : l1 ++ l2 = []).
  { apply nil_length_inv. rewrite !length_app in *. simpl in Elen. lia. }
  assert (Hn0 : nodes l0 !! c = Some (mkCB (deleted n) (prev n) a)) by (simpl; apply lookup_insert_eq).
  rewrite (erase_spec l0 c _ Hn0). cbn [mbind res_bind]. set (l0' := put_node c _ l0).
  assert (Hcb1 : CB l0' (update c [] (update c (l1 ++ l2) live))).
  { split.
    - apply (CB0_put l0 _ c (mkCB (deleted n) (prev n) a)); simpl; auto; try congruence;
        first [apply Hcb0 | rewrite El0 in Hw'; exact Hw'].
    - apply head_ok_put; [apply Hcb0 |]. simpl. intros Ehd. rewrite En'. apply Hh; assumption. }
  destruct (optimize_ok l0' _ pr Hcb1) as (l' & Eo & Hcb2).
  { intros p Ep. destruct (Hpr p Ep) as [m Hm]. simpl. destruct (decide (c = p)) as [<- | Hne].
    - rewrite lookup_insert_eq. eauto.
    - rewrite !lookup_insert_ne by exact Hne. eauto. }
  exists l'. split; [exact E |]. split; [exact Eo |]. eapply CB_ext; [| exact Hcb2]. intros id.
  destruct (decide (c = id)) as [<- | Hne].
  - rewrite !update_eq. symmetry. exact El0.
  - rewrite !update_ne by exact Hne. reflexivity.
Qed.

Lemma dealloc_loop_ok live c b (l1 l2 : list Block) : live c = l1 ++ b :: l2 -> forall fuel l pr it ids,
  CB l live -> path l it ids -> (length ids < fuel)%nat -> c ∈ ids ->
  (forall p, pr = Some p -> is_Some (nodes l !! p)) ->
  exists l', dealloc_loop fuel pr it b l = Ok l' /\ CB l' (update c (l1 ++ l2) live).
Proof.
  intros El. assert (Hb : b ∈ live c) by (rewrite El; apply elem_of_app; right; left).
  induction fuel as [| fuel IH]; intros l pr it ids Hcb Hp Hf Hc Hpr; [lia |].
  inversion Hp as [| d n ids' Hn Hp']; subst; [inversion Hc |].
  cbn [dealloc_loop]. unfold AtomicList.get, get_node. rewrite Hn. simpl fmap. cbn [mbind res_bind].
  rewrite (owns_chunk l live c d n b (proj1 Hcb) Hb Hn). destruct (bool_decide (d = c)) eqn:Ed.
  - apply bool_decide_eq_true in Ed as ->.
    destruct (dealloc_here l live pr c n b l1 l2 Hcb Hn El Hpr) as (old & a & l' & E1 & E2 & Hcb').
    exists l'. rewrite E1. cbn [mbind res_bind]. split; [exact E2 | exact Hcb'].
  - apply bool_decide_eq_false in Ed.
    destruct (iter_next_skips l d ids' (cb_wf _ _ (proj1 Hcb)) Hp) as (l0 & E & Hsk & Hp0).
    rewrite E. cbn [mbind res_bind].
    assert (Hc' : c ∈ drop_deleted l ids').
    { apply elem_of_cons in Hc as [-> | Hc]; [congruence |].
      assert (Hal : c ∈ List.filter (alive l) (drop_deleted l ids')).
      { rewrite drop_deleted_alive. apply list_elem_of_In, filter_In. split; [apply list_elem_of_In, Hc |].
        destruct (live_node l live c (proj1 Hcb)) as (m & Hm & Hd); [rewrite El; destruct l1; discriminate |].
        unfold alive, is_deleted. rewrite Hm, Hd. reflexivity. }
      apply list_elem_of_In, filter_In in Hal as [Hal _]. apply list_elem_of_In, Hal. }
    eapply IH; [eapply CB_skips; eassumption | exact Hp0 | | exact Hc' |].
    + destruct (drop_deleted_suffix l ids') as (pre & Epre & _). simpl in Hf.
      assert (length ids' = length pre + length (drop_deleted l ids'))%nat
        by (rewrite Epre at 1; apply length_app). lia.
    + intros p Hpp. injection Hpp as <-. destruct Hsk as ((_ & _ & Hs) & _). specialize (Hs d). rewrite Hn in Hs.
      destruct (nodes l0 !! d); [eauto | discriminate].
Qed.

(** A block of no chunk: the loop runs through all chunks and changes nothing. *)
Lemma dealloc_loop_foreign b live : (forall id, (id < max_chunks)%nat -> ptr b < lower id \/ upper id <= ptr b) ->
  forall fuel l pr it ids, CB l live -> path l it ids -> (length ids < fuel)%nat ->
  exists l', dealloc_loop fuel pr it b l = Ok l' /\ CB l' live.
Proof.
  intros Hno. induction fuel as [| fuel IH]; intros l pr it ids Hcb Hp Hf; [lia |].
  inversion Hp as [| d n ids' Hn Hp']; subst; [exists l; auto |].
  cbn [dealloc_loop]. unfold AtomicList.get, get_node. rewrite Hn. simpl fmap. cbn [mbind res_bind].
  assert (Ho : owns b (item_data n) = false).
  { destruct (cb_chunk _ _ (proj1 Hcb) d n Hn) as (_ & El & Eu & _).
    destruct (Hno d (node_lt l live d n (proj1 Hcb) Hn)); unfold owns; rewrite El, Eu; lia. }
  rewrite Ho. destruct (iter_next_skips l d ids' (cb_wf _ _ (proj1 Hcb)) Hp) as (l0 & E & Hsk & Hp0).
  rewrite E. cbn [mbind res_bind].
  eapply IH; [eapply CB_skips; eassumption | exact Hp0 |].
  destruct (drop_deleted_suffix l ids') as (pre & Epre & _). simpl in Hf.
  assert (length ids' = length pre + length (drop_deleted l ids'))%nat
    by (rewrite Epre at 1; apply length_app). lia.
Qed.

Lemma deallocate_foreign l live b : (forall id, (id < max_chunks)%nat -> ptr b < lower id \/ upper id <= ptr b) ->
  CB l live -> exists l', deallocate b l = Ok l' /\ CB l' live.
Proof.
  intros Hno Hcb. destruct (cb_path _ _ (proj1 Hcb)) as (ids & Hp & _).
  pose proof (path_length l _ _ (cb_wf _ _ (proj1 Hcb)) Hp) as Hlen.
  apply (dealloc_loop_foreign b live Hno _ l (head l) (head l) ids Hcb Hp). lia.
Qed.

(** (dealloc): giving back a block in use ends, takes it out of the blocks in
    use of its own chunk and leaves every other block in use where it is. *)
Theorem deallocate_correct l live c b (l1 l2 : list Block) :
  CB l live -> live c = l1 ++ b :: l2 ->
  exists l', deallocate b l = Ok l' /\ CB l' (update c (l1 ++ l2) live).
Proof.
  intros Hcb El. destruct (cb_path _ _ (proj1 Hcb)) as (ids & Hp & Hin).
  pose proof (path_length l _ _ (cb_wf _ _ (proj1 Hcb)) Hp) as Hlen.
  apply (dealloc_loop_ok live c b l1 l2 El (S (next_id l)) l (head l) (head l) ids Hcb Hp); [lia | |].
  - apply Hin. rewrite El. destruct l1; discriminate.
  - intros p Ep. apply (wf_head l (cb_wf _ _ (proj1 Hcb)) p Ep).
Qed.

(** (alloc): in every state reached by allocating and giving back, a request
    that fits a chunk returns, within three rounds, a block of at least the
    requested size that lies in one chunk and overlaps no block in use. *)
Theorem allocate_correct l live n :
  CB l live -> (next_id l < max_chunks)%nat -> 1 <= n -> roundup_to_poweroftwo n <= usable -> n <= 2 ^ 63 ->
  exists blk l' c, allocate n l = Ok (blk, l') /\ n <= len blk /\ block_bool blk = true /\
    lower c <= ptr blk /\ ptr blk + len blk <= upper c /\
    (forall id b, b ∈ live id -> disjoint blk b) /\ CB l' (update c (blk :: live c) live).
Proof.
  intros Hcb Hroom Hn Hfit Hmax. destruct (proj1 (roundup_correct n) ltac:(lia)) as (k & Hk & E & Hle).
  rewrite E in Hfit. pose proof (bk_sizes Hbk) as Hs. unfold usable, get_controlblock_size, shared_ptr_size in Hs.
  unfold allocate. rewrite E.
  assert (Hc : 2 ^ k <= chunk_size) by (unfold usable, get_controlblock_size, shared_ptr_size in Hfit; lia).
  apply Z.leb_le in Hc. rewrite Hc.
  assert (Hpos : 0 < 2 ^ k) by lia.
  destruct (alloc_loop_ok l live (2 ^ k) Hcb Hroom (conj Hpos Hfit)) as (blk & l' & c & Ea & B1 & B2 & B3 & B4 & B5 & B6).
  exists blk, l', c. rewrite B1. split; [exact Ea |]. split; [lia |]. auto 10.
Qed.

(** A request that no chunk can hold although it passes the test of [allocate]. *)
Lemma alloc_loop_stuck s : usable < s <= chunk_size -> forall fuel l live, CB0 l live ->
  (next_id l + fuel <= max_chunks)%nat ->
  (forall h n, head l = Some h -> nodes l !! h = Some n -> s <= next_addr (item_data n)) ->
  alloc_loop fuel s l = Err OutOfFuel.
Proof.
  intros Hs. induction fuel as [| fuel IH]; intros l live Hcb Hfuel Hnx; [reflexivity |].
  assert (Hadd : forall l0 live0, CB0 l0 live0 -> next_id l0 = next_id l -> exists l1, add_chunk l0 = Ok l1 /\ alloc_loop fuel s l1 = Err OutOfFuel).
  { intros l0 live0 H0 Enx. assert (Hroom : (next_id l0 < max_chunks)%nat) by lia.
    destruct (add_chunk_ok l0 live0 H0 Hroom) as (l1 & E & [Hcb1 _] & Hh & Hn & _ & En1).
    exists l1. split; [exact E |]. apply (IH l1 live0 Hcb1); [lia |]. intros h n Eh En.
    rewrite Hh in Eh. injection Eh as <-. rewrite Hn in En. injection En as <-.
    cbn [item_data]. rewrite new_chunk_eq by exact Hroom. cbn [next_addr]. unfold upper.
    pose proof (bk_range Hbk (next_id l0) Hroom). pose proof (limits (next_id l0) Hroom). unfold lower, upper in *. lia. }
  cbn [alloc_loop]. unfold rbegin. destruct (head l) as [h |] eqn:Hh.
  2: { destruct (Hadd l live Hcb eq_refl) as (l1 & E & Hl). rewrite E. exact Hl. }
  destruct (wf_head l (cb_wf _ _ Hcb) h Hh) as [n Hn].
  destruct (cb_chunk _ _ Hcb h n Hn) as (Hw & El & Eu & Hdel). pose proof (Hnx h n eq_refl Hn) as Hle.
  pose proof (node_lt l live h n Hcb Hn) as Hid.
  destruct (limits h Hid) as (L1 & L2 & L3 & L4 & L5). pose proof (bw_next _ _ Hw).
  destruct (bump_allocate_full s (item_data n) (live h) Hw ltac:(lia) ltac:(lia)) as (a' & Ea & Hw' & El' & Eu' & Hfull).
  unfold AtomicList.get, get_node. rewrite Hn. simpl fmap. cbn [mbind res_bind].
  rewrite Ea, (set_data_eq l h n a' Hn). cbn [mbind res_bind]. change (block_bool null) with false. cbn iota.
  assert (Hcb0 : CB0 (put_node h (mkCB (deleted n) (prev n) a') l) (update h (live h) live)).
  { apply (CB0_put l live h n); simpl; auto; try congruence. intros Hd. split; [apply Hdel, Hd | exact Hfull]. }
  destruct (Hadd _ _ Hcb0 eq_refl) as (l1 & E & Hl). rewrite E. exact Hl.
Qed.

(** (alloc_loop): a request whose size class is larger than the usable part of
    a chunk but not larger than its nominal capacity does not return while there
    is memory: every round makes a new chunk that is too small. *)
Theorem allocate_never_returns n fuel :
  usable < roundup_to_poweroftwo n <= chunk_size -> (fuel <= max_chunks)%nat ->
  alloc_loop fuel (roundup_to_poweroftwo n) no_chunks = Err OutOfFuel.
Proof.
  intros Hs Hf. apply (alloc_loop_stuck _ Hs fuel no_chunks (fun _ => [])); [apply CB_empty | exact Hf | discriminate].
Qed.
End ChunkedBump.

(** ** A concrete memory: thousand chunks of 4 KiB, 64 KiB apart *)

Definition sample_ptr (id : nat) : Z := 65536 * (1 + Z.of_nat id).

Lemma sample_backing : backing 64 32 4096 sample_ptr 1000.
Proof.
  constructor; unfold usable, get_chunk_allocsize, get_controlblock_size, shared_ptr_size, upper, sample_ptr; intros; lia.
Qed.

Lemma allocate_never_returns_witness :
  alloc_loop 64 32 4096 sample_ptr 500 (roundup_to_poweroftwo 3500) no_chunks = Err OutOfFuel.
Proof.
  apply (allocate_never_returns 64 32 4096 sample_ptr 1000 sample_backing 3500 500).
  - vm_compute. split; [reflexivity | discriminate].
  - lia.
Defined.
End ChunkedBump.
