(* ===== verification/Arenas.v ===== *)
(** The arenas of the workers: [WorkerAllocPool] ([redGrapes/TaskFreeCtx.hpp]) has
    one [ChunkedBumpAlloc] per worker, [Allocator] and [StdAllocator]
    ([memory/allocator.hpp]) name one of them by the id of the worker. *)

From Stdlib Require Import ZArith Lia Bool.
From stdpp Require Import base list gmap.
From S2P Require Import Prelude AtomicList Memory ChunkedBump.

Open Scope Z_scope.
Open Scope word_scope.

Module Arenas.
Import Memory ChunkedBump.

Section Arenas.
(** The sizes of [ChunkedBump]; every arena has chunks of its own. *)
Context (sizeof_cb sizeof_bump chunk_size : Z) (chunk_ptr : nat -> nat -> Z) (max_chunks : nat).

Definition WorkerAllocPool : Type := list ChunkedBumpAlloc.

Implicit Types (p : list ChunkedBumpAlloc) (live : nat -> nat -> list Block).

Definition get_alloc (worker_id : Z) p : res ChunkedBumpAlloc :=
  _ ← cpp_assert (worker_id <? Z.of_nat (length p)); deref (p !! Z.to_nat worker_id).

Record Allocator : Type := mkAllocator { worker_id : Z }.

(** [Allocator()]; [current] is the thread's [current_worker_id]. *)
Definition current_allocator (current : option Z) : res Allocator := i ← deref current; Ok (mkAllocator i).

Definition allocator_allocate (n_bytes : Z) (a : Allocator) p : res (Block * WorkerAllocPool) :=
  let i := Z.to_nat (worker_id a) in
  l ← get_alloc (worker_id a) p;
  '(blk, l) ← allocate sizeof_cb sizeof_bump chunk_size (chunk_ptr i) n_bytes l;
  Ok (blk, <[i := l]> p).

Definition allocator_deallocate (blk : Block) (a : Allocator) p : res WorkerAllocPool :=
  l ← get_alloc (worker_id a) p; l ← deallocate blk l; Ok (<[Z.to_nat (worker_id a) := l]> p).

(** [StdAllocator<T>]; [sizeof_T] is the size of [T]. *)
Definition std_allocate (sizeof_T n : Z) (a : Allocator) p : res (Z * WorkerAllocPool) :=
  '(blk, p) ← allocator_allocate (u64 (sizeof_T * n)) a p; Ok (ptr blk, p).

Definition std_deallocate (sizeof_T : Z) (q n : Z) (a : Allocator) p : res WorkerAllocPool :=
  allocator_deallocate (mkBlock q (u64 (sizeof_T * n))) a p.

Definition std_eq (a b : Allocator) : bool := true.

(** The memory of a task: [emplace_task] takes it from the arena of the worker it
    picked, [free_task] gives it back to the arena of the task's worker. *)
Definition task_memory (sizeof_FunTask : Z) (worker : Z) p : res (option Z * WorkerAllocPool) :=
  '(blk, p) ← allocator_allocate sizeof_FunTask (mkAllocator worker) p;
  Ok (if block_bool blk then Some (ptr blk) else None, p).

Definition free_task_memory (sizeof_Task : Z) (worker task : Z) p : res WorkerAllocPool :=
  l ← get_alloc worker p; l ← deallocate (mkBlock task sizeof_Task) l; Ok (<[Z.to_nat worker := l]> p).

(** ** What is assumed of the memory *)

(** Every arena has its chunks, and no two arenas share memory. *)
Record memory_of (arenas : nat) : Prop := {
  mo_backing : forall i, (i < arenas)%nat -> backing sizeof_cb sizeof_bump chunk_size (chunk_ptr i) max_chunks;
  mo_apart : forall i j c d, (i < arenas)%nat -> (j < arenas)%nat -> i <> j -> (c < max_chunks)%nat -> (d < max_chunks)%nat ->
    upper chunk_size (chunk_ptr i) c <= chunk_ptr j d \/ upper chunk_size (chunk_ptr j) d <= chunk_ptr i c
}.

(** ** The invariant; [live i c] are the blocks of chunk [c] of arena [i] in use *)

Record arenas_ok p live : Prop := {
  ao_memory : memory_of (length p);
  ao_arena : forall i l, p !! i = Some l ->
    CB sizeof_cb sizeof_bump chunk_size (chunk_ptr i) max_chunks l (live i);
  ao_none : forall i, (length p <= i)%nat -> forall c, live i c = []
}.

(** The blocks in use after those of arena [i] have changed. *)
Definition updates (i : nat) (bs : nat -> list Block) live : nat -> nat -> list Block :=
  fun j => if decide (i = j) then bs else live j.

Lemma updates_eq i bs live : updates i bs live i = bs.
Proof. unfold updates. rewrite decide_True by reflexivity. reflexivity. Qed.

Lemma updates_ne i bs live j : i <> j -> updates i bs live j = live j.
Proof. intros Hne. unfold updates. rewrite decide_False by exact Hne. reflexivity. Qed.

Lemma get_alloc_ok i p l : p !! Z.to_nat i = Some l -> 0 <= i -> get_alloc i p = Ok l.
Proof.
  intros Hl Hi. unfold get_alloc. pose proof (lookup_lt_Some _ _ _ Hl) as Hlt.
  assert (E : (i <? Z.of_nat (length p)) = true) by lia. rewrite E. cbn [cpp_assert mbind res_bind]. rewrite Hl. reflexivity.
Qed.

Lemma arenas_insert p live i l l' bs :
  arenas_ok p live -> p !! i = Some l -> CB sizeof_cb sizeof_bump chunk_size (chunk_ptr i) max_chunks l' bs ->
  arenas_ok (<[i := l']> p) (updates i bs live).
Proof.
  intros [A1 A2 A3] Hl Hcb. pose proof (lookup_lt_Some _ _ _ Hl) as Hlt. constructor; rewrite ?length_insert; auto.
  - intros j m Hm. destruct (decide (i = j)) as [<- | Hne].
    + rewrite list_lookup_insert_eq in Hm by exact Hlt. injection Hm as <-. rewrite updates_eq. exact Hcb.
    + rewrite list_lookup_insert_ne in Hm by exact Hne. rewrite updates_ne by exact Hne. auto.
  - intros j Hj c. rewrite updates_ne by lia. auto.
Qed.

(** A block in use lies in its chunk. *)
Lemma live_range p live i c b :
  arenas_ok p live -> b ∈ live i c -> (i < length p)%nat /\ (c < max_chunks)%nat /\ 0 < len b /\
  lower sizeof_cb sizeof_bump (chunk_ptr i) c <= ptr b /\ ptr b + len b <= upper chunk_size (chunk_ptr i) c.
Proof.
  intros [A1 A2 A3] Hb. destruct (decide (i < length p)%nat) as [Hi |]; [| exfalso; rewrite A3 in Hb by lia; inversion Hb].
  destruct (lookup_lt_is_Some_2 p i Hi) as [l Hl]. destruct (A2 i l Hl) as [Hcb _].
  destruct (live_node _ _ _ _ _ _ (live i) c Hcb) as (n & Hn & _); [intros E; rewrite E in Hb; inversion Hb |].
  destruct (cb_chunk _ _ _ _ _ _ _ Hcb c n Hn) as (Hw & Elo & Eup & _).
  destruct (bw_live _ _ Hw b Hb) as (L1 & L2 & L3 & L4). rewrite Elo in L1. rewrite Eup in L4.
  split; [exact Hi |]. split; [eapply node_lt; eassumption |]. auto.
Qed.

(** Blocks of different arenas do not overlap. *)
Lemma other_arena p live i j c d b b' :
  memory_of (length p) -> (i < length p)%nat -> (j < length p)%nat -> i <> j -> (c < max_chunks)%nat -> (d < max_chunks)%nat ->
  lower sizeof_cb sizeof_bump (chunk_ptr i) c <= ptr b -> ptr b + len b <= upper chunk_size (chunk_ptr i) c ->
  lower sizeof_cb sizeof_bump (chunk_ptr j) d <= ptr b' -> ptr b' + len b' <= upper chunk_size (chunk_ptr j) d ->
  disjoint b b'.
Proof.
  intros [Hb Ha] Hi Hj Hne Hc Hd L1 L2 L3 L4. unfold disjoint.
  destruct (limits _ _ _ _ _ (Hb i Hi) c Hc) as (_ & _ & _ & K1 & _).
  destruct (limits _ _ _ _ _ (Hb j Hj) d Hd) as (_ & _ & _ & K2 & _).
  destruct (Ha i j c d Hi Hj Hne Hc Hd); lia.
Qed.

(** Only the address of a block that is given back matters. *)
Lemma dealloc_loop_ptr b b' : ptr b = ptr b' -> forall fuel pr it l, dealloc_loop fuel pr it b l = dealloc_loop fuel pr it b' l.
Proof.
  intros E. induction fuel as [| fuel IH]; intros pr it l; [reflexivity |]. cbn [dealloc_loop].
  destruct it as [chunk |]; [| reflexivity]. destruct (AtomicList.get chunk l) as [a |]; [| reflexivity]. cbn [mbind res_bind].
  unfold bump_deallocate, owns. rewrite E. destruct (_ && _); [reflexivity |].
  destruct (AtomicList.iter_next (Some chunk) l) as [[next l'] |]; [| reflexivity]. cbn [mbind res_bind]. apply IH.
Qed.

Lemma deallocate_ptr b b' l : ptr b = ptr b' -> deallocate b l = deallocate b' l.
Proof. intros E. apply dealloc_loop_ptr, E. Qed.

(** C36 (arenas): an allocation for worker [i] gives a block of arena [i] that does
    not overlap a block in use of any arena, and leaves the other arenas alone. *)
Theorem allocator_allocate_correct p live i l n :
  arenas_ok p live -> p !! i = Some l -> (AtomicList.next_id l < max_chunks)%nat ->
  1 <= n -> roundup_to_poweroftwo n <= usable sizeof_cb sizeof_bump chunk_size -> n <= 2 ^ 63 ->
  exists blk p' c, allocator_allocate n (mkAllocator (Z.of_nat i)) p = Ok (blk, p') /\ n <= len blk /\
    block_bool blk = true /\ (forall j d b, b ∈ live j d -> disjoint blk b) /\
    arenas_ok p' (updates i (update c (blk :: live i c) (live i)) live).
Proof.
  intros Hok Hl Hroom Hn Hfit Hmax. pose proof Hok as [A1 A2 A3]. pose proof (lookup_lt_Some _ _ _ Hl) as Hi.
  destruct (allocate_correct _ _ _ _ _ (mo_backing _ A1 i Hi) l (live i) n (A2 i l Hl) Hroom Hn Hfit Hmax)
    as (blk & l' & c & E & Hlen & Hb & L1 & L2 & Hdis & Hcb).
  exists blk, (<[i := l']> p), c. split.
  { unfold allocator_allocate. cbn [worker_id]. rewrite (get_alloc_ok (Z.of_nat i) p l) by (rewrite ?Nat2Z.id; auto || lia).
    cbn [mbind res_bind]. rewrite Nat2Z.id, E. reflexivity. }
  split; [exact Hlen |]. split; [exact Hb |]. split; [| eapply arenas_insert; eassumption].
  intros j d b Hbj. destruct (decide (i = j)) as [<- | Hne]; [exact (Hdis d b Hbj) |].
  destruct (live_range p live j d b Hok Hbj) as (Hj & Hd & _ & K1 & K2).
  assert (Hc : (c < max_chunks)%nat).
  { destruct (live_node _ _ _ _ _ _ _ c (proj1 Hcb)) as (m & Hm & _); [rewrite update_eq; discriminate |].
    eapply node_lt; [apply Hcb | exact Hm]. }
  apply (other_arena p live i j c d blk b A1 Hi Hj Hne Hc Hd); assumption.
Qed.

(** (arena_free): a block in use that is given back through an allocator of its
    own worker leaves the blocks in use, whatever length it is said to have; through
    an allocator of another worker, all of which compare equal to its own, nothing
    happens: the block stays in use. *)
Theorem allocator_deallocate_correct p live i c b (l1 l2 : list Block) j n :
  arenas_ok p live -> live i c = l1 ++ b :: l2 -> (j < length p)%nat ->
  exists p', allocator_deallocate (mkBlock (ptr b) n) (mkAllocator (Z.of_nat j)) p = Ok p' /\
    arenas_ok p' (if decide (i = j) then updates i (update c (l1 ++ l2) (live i)) live else live).
Proof.
  intros Hok El Hj. pose proof Hok as [A1 A2 A3]. destruct (lookup_lt_is_Some_2 p j Hj) as [l Hl].
  assert (Hb : b ∈ live i c) by (rewrite El; apply elem_of_app; right; left).
  destruct (live_range p live i c b Hok Hb) as (Hi & Hc & Hlen & L1 & L2).
  unfold allocator_deallocate. cbn [worker_id]. rewrite (get_alloc_ok (Z.of_nat j) p l) by (rewrite ?Nat2Z.id; auto || lia).
  cbn [mbind res_bind]. rewrite (deallocate_ptr (mkBlock (ptr b) n) b l eq_refl), Nat2Z.id.
  destruct (decide (i = j)) as [<- | Hne].
  - destruct (deallocate_correct _ _ _ _ _ (mo_backing _ A1 i Hj) l (live i) c b l1 l2 (A2 i l Hl) El) as (l' & E & Hcb).
    rewrite E. cbn [mbind res_bind]. eexists. split; [reflexivity |]. eapply arenas_insert; eassumption.
  - destruct (deallocate_foreign sizeof_cb sizeof_bump chunk_size (chunk_ptr j) max_chunks l (live j) b) as (l' & E & Hcb); [| apply A2, Hl |].
    { intros d Hd. destruct (limits _ _ _ _ _ (mo_backing _ A1 j Hj) d Hd) as (_ & _ & _ & K1 & _).
      destruct (limits _ _ _ _ _ (mo_backing _ A1 i Hi) c Hc) as (_ & _ & _ & K2 & _).
      destruct (mo_apart _ A1 i j c d Hi Hj Hne Hc Hd); lia. }
    rewrite E. cbn [mbind res_bind]. eexists. split; [reflexivity |].
    pose proof (arenas_insert p live j l l' (live j) Hok Hl Hcb) as [B1 B2 B3]. constructor; [exact B1 | |].
    + intros k m Hm. specialize (B2 k m Hm). unfold updates in B2. destruct (decide (j = k)) as [<- |]; exact B2.
    + intros k Hk d. apply A3. rewrite length_insert in Hk. exact Hk.
Qed.
End Arenas.

(** ** Two concrete arenas: a thousand chunks of 4 KiB each, 64 KiB apart *)

Definition sample_ptrs (i c : nat) : Z := 65536 * (1 + 1000 * Z.of_nat i + Z.of_nat c).

Lemma sample_memory n : (n <= 1000)%nat -> memory_of 64 32 4096 sample_ptrs 1000 n.
Proof.
  intros Hn. constructor; [intros i Hi; constructor |];
    unfold usable, AtomicList.get_chunk_allocsize, AtomicList.get_controlblock_size, AtomicList.shared_ptr_size, upper, sample_ptrs; intros; lia.
Qed.

Definition two_arenas : WorkerAllocPool := [no_chunks; no_chunks].

Lemma two_arenas_ok : arenas_ok 64 32 4096 sample_ptrs 1000 two_arenas (fun _ _ => []).
Proof.
  constructor; [apply sample_memory; simpl; lia | | reflexivity].
  intros [| [| i]] l Hl; simpl in Hl; [injection Hl as <-; apply CB_empty .. | discriminate].
Qed.

(** 48 bytes of the second arena. *)
Definition one_block : res (Block * WorkerAllocPool) := allocator_allocate 64 32 4096 sample_ptrs 48 (mkAllocator 1) two_arenas.

Lemma allocator_allocate_correct_witness :
  exists blk p' c, one_block = Ok (blk, p') /\ 48 <= len blk /\
    arenas_ok 64 32 4096 sample_ptrs 1000 p' (updates 1 (update c [blk] (fun _ => [])) (fun _ _ => [])).
Proof.
  destruct (allocator_allocate_correct 64 32 4096 sample_ptrs 1000 two_arenas (fun _ _ => []) 1 no_chunks 48 two_arenas_ok eq_refl)
    as (blk & p' & c & E & Hlen & _ & _ & Hok).
  - simpl. lia.
  - lia.
  - vm_compute. discriminate.
  - lia.
  - exists blk, p', c. split; [exact E |]. split; [exact Hlen | exact Hok].
Defined.

(** It is given back through an allocator of the first arena: it stays in use. *)
Lemma allocator_deallocate_correct_witness :
  exists blk p1 p2 c, one_block = Ok (blk, p1) /\ allocator_deallocate (mkBlock (ptr blk) 1) (mkAllocator 0) p1 = Ok p2 /\
    arenas_ok 64 32 4096 sample_ptrs 1000 p2 (updates 1 (update c [blk] (fun _ => [])) (fun _ _ => [])).
Proof.
  destruct (allocate_correct 64 32 4096 (sample_ptrs 1) 1000 (mo_backing _ _ _ _ _ _ (sample_memory 2 ltac:(lia)) 1%nat ltac:(lia))
    no_chunks (fun _ => []) 48) as (blk & l' & c & E & _ & _ & _ & _ & _ & Hcb);
    [apply CB_empty | simpl; lia | lia | vm_compute; discriminate | lia |].
  pose proof (arenas_insert _ _ _ _ _ two_arenas (fun _ _ => []) 1 no_chunks l' _ two_arenas_ok eq_refl Hcb) as Hok.
  destruct (allocator_deallocate_correct _ _ _ _ _ _ _ 1 c blk [] [] 0 1 Hok) as (p2 & E2 & Hok2).
  - rewrite updates_eq, update_eq. reflexivity.
  - simpl. lia.
  - exists blk, [no_chunks; l'], p2, c. split; [| split; [exact E2 | exact Hok2]].
    unfold one_block, allocator_allocate. cbn [worker_id]. change (Z.to_nat 1) with 1%nat. change (get_alloc 1 two_arenas) with (Ok no_chunks : res ChunkedBumpAlloc).
    cbn [mbind res_bind]. rewrite E. reflexivity.
Defined.
End Arenas.
