(* ===== verification/SpinLock.v ===== *)
(** The spin lock of [redGrapes/sync/spinlock.hpp], as the steps of any number of
    threads, one atomic operation per step. *)

From Stdlib Require Import ZArith Lia Bool.
From stdpp Require Import base list relations.
From S2P Require Import Prelude.

Open Scope Z_scope.
Open Scope word_scope.

Module SpinLock.

(** [Try]: before the compare-and-exchange; [Spin]: in the inner loop;
    [Locked]: [lock] has returned. *)
Inductive pc : Type := Outside | Try | Spin | Locked.

Record SpinLock : Type := mkLock { state : bool; threads : nat -> pc }.

Definition init (s : SpinLock) : Prop := state s = false /\ forall t, threads s t = Outside.

Inductive step : SpinLock -> SpinLock -> Prop :=
  | lock_call s t : threads s t = Outside -> step s (mkLock (state s) (set_pc t Try (threads s)))
  | lock_success s t : threads s t = Try -> state s = false ->
      step s (mkLock true (set_pc t Locked (threads s)))
  | lock_failure s t :
      (* the weak compare-and-exchange may fail although the lock is free *)
      threads s t = Try -> step s (mkLock (state s) (set_pc t Spin (threads s)))
  | spin_again s t : threads s t = Spin -> state s = true -> step s s
  | spin_free s t : threads s t = Spin -> state s = false ->
      step s (mkLock (state s) (set_pc t Try (threads s)))
  | unlock s t : threads s t = Locked -> step s (mkLock false (set_pc t Outside (threads s))).

Definition inv (s : SpinLock) : Prop :=
  (state s = true <-> exists t, threads s t = Locked) /\
  forall t u, threads s t = Locked -> threads s u = Locked -> t = u.

Lemma lock_inv_init s : init s -> inv s.
Proof.
  intros [E H]. split.
  - rewrite E. split; [discriminate |]. intros [t Ht]. rewrite H in Ht. discriminate.
  - intros t u Ht. rewrite H in Ht. discriminate.
Qed.

(** A step that neither takes nor gives up the lock. *)
Lemma inv_other s t p : inv s -> threads s t <> Locked -> p <> Locked -> inv (mkLock (state s) (set_pc t p (threads s))).
Proof.
  intros [H1 H2] Ht Hp.
  assert (E : forall u, set_pc t p (threads s) u = Locked <-> threads s u = Locked).
  { intros u. unfold set_pc. destruct (decide (t = u)) as [<- |]; [tauto | reflexivity]. }
  split; simpl.
  - rewrite H1. split; intros [u Hu]; exists u; apply E, Hu.
  - intros u v Hu Hv. apply E in Hu, Hv. auto.
Qed.

Lemma lock_inv_step s s' : inv s -> step s s' -> inv s'.
Proof.
  intros Hinv Hstep. pose proof Hinv as [H1 H2].
  destruct Hstep as [s t Ht | s t Ht Hs | s t Ht | s t Ht Hs | s t Ht Hs | s t Ht];
    try (apply inv_other; [exact Hinv | congruence | discriminate]); [| exact Hinv |].
  - assert (Hno : forall u, threads s u <> Locked).
    { intros u Hu. assert (state s = true) by (apply H1; eauto). congruence. }
    split; simpl.
    + split; [intros _; exists t; apply set_pc_eq | reflexivity].
    + intros u v Hu Hv. unfold set_pc in Hu, Hv. repeat case_decide; try congruence; exfalso; eapply Hno; eassumption.
  - assert (Hno : forall u, set_pc t Outside (threads s) u <> Locked).
    { intros u Hu. unfold set_pc in Hu. case_decide; [discriminate |]. pose proof (H2 t u Ht Hu). congruence. }
    split; simpl.
    + split; [discriminate |]. intros [u Hu]. exfalso. eapply Hno, Hu.
    + intros u v Hu. exfalso. eapply Hno, Hu.
Qed.

(** (spinlock): whatever the interleaving, at most one thread is between the
    return of [lock] and its [unlock], and when none is, a waiting thread's next
    attempt can succeed. *)
Theorem mutual_exclusion s :
  reachable init step s ->
  (forall t u, threads s t = Locked -> threads s u = Locked -> t = u) /\
  ((forall t, threads s t <> Locked) -> forall t, threads s t = Try ->
    exists s', step s s' /\ threads s' t = Locked).
Proof.
  intros Hr. assert (Hi : inv s) by (revert Hr; apply reachable_invariant; [exact lock_inv_init | exact lock_inv_step]).
  destruct Hi as [H1 H2]. split; [exact H2 |]. intros Hno t Ht.
  assert (Hs : state s = false).
  { destruct (state s) eqn:E; [| reflexivity]. destruct (proj1 H1 eq_refl) as [u Hu]. exfalso. eapply Hno, Hu. }
  eexists. split; [apply (lock_success s t Ht Hs) | apply set_pc_eq].
Qed.

(** Two threads want the lock; the first has taken it and given it back. *)
Definition contended : SpinLock :=
  mkLock false (set_pc 0%nat Outside (set_pc 0%nat Locked (set_pc 1%nat Try (set_pc 0%nat Try (fun _ => Outside))))).

Lemma mutual_exclusion_witness : exists s', step contended s' /\ threads s' 1%nat = Locked.
Proof.
  apply mutual_exclusion; [| intros [| [|]]; discriminate | reflexivity].
  eapply reachable_step; [| apply (unlock (mkLock true _) 0); reflexivity].
  eapply reachable_step; [| apply (lock_success (mkLock false _) 0); reflexivity].
  eapply reachable_step; [| apply (lock_call (mkLock false _) 1); reflexivity].
  eapply reachable_step; [| apply (lock_call (mkLock false _) 0); reflexivity].
  apply reachable_init. repeat split.
Defined.
End SpinLock.
