(* ===== verification/CondVar.v ===== *)
(** The condition variable of [redGrapes/sync/cv.hpp], on which a thread spins
    before it sleeps, as the steps of any number of threads, one atomic operation
    per step. *)

From Stdlib Require Import ZArith Lia Bool.
From stdpp Require Import base list relations.
From S2P Require Import Prelude.

Open Scope Z_scope.
Open Scope word_scope.

Module CondVar.

(** The operation a thread in [wait] or [notify] performs next; waiting threads
    carry [count].  [Block] is [cv.wait] after its predicate was false: it
    unlocks the mutex and falls asleep in one step; [Woken] locks it again. *)
Inductive pc : Type :=
  | Outside
  | Loop (count : Z)
  | Recheck (count : Z)
  | LockW (count : Z)
  | Pred (count : Z)
  | Block (count : Z)
  | Sleep (count : Z)
  | Woken (count : Z)
  | UnlockW (count : Z)
  | Reset
  | Exchange
  | LockN
  | NotifyAll
  | UnlockN.

Record CondVar : Type := mkCV { should_wait : bool; mutex : option nat; threads : nat -> pc }.

Definition init (s : CondVar) : Prop := should_wait s = true /\ mutex s = None /\ forall t, threads s t = Outside.

Definition wake (p : pc) : pc := match p with Sleep c => Woken c | _ => p end.

(** [REDGRAPES_CONDVAR_TIMEOUT], or the timeout given to the constructor. *)
Section Steps.
Context (timeout : Z).

Definition go (t : nat) (p : pc) (s : CondVar) : CondVar := mkCV (should_wait s) (mutex s) (set_pc t p (threads s)).
Definition acquire (t : nat) (p : pc) (s : CondVar) : CondVar := mkCV (should_wait s) (Some t) (set_pc t p (threads s)).
Definition release (t : nat) (p : pc) (s : CondVar) : CondVar := mkCV (should_wait s) None (set_pc t p (threads s)).

(** [++count > timeout] *)
Definition next_spin (count : Z) : pc :=
  let count := u32 (count + 1) in if timeout <? count then Recheck count else Loop count.

(** What thread [t] does next.  A thread asleep wakes up when it is notified, or
    for no reason ([spurious]). *)
Inductive moves (t : nat) : CondVar -> CondVar -> Prop :=
  | wait_call s : threads s t = Outside -> moves t s (go t (Loop 0) s)
  | loop_true s c : threads s t = Loop c -> should_wait s = true -> moves t s (go t (next_spin c) s)
  | loop_false s c : threads s t = Loop c -> should_wait s = false -> moves t s (go t Reset s)
  | recheck_true s c : threads s t = Recheck c -> should_wait s = true -> moves t s (go t (LockW c) s)
  | recheck_false s c : threads s t = Recheck c -> should_wait s = false -> moves t s (go t (Loop c) s)
  | lock_wait s c : threads s t = LockW c -> mutex s = None -> moves t s (acquire t (Pred c) s)
  | pred_true s c : threads s t = Pred c -> should_wait s = false -> moves t s (go t (UnlockW c) s)
  | pred_false s c : threads s t = Pred c -> should_wait s = true -> moves t s (go t (Block c) s)
  | fall_asleep s c : threads s t = Block c -> moves t s (release t (Sleep c) s)
  | relock s c : threads s t = Woken c -> mutex s = None -> moves t s (acquire t (Pred c) s)
  | unlock_wait s c : threads s t = UnlockW c -> moves t s (release t (Loop c) s)
  | reset s : threads s t = Reset -> moves t s (mkCV true (mutex s) (set_pc t Outside (threads s)))
  | notify_call s : threads s t = Outside -> moves t s (go t Exchange s)
  | exchange_true s : threads s t = Exchange -> should_wait s = true ->
      moves t s (mkCV false (mutex s) (set_pc t LockN (threads s)))
  | exchange_false s : threads s t = Exchange -> should_wait s = false -> moves t s (go t Outside s)
  | lock_notify s : threads s t = LockN -> mutex s = None -> moves t s (acquire t NotifyAll s)
  | notify_all s : threads s t = NotifyAll ->
      moves t s (mkCV (should_wait s) (mutex s) (set_pc t UnlockN (fun u => wake (threads s u))))
  | unlock_notify s : threads s t = UnlockN -> moves t s (release t Outside s).

Inductive step : CondVar -> CondVar -> Prop :=
  | move t s s' : moves t s s' -> step s s'
  | spurious s t c : threads s t = Sleep c -> step s (go t (Woken c) s).

(** The operations performed with the mutex held. *)
Definition holds (p : pc) : bool :=
  match p with Pred _ | Block _ | UnlockW _ | NotifyAll | UnlockN => true | _ => false end.

(** Asleep, or about to be without looking at [should_wait] again. *)
Definition drowsy (p : pc) : bool := match p with Block _ | Sleep _ => true | _ => false end.

(** About to wake everybody. *)
Definition notifying (p : pc) : bool := match p with LockN | NotifyAll => true | _ => false end.

Record inv (s : CondVar) : Prop := {
  inv_mutex : forall t, holds (threads s t) = true <-> mutex s = Some t;
  inv_wake : should_wait s = false -> forall t, drowsy (threads s t) = true ->
    exists u, notifying (threads s u) = true
}.

Lemma cv_inv_init s : init s -> inv s.
Proof.
  intros (E1 & E2 & E3). constructor; [| congruence]. intros t. rewrite E3, E2. simpl. split; discriminate.
Qed.

(** A step that neither locks nor unlocks. *)
Lemma mutex_go s t p :
  (forall t, holds (threads s t) = true <-> mutex s = Some t) -> holds p = holds (threads s t) ->
  forall u, holds (set_pc t p (threads s) u) = true <-> mutex s = Some u.
Proof.
  intros H E u. unfold set_pc. destruct (decide (t = u)) as [<- |]; [rewrite E |]; apply H.
Qed.

Lemma mutex_acquire s t p :
  (forall t, holds (threads s t) = true <-> mutex s = Some t) -> mutex s = None -> holds p = true ->
  forall u, holds (set_pc t p (threads s) u) = true <-> Some t = Some u.
Proof.
  intros H Hn Hp u. unfold set_pc. destruct (decide (t = u)) as [<- | Hne]; [tauto |].
  rewrite H, Hn. split; congruence.
Qed.

Lemma mutex_release s t p :
  (forall t, holds (threads s t) = true <-> mutex s = Some t) -> holds (threads s t) = true -> holds p = false ->
  forall u, holds (set_pc t p (threads s) u) = true <-> (None : option nat) = Some u.
Proof.
  intros H Ht Hp u. apply H in Ht. unfold set_pc. destruct (decide (t = u)) as [<- | Hne].
  - rewrite Hp. split; discriminate.
  - rewrite H. split; congruence.
Qed.

(** A step that makes nobody drowsy and stops no notifier. *)
Lemma wake_go s t p :
  (should_wait s = false -> forall t, drowsy (threads s t) = true -> exists u, notifying (threads s u) = true) ->
  (drowsy p = true -> drowsy (threads s t) = true \/ should_wait s = true) ->
  (notifying (threads s t) = true -> notifying p = true) ->
  should_wait s = false -> forall u, drowsy (set_pc t p (threads s) u) = true ->
  exists v, notifying (set_pc t p (threads s) v) = true.
Proof.
  intros H Hd Hn Hs u Hu.
  assert (Hex : exists v, notifying (threads s v) = true).
  { unfold set_pc in Hu. destruct (decide (t = u)) as [<- |]; [| eauto].
    destruct (Hd Hu) as [Hd' |]; [eauto | congruence]. }
  destruct Hex as [v Hv]. exists v. unfold set_pc. destruct (decide (t = v)) as [<- |]; auto.
Qed.

(** Solves the steps that move one thread only. *)
Ltac one_thread H1 H2 Ht Hm :=
  constructor; cbn [should_wait mutex threads go acquire release];
    [first [ apply mutex_go; [exact H1 | rewrite Ht; reflexivity]
           | apply mutex_acquire; [exact H1 | exact Hm | reflexivity]
           | apply mutex_release; [exact H1 | rewrite Ht; reflexivity | reflexivity] ]
    | apply wake_go; [exact H2 | rewrite Ht; simpl; auto; discriminate | rewrite Ht; simpl; discriminate || reflexivity]].

Lemma cv_inv_moves t s s' : inv s -> moves t s s' -> inv s'.
Proof.
  intros [H1 H2] Hstep.
  destruct Hstep as [s Ht | s c Ht Hs | s c Ht Hs | s c Ht Hs | s c Ht Hs | s c Ht Hm | s c Ht Hs
    | s c Ht Hs | s c Ht | s c Ht Hm | s c Ht | s Ht | s Ht | s Ht Hs | s Ht Hs | s Ht Hm | s Ht | s Ht];
  try (one_thread H1 H2 Ht Hm; fail).
  - (* loop_true *)
    constructor; cbn [should_wait mutex threads go]; [| congruence].
    apply mutex_go; [exact H1 | rewrite Ht; unfold next_spin; destruct (timeout <? u32 (c + 1)); reflexivity].
  - (* reset *)
    constructor; cbn [should_wait mutex threads]; [| discriminate].
    apply mutex_go; [exact H1 | rewrite Ht; reflexivity].
  - (* exchange_true *)
    constructor; cbn [should_wait mutex threads].
    + apply mutex_go; [exact H1 | rewrite Ht; reflexivity].
    + intros _ u _. exists t. rewrite set_pc_eq. reflexivity.
  - (* notify_all *)
    assert (Eh : forall p, holds (wake p) = holds p) by (intros []; reflexivity).
    assert (Ed : forall p, drowsy (wake p) = true -> holds p = true) by (intros []; simpl; congruence).
    assert (Hm : mutex s = Some t) by (apply H1; rewrite Ht; reflexivity).
    constructor; cbn [should_wait mutex threads].
    + intros u. unfold set_pc. destruct (decide (t = u)) as [<- | Hne]; [rewrite Hm; simpl; tauto |].
      rewrite Eh. apply H1.
    + intros _ u Hu. unfold set_pc in Hu. destruct (decide (t = u)) as [<- | Hne]; [discriminate |].
      apply Ed, H1 in Hu. congruence.
Qed.

Lemma cv_inv_step s s' : inv s -> step s s' -> inv s'.
Proof.
  intros Hi Hstep. destruct Hstep as [t s s' Hm | s t c Ht]; [eapply cv_inv_moves; eassumption |].
  destruct Hi as [H1 H2]. one_thread H1 H2 Ht Ht.
Qed.

(** C38 (condvar): no wake-up is lost: in every reachable state in which a
    notification was given and not yet taken, a sleeping thread is about to be
    woken by a notifier; with no [notify] in progress nobody sleeps. *)
Theorem no_lost_wakeup s :
  reachable init step s -> should_wait s = false ->
  (forall t c, threads s t = Sleep c -> exists u, threads s u = LockN \/ threads s u = NotifyAll) /\
  ((forall u, threads s u <> LockN /\ threads s u <> NotifyAll) -> forall t c, threads s t <> Sleep c).
Proof.
  intros Hr Hs. assert (Hi : inv s) by (revert Hr; apply reachable_invariant; [exact cv_inv_init | exact cv_inv_step]).
  destruct Hi as [_ H2].
  assert (H : forall t c, threads s t = Sleep c -> exists u, threads s u = LockN \/ threads s u = NotifyAll).
  { intros t c Ht. destruct (H2 Hs t) as [u Hu]; [rewrite Ht; reflexivity |]. exists u.
    destruct (threads s u); simpl in Hu; auto; discriminate. }
  split; [exact H |]. intros Hno t c Ht. destruct (H t c Ht) as (u & Hu). destruct (Hno u). tauto.
Qed.
End Steps.

(** A waiter goes to sleep at once (timeout 0, as for the parser) and is notified. *)
Definition asleep : CondVar :=
  mkCV false None (set_pc 1%nat LockN (set_pc 1%nat Exchange (set_pc 0%nat (Sleep 1) (set_pc 0%nat (Block 1)
    (set_pc 0%nat (Pred 1) (set_pc 0%nat (LockW 1) (set_pc 0%nat (Recheck 1) (set_pc 0%nat (Loop 0)
      (fun _ => Outside))))))))).

Lemma no_lost_wakeup_witness : exists u, threads asleep u = LockN \/ threads asleep u = NotifyAll.
Proof.
  apply (no_lost_wakeup 0 asleep) with (t := 0%nat) (c := 1); [| reflexivity | reflexivity].
  eapply reachable_step; [| eapply (move 0 1), (exchange_true 0 1 (mkCV true None _)); reflexivity].
  eapply reachable_step; [| eapply (move 0 1), (notify_call 0 1 (mkCV true None _)); reflexivity].
  eapply reachable_step; [| eapply (move 0 0), (fall_asleep 0 0 (mkCV true (Some 0%nat) _) 1); reflexivity].
  eapply reachable_step; [| eapply (move 0 0), (pred_false 0 0 (mkCV true (Some 0%nat) _) 1); reflexivity].
  eapply reachable_step; [| eapply (move 0 0), (lock_wait 0 0 (mkCV true None _) 1); reflexivity].
  eapply reachable_step; [| eapply (move 0 0), (recheck_true 0 0 (mkCV true None _) 1); reflexivity].
  eapply reachable_step; [| eapply (move 0 0), (loop_true 0 0 (mkCV true None _) 0); reflexivity].
  eapply reachable_step; [| eapply (move 0 0), (wait_call 0 0 (mkCV true None _)); reflexivity].
  apply reachable_init. repeat split.
Defined.
End CondVar.
