(* ===== verification/ChunkedList.v ===== *)
(** The container [ChunkedList] of [redGrapes/util/chunked_list.hpp]: an atomic
    list of chunks of [chunk_size] item slots, with append, removal by position
    and reverse iteration.  A pointer to a slot is its index in its chunk (-1 is
    the position before the first slot), an iterator a chunk together with such
    a pointer.  The definitions are the operations as one thread executes them;
    the reference counts that other iterators hold are part of the state. *)

From Stdlib Require Import ZArith Lia Bool.
From stdpp Require Import base gmap list strings.
From S2P Require Import Prelude AtomicList.

Open Scope Z_scope.
Open Scope word_scope.

Module ChunkedList.
Import AtomicList.

(** ** Items *)

(** [storage] is [None] while the slot holds no constructed element. *)
Record Item (T : Type) : Type := mkItem {
  storage : option T;
  iter_offset : Z;
  refcount : Z
}.
Arguments mkItem {T} _ _ _.
Arguments storage {T} _.
Arguments iter_offset {T} _.
Arguments refcount {T} _.

Section Items.
Context {T : Type}.

(** any item starts uninitialized *)
Definition new_item : Item T := mkItem None 1 0.

(** [Item::operator=] *)
Definition item_assign (value : T) (it : Item T) : res (Item T) :=
  _ ← cpp_assert (negb (iter_offset it =? 0));
  _ ← cpp_assert (refcount it =? 0);
  Ok (mkItem (Some value) 0 (refcount it)).

Definition item_acquire (it : Item T) : Z * Item T :=
  let off := iter_offset it in
  let old_refcount := refcount it in
  if (off =? 0) && (0 <=? old_refcount) then
    let old_refcount := refcount it in
    let it := mkItem (storage it) (iter_offset it) (s16 (refcount it + 1)) in
    let off := iter_offset it in
    if 0 <=? old_refcount then
      if negb (off =? 0)
      then (off, mkItem (storage it) (iter_offset it) (s16 (refcount it - 1)))
      else (off, it)
    else (off, mkItem (storage it) (iter_offset it) (s16 (refcount it - 1)))
  else (off, it).

Definition item_release (fail_on_invalid : bool) (it : Item T) : res (Item T) :=
  let old_refcount := refcount it in
  let rc := s16 (refcount it - 1) in
  if old_refcount =? 0 then Ok (mkItem None (iter_offset it) rc)
  else if old_refcount <? 0 then
    if fail_on_invalid then Err (Throw "ChunkedList: try to remove invalid item!")
    else Ok (mkItem (storage it) (iter_offset it) rc)
  else Ok (mkItem (storage it) (iter_offset it) rc).
End Items.

(** ** Chunks *)

Record Chunk (T : Type) : Type := mkChunk {
  items : list (Item T);
  next_item : Z;
  freed_items : Z
}.
Arguments mkChunk {T} _ _ _.
Arguments items {T} _.
Arguments next_item {T} _.
Arguments freed_items {T} _.

(** An iterator: its chunk, the slot its pointer addresses ([None] is the null
    pointer) and the [has_item] bit. *)
Record ItemAccess : Type := mkAccess {
  ia_chunk : option nat;
  ia_item : option Z;
  ia_has : bool
}.

(** [T_chunk_size] *)
Class ChunkSize : Type := chunk_size : Z.

Section Ops.
Context {T : Type} {N : ChunkSize}.

Definition CL : Type := AtomicList (Chunk T).

Definition new_chunk : Chunk T := mkChunk (replicate (Z.to_nat chunk_size) new_item) 0 0.

Definition get_item (i : Z) (c : Chunk T) : res (Item T) :=
  if 0 <=? i then deref (items c !! Z.to_nat i) else Err Undefined.

Definition put_item (i : Z) (it : Item T) (c : Chunk T) : Chunk T :=
  mkChunk (<[Z.to_nat i := it]> (items c)) (next_item c) (freed_items c).

(** the latest item which was inserted *)
Definition get_last_item (c : Chunk T) : Z :=
  let limit := chunk_size in
  let last_item := next_item c - 1 in
  if limit <=? last_item then limit - 1 else last_item.

(** The loop of [~Chunk]: [~Item] on every slot below [next_item]. *)
Fixpoint destroy_items (idxs : list Z) (c : Chunk T) : res (Chunk T) :=
  match idxs with
  | [] => Ok c
  | i :: idxs =>
      it ← get_item i c;
      it ← item_release false it;
      destroy_items idxs (put_item i it c)
  end.

Definition destroy_chunk (c : Chunk T) : res (Chunk T) :=
  destroy_items (zrange 0 (next_item c)) c.

(** ** Iterators *)

Definition is_valid_idx (a : ItemAccess) : bool :=
  match ia_chunk a, ia_item a with
  | Some _, Some i => (0 <=? i) && (i <? chunk_size)
  | _, _ => false
  end.

(** The slot an iterator addresses; [item()] asserts that it is valid. *)
Definition location (a : ItemAccess) : res (nat * Z) :=
  _ ← cpp_assert (is_valid_idx a);
  c ← deref (ia_chunk a);
  i ← deref (ia_item a);
  Ok (c, i).

Definition read_item (p : nat * Z) (l : CL) : res (Item T) :=
  c ← get (fst p) l;
  get_item (snd p) c.

Definition write_item (p : nat * Z) (it : Item T) (l : CL) : res CL :=
  c ← get (fst p) l;
  set_data (fst p) (put_item (snd p) it c) l.

(** [operator*] *)
Definition value_at (a : ItemAccess) (l : CL) : res T :=
  p ← location a;
  it ← read_item p l;
  deref (storage it).

Definition set_item (a : ItemAccess) : ItemAccess := mkAccess (ia_chunk a) (ia_item a) true.
Definition unset_item (a : ItemAccess) : ItemAccess := mkAccess (ia_chunk a) (ia_item a) false.

Definition try_acquire (a : ItemAccess) (l : CL) : res (Z * ItemAccess * CL) :=
  if is_valid_idx a then
    p ← location a;
    it ← read_item p l;
    let '(off, it) := item_acquire it in
    l ← write_item p it l;
    Ok (off, if off =? 0 then set_item a else a, l)
  else Ok (1, a, l).

Definition release (a : ItemAccess) (l : CL) : res (ItemAccess * CL) :=
  if ia_has a then
    let a := unset_item a in
    p ← location a;
    it ← read_item p l;
    it ← item_release true it;
    l ← write_item p it l;
    Ok (a, l)
  else Ok (a, l).

(** [++chunk; cur_item = chunk ? chunk->get_last_item() : 0;] *)
Definition prev_chunk (a : ItemAccess) (l : CL) : res (ItemAccess * CL) :=
  '(c, l) ← iter_next (ia_chunk a) l;
  match c with
  | Some id => d ← get id l; Ok (mkAccess c (Some (get_last_item d)) (ia_has a), l)
  | None => Ok (mkAccess c None (ia_has a), l)
  end.

Fixpoint acquire_next_item (fuel : nat) (a : ItemAccess) (l : CL) : res (ItemAccess * CL) :=
  match fuel with
  | O => Err OutOfFuel
  | S fuel =>
      if is_valid_idx a then
        '(step, a, l) ← try_acquire a l;
        if step =? 0 then
          _ ← cpp_assert (ia_has a);
          Ok (a, l)
        else
          _ ← cpp_assert (negb (ia_has a));
          i ← deref (ia_item a);
          let a := mkAccess (ia_chunk a) (Some (i - step)) (ia_has a) in
          if negb (is_valid_idx a) then
            '(a, l) ← prev_chunk a l;
            acquire_next_item fuel a l
          else acquire_next_item fuel a l
      else Ok (mkAccess (ia_chunk a) None (ia_has a), l)
  end.

(** One round per slot of every chunk ever allocated, and the final test. *)
Definition acquire_fuel (l : CL) : nat := S (Z.to_nat chunk_size * S (next_id l)).

(** [ItemAccess(chunk, item_ptr)] *)
Definition make_access (c : option nat) (i : option Z) (l : CL) : res (ItemAccess * CL) :=
  acquire_next_item (acquire_fuel l) (mkAccess c i false) l.

(** The copy constructor starts over from the position of the other iterator. *)
Definition copy_access (other : ItemAccess) (l : CL) : res (ItemAccess * CL) :=
  make_access (ia_chunk other) (ia_item other) l.

(** [operator==] compares the item pointers only. *)
Definition access_eqb (a b : ItemAccess) : bool :=
  match ia_item a, ia_item b with
  | None, None => true
  | Some i, Some j => bool_decide (ia_chunk a = ia_chunk b) && (i =? j)
  | _, _ => false
  end.

(** [operator=]: returns the new value of the left-hand side. *)
Definition assign_access (this other : ItemAccess) (l : CL) : res (ItemAccess * CL) :=
  '(_, l) ← release this l;
  '(_, a, l) ← try_acquire (mkAccess (ia_chunk other) (ia_item other) false) l;
  Ok (a, l).

(** [operator++] *)
Definition next_access (a : ItemAccess) (l : CL) : res (ItemAccess * CL) :=
  '(a, l) ← release a l;
  _ ← deref (ia_chunk a);
  i ← deref (ia_item a);
  if 0 <=? i - 1 then
    acquire_next_item (acquire_fuel l) (mkAccess (ia_chunk a) (Some (i - 1)) (ia_has a)) l
  else
    '(a, l) ← prev_chunk a l;
    acquire_next_item (acquire_fuel l) a l.

(** ** The list *)

Definition empty : CL := empty_list.

(** [ChunkedList(Allocator&&, ChunkedList const&)]: the argument is not copied. *)
Definition copy_construct (other : CL) : CL := empty.

Definition release_chunk (c : option nat) (l : CL) : res CL :=
  id ← deref c;
  d ← get id l;
  l ← set_data id (mkChunk (items d) (next_item d) (freed_items d + 1)) l;
  if freed_items d =? chunk_size - 1 then erase c l else Ok l.

Fixpoint push (fuel : nat) (item : T) (l : CL) : res (ItemAccess * CL) :=
  match fuel with
  | O => Err OutOfFuel
  | S fuel =>
      match rbegin l with
      | Some chunk =>
          d ← get chunk l;
          if next_item d <=? chunk_size then
            let next := next_item d in
            let d := mkChunk (items d) (next + 1) (freed_items d) in
            l ← set_data chunk d l;
            if next <? chunk_size then
              it ← get_item next d;
              it ← item_assign item it;
              l ← set_data chunk (put_item next it d) l;
              make_access (Some chunk) (Some next) l
            else if next =? chunk_size then
              '(_, l) ← allocate_item new_chunk l;
              push fuel item l
            else push fuel item l
          else push fuel item l
      | None =>
          let '(_, l) := try_allocate_first_item new_chunk l in
          push fuel item l
      end
  end.

(** At most one round to allocate a chunk and one to take its first slot. *)
Definition push_fuel : nat := 3.

Definition remove (pos : ItemAccess) (l : CL) : res CL :=
  if is_valid_idx pos then
    '(c, i) ← location pos;
    it ← read_item (c, i) l;
    off ← (if i =? 0 then Ok 1
           else p ← read_item (c, i - 1) l; Ok (u16 (iter_offset p + 1)));
    it ← item_release true (mkItem (storage it) off (refcount it));
    l ← write_item (c, i) it l;
    release_chunk (ia_chunk pos) l
  else Err (Throw "remove invalid position").

Definition cl_rbegin (l : CL) : res (ItemAccess * CL) :=
  match rbegin l with
  | Some c => d ← get c l; make_access (Some c) (Some (get_last_item d)) l
  | None => make_access None None l
  end.

Definition cl_rend : ItemAccess := mkAccess None None false.

(** [for(; it != rend(); ++it) body]. *)
Fixpoint for_each {A} (fuel : nat) (body : ItemAccess -> A -> CL -> res (A * CL))
    (it : ItemAccess) (acc : A) (l : CL) : res (A * CL) :=
  match fuel with
  | O => Err OutOfFuel
  | S fuel =>
      if access_eqb it cl_rend then Ok (acc, l)
      else
        '(acc, l) ← body it acc l;
        '(it, l) ← next_access it l;
        for_each fuel body it acc l
  end.

(** Collects the visited values in the order of the visit. *)
Definition collect_body (it : ItemAccess) (acc : list T) (l : CL) : res (list T * CL) :=
  x ← value_at it l;
  Ok (acc ++ [x], l).

Definition collect (l : CL) : res (list T * CL) :=
  '(it, l) ← cl_rbegin l;
  for_each (acquire_fuel l) collect_body it [] l.

(** [erase(T item)] *)
Definition erase_body `{EqDecision T} (x : T) (it : ItemAccess) (acc : unit) (l : CL)
    : res (unit * CL) :=
  y ← value_at it l;
  if bool_decide (y = x) then l ← remove it l; Ok (acc, l) else Ok (acc, l).

Definition cl_erase `{EqDecision T} (x : T) (l : CL) : res CL :=
  '(it, l) ← cl_rbegin l;
  '(_, l) ← for_each (acquire_fuel l) (erase_body x) it tt l;
  Ok l.
End Ops.

End ChunkedList.
