(* ===== verification/Packed.v ===== *)
(** The packed pointer of an iterator of a [ChunkedList]
    ([redGrapes/util/chunked_list.hpp]): the address of the item and, in the most
    significant bit, whether the item was acquired. *)

From Stdlib Require Import ZArith Lia Bool.
From S2P Require Import Prelude.

Open Scope Z_scope.

Module Packed.
Definition addr_mask : Z := Z.shiftr (not64 0) 1.
Definition has_bit : Z := not64 addr_mask.

Definition has_item (cur_item : Z) : bool := negb (Z.land cur_item has_bit =? 0).
Definition set_item (cur_item : Z) : Z := Z.lor cur_item has_bit.
Definition unset_item (cur_item : Z) : Z := Z.land cur_item addr_mask.
Definition get_item_ptr (cur_item : Z) : Z := Z.land cur_item addr_mask.

(** C29 (packed): an address below 2^63 survives the packing, whatever the flag,
    and the flag is what was stored last. *)
Theorem packed_pointer_roundtrip (p : Z) :
  0 <= p < 2 ^ 63 ->
  get_item_ptr p = p /\ get_item_ptr (set_item p) = p /\
  unset_item (set_item p) = p /\
  has_item p = false /\ has_item (set_item p) = true.
Proof.
  intros Hp. assert (Hm : addr_mask = Z.ones 63) by reflexivity. assert (Hb : has_bit = 2 ^ 63) by reflexivity.
  assert (H0 : Z.land p (2 ^ 63) = 0).
  { apply Z.bits_inj'. intros i Hi. rewrite Z.land_spec, Z.pow2_bits_eqb, Z.bits_0 by lia.
    destruct (Z.eqb_spec 63 i) as [<- |]; [rewrite (testbit_high 63 p) by (unfold is_word; lia); reflexivity |].
    apply andb_false_r. }
  assert (Hl : Z.land p (Z.ones 63) = p) by (rewrite Z.land_ones by lia; apply Z.mod_small; lia).
  assert (H1 : Z.land (Z.lor p (2 ^ 63)) (Z.ones 63) = p).
  { rewrite Z.land_lor_distr_l, Hl. change (Z.land (2 ^ 63) (Z.ones 63)) with 0. apply Z.lor_0_r. }
  unfold get_item_ptr, set_item, unset_item, has_item. rewrite Hm, Hb, H1, H0, Hl.
  repeat (split; [reflexivity |]). rewrite Z.land_lor_distr_l, H0, Z.land_diag. reflexivity.
Qed.

Lemma packed_pointer_roundtrip_witness : get_item_ptr (set_item 4096) = 4096.
Proof. apply (packed_pointer_roundtrip 4096). lia. Defined.
End Packed.
