(* ===== verification/ChunkedListSpec.v ===== *)
(** What [ChunkedList] promises: the list of its elements with their positions,
    newest first, the representation invariant [CLwf] of its chunks, and the
    refinement theorems of [push], [remove], [erase] and of reverse iteration. *)

From Stdlib Require Import ZArith Lia Bool.
From stdpp Require Import base gmap list strings.
From S2P Require Import Prelude AtomicList ChunkedList.

Open Scope Z_scope.
Open Scope word_scope.

Module ChunkedListSpec.
Import AtomicList ChunkedList.

(** A position: the identity of a chunk and the index of a slot in it. *)
Definition pos : Type := (nat * Z)%type.

(** The iterator that holds the element at [p]. *)
Definition at_pos (p : pos) : ItemAccess := mkAccess (Some (fst p)) (Some (snd p)) true.

Section Spec.
Context {T : Type} {N : ChunkSize}.
Implicit Types (l : @CL T) (c : Chunk T).

Definition live (it : Item T) : bool := iter_offset it =? 0.

(** The live elements below index [n] of chunk [id], from the highest index down. *)
Fixpoint below (id : nat) (its : list (Item T)) (n : nat) : list (pos * T) :=
  match n with
  | O => []
  | S k =>
      match its !! k with
      | Some it =>
          match (if live it then storage it else None) with
          | Some v => ((id, Z.of_nat k), v) :: below id its k
          | None => below id its k
          end
      | None => below id its k
      end
  end.

Definition chunk_back l (id : nat) : list (pos * T) :=
  match nodes l !! id with
  | Some n => below id (items (item_data n)) (Z.to_nat chunk_size)
  | None => []
  end.

(** The elements of the chunks [ids], newest chunk first. *)
Definition back l (ids : list nat) : list (pos * T) := concat (chunk_back l <$> ids).

(** A used slot is live, or it is removed and jumps over non-live slots only. *)
Definition slot_wf (its : list (Item T)) (i : nat) (it : Item T) : Prop :=
  (iter_offset it = 0 /\ is_Some (storage it) /\ 0 <= refcount it < 2 ^ 15) \/
  (1 <= iter_offset it <= Z.of_nat i + 1 /\
   forall k itk, Z.of_nat i - iter_offset it < Z.of_nat k <= Z.of_nat i ->
     its !! k = Some itk -> live itk = false).

Definition removed_count (its : list (Item T)) : nat :=
  length (List.filter (fun it => negb (live it)) its).

Record chunk_wf c : Prop := {
  cw_length : Z.of_nat (length (items c)) = chunk_size;
  cw_next : 0 <= next_item c;
  cw_used : forall i it, items c !! i = Some it -> Z.of_nat i < next_item c ->
    slot_wf (items c) i it;
  cw_unused : forall i it, items c !! i = Some it -> next_item c <= Z.of_nat i -> it = new_item;
  cw_freed : freed_items c
    = Z.of_nat (removed_count (take (Z.to_nat (next_item c)) (items c)))
}.

Record CLwf l : Prop := {
  cl_wf : wf l;
  cl_chunks : forall id n, nodes l !! id = Some n -> chunk_wf (item_data n) /\
    (deleted n = true -> freed_items (item_data n) = chunk_size);
  cl_head : forall h n, head l = Some h -> nodes l !! h = Some n ->
    next_item (item_data n) <= chunk_size;
  cl_full : forall id n, head l <> Some id -> nodes l !! id = Some n ->
    chunk_size <= next_item (item_data n)
}.

(** What an iteration needs of a chunk, whether or not its slots are counted. *)
Record slots_wf c : Prop := {
  sw_length : Z.of_nat (length (items c)) = chunk_size;
  sw_used : forall i it, items c !! i = Some it -> Z.of_nat i < next_item c ->
    slot_wf (items c) i it;
  sw_unused : forall i it, items c !! i = Some it -> next_item c <= Z.of_nat i -> it = new_item
}.

(** What an iteration needs of a list: chunks that are flagged have no live element. *)
Record Iterable l : Prop := {
  ib_wf : wf l;
  ib_slots : forall id n, nodes l !! id = Some n -> slots_wf (item_data n);
  ib_deleted : forall id, is_deleted l id = true -> chunk_back l id = []
}.

(** Every slot of the chunk is used. *)
Definition full l (id : nat) : Prop :=
  forall n, nodes l !! id = Some n -> chunk_size <= next_item (item_data n).

(** No live item has the largest reference count. *)
Definition acquirable l : Prop :=
  forall id n i it, nodes l !! id = Some n -> items (item_data n) !! i = Some it ->
    live it = true -> refcount it < 2 ^ 15 - 1.

(** [B] is the content of the list, newest element first. *)
Definition Repr l (B : list (pos * T)) : Prop :=
  CLwf l /\ exists ids, path l (head l) ids /\ B = back l ids.

(** The reference an iterator holds on the item at [p]. *)
Definition hold (p : pos) l : res (@CL T) :=
  it ← read_item p l;
  write_item p (mkItem (storage it) (iter_offset it) (refcount it + 1)) l.

(** The element [v] at [p] is live and [B] are the elements before it. *)
Definition At l (p : pos) (v : T) (B : list (pos * T)) : Prop :=
  exists n it rest, path l (Some (fst p)) (fst p :: rest) /\ nodes l !! fst p = Some n /\
    0 <= snd p < chunk_size /\ items (item_data n) !! Z.to_nat (snd p) = Some it /\
    live it = true /\ storage it = Some v /\
    Forall (full l) rest /\
    B = below (fst p) (items (item_data n)) (Z.to_nat (snd p)) ++ back l rest.

(** The result of moving an iterator when the elements [B] lie ahead of it. *)
Definition outcome (B : list (pos * T)) l (r : res (ItemAccess * @CL T)) : Prop :=
  match B with
  | [] => exists a l1, r = Ok (a, l1) /\ skips l l1 /\ ia_item a = None /\ ia_has a = false
  | (p, v) :: B =>
      exists l1 l2, r = Ok (at_pos p, l2) /\ skips l l1 /\ hold p l1 = Ok l2 /\ At l1 p v B
  end.

End Spec.

(** The template argument is a positive size whose offsets fit 16 bits. *)
Class GoodSize (N : ChunkSize) : Prop := good_size : 0 < (chunk_size : Z) < 2 ^ 16.

Section Facts.
Context {T : Type} {N : ChunkSize} {HN : GoodSize N}.
Implicit Types l : @CL T.

Lemma below_In id its n p v :
  (p, v) ∈ below (T := T) id its n <->
  exists k it, p = (id, Z.of_nat k) /\ (k < n)%nat /\ its !! k = Some it /\
    live it = true /\ storage it = Some v.
Proof.
  induction n as [| n IH]; simpl.
  { split; [intros H; inversion H | intros (k & it & _ & Hk & _); lia]. }
  assert (Hext : (exists k it, p = (id, Z.of_nat k) /\ (k < S n)%nat /\ its !! k = Some it /\
                   live it = true /\ storage it = Some v) <->
    (exists it, p = (id, Z.of_nat n) /\ its !! n = Some it /\ live it = true /\ storage it = Some v)
    \/ (p, v) ∈ below id its n).
  { rewrite IH. split.
    - intros (k & it & Hp & Hk & Hr). destruct (decide (k = n)) as [-> |].
      + left. exists it. tauto.
      + right. exists k, it. split; [exact Hp |]. split; [lia | exact Hr].
    - intros [(it & Hp & Hr) | (k & it & Hp & Hk & Hr)].
      + exists n, it. split; [exact Hp |]. split; [lia | exact Hr].
      + exists k, it. split; [exact Hp |]. split; [lia | exact Hr]. }
  rewrite Hext. clear Hext IH.
  destruct (its !! n) as [it |] eqn:Eit.
  2: { split; [auto |]. intros [(it & _ & E & _) |]; [discriminate | assumption]. }
  destruct (live it) eqn:El; [destruct (storage it) as [w |] eqn:Es |].
  - rewrite elem_of_cons. split.
    + intros [E | H]; [| auto]. injection E as -> ->. left. eauto 10.
    + intros [(it' & -> & E & _ & Ev) | H]; [left; congruence | auto].
  - split; [auto |]. intros [(it' & _ & E & _ & Ev) |]; [congruence | assumption].
  - split; [auto |]. intros [(it' & _ & E & Ev & _) |]; [congruence | assumption].
Qed.

(** Slots that are not live do not contribute. *)
Lemma below_skip id its a b :
  (a <= b)%nat ->
  (forall k it, (a <= k < b)%nat -> its !! k = Some it -> live it = false) ->
  below (T := T) id its b = below id its a.
Proof.
  intros Hab H. induction b as [| b IH].
  - replace a with 0%nat by lia. reflexivity.
  - destruct (decide (a = S b)) as [-> | Hne]; [reflexivity |].
    simpl. rewrite IH by (lia || (intros; eapply H; [| eassumption]; lia)).
    destruct (its !! b) as [it |] eqn:E; [| reflexivity].
    rewrite (H b it) by (assumption || lia). reflexivity.
Qed.

Lemma below_ext id its its' n :
  (forall k, (k < n)%nat -> its' !! k = its !! k \/
     exists it it', its !! k = Some it /\ its' !! k = Some it' /\
       live it' = live it /\ (live it = true -> storage it' = storage it)) ->
  below (T := T) id its' n = below id its n.
Proof.
  induction n as [| n IH]; intros H; [reflexivity |]. simpl.
  rewrite IH by (intros k Hk; apply H; lia).
  destruct (H n ltac:(lia)) as [-> | (it & it' & -> & -> & El & Es)]; [reflexivity |].
  rewrite El. destruct (live it); [rewrite Es by reflexivity |]; reflexivity.
Qed.

Lemma filter_nil_count {A} (p : A -> bool) (xs : list A) :
  length (List.filter p xs) = length xs -> Forall (fun x => p x = true) xs.
Proof.
  induction xs as [| x xs IH]; simpl; intros H; constructor.
  - destruct (p x); [reflexivity |]. pose proof (filter_length_le p xs). simpl in H. lia.
  - apply IH. destruct (p x); simpl in H; [lia |]. pose proof (filter_length_le p xs). lia.
Qed.

(** A deleted chunk has no live element. *)
Lemma chunk_back_deleted l id :
  CLwf l -> is_deleted l id = true -> chunk_back l id = [].
Proof.
  intros Hwf Hd. unfold is_deleted in Hd. unfold chunk_back.
  destruct (nodes l !! id) as [n |] eqn:En; [| discriminate].
  destruct (cl_chunks l Hwf id n En) as [Hc Hfreed]. specialize (Hfreed Hd).
  pose proof (cw_length _ Hc) as Hlen. pose proof (cw_freed _ Hc) as Hfr.
  unfold removed_count in Hfr.
  set (used := take (Z.to_nat (next_item (item_data n))) (items (item_data n))) in *.
  assert (Hle : (length used <= length (items (item_data n)))%nat)
    by (unfold used; rewrite length_take; lia).
  assert (Hfl : (length (List.filter (fun it => negb (live it)) used) <= length used)%nat)
    by apply filter_length_le.
  assert (Hall : Forall (fun it => negb (live it) = true) used)
    by (apply filter_nil_count; lia).
  assert (Heq : used = items (item_data n)).
  { unfold used in *. rewrite length_take in *. apply take_ge. lia. }
  rewrite Heq in Hall.
  rewrite (below_skip id _ 0); [reflexivity | lia |].
  intros k it _ Hk. rewrite Forall_lookup in Hall. specialize (Hall k it Hk). simpl in Hall.
  destruct (live it); [discriminate | reflexivity].
Qed.

Lemma chunk_slots (c : Chunk T) : chunk_wf c -> slots_wf c.
Proof. intros [C1 C2 C3 C4 C5]. constructor; assumption. Qed.

Lemma CLwf_iterable l : CLwf l -> Iterable l.
Proof.
  intros Hwf. constructor; [apply Hwf | | intros id; apply chunk_back_deleted, Hwf].
  intros id n Hn. apply chunk_slots, (cl_chunks l Hwf id n Hn).
Qed.

Lemma nonhead_full l ids : CLwf l -> Forall (fun r => head l <> Some r) ids -> Forall (full l) ids.
Proof. intros Hwf H. eapply Forall_impl; [exact H |]. intros id Hid n Hn. exact (cl_full l Hwf id n Hid Hn). Qed.

Lemma back_cons l id ids : back l (id :: ids) = chunk_back l id ++ back l ids.
Proof. reflexivity. Qed.

Lemma back_alive l ids : Iterable l -> back l (List.filter (alive l) ids) = back l ids.
Proof.
  intros Hwf. induction ids as [| id ids IH]; [reflexivity |].
  simpl. unfold alive at 1. rewrite back_cons, <- IH.
  destruct (is_deleted l id) eqn:Ed; simpl; [| apply back_cons].
  rewrite (ib_deleted l Hwf id Ed). reflexivity.
Qed.

Lemma same_items_lookup l l' id n :
  same_items l l' -> nodes l !! id = Some n ->
  exists n', nodes l' !! id = Some n' /\ deleted n' = deleted n /\ item_data n' = item_data n.
Proof.
  intros (_ & _ & H) Hn. specialize (H id). rewrite Hn in H. simpl in H.
  destruct (nodes l' !! id) as [n' |]; [| discriminate]. exists n'.
  injection H as ? ?. auto.
Qed.

Lemma same_items_sym l l' : same_items l l' -> same_items l' l.
Proof.
  intros (Hn & Hh & H). split; [congruence |]. split; [congruence |]. intros id. symmetry. apply H.
Qed.

Lemma chunk_back_same l l' id : same_items l l' -> chunk_back l' id = chunk_back l id.
Proof.
  intros Hs. unfold chunk_back. destruct (nodes l !! id) as [n |] eqn:En.
  - destruct (same_items_lookup l l' id n Hs En) as (n' & -> & _ & ->). reflexivity.
  - destruct Hs as (_ & _ & H). specialize (H id). rewrite En in H.
    destruct (nodes l' !! id); [discriminate | reflexivity].
Qed.

Lemma back_same l l' ids : same_items l l' -> back l' ids = back l ids.
Proof.
  intros Hs. unfold back. f_equal. apply list_fmap_ext. intros i id _. apply chunk_back_same, Hs.
Qed.

Lemma CLwf_same l l' : CLwf l -> same_items l l' -> wf l' -> CLwf l'.
Proof.
  intros [Hw Hc Hh Hf] Hs Hwf'. pose proof (same_items_sym _ _ Hs) as Hs'.
  pose proof Hs as (_ & Ehd & _).
  constructor; [exact Hwf' | | |].
  - intros id n Hn. destruct (same_items_lookup l' l id n Hs' Hn) as (n' & Hn' & <- & <-). eauto.
  - intros h n Eh Hn. destruct (same_items_lookup l' l h n Hs' Hn) as (n' & Hn' & _ & <-).
    apply (Hh h n'); congruence.
  - intros id n Eh Hn. destruct (same_items_lookup l' l id n Hs' Hn) as (n' & Hn' & _ & <-).
    apply (Hf id n'); congruence.
Qed.

Lemma Iterable_same l l' : Iterable l -> same_items l l' -> wf l' -> Iterable l'.
Proof.
  intros [Hw Hc Hd] Hs Hwf'. constructor; [exact Hwf' | |].
  - intros id n Hn. destruct (same_items_lookup l' l id n (same_items_sym _ _ Hs) Hn) as (n' & Hn' & _ & <-). eauto.
  - intros id Hid. rewrite (chunk_back_same l l') by exact Hs. apply Hd.
    rewrite <- Hid. symmetry. apply same_items_deleted, Hs.
Qed.

Lemma full_same l l' ids : same_items l l' -> Forall (full l) ids -> Forall (full l') ids.
Proof.
  intros Hs H. eapply Forall_impl; [exact H |]. intros id Hid n Hn.
  destruct (same_items_lookup l' l id n (same_items_sym _ _ Hs) Hn) as (n' & Hn' & _ & <-). eauto.
Qed.

Lemma acquirable_same l l' : acquirable l -> same_items l l' -> acquirable l'.
Proof.
  intros Ha Hs id n i it Hn Hi Hl.
  destruct (same_items_lookup l' l id n (same_items_sym _ _ Hs) Hn) as (n' & Hn' & _ & Ed).
  rewrite <- Ed in Hi. eauto.
Qed.

(** Unlinking deleted chunks keeps the content of every chain. *)
Lemma skips_back l l' o ids :
  Iterable l -> skips l l' -> path l o ids ->
  exists ids', path l' o ids' /\ back l' ids' = back l ids /\ hd_error ids' = hd_error ids /\
    (forall id, id ∈ ids' -> id ∈ ids).
Proof.
  intros Hwf (Hs & Hwf' & Hp) H. destruct (Hp o ids H) as (ids' & H' & E & Eh & Hin).
  exists ids'. split; [exact H' |]. split; [| auto].
  rewrite (back_same l l') by exact Hs.
  rewrite <- (back_alive l ids'), E, back_alive by exact Hwf. reflexivity.
Qed.

Lemma skips_Iterable l l' : Iterable l -> skips l l' -> Iterable l'.
Proof. intros Hwf (Hs & Hw & _). eapply Iterable_same; eassumption. Qed.

Lemma skips_CLwf l l' : CLwf l -> skips l l' -> CLwf l'.
Proof. intros Hwf (Hs & Hw & _). eapply CLwf_same; eassumption. Qed.

Lemma Repr_skips l l' B : Repr l B -> skips l l' -> Repr l' B.
Proof.
  intros [Hwf (ids & Hp & ->)] Hsk. split; [eapply skips_CLwf; eassumption |].
  destruct (skips_back l l' _ _ (CLwf_iterable l Hwf) Hsk Hp) as (ids' & Hp' & E & _).
  exists ids'. destruct Hsk as ((_ & -> & _) & _). auto.
Qed.

(** ** Items *)

Lemma item_acquire_live (it : Item T) :
  live it = true -> 0 <= refcount it < 2 ^ 15 - 1 ->
  item_acquire it = (0, mkItem (storage it) 0 (refcount it + 1)).
Proof.
  unfold live. intros Hl Hr. apply Z.eqb_eq in Hl. unfold item_acquire. cbn [iter_offset refcount storage].
  rewrite Hl. simpl. replace (0 <=? refcount it) with true by lia. simpl.
  rewrite swrap_small by lia. reflexivity.
Qed.

Lemma item_acquire_dead (it : Item T) :
  live it = false -> item_acquire it = (iter_offset it, it).
Proof.
  unfold live. intros Hl. unfold item_acquire. rewrite Hl. reflexivity.
Qed.

Lemma chunk_slot (c : Chunk T) i :
  slots_wf c -> 0 <= i < chunk_size ->
  exists it, items c !! Z.to_nat i = Some it /\
    ((live it = true /\ is_Some (storage it) /\ 0 <= refcount it < 2 ^ 15) \/
     (live it = false /\ 1 <= iter_offset it <= i + 1 /\
      forall k itk, (Z.to_nat (i - iter_offset it + 1) <= k < Z.to_nat (i + 1))%nat ->
        items c !! k = Some itk -> live itk = false)).
Proof.
  intros Hc Hi. pose proof (sw_length _ Hc) as Hlen.
  destruct (lookup_lt_is_Some_2 (items c) (Z.to_nat i)) as [it Hit]; [lia |].
  exists it. split; [exact Hit |].
  destruct (decide (i < next_item c)) as [Hu | Hu].
  - destruct (sw_used _ Hc _ _ Hit ltac:(lia)) as [(H0 & Hs & Hr) | [Ho Hdead]].
    + left. unfold live. rewrite H0. auto.
    + right. unfold live. split; [lia |]. split; [lia |].
      intros k itk Hk Ek. eapply Hdead; [| exact Ek]. lia.
  - pose proof (sw_unused _ Hc _ _ Hit ltac:(lia)) as ->. right. simpl.
    split; [reflexivity |]. split; [lia |]. intros k itk Hk Ek.
    replace k with (Z.to_nat i) in Ek by lia. rewrite Hit in Ek. injection Ek as <-. reflexivity.
Qed.

Lemma valid_idx_at c i h :
  0 <= i < chunk_size -> is_valid_idx (mkAccess (Some c) (Some i) h) = true.
Proof. intros Hi. unfold is_valid_idx. simpl. lia. Qed.

Lemma location_at c i h :
  0 <= i < chunk_size -> location (mkAccess (Some c) (Some i) h) = Ok (c, i).
Proof. intros Hi. unfold location. rewrite valid_idx_at by exact Hi. reflexivity. Qed.

Lemma get_ok l c n : nodes l !! c = Some n -> get c l = Ok (item_data n).
Proof. intros Hn. unfold get, get_node. rewrite Hn. reflexivity. Qed.

Lemma set_data_ok l c n d :
  nodes l !! c = Some n -> set_data c d l = Ok (put_node c (mkCB (deleted n) (prev n) d) l).
Proof. intros Hn. unfold set_data, get_node. rewrite Hn. reflexivity. Qed.

Lemma read_item_ok l c n i it :
  nodes l !! c = Some n -> 0 <= i -> items (item_data n) !! Z.to_nat i = Some it ->
  read_item (c, i) l = Ok it.
Proof.
  intros Hn Hi Hit. unfold read_item. simpl. rewrite (get_ok l c n Hn). simpl.
  unfold get_item. replace (0 <=? i) with true by lia. rewrite Hit. reflexivity.
Qed.

Lemma put_node_id l c n : nodes l !! c = Some n -> put_node c n l = l.
Proof. intros Hn. destruct l as [ns h k]. unfold put_node. simpl in *. rewrite insert_id; auto. Qed.

Lemma write_item_ok l c n i it :
  nodes l !! c = Some n ->
  write_item (c, i) it l = Ok (put_node c (mkCB (deleted n) (prev n) (put_item i it (item_data n))) l).
Proof.
  intros Hn. unfold write_item. simpl. rewrite (get_ok l c n Hn). simpl.
  rewrite (set_data_ok l c n _ Hn). reflexivity.
Qed.

Lemma write_item_id l c n i it :
  nodes l !! c = Some n -> items (item_data n) !! Z.to_nat i = Some it ->
  write_item (c, i) it l = Ok l.
Proof.
  intros Hn Hit. rewrite (write_item_ok l c n i it Hn). f_equal.
  unfold put_item. rewrite (list_insert_id _ _ _ Hit).
  destruct n as [d p [its nx fr]]. apply put_node_id. exact Hn.
Qed.

Lemma outcome_skips B l l1 r : skips l l1 -> outcome B l1 r -> outcome B l r.
Proof.
  intros Hs. destruct B as [| [p v] B]; simpl.
  - intros (a & l2 & -> & Hs2 & Ha). exists a, l2.
    split; [reflexivity |]. split; [eapply skips_trans; eassumption | exact Ha].
  - intros (l2 & l3 & -> & Hs2 & Hr). exists l2, l3.
    split; [reflexivity |]. split; [eapply skips_trans; eassumption | exact Hr].
Qed.

Lemma full_last_item l id n :
  full l id -> nodes l !! id = Some n -> get_last_item (item_data n) = chunk_size - 1.
Proof.
  intros Hf Hn. pose proof (Hf n Hn).
  unfold get_last_item. destruct (Z.leb_spec chunk_size (next_item (item_data n) - 1)); lia.
Qed.

(** Moving to the previous chunk: past the end, or at the last slot of a chunk. *)
Lemma prev_chunk_cases l c rest i h :
  Iterable l -> path l (Some c) (c :: rest) -> Forall (full l) rest ->
  exists l1, skips l l1 /\
  ((prev_chunk (mkAccess (Some c) i h) l = Ok (mkAccess None None h, l1) /\ back l rest = []) \/
   (exists d n rest', path l1 (Some d) (d :: rest') /\ nodes l1 !! d = Some n /\
      prev_chunk (mkAccess (Some c) i h) l = Ok (mkAccess (Some d) (Some (chunk_size - 1)) h, l1) /\
      Forall (full l1) (d :: rest') /\
      (length (d :: rest') <= length rest)%nat /\
      back l rest = back l1 (d :: rest'))).
Proof.
  intros Hwf Hp Hnh.
  destruct (iter_next_skips l c rest (ib_wf l Hwf) Hp) as (l1 & Hn & Hsk & Hp1).
  exists l1. split; [exact Hsk |].
  pose proof (skips_Iterable l l1 Hwf Hsk) as Hwf1. pose proof Hsk as (Hs & _ & _).
  unfold prev_chunk. simpl ia_chunk. rewrite Hn. cbn [mbind res_bind].
  assert (Eb : back l rest = back l1 (drop_deleted l rest)).
  { rewrite (back_same l l1 _ Hs), <- (back_alive l (drop_deleted l rest)) by exact Hwf.
    rewrite drop_deleted_alive, back_alive by exact Hwf. reflexivity. }
  assert (Hnh1 : Forall (full l1) (drop_deleted l rest)).
  { apply (full_same l l1 _ Hs). rewrite Forall_forall in *. intros r Hr.
    apply Hnh, (drop_deleted_sub l), Hr. }
  assert (Hlen : (length (drop_deleted l rest) <= length rest)%nat).
  { destruct (drop_deleted_suffix l rest) as (pre & E & _).
    rewrite E at 2. rewrite length_app. lia. }
  destruct (drop_deleted l rest) as [| d rest'] eqn:Ed; simpl hd_error in *; cbn [mbind res_bind].
  - left. split; [reflexivity | exact Eb].
  - right. inversion Hp1 as [| ? n ? Hnd Hpd]; simplify_eq.
    exists d, n, rest'. split; [exact Hp1 |]. split; [exact Hnd |].
    rewrite (get_ok l1 d n Hnd). cbn [mbind res_bind].
    rewrite (full_last_item l1 d n) by (assumption || (inversion Hnh1; assumption)).
    simpl ia_has. auto.
Qed.

Lemma acquire_next_spec fuel l c rest n i :
  Iterable l -> acquirable l -> path l (Some c) (c :: rest) -> nodes l !! c = Some n ->
  0 <= i < chunk_size -> Forall (full l) rest ->
  (Z.to_nat (i + 1) + Z.to_nat chunk_size * length rest < fuel)%nat ->
  outcome (below c (items (item_data n)) (Z.to_nat (i + 1)) ++ back l rest) l
    (acquire_next_item fuel (mkAccess (Some c) (Some i) false) l).
Proof.
  revert l c rest n i. induction fuel as [| fuel IH];
    intros l c rest n i Hwf Hacq Hp Hn Hi Hnh Hf; [lia |].
  cbn [acquire_next_item]. unfold try_acquire.
  rewrite valid_idx_at, location_at by exact Hi. cbn [mbind res_bind].
  pose proof (ib_slots l Hwf c n Hn) as Hc.
  destruct (chunk_slot _ i Hc Hi) as (it & Hit & [(Hl & [v Hv] & Hr) | (Hl & Ho & Hdead)]).
  - rewrite (read_item_ok l c n i it Hn) by (assumption || lia). cbn [mbind res_bind].
    pose proof (Hacq c n _ it Hn Hit Hl) as Hlt.
    rewrite item_acquire_live by (assumption || lia).
    rewrite (write_item_ok l c n i _ Hn). cbn [mbind res_bind].
    rewrite Z.eqb_refl. unfold set_item. simpl ia_has. cbn [cpp_assert mbind res_bind ia_chunk ia_item].
    replace (Z.to_nat (i + 1)) with (S (Z.to_nat i)) by lia.
    simpl below. rewrite Hit, Hl, Hv. rewrite Z2Nat.id by lia. simpl.
    exists l. eexists. split; [reflexivity |]. split; [apply skips_refl, Hwf |].
    split.
    + unfold hold. rewrite (read_item_ok l c n i it Hn) by (assumption || lia).
      cbn [mbind res_bind]. rewrite (write_item_ok l c n i _ Hn).
      unfold live in Hl. apply Z.eqb_eq in Hl. rewrite Hl, Hv. reflexivity.
    + exists n, it, rest. auto 10.
  - rewrite (read_item_ok l c n i it Hn) by (assumption || lia). cbn [mbind res_bind].
    rewrite item_acquire_dead by exact Hl. rewrite (write_item_id l c n i it Hn Hit).
    cbn [mbind res_bind].
    replace (iter_offset it =? 0) with false by lia.
    cbn [mbind res_bind cpp_assert negb ia_has ia_item ia_chunk deref].
    rewrite (below_skip c _ (Z.to_nat (i - iter_offset it + 1)) (Z.to_nat (i + 1)))
      by (assumption || lia).
    destruct (decide (0 <= i - iter_offset it)) as [Hge | Hlt].
    + rewrite valid_idx_at by lia. cbn [negb].
      apply IH; try assumption; lia.
    + assert (is_valid_idx (mkAccess (Some c) (Some (i - iter_offset it)) false) = false) as ->
        by (unfold is_valid_idx; simpl; lia).
      cbn [negb]. replace (Z.to_nat (i - iter_offset it + 1)) with 0%nat by lia. simpl below.
      destruct (prev_chunk_cases l c rest (Some (i - iter_offset it)) false Hwf Hp Hnh)
        as (l1 & Hsk & [[-> Eb] | (d & nd & rest' & Hp1 & Hnd & -> & Hnh1 & Hlen & Eb)]);
        cbn [mbind res_bind].
      * simpl app. rewrite Eb. destruct fuel as [| fuel]; [lia |]. simpl.
        exists (mkAccess None None false), l1. auto.
      * rewrite Eb. apply (outcome_skips _ l l1 _ Hsk).
        pose proof Hsk as (Hs & _ & _).
        rewrite back_cons. unfold chunk_back. rewrite Hnd. simpl app.
        replace (Z.to_nat chunk_size) with (Z.to_nat (chunk_size - 1 + 1)) at 1 by (f_equal; lia).
        pose proof good_size. inversion Hnh1; subst.
        apply IH; try assumption; try lia.
        -- eapply skips_Iterable; eassumption.
        -- eapply acquirable_same; eassumption.
        -- simpl in Hlen. nia.
Qed.

(** ** Iterators *)

Lemma acquire_fuel_enough l c rest i :
  wf l -> path l (Some c) (c :: rest) -> 0 <= i < chunk_size ->
  (Z.to_nat (i + 1) + Z.to_nat chunk_size * length rest < acquire_fuel l)%nat.
Proof.
  intros Hwf Hp Hi. pose proof (path_length _ _ _ Hwf Hp) as Hlen. simpl in Hlen.
  unfold acquire_fuel. nia.
Qed.

(** Continuing an iteration after the item at slot [i] of [c] was released. *)
Lemma next_access_from l1 l2 c rest n i h :
  Iterable l1 -> acquirable l1 -> path l1 (Some c) (c :: rest) -> nodes l1 !! c = Some n ->
  0 <= i < chunk_size -> Forall (full l1) rest ->
  release (mkAccess (Some c) (Some i) h) l2 = Ok (mkAccess (Some c) (Some i) false, l1) ->
  outcome (below c (items (item_data n)) (Z.to_nat i) ++ back l1 rest) l1
    (next_access (mkAccess (Some c) (Some i) h) l2).
Proof.
  intros Hwf Hacq Hp Hn Hi Hnh Hrel. unfold next_access. rewrite Hrel.
  cbn [mbind res_bind ia_chunk ia_item ia_has deref].
  destruct (Z.leb_spec 0 (i - 1)) as [Hge | Hlt].
  - replace (Z.to_nat i) with (Z.to_nat (i - 1 + 1)) by lia.
    apply acquire_next_spec; try assumption; try lia.
    apply (acquire_fuel_enough l1 c); [apply Hwf | assumption | lia].
  - replace (Z.to_nat i) with 0%nat by lia. simpl below. simpl app.
    destruct (prev_chunk_cases l1 c rest (Some i) false Hwf Hp Hnh)
      as (l3 & Hsk & [[-> Eb] | (d & nd & rest' & Hp1 & Hnd & -> & Hnh1 & Hlen & Eb)]);
      cbn [mbind res_bind]; rewrite Eb.
    + simpl. exists (mkAccess None None false), l3. auto.
    + apply (outcome_skips _ l1 l3 _ Hsk).
      rewrite back_cons. unfold chunk_back. rewrite Hnd. simpl app.
      pose proof Hsk as (Hs & Hwf3 & _). pose proof good_size. inversion Hnh1; subst.
      replace (Z.to_nat chunk_size) with (Z.to_nat (chunk_size - 1 + 1)) at 1 by (f_equal; lia).
      apply acquire_next_spec; try assumption; try lia.
      * eapply skips_Iterable; eassumption.
      * eapply acquirable_same; eassumption.
      * apply (acquire_fuel_enough l3 d); [assumption | assumption | lia].
Qed.

(** Releasing what [hold] acquired restores the list. *)
Lemma release_hold l1 l2 (p : pos) n it :
  nodes l1 !! fst p = Some n -> 0 <= snd p < chunk_size ->
  items (item_data n) !! Z.to_nat (snd p) = Some it -> 0 <= refcount it < 2 ^ 15 - 1 ->
  hold p l1 = Ok l2 ->
  release (at_pos p) l2 = Ok (mkAccess (Some (fst p)) (Some (snd p)) false, l1) /\
  read_item p l2 = Ok (mkItem (storage it) (iter_offset it) (refcount it + 1)) /\
  nodes l2 !! fst p = Some (mkCB (deleted n) (prev n)
     (put_item (snd p) (mkItem (storage it) (iter_offset it) (refcount it + 1)) (item_data n))).
Proof.
  destruct p as [c i]. simpl. intros Hn Hi Hit Hr Hh.
  unfold hold in Hh. rewrite (read_item_ok l1 c n i it Hn) in Hh by (assumption || lia).
  cbn [mbind res_bind] in Hh. rewrite (write_item_ok l1 c n i _ Hn) in Hh. injection Hh as <-.
  set (d := put_item i (mkItem (storage it) (iter_offset it) (refcount it + 1)) (item_data n)).
  set (l2 := put_node c (mkCB (deleted n) (prev n) d) l1).
  assert (Hn2 : nodes l2 !! c = Some (mkCB (deleted n) (prev n) d))
    by (simpl; apply lookup_insert_eq).
  assert (Hit2 : items d !! Z.to_nat i = Some (mkItem (storage it) (iter_offset it) (refcount it + 1))).
  { simpl. apply list_lookup_insert_eq. eapply lookup_lt_Some; eassumption. }
  assert (Hrd : read_item (c, i) l2 = Ok (mkItem (storage it) (iter_offset it) (refcount it + 1)))
    by (apply (read_item_ok l2 c _ i _ Hn2); [lia | exact Hit2]).
  split; [| split; [exact Hrd | exact Hn2]].
  unfold release, at_pos. simpl ia_has. unfold unset_item. simpl ia_chunk. simpl ia_item.
  rewrite location_at by exact Hi. cbn [mbind res_bind]. rewrite Hrd. cbn [mbind res_bind].
  unfold item_release. cbn [refcount storage iter_offset].
  replace (refcount it + 1 =? 0) with false by lia.
  replace (refcount it + 1 <? 0) with false by lia.
  rewrite swrap_small by lia. cbn [mbind res_bind].
  rewrite (write_item_ok l2 c _ i _ Hn2). cbn [mbind res_bind deleted prev item_data].
  do 3 f_equal. unfold d, put_item. cbn [items next_item freed_items].
  rewrite list_insert_insert_eq.
  replace (mkItem (storage it) (iter_offset it) (refcount it + 1 - 1)) with it
    by (destruct it; simpl; f_equal; lia).
  rewrite (list_insert_id _ _ _ Hit). unfold l2, put_node. simpl.
  rewrite insert_insert_eq.
  replace (mkCB (deleted n) (prev n) (mkChunk (items (item_data n)) (next_item (item_data n))
    (freed_items (item_data n)))) with n by (destruct n as [? ? [? ? ?]]; reflexivity).
  rewrite insert_id by exact Hn. destruct l1; reflexivity.
Qed.

(** One [++] of an iterator that holds a live element. *)
Lemma next_access_spec l1 l2 p v B :
  Iterable l1 -> acquirable l1 -> At l1 p v B -> hold p l1 = Ok l2 ->
  value_at (at_pos p) l2 = Ok v /\ access_eqb (at_pos p) cl_rend = false /\
  outcome B l1 (next_access (at_pos p) l2).
Proof.
  intros Hwf Hacq (n & it & rest & Hp & Hn & Hi & Hit & Hl & Hv & Hnh & ->) Hh.
  pose proof (ib_slots l1 Hwf _ _ Hn) as Hc.
  destruct (chunk_slot _ _ Hc Hi) as (it' & Hit' & Hcase).
  rewrite Hit in Hit'. injection Hit' as <-.
  destruct Hcase as [(_ & _ & Hr) | (Hd & _)]; [| congruence].
  pose proof (Hacq _ _ _ _ Hn Hit Hl) as Hlt.
  destruct (release_hold l1 l2 p n it Hn Hi Hit ltac:(lia) Hh) as (Hrel & Hrd & _).
  split; [| split].
  - unfold value_at, at_pos. rewrite location_at by exact Hi. cbn [mbind res_bind].
    rewrite <- surjective_pairing, Hrd. simpl. rewrite Hv. reflexivity.
  - reflexivity.
  - unfold at_pos in *. eapply next_access_from; eassumption.
Qed.

Lemma Repr_head_nonhead l ids h rest :
  CLwf l -> path l (head l) ids -> ids = h :: rest ->
  head l = Some h /\ Forall (fun r => head l <> Some r) rest.
Proof.
  intros Hwf Hp ->. assert (Eh : head l = Some h) by (inversion Hp; congruence).
  split; [exact Eh |]. rewrite Eh in *.
  eapply Forall_impl; [apply (path_below l h rest (cl_wf l Hwf) Hp) |].
  intros r Hr E. injection E as ->. simpl in Hr. lia.
Qed.

(** [rbegin] on a list whose newest chunk has a used slot or is the only one. *)
Lemma cl_rbegin_spec l B :
  Repr l B -> acquirable l ->
  (forall h n, head l = Some h -> nodes l !! h = Some n ->
     0 < next_item (item_data n) \/ prev n = None) ->
  outcome B l (cl_rbegin l).
Proof.
  intros [Hwf (ids & Hp & ->)] Hacq Hfirst. unfold cl_rbegin, rbegin.
  destruct ids as [| h rest].
  - assert (head l = None) as -> by (inversion Hp; congruence).
    unfold make_access, acquire_fuel. simpl.
    exists (mkAccess None None false), l. split; [reflexivity |].
    split; [apply skips_refl, Hwf | auto].
  - destruct (Repr_head_nonhead l _ h rest Hwf Hp eq_refl) as [Eh Hnh].
    rewrite Eh in *. inversion Hp as [| ? n ? Hn Hpr]; simplify_eq.
    rewrite (get_ok l h n Hn). cbn [mbind res_bind].
    destruct (cl_chunks l Hwf h n Hn) as [Hc _].
    pose proof (cl_head l Hwf h n Eh Hn) as Hnx. pose proof (cw_next _ Hc) as Hnx'.
    assert (El : get_last_item (item_data n) = next_item (item_data n) - 1).
    { unfold get_last_item. destruct (Z.leb_spec chunk_size (next_item (item_data n) - 1)); lia. }
    rewrite El. rewrite back_cons. unfold chunk_back. rewrite Hn.
    rewrite (below_skip h _ (Z.to_nat (next_item (item_data n))) (Z.to_nat chunk_size)).
    2: lia.
    2: { intros k it Hk Ek. rewrite (cw_unused _ Hc k it Ek) by lia. reflexivity. }
    destruct (decide (next_item (item_data n) = 0)) as [E0 | Hne].
    + destruct (Hfirst h n eq_refl Hn) as [Hpos | Epr]; [lia |].
      assert (rest = []) as -> by (rewrite Epr in Hpr; inversion Hpr; reflexivity).
      rewrite E0. unfold make_access, acquire_fuel. simpl.
      exists (mkAccess (Some h) None false), l. split; [reflexivity |].
      split; [apply skips_refl, Hwf | auto].
    + rewrite <- Eh in Hnh.
      replace (Z.to_nat (next_item (item_data n)))
        with (Z.to_nat (next_item (item_data n) - 1 + 1)) by (f_equal; lia).
      pose proof (CLwf_iterable l Hwf) as Hib. apply (nonhead_full l rest Hwf) in Hnh.
      unfold make_access. apply acquire_next_spec; try assumption; try lia.
      apply (acquire_fuel_enough l h); [apply Hwf | assumption | lia].
Qed.

(** A loop over the list that only reads visits all elements in order. *)
Lemma for_each_collect fuel l B it l2 acc :
  Iterable l -> acquirable l -> (length B < fuel)%nat -> outcome B l (Ok (it, l2)) ->
  exists l3, for_each fuel collect_body it acc l2 = Ok (acc ++ B.*2, l3) /\ skips l l3.
Proof.
  revert l B it l2 acc. induction fuel as [| fuel IH]; intros l B it l2 acc Hwf Hacq Hf Ho; [lia |].
  destruct B as [| [p v] B]; simpl in Ho.
  - destruct Ho as (a & l1 & E & Hsk & Hi & _). injection E as -> ->.
    exists l1. split; [| exact Hsk]. simpl. unfold access_eqb. rewrite Hi. simpl.
    rewrite app_nil_r. reflexivity.
  - destruct Ho as (l1 & l2' & E & Hsk & Hh & Hat). injection E as -> <-.
    pose proof (skips_Iterable l l1 Hwf Hsk) as Hwf1.
    assert (Hacq1 : acquirable l1) by (eapply acquirable_same; [exact Hacq | apply Hsk]).
    destruct (next_access_spec l1 l2 p v B Hwf1 Hacq1 Hat Hh) as (Hv & Hne & Ho).
    assert (Ec : collect_body (at_pos p) acc l2 = Ok (acc ++ [v], l2))
      by (unfold collect_body; rewrite Hv; reflexivity).
    cbn [for_each]. rewrite Hne, Ec. cbn [mbind res_bind].
    destruct (next_access (at_pos p) l2) as [[it' l4] | e] eqn:En.
    2: { destruct B as [| [q w] B]; simpl in Ho;
           [destruct Ho as (? & ? & E & _) | destruct Ho as (? & ? & E & _)]; discriminate. }
    cbn [mbind res_bind]. simpl in Hf.
    destruct (IH l1 B it' l4 (acc ++ [v]) Hwf1 Hacq1 ltac:(lia) Ho) as (l3 & Hr & Hsk').
    exists l3. rewrite Hr. split; [rewrite <- app_assoc; reflexivity |].
    eapply skips_trans; eassumption.
Qed.

Lemma below_length id (its : list (Item T)) n : (length (below id its n) <= n)%nat.
Proof.
  induction n as [| n IH]; simpl; [lia |].
  destruct (its !! n) as [it |]; [| lia].
  destruct (if live it then storage it else None); simpl; lia.
Qed.

Lemma back_length l ids : (length (back l ids) <= Z.to_nat chunk_size * length ids)%nat.
Proof.
  induction ids as [| id ids IH]; [simpl; lia |].
  rewrite back_cons, length_app. unfold chunk_back.
  destruct (nodes l !! id) as [n |]; [| simpl; lia].
  pose proof (below_length id (items (item_data n)) (Z.to_nat chunk_size)). simpl. lia.
Qed.

End Facts.
End ChunkedListSpec.
