(* ===== verification/ChunkedListOps.v ===== *)
(** The refinement theorems of [ChunkedList]: reverse iteration, [push] and
    [remove] act on the content [Repr] describes as on a list of positions and
    values, newest first. *)

From Stdlib Require Import ZArith Lia Bool.
From stdpp Require Import base gmap list strings.
From S2P Require Import Prelude AtomicList ChunkedList ChunkedListSpec.

Open Scope Z_scope.
Open Scope word_scope.

Module ChunkedListOps.
Import AtomicList ChunkedList ChunkedListSpec.

Section Ops.
Context {T : Type} {N : ChunkSize} {HN : GoodSize N}.
Implicit Types l : @CL T.

(** Between two operations the newest chunk has a used slot, or is the first. *)
Definition settled l : Prop :=
  forall h n, head l = Some h -> nodes l !! h = Some n ->
    0 < next_item (item_data n) \/ prev n = None.

(** ** Changing one chunk *)

Lemma CLwf_put l c n n' :
  CLwf l -> nodes l !! c = Some n -> prev n' = prev n ->
  chunk_wf (item_data n') ->
  (deleted n' = true -> freed_items (item_data n') = chunk_size) ->
  (head l = Some c -> next_item (item_data n') <= chunk_size) ->
  (head l <> Some c -> chunk_size <= next_item (item_data n')) ->
  CLwf (put_node c n' l).
Proof.
  intros Hwf Hn Hpr Hc Hd Hh Hf. constructor.
  - eapply wf_put_same_prev; [apply Hwf | exact Hn | exact Hpr].
  - intros id m Hm. simpl in Hm. destruct (decide (c = id)) as [<- | Hne].
    + rewrite lookup_insert_eq in Hm. injection Hm as <-. auto.
    + rewrite lookup_insert_ne in Hm by exact Hne. eapply cl_chunks; eassumption.
  - intros h m Eh Hm. simpl in Eh, Hm. destruct (decide (c = h)) as [<- | Hne].
    + rewrite lookup_insert_eq in Hm. injection Hm as <-. auto.
    + rewrite lookup_insert_ne in Hm by exact Hne. eapply cl_head; eassumption.
  - intros id m Eh Hm. simpl in Eh, Hm. destruct (decide (c = id)) as [<- | Hne].
    + rewrite lookup_insert_eq in Hm. injection Hm as <-. auto.
    + rewrite lookup_insert_ne in Hm by exact Hne. eapply cl_full; eassumption.
Qed.

Lemma acquirable_put l c n' :
  acquirable l ->
  (forall i it, items (item_data n') !! i = Some it -> live it = true -> refcount it < 2 ^ 15 - 1) ->
  acquirable (put_node c n' l).
Proof.
  intros Ha Hn id m i it Hm Hi Hl. simpl in Hm. destruct (decide (c = id)) as [<- | Hne].
  - rewrite lookup_insert_eq in Hm. injection Hm as <-. eauto.
  - rewrite lookup_insert_ne in Hm by exact Hne. eauto.
Qed.

Lemma chunk_back_put_ne l c n' id : id <> c -> chunk_back (put_node c n' l) id = chunk_back l id.
Proof. intros H. unfold chunk_back. simpl. rewrite lookup_insert_ne by congruence. reflexivity. Qed.

Lemma back_put_notin l c n' ids : c ∉ ids -> back (put_node c n' l) ids = back l ids.
Proof.
  intros H. unfold back. f_equal. apply list_fmap_ext. intros k id Hk.
  apply chunk_back_put_ne. intros ->. apply H. eapply list_elem_of_lookup_2; eassumption.
Qed.

Lemma path_put l c n n' o ids :
  nodes l !! c = Some n -> prev n' = prev n -> path l o ids -> path (put_node c n' l) o ids.
Proof. intros Hn E Hp. eapply path_same_prev; [exact Hp |]. eapply put_same_prev; eauto. Qed.

Lemma path_NoDup l o ids : wf l -> path l o ids -> NoDup ids.
Proof.
  intros Hwf. revert o. induction ids as [| id ids IH]; intros o Hp; constructor.
  - intros Hin. assert (o = Some id) as -> by (inversion Hp; reflexivity).
    pose proof (path_below l id ids Hwf Hp) as Hb. rewrite Forall_forall in Hb.
    specialize (Hb id Hin). lia.
  - inversion Hp; subst. eapply IH; eassumption.
Qed.

Lemma removed_count_app (a b : list (Item T)) :
  removed_count (a ++ b) = (removed_count a + removed_count b)%nat.
Proof. unfold removed_count. rewrite List.filter_app, length_app. reflexivity. Qed.

(** ** Iteration *)

Lemma fuel_covers l ids :
  wf l -> path l (head l) ids -> (length (back l ids) < acquire_fuel l)%nat.
Proof.
  intros Hwf Hp. pose proof (back_length l ids). pose proof (path_length l _ _ Hwf Hp).
  unfold acquire_fuel. nia.
Qed.

(** A loop [for(; it != rend(); ++it)] from where [r] puts the iterator visits
    exactly the elements that lie ahead. *)
Lemma loop_spec l B r :
  Iterable l -> acquirable l -> outcome B l r -> (length B < acquire_fuel l)%nat ->
  exists l3, ('(it, l2) ← r; for_each (acquire_fuel l2) collect_body it [] l2) = Ok (B.*2, l3) /\ skips l l3.
Proof.
  intros Hwf Hacq Ho Hf. destruct r as [[it l2] | e].
  2: { destruct B as [| [p v] B]; simpl in Ho;
         [destruct Ho as (? & ? & E & _) | destruct Ho as (? & ? & E & _)]; discriminate. }
  assert (Hid : next_id l2 = next_id l).
  { destruct B as [| [p v] B']; simpl in Ho.
    - destruct Ho as (a & l1 & E & ((Hi & _) & _) & _). injection E as -> ->. exact Hi.
    - destruct Ho as (l1 & l3 & E & ((Hi & _) & _) & Hh & _). injection E as -> <-.
      unfold hold in Hh. res_inv. unfold write_item, set_data, get, get_node in Hh. res_inv.
      exact Hi. }
  cbn [mbind res_bind]. apply (for_each_collect (acquire_fuel l2) l B it l2 []); try assumption.
  unfold acquire_fuel in *. rewrite Hid. exact Hf.
Qed.

(** (collect): a loop [for(it = rbegin(); it != rend(); ++it)] visits exactly the
    elements of the list, newest first, within one step per slot; it leaves
    the content as it was. *)
Theorem iteration_correct l B
    (Hr : Repr l B) (Hacq : acquirable l) (Hs : settled l) :
  exists l', collect l = Ok (B.*2, l') /\ Repr l' B.
Proof.
  pose proof Hr as [Hwf (ids & Hp & HB)].
  destruct (loop_spec l B (cl_rbegin l)) as (l' & E & Hsk).
  - apply CLwf_iterable, Hwf.
  - exact Hacq.
  - apply cl_rbegin_spec; assumption.
  - rewrite HB. apply fuel_covers; [apply Hwf | exact Hp].
  - exists l'. split; [exact E | eapply Repr_skips; eassumption].
Qed.

(** ** push *)

(** The chunk after its slot [k] took the value [x]. *)
Lemma chunk_wf_push (c : Chunk T) (k : Z) (x : T) :
  chunk_wf c -> next_item c = k -> k < chunk_size ->
  chunk_wf (put_item k (mkItem (Some x) 0 0) (mkChunk (items c) (k + 1) (freed_items c))).
Proof.
  intros Hc Hk Hlt. pose proof (cw_next _ Hc) as Hn. pose proof (cw_length _ Hc) as Hlen.
  assert (Hkn : (Z.to_nat k < length (items c))%nat) by lia.
  assert (Hother : forall j, j <> Z.to_nat k ->
    <[Z.to_nat k := mkItem (Some x) 0 0]> (items c) !! j = items c !! j)
    by (intros j Hj; apply list_lookup_insert_ne; congruence).
  constructor; simpl.
  - rewrite length_insert. exact Hlen.
  - lia.
  - intros i it Hit Hi. destruct (decide (i = Z.to_nat k)) as [-> | Hne].
    + rewrite list_lookup_insert_eq in Hit by exact Hkn. injection Hit as <-.
      left. simpl. split; [reflexivity |]. split; [eauto | lia].
    + rewrite Hother in Hit by exact Hne.
      destruct (cw_used _ Hc i it Hit ltac:(lia)) as [H | [Ho Hd]]; [left; exact H | right].
      split; [exact Ho |]. intros j itj Hj Hitj. rewrite Hother in Hitj by lia. eauto.
  - intros i it Hit Hi. rewrite Hother in Hit by lia. apply (cw_unused _ Hc i it Hit). lia.
  - rewrite (cw_freed _ Hc), Hk. f_equal.
    replace (Z.to_nat (k + 1)) with (S (Z.to_nat k)) by lia.
    assert (Hl : <[Z.to_nat k := mkItem (Some x) 0 0]> (items c) !! Z.to_nat k
                 = Some (mkItem (Some x) 0 0)) by (apply list_lookup_insert_eq; exact Hkn).
    rewrite (take_S_r _ _ _ Hl), removed_count_app.
    rewrite take_insert_ge by lia. unfold removed_count at 3. simpl. lia.
Qed.

Lemma below_push id (c : Chunk T) (k : Z) (x : T) :
  chunk_wf c -> next_item c = k -> k < chunk_size ->
  below id (<[Z.to_nat k := mkItem (Some x) 0 0]> (items c)) (Z.to_nat (k + 1))
  = ((id, k), x) :: below id (items c) (Z.to_nat chunk_size).
Proof.
  intros Hc Hk Hlt. pose proof (cw_next _ Hc) as Hn. pose proof (cw_length _ Hc) as Hlen.
  replace (Z.to_nat (k + 1)) with (S (Z.to_nat k)) by lia. simpl.
  rewrite list_lookup_insert_eq by lia. simpl. rewrite Z2Nat.id by lia. f_equal.
  rewrite (below_ext id (items c)).
  - symmetry. apply below_skip; [lia |]. intros j it Hj Hit.
    rewrite (cw_unused _ Hc j it Hit) by lia. reflexivity.
  - intros j Hj. left. apply list_lookup_insert_ne. lia.
Qed.

(** The result of a [push] of [x]: an iterator that holds the new element. *)
Definition pushed (x : T) (B : list (pos * T)) (r : res (ItemAccess * @CL T)) : Prop :=
  exists p l1 l2, r = Ok (at_pos p, l2) /\ hold p l1 = Ok l2 /\
    Repr l1 ((p, x) :: B) /\ settled l1 /\ acquirable l1 /\ (p ∉ B.*1).

Lemma back_pos_chunk l ids p v : (p, v) ∈ back l ids -> fst p ∈ ids.
Proof.
  induction ids as [| id ids IH]; [intros H; inversion H |].
  rewrite back_cons, elem_of_app. intros [H | H]; [| right; auto].
  unfold chunk_back in H. destruct (nodes l !! id) as [n |]; [| inversion H].
  apply below_In in H as (k & it & -> & _). left.
Qed.

Lemma back_entry l ids p v :
  (p, v) ∈ back l ids ->
  exists n it, fst p ∈ ids /\ nodes l !! fst p = Some n /\ 0 <= snd p < chunk_size /\
    items (item_data n) !! Z.to_nat (snd p) = Some it /\ live it = true /\ storage it = Some v.
Proof.
  intros H. pose proof (back_pos_chunk _ _ _ _ H) as Hin. revert H.
  induction ids as [| id ids IH]; [intros H; inversion H |].
  rewrite back_cons, elem_of_app. intros [H | H].
  - unfold chunk_back in H. destruct (nodes l !! id) as [n |] eqn:En; [| inversion H].
    apply below_In in H as (k & it & -> & Hk & Hit & Hl & Hv). exists n, it. simpl.
    rewrite Nat2Z.id. repeat split; try assumption; try lia.
  - destruct (IH (back_pos_chunk _ _ _ _ H) H) as (n & it & _ & Hr). exists n, it. auto.
Qed.

(** Constructing an iterator at a live element of the newest chunk. *)
Lemma make_access_top l h rest n k it x :
  Iterable l -> acquirable l -> path l (Some h) (h :: rest) -> nodes l !! h = Some n ->
  Forall (full l) rest ->
  0 <= k < chunk_size -> items (item_data n) !! Z.to_nat k = Some it ->
  live it = true -> storage it = Some x ->
  exists l1 l2, make_access (Some h) (Some k) l = Ok (at_pos (h, k), l2) /\
    skips l l1 /\ hold (h, k) l1 = Ok l2.
Proof.
  intros Hwf Hacq Hp Hn Hnh Hk Hit Hl Hv.
  assert (Ho : outcome (below h (items (item_data n)) (Z.to_nat (k + 1)) ++ back l rest) l
                 (make_access (Some h) (Some k) l)).
  { apply acquire_next_spec; try assumption.
    apply (acquire_fuel_enough l h); [apply Hwf | assumption | lia]. }
  replace (Z.to_nat (k + 1)) with (S (Z.to_nat k)) in Ho by lia. simpl in Ho.
  rewrite Hit, Hl, Hv in Ho. rewrite Z2Nat.id in Ho by lia.
  destruct Ho as (l1 & l2 & E & Hsk & Hh & _). eauto.
Qed.

Lemma settled_skips l l' : CLwf l -> skips l l' -> settled l -> settled l'.
Proof.
  intros Hwf Hsk Hs h n Eh Hn. destruct Hsk as (Hsm & Hwf' & Hpath).
  pose proof Hsm as (_ & Ehd & _).
  destruct (same_items_lookup l' l h n (same_items_sym _ _ Hsm) Hn) as (n0 & Hn0 & _ & Ed).
  rewrite <- Ed. destruct (Hs h n0 ltac:(congruence) Hn0) as [H | H]; [auto | right].
  destruct (Hpath (Some h) [h]) as (ids' & Hp' & _ & _ & Hin).
  { econstructor; [exact Hn0 |]. rewrite H. constructor. }
  inversion Hp' as [| ? n' ids'' Hn' Hpr]; simplify_eq.
  destruct (prev n) as [q |] eqn:Eq; [| reflexivity]. exfalso.
  inversion Hpr as [| ? ? ? ? ? E1]; subst.
  pose proof (Hin q ltac:(right; left)) as Hq. apply list_elem_of_singleton in Hq as ->.
  pose proof (path_below l' h _ Hwf' Hp') as Hb. inversion Hb; subst. lia.
Qed.

(** The list after slot [k] of chunk [h], the next free one, took the value [x]. *)
Definition with_slot (x : T) (h : nat) (n : ItemControlBlock (Chunk T)) l : @CL T :=
  let k := next_item (item_data n) in
  put_node h (mkCB (deleted n) (prev n) (put_item k (mkItem (Some x) 0 0)
    (mkChunk (items (item_data n)) (k + 1) (freed_items (item_data n))))) l.

Lemma push_slot_eq fuel x l h n :
  CLwf l -> head l = Some h -> nodes l !! h = Some n -> next_item (item_data n) < chunk_size ->
  push (S fuel) x l = make_access (Some h) (Some (next_item (item_data n))) (with_slot x h n l).
Proof.
  intros Hwf Eh Hn Hlt. destruct (cl_chunks l Hwf h n Hn) as [Hc _].
  pose proof (cw_next _ Hc) as Hnx. pose proof (cw_length _ Hc) as Hlen.
  set (k := next_item (item_data n)) in *.
  destruct (lookup_lt_is_Some_2 (items (item_data n)) (Z.to_nat k)) as [it Hit]; [lia |].
  pose proof (cw_unused _ Hc _ _ Hit ltac:(lia)) as ->.
  cbn [push]. unfold rbegin. rewrite Eh, (get_ok l h n Hn). cbn [mbind res_bind]. fold k.
  replace (k <=? chunk_size) with true by lia.
  rewrite (set_data_ok l h n _ Hn). cbn [mbind res_bind].
  replace (k <? chunk_size) with true by lia.
  unfold get_item at 1. cbn [items]. replace (0 <=? k) with true by lia. rewrite Hit.
  cbn [deref mbind res_bind]. change (item_assign x new_item) with (Ok (mkItem (Some x) 0 0)).
  cbn [mbind res_bind].
  erewrite set_data_ok by (simpl; apply lookup_insert_eq). cbn [mbind res_bind deleted prev].
  unfold with_slot, put_node. cbn [nodes head next_id]. rewrite insert_insert_eq. reflexivity.
Qed.

Lemma with_slot_wf x l h n :
  CLwf l -> acquirable l -> head l = Some h -> nodes l !! h = Some n -> deleted n = false ->
  next_item (item_data n) < chunk_size ->
  CLwf (with_slot x h n l) /\ acquirable (with_slot x h n l).
Proof.
  intros Hwf Hacq Eh Hn Hdel Hlt. destruct (cl_chunks l Hwf h n Hn) as [Hc _]. split.
  - eapply CLwf_put; [exact Hwf | exact Hn | reflexivity | | simpl; congruence | simpl; lia | congruence].
    apply chunk_wf_push; auto.
  - apply acquirable_put; [exact Hacq |]. intros i it' Hi Hl. simpl in Hi.
    apply list_lookup_insert_Some in Hi as [(_ & <- & _) | [_ Hi]]; [simpl; lia | eauto].
Qed.

Lemma with_slot_back x l h n rest :
  CLwf l -> nodes l !! h = Some n -> next_item (item_data n) < chunk_size -> h ∉ rest ->
  back (with_slot x h n l) (h :: rest)
  = ((h, next_item (item_data n)), x) :: back l (h :: rest).
Proof.
  intros Hwf Hn Hlt Hnotin. destruct (cl_chunks l Hwf h n Hn) as [Hc _].
  pose proof (cw_next _ Hc) as Hnx.
  rewrite !back_cons. unfold with_slot at 2. rewrite back_put_notin by exact Hnotin.
  unfold chunk_back. rewrite Hn. unfold with_slot. cbn [put_node nodes]. rewrite lookup_insert_eq.
  cbn [item_data put_item items].
  rewrite (below_skip h _ (Z.to_nat (next_item (item_data n) + 1)) (Z.to_nat chunk_size)).
  - rewrite (below_push h (item_data n) _ x) by auto. reflexivity.
  - lia.
  - intros j itj Hj Hitj. rewrite list_lookup_insert_ne in Hitj by lia.
    rewrite (cw_unused _ Hc j itj Hitj) by lia. reflexivity.
Qed.

(** The round of [push] that finds a free slot in the newest chunk. *)
Lemma push_slot fuel x l h n rest :
  CLwf l -> acquirable l -> head l = Some h -> path l (Some h) (h :: rest) ->
  nodes l !! h = Some n -> deleted n = false -> next_item (item_data n) < chunk_size ->
  pushed x (back l (h :: rest)) (push (S fuel) x l).
Proof.
  intros Hwf Hacq Eh Hp Hn Hdel Hlt. destruct (cl_chunks l Hwf h n Hn) as [Hc _].
  pose proof (cw_next _ Hc) as Hnx. pose proof (cw_length _ Hc) as Hlen.
  rewrite (push_slot_eq fuel x l h n Hwf Eh Hn Hlt).
  destruct (with_slot_wf x l h n Hwf Hacq Eh Hn Hdel Hlt) as [Hwf' Hacq'].
  assert (Hnotin : h ∉ rest).
  { pose proof (path_NoDup l _ _ (cl_wf l Hwf) Hp) as Hnd. inversion Hnd; assumption. }
  pose proof (with_slot_back x l h n rest Hwf Hn Hlt Hnotin) as Eb.
  assert (Hp' : path (with_slot x h n l) (Some h) (h :: rest))
    by (eapply path_put; [exact Hn | reflexivity | exact Hp]).
  set (k := next_item (item_data n)) in *.
  assert (Hn' : exists d, nodes (with_slot x h n l) !! h = Some d /\
     items (item_data d) !! Z.to_nat k = Some (mkItem (Some x) 0 0) /\
     0 < next_item (item_data d)).
  { eexists. split; [simpl; apply lookup_insert_eq |]. simpl. fold k.
    split; [apply list_lookup_insert_eq; lia | lia]. }
  destruct Hn' as (d & Hn' & Hitk & Hpos).
  destruct (make_access_top _ h rest d k (mkItem (Some x) 0 0) x (CLwf_iterable _ Hwf') Hacq' Hp' Hn')
    as (l1 & l2 & Hm & Hsk & Hh); try (reflexivity || assumption || lia).
  { apply (nonhead_full _ _ Hwf'). destruct (Repr_head_nonhead _ (h :: rest) h rest Hwf') as [_ H]; auto. simpl. rewrite Eh. exact Hp'. }
  exists (h, k), l1, l2. split; [exact Hm |]. split; [exact Hh |].
  split; [| split; [| split]].
  - eapply Repr_skips; [| exact Hsk]. split; [exact Hwf' |].
    exists (h :: rest). split; [simpl; rewrite Eh; exact Hp' | symmetry; exact Eb].
  - eapply settled_skips; [exact Hwf' | exact Hsk |]. intros g m Eg Hm'.
    left. simpl in Eg. assert (g = h) as -> by congruence. congruence.
  - eapply acquirable_same; [exact Hacq' | apply Hsk].
  - intros Hin. apply list_elem_of_fmap in Hin as ([p v] & E & Hin). simpl in E. subst p.
    apply back_entry in Hin as (m & itm & _ & Hm' & _ & Hitm & Hlm & _). cbn [fst snd] in *.
    rewrite Hn in Hm'. injection Hm' as <-.
    rewrite (cw_unused _ Hc _ _ Hitm) in Hlm by lia. discriminate Hlm.
Qed.

Lemma chunk_wf_new : chunk_wf (@new_chunk T _).
Proof.
  pose proof good_size as Hg. constructor; simpl.
  - rewrite length_replicate. lia.
  - lia.
  - intros i it _ Hi. lia.
  - intros i it Hi _. apply lookup_replicate in Hi as [-> _]. reflexivity.
  - reflexivity.
Qed.

(** A list of full chunks takes a new chunk. *)
Lemma new_head_wf l l' :
  (forall id n, nodes l !! id = Some n -> chunk_wf (item_data n) /\
     (deleted n = true -> freed_items (item_data n) = chunk_size) /\
     chunk_size <= next_item (item_data n)) ->
  acquirable l -> wf l' -> head l' = Some (next_id l) ->
  nodes l' !! next_id l = Some (mkCB false (head l) new_chunk) ->
  (forall id, id <> next_id l -> nodes l' !! id = nodes l !! id) ->
  CLwf l' /\ acquirable l'.
Proof.
  intros Hfull Hacq Hwf' Eh Hn Ho.
  assert (Hcase : forall id m, nodes l' !! id = Some m ->
    (id = next_id l /\ m = mkCB false (head l) new_chunk) \/ (id <> next_id l /\ nodes l !! id = Some m)).
  { intros id m Hm. destruct (decide (id = next_id l)) as [-> | Hne].
    - left. split; congruence.
    - right. rewrite Ho in Hm by exact Hne. auto. }
  pose proof good_size. split; [constructor |].
  - exact Hwf'.
  - intros id m Hm. destruct (Hcase id m Hm) as [(-> & ->) | (_ & Hm')].
    + split; [apply chunk_wf_new | discriminate].
    + destruct (Hfull id m Hm') as (H1 & H2 & _). auto.
  - intros h m Eh' Hm. rewrite Eh in Eh'. injection Eh' as <-.
    destruct (Hcase _ m Hm) as [(_ & ->) | (Hne & _)]; [simpl; lia | congruence].
  - intros id m Hne Hm. destruct (Hcase id m Hm) as [(-> & _) | (_ & Hm')]; [congruence |].
    apply (Hfull id m Hm').
  - intros id m i it Hm Hi Hl. destruct (Hcase id m Hm) as [(_ & ->) | (_ & Hm')]; [| eauto].
    simpl in Hi. apply lookup_replicate in Hi as [-> _]. discriminate Hl.
Qed.

Lemma back_ext l l' ids :
  (forall id, id ∈ ids -> nodes l' !! id = nodes l !! id) -> back l' ids = back l ids.
Proof.
  intros H. unfold back. f_equal. apply list_fmap_ext. intros i id Hi.
  unfold chunk_back. rewrite H; [reflexivity |]. eapply list_elem_of_lookup_2; eassumption.
Qed.

Lemma chunk_back_new l id m :
  nodes l !! id = Some m -> item_data m = new_chunk -> chunk_back l id = [].
Proof.
  intros Hm E. unfold chunk_back. rewrite Hm, E.
  rewrite (below_skip id _ 0); [reflexivity | lia |].
  intros k it _ Hk. simpl in Hk. apply lookup_replicate in Hk as [-> _]. reflexivity.
Qed.

(** Appending a chunk to a list of full chunks and pushing into it. *)
Lemma push_after_allocate fuel x l ids l' :
  (forall id n, nodes l !! id = Some n -> chunk_wf (item_data n) /\
     (deleted n = true -> freed_items (item_data n) = chunk_size) /\
     chunk_size <= next_item (item_data n)) ->
  wf l -> path l (head l) ids -> acquirable l ->
  wf l' -> path l' (head l') (next_id l :: ids) -> head l' = Some (next_id l) ->
  nodes l' !! next_id l = Some (mkCB false (head l) new_chunk) ->
  (forall id, id <> next_id l -> nodes l' !! id = nodes l !! id) ->
  pushed x (back l ids) (push (S fuel) x l').
Proof.
  intros Hfull Hwf Hp Hacq Hwf' Hp' Eh Hn Ho.
  destruct (new_head_wf l l' Hfull Hacq Hwf' Eh Hn Ho) as [Hcl Hacq'].
  assert (Eb : back l' (next_id l :: ids) = back l ids).
  { rewrite back_cons, (chunk_back_new l' _ _ Hn eq_refl). simpl. apply back_ext.
    intros id Hid. apply Ho. pose proof (path_ids l _ _ Hwf Hp) as Hids.
    rewrite Forall_forall in Hids. destruct (Hids id Hid) as [_ Hlt]. lia. }
  rewrite <- Eb. eapply push_slot; try eassumption.
  - rewrite <- Eh. exact Hp'.
  - reflexivity.
  - simpl. pose proof good_size. lia.
Qed.

(** The round of [push] that finds the newest chunk full. *)
Lemma push_full x l h n rest fuel :
  CLwf l -> acquirable l -> head l = Some h -> path l (Some h) (h :: rest) ->
  nodes l !! h = Some n -> next_item (item_data n) = chunk_size ->
  pushed x (back l (h :: rest)) (push (S (S fuel)) x l).
Proof.
  intros Hwf Hacq Eh Hp Hn Hfull. pose proof good_size as Hg.
  destruct (cl_chunks l Hwf h n Hn) as [Hc Hdel].
  set (d := mkChunk (items (item_data n)) (chunk_size + 1) (freed_items (item_data n))).
  set (n' := mkCB (deleted n) (prev n) d). set (l0 := put_node h n' l).
  assert (Hwf0 : wf l0) by (eapply wf_put_same_prev; [apply Hwf | exact Hn | reflexivity]).
  assert (Hp0 : path l0 (head l0) (h :: rest))
    by (simpl; rewrite Eh; eapply path_put; [exact Hn | reflexivity | exact Hp]).
  destruct (allocate_item_spec l0 new_chunk (h :: rest) Hwf0 Hp0)
    as (l' & Ha & Hwf' & Hp' & Eh' & Hn' & _ & Ho).
  assert (Epush : push (S (S fuel)) x l = push (S fuel) x l').
  { cbn [push]. unfold rbegin at 1. rewrite Eh, (get_ok l h n Hn). cbn [mbind res_bind].
    rewrite Hfull. replace (chunk_size <=? chunk_size) with true by lia.
    rewrite (set_data_ok l h n _ Hn). cbn [mbind res_bind].
    replace (chunk_size <? chunk_size) with false by lia. rewrite Z.eqb_refl.
    fold d. fold n'. fold l0. rewrite Ha. reflexivity. }
  rewrite Epush.
  assert (Eb : back l0 (h :: rest) = back l (h :: rest)).
  { pose proof (path_NoDup l _ _ (cl_wf l Hwf) Hp) as Hnd. inversion Hnd; subst.
    rewrite !back_cons. unfold l0 at 2. rewrite back_put_notin by assumption.
    unfold chunk_back. simpl. rewrite lookup_insert_eq, Hn. reflexivity. }
  rewrite <- Eb. apply (push_after_allocate fuel x l0 (h :: rest) l'); try assumption.
  - intros id m Hm. simpl in Hm. apply lookup_insert_Some in Hm as [(<- & <-) | (Hne & Hm)].
    + simpl. split; [| split; [exact Hdel | lia]]. destruct Hc as [C1 C2 C3 C4 C5].
      rewrite Hfull in C3, C4, C5. constructor; simpl; try assumption; try lia.
      * intros i it Hi _. apply (C3 i it Hi). apply lookup_lt_Some in Hi. lia.
      * intros i it Hi Hge. apply (C4 i it Hi). lia.
      * rewrite C5. rewrite !take_ge by lia. reflexivity.
    + destruct (cl_chunks l Hwf id m Hm) as [H1 H2].
      pose proof (cl_full l Hwf id m ltac:(congruence) Hm). auto.
  - apply acquirable_put; [exact Hacq |]. intros i it Hi. simpl in Hi. eapply Hacq; eassumption.
Qed.

(** The round of [push] that finds no chunk. *)
Lemma push_none x l fuel :
  head l = None ->
  push (S fuel) x l
  = push fuel x (mkList (<[next_id l := mkCB false None new_chunk]> (nodes l)) (Some (next_id l))
                   (S (next_id l))).
Proof.
  intros Eh. cbn [push]. unfold rbegin at 1. rewrite Eh.
  unfold try_allocate_first_item, make_node, try_append_first_item. cbn [head]. rewrite Eh.
  reflexivity.
Qed.

(** (push): [push] adds the value as the newest element at a fresh position,
    whatever state the newest chunk is in (none yet, free slots left, full),
    and returns an iterator that holds it. *)
Theorem push_correct l B x
    (Hr : Repr l B) (Hacq : acquirable l) :
  pushed x B (push push_fuel x l).
Proof.
  destruct Hr as [Hwf (ids & Hp & ->)]. unfold push_fuel.
  destruct (head l) as [h |] eqn:Eh.
  2: { assert (ids = []) as -> by (inversion Hp; reflexivity).
    rewrite push_none by exact Eh. eapply (push_after_allocate 1 x l []); try assumption.
    - intros id n Hn. destruct (cl_chunks l Hwf id n Hn) as [H1 H2].
      pose proof (cl_full l Hwf id n ltac:(congruence) Hn). auto.
    - apply Hwf.
    - rewrite Eh. constructor.
    - constructor; simpl.
      + intros id n Hn. apply lookup_insert_Some in Hn as [(<- & <-) | (Hne & Hn)].
        * simpl. split; [lia | discriminate].
        * destruct (wf_prev l (cl_wf l Hwf) id n Hn) as [Hlt Hpr]. split; [lia |].
          intros p Epr. destruct (Hpr p Epr) as [Hpl [m Hm]]. split; [exact Hpl |].
          rewrite lookup_insert_ne by lia. eauto.
      + intros g Eg. injection Eg as <-. rewrite lookup_insert_eq. eauto.
    - econstructor; [simpl; apply lookup_insert_eq | constructor].
    - reflexivity.
    - simpl. rewrite Eh. apply lookup_insert_eq.
    - intros id Hne. simpl. apply lookup_insert_ne. congruence. }
  assert (exists rest, ids = h :: rest) as [rest ->] by (inversion Hp; eauto).
  assert (exists n, nodes l !! h = Some n) as [n Hn] by (inversion Hp; eauto).
  destruct (cl_chunks l Hwf h n Hn) as [Hc Hdel].
  pose proof (cw_next _ Hc) as Hnx. pose proof (cl_head l Hwf h n Eh Hn) as Hle.
  destruct (decide (next_item (item_data n) < chunk_size)) as [Hlt | Hge].
  - eapply push_slot; try eassumption.
    destruct (deleted n); [| reflexivity]. specialize (Hdel eq_refl).
    pose proof (cw_freed _ Hc) as Hfr. unfold removed_count in Hfr.
    pose proof (filter_length_le (fun it => negb (live it))
      (take (Z.to_nat (next_item (item_data n))) (items (item_data n)))) as Hfl.
    rewrite length_take in Hfl. lia.
  - apply (push_full x l h n rest 1); try assumption. lia.
Qed.

(** ** remove *)

(** The offset [remove] stores: one more than the offset of the slot before. *)
Definition jump (its : list (Item T)) (i : nat) : Z :=
  match i with O => 1 | S j => match its !! j with Some p => iter_offset p + 1 | None => 1 end end.

(** The slot at [i] after its element was removed. *)
Definition removed_item (its : list (Item T)) (i : nat) (it : Item T) : Item T :=
  mkItem (if refcount it =? 0 then None else storage it) (jump its i) (s16 (refcount it - 1)).

Definition without_slot (c : Chunk T) (i : nat) (it : Item T) : Chunk T :=
  mkChunk (<[i := removed_item (items c) i it]> (items c)) (next_item c) (freed_items c + 1).

(** The offset of a used slot reaches down to the next live slot or the bottom. *)
Lemma slot_offset (c : Chunk T) j p :
  chunk_wf c -> items c !! j = Some p -> Z.of_nat j < next_item c ->
  0 <= iter_offset p <= Z.of_nat j + 1.
Proof. intros Hc Hp Hj. destruct (cw_used _ Hc j p Hp Hj) as [(-> & _) | [H _]]; lia. Qed.

Lemma jump_spec (c : Chunk T) i it :
  chunk_wf c -> items c !! i = Some it -> Z.of_nat i < next_item c ->
  1 <= jump (items c) i <= Z.of_nat i + 1 /\
  forall k itk, Z.of_nat i - jump (items c) i < Z.of_nat k < Z.of_nat i ->
    items c !! k = Some itk -> live itk = false.
Proof.
  intros Hc Hit Hi. destruct i as [| j]; simpl.
  - split; [lia |]. intros k itk Hk. lia.
  - pose proof (lookup_lt_Some _ _ _ Hit) as Hlt.
    destruct (lookup_lt_is_Some_2 (items c) j) as [p Hp]; [lia |]. rewrite Hp.
    pose proof (slot_offset c j p Hc Hp ltac:(lia)) as Hb. split; [lia |].
    intros k itk Hk Hitk.
    destruct (cw_used _ Hc j p Hp ltac:(lia)) as [(H0 & _) | [_ Hd]]; [lia |].
    apply (Hd k itk); [lia | exact Hitk].
Qed.

Lemma removed_not_live (c : Chunk T) i it :
  chunk_wf c -> items c !! i = Some it -> Z.of_nat i < next_item c ->
  live (removed_item (items c) i it) = false.
Proof.
  intros Hc Hit Hi. pose proof (proj1 (jump_spec c i it Hc Hit Hi)).
  unfold live, removed_item. cbn [iter_offset]. lia.
Qed.

Lemma removed_count_insert (its : list (Item T)) i it it' :
  its !! i = Some it -> live it = true -> live it' = false ->
  removed_count (<[i := it']> its) = S (removed_count its).
Proof.
  revert i. induction its as [| x its IH]; intros [| i] Hit Hl Hl'; try discriminate.
  - simpl in *. injection Hit as ->. unfold removed_count. simpl. rewrite Hl, Hl'. reflexivity.
  - simpl in Hit. unfold removed_count in *. simpl. destruct (negb (live x)); simpl; rewrite IH; auto.
Qed.

Lemma without_slot_wf (c : Chunk T) i it :
  chunk_wf c -> items c !! i = Some it -> live it = true -> Z.of_nat i < next_item c ->
  chunk_wf (without_slot c i it).
Proof.
  intros Hc Hit Hl Hi. pose proof (cw_length _ Hc) as Hlen. pose proof (cw_next _ Hc) as Hnx.
  pose proof (jump_spec c i it Hc Hit Hi) as [Hj Hdead].
  pose proof (removed_not_live c i it Hc Hit Hi) as Hnl.
  pose proof (lookup_lt_Some _ _ _ Hit) as Hlt.
  assert (Hold : forall k itk, <[i := removed_item (items c) i it]> (items c) !! k = Some itk ->
    (k = i /\ itk = removed_item (items c) i it) \/ (k <> i /\ items c !! k = Some itk)).
  { intros k itk H. apply list_lookup_insert_Some in H as [(-> & <- & _) | [Hne H]]; auto. }
  constructor; simpl.
  - rewrite length_insert. exact Hlen.
  - exact Hnx.
  - intros k itk Hk Hku. destruct (Hold k itk Hk) as [(-> & ->) | (Hne & Hk')].
    + right. cbn [removed_item iter_offset]. split; [exact Hj |]. intros m itm Hm Hitm.
      destruct (Hold m itm Hitm) as [(-> & ->) | (Hne & Hm')]; [exact Hnl |].
      apply (Hdead m itm); [lia | exact Hm'].
    + destruct (cw_used _ Hc k itk Hk' Hku) as [H | [Ho Hd]]; [left; exact H | right].
      split; [exact Ho |]. intros m itm Hm Hitm.
      destruct (Hold m itm Hitm) as [(-> & ->) | (Hne' & Hm')]; [exact Hnl | eauto].
  - intros k itk Hk Hku. destruct (Hold k itk Hk) as [(-> & _) | (_ & Hk')]; [lia |].
    apply (cw_unused _ Hc k itk Hk' Hku).
  - rewrite (cw_freed _ Hc). rewrite take_insert_lt by lia.
    rewrite (removed_count_insert _ i it); [lia | | exact Hl | exact Hnl].
    rewrite lookup_take_lt by lia. exact Hit.
Qed.

Lemma below_without id (c : Chunk T) i it n :
  chunk_wf c -> items c !! i = Some it -> Z.of_nat i < next_item c ->
  below id (items (without_slot c i it)) n
  = List.filter (fun e => negb (bool_decide (fst e = (id, Z.of_nat i)))) (below id (items c) n).
Proof.
  intros Hc Hit Hi. pose proof (removed_not_live c i it Hc Hit Hi) as Hnl.
  pose proof (lookup_lt_Some _ _ _ Hit) as Hlt. simpl items.
  induction n as [| n IH]; [reflexivity |]. simpl. rewrite IH. clear IH.
  destruct (decide (i = n)) as [<- | Hne].
  - rewrite list_lookup_insert_eq by exact Hlt. rewrite Hnl, Hit.
    destruct (if live it then storage it else None) as [v |]; simpl; [| reflexivity].
    rewrite bool_decide_true by reflexivity. reflexivity.
  - rewrite list_lookup_insert_ne by exact Hne.
    destruct (items c !! n) as [itn |]; [| reflexivity].
    destruct (if live itn then storage itn else None) as [v |]; simpl; [| reflexivity].
    rewrite bool_decide_false by (intros E; injection E; lia). reflexivity.
Qed.

(** Flagging the chunk once its last slot was freed. *)
Definition flag_if_empty (c : nat) (n : ItemControlBlock (Chunk T)) (d : Chunk T) :
    ItemControlBlock (Chunk T) :=
  mkCB (deleted n || (freed_items d =? chunk_size)) (prev n) d.

Lemma remove_eq l c n i it h :
  CLwf l -> nodes l !! c = Some n -> 0 <= i < chunk_size -> i < next_item (item_data n) ->
  items (item_data n) !! Z.to_nat i = Some it -> live it = true ->
  remove (mkAccess (Some c) (Some i) h) l
  = Ok (put_node c (flag_if_empty c n (without_slot (item_data n) (Z.to_nat i) it)) l).
Proof.
  intros Hwf Hn Hi Hu Hit Hl. destruct (cl_chunks l Hwf c n Hn) as [Hc Hdel].
  pose proof good_size as Hg. pose proof (cw_length _ Hc) as Hlen.
  destruct (cw_used _ Hc _ _ Hit ltac:(lia)) as [(H0 & _ & Hr) | [Ho _]];
    [| unfold live in Hl; lia].
  pose proof (proj1 (jump_spec _ _ _ Hc Hit ltac:(lia))) as Hj.
  unfold remove. rewrite valid_idx_at, location_at by exact Hi. cbn [mbind res_bind].
  rewrite (read_item_ok l c n i it Hn) by (assumption || lia). cbn [mbind res_bind].
  assert (Eoff : (if i =? 0 then Ok 1
    else p ← read_item (c, i - 1) l; Ok (u16 (iter_offset p + 1)))
    = Ok (jump (items (item_data n)) (Z.to_nat i))).
  { destruct (Z.eqb_spec i 0) as [-> | Hne]; [reflexivity |].
    destruct (Z.to_nat i) as [| j] eqn:Ej; [lia |].
    destruct (lookup_lt_is_Some_2 (items (item_data n)) j) as [p Hp]; [lia |].
    rewrite (read_item_ok l c n (i - 1) p Hn); [| lia | rewrite <- Hp; f_equal; lia].
    cbn [mbind res_bind jump]. simpl in Hj. rewrite Hp in *. rewrite wrap_small by lia. reflexivity. }
  rewrite Eoff. cbn [mbind res_bind]. unfold item_release. cbn [refcount storage iter_offset].
  assert (Erel : (if refcount it =? 0
     then Ok (mkItem None (jump (items (item_data n)) (Z.to_nat i)) (s16 (refcount it - 1)))
     else if refcount it <? 0 then Err (Throw "ChunkedList: try to remove invalid item!")
     else Ok (mkItem (storage it) (jump (items (item_data n)) (Z.to_nat i)) (s16 (refcount it - 1))))
    = Ok (removed_item (items (item_data n)) (Z.to_nat i) it)).
  { unfold removed_item. destruct (Z.eqb_spec (refcount it) 0); [reflexivity |].
    replace (refcount it <? 0) with false by lia. reflexivity. }
  rewrite Erel. cbn [mbind res_bind].
  rewrite (write_item_ok l c n i _ Hn). cbn [mbind res_bind]. unfold release_chunk. simpl ia_chunk.
  cbn [deref mbind res_bind]. erewrite get_ok by (simpl; apply lookup_insert_eq).
  cbn [mbind res_bind item_data]. erewrite set_data_ok by (simpl; apply lookup_insert_eq).
  cbn [mbind res_bind deleted prev put_item freed_items items next_item].
  unfold flag_if_empty, without_slot. cbn [freed_items].
  destruct (Z.eqb_spec (freed_items (item_data n)) (chunk_size - 1)) as [E | E].
  - erewrite erase_spec by (simpl; apply lookup_insert_eq). unfold put_node. simpl.
    rewrite !insert_insert_eq. replace (freed_items (item_data n) + 1 =? chunk_size) with true by lia.
    rewrite orb_true_r. reflexivity.
  - unfold put_node. simpl. rewrite !insert_insert_eq.
    replace (freed_items (item_data n) + 1 =? chunk_size) with false by lia.
    rewrite orb_false_r. reflexivity.
Qed.

Lemma bfilter_all {A} (q : A -> bool) (xs : list A) :
  (forall x, x ∈ xs -> q x = true) -> List.filter q xs = xs.
Proof.
  induction xs as [| x xs IH]; intros H; [reflexivity |]. simpl.
  rewrite H by left. f_equal. apply IH. intros y Hy. apply H. right. exact Hy.
Qed.

Lemma back_without l c n n' i it ids :
  CLwf l -> nodes l !! c = Some n -> items (item_data n) !! Z.to_nat i = Some it ->
  0 <= i < next_item (item_data n) -> NoDup ids -> c ∈ ids ->
  item_data n' = without_slot (item_data n) (Z.to_nat i) it ->
  back (put_node c n' l) ids
  = List.filter (fun e => negb (bool_decide (fst e = (c, i)))) (back l ids).
Proof.
  intros Hwf Hn Hit Hi Hnd Hc E. destruct (cl_chunks l Hwf c n Hn) as [Hcw _].
  induction ids as [| id ids IH]; [inversion Hc |]. inversion Hnd as [| ? ? Hni Hnd']; subst.
  rewrite !back_cons, List.filter_app.
  assert (Hothers : forall ids', c ∉ ids' ->
    List.filter (fun e => negb (bool_decide (fst e = (c, i)))) (back l ids') = back l ids').
  { intros ids' Hn'. apply bfilter_all. intros [p v] Hp. apply back_pos_chunk in Hp.
    simpl. rewrite bool_decide_false; [reflexivity |]. intros ->. apply Hn', Hp. }
  destruct (decide (id = c)) as [-> | Hne].
  - rewrite back_put_notin, Hothers by exact Hni. f_equal.
    unfold chunk_back. simpl. rewrite lookup_insert_eq, Hn, E.
    rewrite (below_without c _ _ it) by (assumption || lia). rewrite Z2Nat.id by lia. reflexivity.
  - apply elem_of_cons in Hc as [-> | Hc]; [congruence |]. rewrite IH by assumption. f_equal.
    rewrite chunk_back_put_ne by exact Hne.
    specialize (Hothers [id]). rewrite back_cons, app_nil_r in Hothers. symmetry. apply Hothers.
    intros Hin. apply list_elem_of_singleton in Hin. congruence.
Qed.

(** C35 (remove): [remove] takes exactly the element at the given position out of
    the list, whether or not iterators still hold it, keeps the order of the
    others, and keeps the representation. *)
Theorem remove_correct l B p v has
    (Hr : Repr l B) (Hp : (p, v) ∈ B) (Hs : settled l) :
  exists l', remove (mkAccess (Some (fst p)) (Some (snd p)) has) l = Ok l' /\
    Repr l' (List.filter (fun e => negb (bool_decide (fst e = p))) B) /\ settled l'.
Proof.
  destruct Hr as [Hwf (ids & Hpath & ->)].
  destruct (back_entry _ _ _ _ Hp) as (n & it & Hin & Hn & Hi & Hit & Hl & Hv).
  destruct (cl_chunks l Hwf _ n Hn) as [Hc Hdel].
  assert (Hu : snd p < next_item (item_data n)).
  { destruct (Z.lt_ge_cases (snd p) (next_item (item_data n))) as [H | H]; [exact H |].
    rewrite (cw_unused _ Hc _ _ Hit) in Hl by lia. discriminate Hl. }
  eexists. split; [eapply remove_eq; eassumption |].
  assert (Hw : chunk_wf (without_slot (item_data n) (Z.to_nat (snd p)) it))
    by (apply without_slot_wf; try assumption; lia).
  split; [split |].
  - eapply CLwf_put; [exact Hwf | exact Hn | reflexivity | exact Hw | | |].
    + simpl. intros Hd. apply orb_true_iff in Hd as [Hd | Hd]; [| lia]. exfalso.
      assert (chunk_back l (fst p) = []) as E.
      { apply chunk_back_deleted; [exact Hwf |]. unfold is_deleted. rewrite Hn. exact Hd. }
      unfold chunk_back in E. rewrite Hn in E.
      assert (Hbelow : (p, v) ∈ below (fst p) (items (item_data n)) (Z.to_nat chunk_size)).
      { apply below_In. exists (Z.to_nat (snd p)), it. rewrite Z2Nat.id by lia.
        destruct p. simpl in *. repeat split; try assumption. lia. }
      rewrite E in Hbelow. inversion Hbelow.
    + intros Eh. simpl. eapply cl_head; eassumption.
    + intros Eh. simpl. eapply cl_full; eassumption.
  - exists ids. split; [simpl; eapply path_put; [exact Hn | reflexivity | exact Hpath] |].
    erewrite (back_without l (fst p) n _ (snd p) it ids); try eassumption; try lia.
    + destruct p; reflexivity.
    + eapply path_NoDup; [apply Hwf | exact Hpath].
    + reflexivity.
  - intros h m Eh Hm. simpl in Eh, Hm. apply lookup_insert_Some in Hm as [(<- & <-) | (_ & Hm)].
    + simpl. left. lia.
    + eapply Hs; eassumption.
Qed.

(** ** A push whose iterator is dropped at once *)

(** [l.push(x);] as a statement: [~ItemAccess] releases the returned iterator. *)
Definition push_drop (x : T) l : res (@CL T) :=
  '(a, l) ← push push_fuel x l;
  '(_, l) ← release a l;
  Ok l.

Lemma push_drop_spec l B x :
  Repr l B -> acquirable l ->
  exists p l1, push_drop x l = Ok l1 /\ Repr l1 ((p, x) :: B) /\ (p ∉ B.*1) /\
    settled l1 /\ acquirable l1.
Proof.
  intros Hr Hacq. destruct (push_correct l B x Hr Hacq) as (p & l1 & l2 & Ep & Hh & Hr1 & Hs & Ha & Hf).
  exists p, l1. split; [| auto]. unfold push_drop. rewrite Ep. cbn [mbind res_bind].
  destruct Hr1 as [Hwf (ids & Hp & EB)].
  destruct (back_entry l1 ids p x) as (n & it & _ & Hn & Hi & Hit & Hl & _).
  { rewrite <- EB. left. }
  destruct (cl_chunks l1 Hwf _ n Hn) as [Hc _].
  destruct (chunk_slot _ _ (chunk_slots _ Hc) Hi) as (it' & Hit' & Hcase). rewrite Hit in Hit'. injection Hit' as <-.
  destruct Hcase as [(_ & _ & Hrc) | (Hd & _)]; [| congruence].
  pose proof (Ha _ _ _ _ Hn Hit Hl).
  destruct (release_hold l1 l2 p n it Hn Hi Hit ltac:(lia) Hh) as (-> & _). reflexivity.
Qed.

Lemma Repr_empty : Repr (@empty T) [] /\ settled (@empty T) /\ acquirable (@empty T).
Proof.
  split; [split | split].
  - constructor; [apply list_wf_empty | | discriminate |]; intros ? ? ?; try intros ?;
      simpl in *; rewrite lookup_empty in *; discriminate.
  - exists []. split; [constructor | reflexivity].
  - intros h n E. discriminate E.
  - intros id n i it Hn. simpl in Hn. rewrite lookup_empty in Hn. discriminate.
Qed.

Lemma Repr_fun l B ids : Repr l B -> path l (head l) ids -> B = back l ids.
Proof. intros [_ (ids' & Hp & ->)] Hp'. rewrite (path_fun l _ _ _ Hp Hp'). reflexivity. Qed.

(** ** Destruction of a chunk *)

Lemma destroy_items_ok idxs (c : Chunk T) :
  Forall (fun i => 0 <= i < Z.of_nat (length (items c))) idxs ->
  exists c', destroy_items idxs c = Ok c' /\ length (items c') = length (items c) /\
    next_item c' = next_item c /\
    (forall i it, items c !! i = Some it -> NoDup idxs -> Z.of_nat i ∈ idxs ->
       items c' !! i = Some (mkItem (if refcount it =? 0 then None else storage it)
                                    (iter_offset it) (s16 (refcount it - 1)))) /\
    (forall i, Z.of_nat i ∉ idxs -> items c' !! i = items c !! i).
Proof.
  revert c. induction idxs as [| j idxs IH]; intros c Hall.
  - exists c. repeat split. intros i it _ _ Hin. inversion Hin.
  - inversion Hall as [| ? ? Hj Hall']; subst. simpl.
    destruct (lookup_lt_is_Some_2 (items c) (Z.to_nat j)) as [itj Hitj]; [lia |].
    unfold get_item. replace (0 <=? j) with true by lia. rewrite Hitj. cbn [deref mbind res_bind].
    set (it' := mkItem (if refcount itj =? 0 then None else storage itj) (iter_offset itj)
                  (s16 (refcount itj - 1))).
    assert (Er : item_release false itj = Ok it').
    { unfold item_release, it'. destruct (refcount itj =? 0); [reflexivity |].
      destruct (refcount itj <? 0); reflexivity. }
    rewrite Er. cbn [mbind res_bind].
    destruct (IH (put_item j it' c)) as (c' & Hd & Hlen & Hnx & Hin & Hout).
    { simpl. rewrite length_insert. exact Hall'. }
    exists c'. split; [exact Hd |]. simpl in *. rewrite length_insert in Hlen.
    split; [exact Hlen |]. split; [exact Hnx |]. split.
    + intros i it Hi Hnd Hii. inversion Hnd as [| ? ? Hnj Hnd']; subst.
      destruct (decide (Z.of_nat i = j)) as [E | Hne].
      * subst j. rewrite Hout by exact Hnj. rewrite Nat2Z.id in *.
        rewrite list_lookup_insert_eq by (eapply lookup_lt_Some; exact Hi).
        rewrite Hi in Hitj. injection Hitj as <-. reflexivity.
      * apply elem_of_cons in Hii as [E | Hii]; [congruence |].
        apply Hin; [| exact Hnd' | exact Hii]. rewrite list_lookup_insert_ne by lia. exact Hi.
    + intros i Hni. apply not_elem_of_cons in Hni as [Hne Hni]. rewrite Hout by exact Hni.
      rewrite list_lookup_insert_ne by lia. reflexivity.
Qed.

(** (destroy): destroying a chunk that was never overflowed destroys exactly the
    elements in use that no iterator holds, and touches no unused slot; once a
    [push] overflowed the chunk, the loop runs past its last slot. *)
Theorem destroy_chunk_correct (c : Chunk T) (Hc : chunk_wf c) :
  (next_item c <= chunk_size ->
     exists c', destroy_chunk c = Ok c' /\
       forall i it, items c !! i = Some it ->
         items c' !! i = Some (if Z.of_nat i <? next_item c
           then mkItem (if refcount it =? 0 then None else storage it)
                       (iter_offset it) (s16 (refcount it - 1))
           else it)) /\
  (next_item c = chunk_size + 1 -> destroy_chunk c = Err Undefined).
Proof.
  pose proof (cw_length _ Hc) as Hlen. pose proof (cw_next _ Hc) as Hnx. pose proof good_size as Hg.
  assert (Hr : forall n, n <= chunk_size ->
    Forall (fun i => 0 <= i < Z.of_nat (length (items c))) (zrange 0 n)).
  { intros n Hn. apply Forall_forall. intros i Hi. apply elem_of_zrange in Hi. lia. }
  unfold destroy_chunk. split.
  - intros Hle. destruct (destroy_items_ok _ c (Hr _ Hle)) as (c' & Hd & _ & _ & Hin & Hout).
    exists c'. split; [exact Hd |]. intros i it Hit.
    destruct (Z.ltb_spec (Z.of_nat i) (next_item c)) as [Hlt | Hge].
    + apply Hin; [exact Hit | apply NoDup_zrange | apply elem_of_zrange; lia].
    + rewrite Hout by (rewrite elem_of_zrange; lia). exact Hit.
  - intros E. rewrite E, <- (zrange_app 0 chunk_size (chunk_size + 1)) by lia.
    rewrite (zrange_cons chunk_size) by lia. rewrite (zrange_nil (chunk_size + 1)) by lia.
    destruct (destroy_items_ok _ c (Hr _ (Z.le_refl _))) as (c' & Hd & Hl & _).
    assert (Happ : forall xs ys (d : Chunk T),
      destroy_items (xs ++ ys) d = destroy_items xs d ≫= destroy_items ys).
    { induction xs as [| x xs IH]; intros ys d; [reflexivity |]. simpl.
      destruct (get_item x d) as [it | e]; [| reflexivity]. cbn [mbind res_bind].
      destruct (item_release false it) as [it' | e]; [| reflexivity]. cbn [mbind res_bind]. apply IH. }
    rewrite Happ, Hd. cbn [mbind res_bind destroy_items]. unfold get_item.
    replace (0 <=? chunk_size) with true by lia.
    rewrite (lookup_ge_None_2 (items c')) by lia. reflexivity.
Qed.
End Ops.

(** ** The theorems on a list of three elements in two chunks *)

#[local] Instance two_slots : ChunkSize := 2.
#[local] Instance two_slots_good : GoodSize two_slots.
Proof. unfold GoodSize, chunk_size, two_slots. lia. Qed.

Definition sample_ops : res (@CL Z) :=
  l ← push_drop 10 empty; l ← push_drop 20 l; push_drop 30 l.

Definition sample : @CL Z := match sample_ops with Ok l => l | Err _ => empty end.
Definition sample_content : list (pos * Z) := [((1%nat, 0), 30); ((0%nat, 1), 20); ((0%nat, 0), 10)].

Lemma sample_ok : Repr sample sample_content /\ settled sample /\ acquirable sample.
Proof.
  assert (H : exists B l, sample_ops = Ok l /\ Repr l B /\ settled l /\ acquirable l).
  { destruct (@Repr_empty Z two_slots) as (H0 & _ & A0). unfold sample_ops.
    destruct (push_drop_spec _ _ 10 H0 A0) as (p1 & l1 & -> & H1 & _ & _ & A1). cbn [mbind res_bind].
    destruct (push_drop_spec _ _ 20 H1 A1) as (p2 & l2 & -> & H2 & _ & _ & A2). cbn [mbind res_bind].
    destruct (push_drop_spec _ _ 30 H2 A2) as (p3 & l3 & -> & H3 & _ & S3 & A3). eauto 10. }
  destruct H as (B & l & E & Hr & Hs & Ha).
  assert (sample = l) as <- by (unfold sample; rewrite E; reflexivity).
  rewrite (Repr_fun sample B [1; 0]%nat Hr) in Hr.
  - auto.
  - eapply path_cons; [vm_compute; reflexivity |].
    eapply path_cons; [vm_compute; reflexivity |]. constructor.
Qed.

Lemma iteration_correct_witness :
  exists l', collect sample = Ok ([30; 20; 10], l') /\ Repr l' sample_content.
Proof.
  destruct sample_ok as (Hr & Hs & Ha).
  exact (iteration_correct sample sample_content Hr Ha Hs).
Defined.

Lemma push_correct_witness : pushed 40 sample_content (push push_fuel 40 sample).
Proof.
  destruct sample_ok as (Hr & Hs & Ha). exact (push_correct sample sample_content 40 Hr Ha).
Defined.

Lemma remove_correct_witness :
  exists l', remove (mkAccess (Some 0%nat) (Some 1) false) sample = Ok l' /\
    Repr l' [((1%nat, 0), 30); ((0%nat, 0), 10)] /\ settled l'.
Proof.
  destruct sample_ok as (Hr & Hs & Ha).
  apply (remove_correct sample sample_content (0%nat, 1) 20 false Hr); [| exact Hs].
  right. left.
Defined.

Lemma destroy_chunk_correct_witness :
  exists n, nodes sample !! 0%nat = Some n /\ destroy_chunk (item_data n) = Err Undefined.
Proof.
  destruct sample_ok as (Hr & _). destruct (nodes sample !! 0%nat) as [n |] eqn:E.
  - exists n. split; [reflexivity |].
    apply (destroy_chunk_correct (item_data n)).
    + destruct Hr as [Hwf _]. apply (cl_chunks sample Hwf 0%nat n E).
    + vm_compute in E. injection E as <-. reflexivity.
  - vm_compute in E. discriminate E.
Defined.

End ChunkedListOps.
