(* ===== verification/RefCount.v ===== *)
(** The life of one item of a chunked list under many iterators
    ([Item::acquire] and [Item::release] of [redGrapes/util/chunked_list.hpp]): one
    atomic operation is one step, in any interleaving. *)

From Stdlib Require Import ZArith Lia Bool.
From stdpp Require Import base list relations.
From S2P Require Import Prelude.

Open Scope Z_scope.
Open Scope word_scope.

Module RefCount.

(** What an iterator does next with the item. *)
Inductive pc : Type :=
  | Idle                    (* calls [acquire] *)
  | GotOff (off : Z)        (* has loaded [iter_offset] *)
  | CanAdd                  (* has seen a [refcount] that is not negative *)
  | Added (old : Z)         (* has incremented [refcount] *)
  | Undo (off : Z)          (* is about to take the increment back *)
  | Holds (counted : bool)  (* [acquire] has returned 0, with or without the increment *)
  | Destroying              (* is about to run the destructor of the element *)
  | Thrown                  (* [release] has thrown *)
  | Removes                 (* calls [remove] *)
  | Released.               (* [remove] has set [iter_offset] and releases the item *)

(** [deceived] is no variable of the program: it records that some [acquire]
    returned 0 without the increment. *)
Record Item : Type := mkItem {
  iter_offset : Z;
  refcount : Z;
  destroyed : nat;
  deceived : bool;
  iterators : list pc
}.

Definition goto (t : nat) (p : pc) (s : Item) : Item :=
  mkItem (iter_offset s) (refcount s) (destroyed s) (deceived s) (<[t := p]> (iterators s)).
Definition with_count (n : Z) (s : Item) : Item := mkItem (iter_offset s) n (destroyed s) (deceived s) (iterators s).

(** [acquire] returns [off] while the iterator has not incremented the counter. *)
Definition returns (t : nat) (off : Z) (s : Item) : Item :=
  if off =? 0
  then mkItem (iter_offset s) (refcount s) (destroyed s) true (<[t := Holds false]> (iterators s))
  else goto t Idle s.

(** [release] up to the destructor. *)
Definition release (t : nat) (s : Item) : Item :=
  let old := refcount s in
  goto t (if old =? 0 then Destroying else if old <? 0 then Thrown else Idle) (with_count (s16 (old - 1)) s).

Section Steps.
(** What [remove] stores: one more than the offset of the item before. *)
Context (distance : Z) (Hdistance : distance <> 0).

(** The next operation of iterator [t]. *)
Definition run (t : nat) (s : Item) : option Item :=
  p ← iterators s !! t;
  match p with
  | Idle => Some (goto t (GotOff (iter_offset s)) s)
  | GotOff off => Some (if (off =? 0) && (0 <=? refcount s) then goto t CanAdd s else returns t off s)
  | CanAdd => Some (goto t (Added (refcount s)) (with_count (s16 (refcount s + 1)) s))
  | Added old => let off := iter_offset s in
      Some (goto t (if (0 <=? old) && (off =? 0) then Holds true else Undo off) s)
  | Undo off => Some (returns t off (with_count (s16 (refcount s - 1)) s))
  | Holds _ => Some (release t s)
  | Destroying => Some (goto t Idle (mkItem (iter_offset s) (refcount s) (S (destroyed s)) (deceived s) (iterators s)))
  | Thrown => None
  | Removes => Some (goto t Released (mkItem distance (refcount s) (destroyed s) (deceived s) (iterators s)))
  | Released => Some (release t s)
  end.

Definition step (s s' : Item) : Prop := exists t, run t s = Some s'.

(** The item was just assigned; one of the iterators will remove it. *)
Definition init (n : nat) (s : Item) : Prop := s = mkItem 0 0 0 false (Removes :: replicate n Idle).

Fixpoint run_all (l : list nat) (s : Item) : option Item :=
  match l with
  | [] => Some s
  | t :: l => s ← run t s; run_all l s
  end.

(** ** Counting *)

Definition count (f : pc -> nat) (l : list pc) : nat := sum_list (f <$> l).

Lemma count_cons f p l : count f (p :: l) = (f p + count f l)%nat.
Proof. reflexivity. Qed.

Lemma count_insert f l : forall t p q, l !! t = Some q -> (count f (<[t := p]> l) + f q = f p + count f l)%nat.
Proof.
  induction l as [| x l IH]; intros [| t] p q Ht; try discriminate.
  - injection Ht as ->. change (<[0%nat := p]> (q :: l)) with (p :: l). rewrite !count_cons. lia.
  - specialize (IH t p q Ht). change (<[S t := p]> (x :: l)) with (x :: <[t := p]> l).
    rewrite !count_cons. lia.
Qed.

Lemma count_le f l : forall t q, l !! t = Some q -> (f q <= count f l)%nat.
Proof.
  induction l as [| x l IH]; intros [| t] q Ht; try discriminate; rewrite count_cons.
  - injection Ht as ->. lia.
  - specialize (IH t q Ht). lia.
Qed.

Lemma count_bound f l : (forall p, (f p <= 1)%nat) -> (count f l <= length l)%nat.
Proof. intros Hf. induction l as [| x l IH]; [reflexivity |]. rewrite count_cons. specialize (Hf x). simpl. lia. Qed.

(** The references counted; the item's own is given up by [remove]. *)
Definition refs (p : pc) : nat :=
  match p with Added _ | Undo _ | Holds true | Removes | Released => 1 | _ => 0 end.
Definition owns (p : pc) : nat := match p with Holds true | Removes | Released => 1 | _ => 0 end.
Definition removes (p : pc) : nat := match p with Removes => 1 | _ => 0 end.
Definition destroys (p : pc) : nat := match p with Destroying => 1 | _ => 0 end.

(** What only happens once the counter has been negative. *)
Definition late (p : pc) : nat :=
  match p with Added old => if 0 <=? old then 0 else 1 | Holds false | Thrown | Destroying => 1 | _ => 0 end.
Definition fooled (p : pc) : nat := match p with Holds false | Thrown => 1 | _ => 0 end.
Definition undo_success (p : pc) : nat := match p with Undo off => if off =? 0 then 1 else 0 | _ => 0 end.

(** The counter has not been negative yet. *)
Record live (s : Item) : Prop := {
  lv_count : Z.of_nat (count refs (iterators s)) = refcount s + 1;
  lv_pos : 0 <= refcount s;
  lv_destroyed : destroyed s = 0%nat;
  lv_deceived : deceived s = false;
  lv_late : count late (iterators s) = 0%nat;
  lv_exists : iter_offset s = 0 -> (0 < count removes (iterators s))%nat
}.

(** The last reference was given up. *)
Record dead (s : Item) : Prop := {
  dd_off : iter_offset s <> 0;
  dd_owns : count owns (iterators s) = 0%nat;
  dd_once : deceived s = false ->
    (destroyed s + count destroys (iterators s) <= 1)%nat /\ count fooled (iterators s) = 0%nat
}.

Definition inv (s : Item) : Prop := (live s \/ dead s) /\ count undo_success (iterators s) = 0%nat.

Lemma refs_1 p : (refs p <= 1)%nat.
Proof. destruct p as [| | | | | [] | | | |]; simpl; lia. Qed.

(** A step of iterator [t] from [p] to [q], as far as the counts go. *)
Ltac counts s t q Ht :=
  pose proof (count_insert refs (iterators s) t q _ Ht); pose proof (count_insert owns (iterators s) t q _ Ht);
  pose proof (count_insert removes (iterators s) t q _ Ht); pose proof (count_insert destroys (iterators s) t q _ Ht);
  pose proof (count_insert late (iterators s) t q _ Ht); pose proof (count_insert fooled (iterators s) t q _ Ht);
  pose proof (count_insert undo_success (iterators s) t q _ Ht);
  pose proof (count_le refs (iterators s) t _ Ht); pose proof (count_le owns (iterators s) t _ Ht);
  pose proof (count_le late (iterators s) t _ Ht); pose proof (count_le destroys (iterators s) t _ Ht);
  pose proof (count_le fooled (iterators s) t _ Ht);
  pose proof (count_le undo_success (iterators s) t _ Ht);
  cbn [refs owns removes destroys late fooled undo_success] in *.

(** Every thread counted keeps the counter within its width. *)
Lemma live_small s : live s -> Z.of_nat (length (iterators s)) < 2 ^ 15 -> 0 <= refcount s < 2 ^ 15 - 1.
Proof.
  intros [L1 L2 _ _ _ _] Hn. pose proof (count_bound refs (iterators s) refs_1). lia.
Qed.

(** References are only counted late when they are no references. *)
Lemma owns_refs l : (count owns l <= count refs l)%nat.
Proof.
  induction l as [| p l IH]; [reflexivity |]. rewrite !count_cons. destruct p as [| | | | | [] | | | |]; simpl; lia.
Qed.

Lemma removes_owns l : (count removes l <= count owns l)%nat.
Proof.
  induction l as [| p l IH]; [reflexivity |]. rewrite !count_cons. destruct p as [| | | | | [] | | | |]; simpl; lia.
Qed.

Lemma destroys_late l : (count destroys l + count fooled l <= count late l)%nat.
Proof.
  induction l as [| p l IH]; [reflexivity |]. rewrite !count_cons.
  destruct p as [| | | old | | [] | | | |]; simpl; try destruct (0 <=? old); lia.
Qed.

(** One step while the counter is not negative, by where the iterator is. *)
Lemma live_dies s : live s -> forall s', iter_offset s' = iter_offset s -> deceived s' = deceived s -> destroyed s' = destroyed s ->
  count refs (iterators s') = 0%nat -> (count destroys (iterators s') <= 1)%nat -> count fooled (iterators s') = 0%nat ->
  (count removes (iterators s) <= count removes (iterators s'))%nat -> dead s'.
Proof.
  intros [L1 L2 L3 L4 L5 L6] s' Eo Ec Ed Hr Hd Hf Hrm. pose proof (owns_refs (iterators s')). pose proof (removes_owns (iterators s')).
  constructor; [rewrite Eo; intros E; specialize (L6 E); lia | lia | intros _; rewrite Ed, L3; split; [lia | exact Hf]].
Qed.

Lemma item_inv_init n s : init n s -> inv s.
Proof.
  intros ->. assert (Hz : forall f, f Idle = 0%nat -> count f (replicate n Idle) = 0%nat).
  { intros f Hf. induction n as [| n IH]; [reflexivity |]. cbn [replicate]. rewrite count_cons. lia. }
  split; [left; constructor |]; cbn [iterators refcount destroyed deceived iter_offset];
    rewrite ?count_cons, ?Hz by reflexivity; simpl; first [reflexivity | lia].
Qed.

Ltac fields := cbn [iterators refcount destroyed deceived iter_offset goto with_count returns release] in *.

(** The fields of the invariant, by the counts. *)
Ltac solves := constructor; fields; rewrite ?swrap_small by lia; try assumption;
  try (let Eo := fresh in intros Eo; match goal with L : iter_offset _ = 0 -> _ |- _ => specialize (L Eo) end); lia.

(** A step that leaves a live item alive. *)
Ltac stays_live s t q Ht := left; counts s t q Ht; solves.

Lemma live_step s t s' : live s -> count undo_success (iterators s) = 0%nat ->
  Z.of_nat (length (iterators s)) < 2 ^ 15 -> run t s = Some s' -> live s' \/ dead s'.
Proof.
  intros HL Hu Hn E. pose proof (live_small s HL Hn) as Hrc. destruct HL as [L1 L2 L3 L4 L5 L6]. unfold run in E.
  apply bind_Some in E as (p & Ht & E).
  assert (Hrel : forall q, refs p = 1%nat -> late p = 0%nat -> removes p = 0%nat -> q = release t s -> live q \/ dead q).
  { intros q Hp Hlt Hrm ->. unfold release. destruct (Z.eqb_spec (refcount s) 0) as [E0 | N0].
    - right. counts s t Destroying Ht. pose proof (destroys_late (iterators s)).
      apply (live_dies s); [constructor; assumption | fields; first [reflexivity | lia] ..].
    - replace (refcount s <? 0) with false by lia. left. counts s t Idle Ht. solves. }
  destruct p as [| off | | old | off | c | | | |]; try discriminate E; injection E as <-.
  - stays_live s t (GotOff (iter_offset s)) Ht.
  - destruct ((off =? 0) && (0 <=? refcount s)) eqn:Ec; [stays_live s t CanAdd Ht |]. unfold returns.
    replace (off =? 0) with false by (destruct (off =? 0); [simpl in Ec; lia | reflexivity]). stays_live s t Idle Ht.
  - left. counts s t (Added (refcount s)) Ht. replace (0 <=? refcount s) with true in * by lia.
    solves.
  - destruct (0 <=? old) eqn:Eold; [| counts s t Idle Ht; rewrite Eold in *; lia]. simpl andb.
    destruct (iter_offset s =? 0); [stays_live s t (Holds true) Ht | stays_live s t (Undo (iter_offset s)) Ht].
  - unfold returns. destruct (off =? 0) eqn:Eoff; [counts s t Idle Ht; rewrite Eoff in *; lia |].
    counts s t Idle Ht. pose proof (destroys_late (iterators s)). destruct (Z.eqb_spec (refcount s) 0) as [E0 | N0].
    + right. apply (live_dies s); [constructor; assumption | fields; first [reflexivity | lia] ..].
    + left. solves.
  - destruct c; [| counts s t Idle Ht; lia]. apply Hrel; reflexivity.
  - counts s t Idle Ht. lia.
  - left. counts s t Released Ht. constructor; fields; try assumption; lia.
  - apply Hrel; reflexivity.
Qed.

Ltac stays_dead D1 D3 s t q Ht :=
  counts s t q Ht; constructor; fields; [exact D1 | lia |
    let Hd := fresh in intros Hd; first [discriminate Hd | specialize (D3 Hd); lia]].

Lemma dead_step s t s' : dead s -> count undo_success (iterators s) = 0%nat -> run t s = Some s' -> dead s'.
Proof.
  intros [D1 D2 D3] Hu E. unfold run in E. apply bind_Some in E as (p & Ht & E).
  destruct p as [| off | | old | off | c | | | |]; try discriminate E; injection E as <-.
  - stays_dead D1 D3 s t (GotOff (iter_offset s)) Ht.
  - destruct (_ && _); [stays_dead D1 D3 s t CanAdd Ht |]. unfold returns. destruct (off =? 0).
    + stays_dead D1 D3 s t (Holds false) Ht.
    + stays_dead D1 D3 s t Idle Ht.
  - stays_dead D1 D3 s t (Added (refcount s)) Ht.
  - replace (iter_offset s =? 0) with false by lia. rewrite andb_false_r. stays_dead D1 D3 s t (Undo (iter_offset s)) Ht.
  - unfold returns. destruct (off =? 0) eqn:Eoff; [counts s t Idle Ht; rewrite Eoff in *; lia |]. stays_dead D1 D3 s t Idle Ht.
  - destruct c; [counts s t Idle Ht; lia |]. unfold release.
    destruct (_ =? 0); [| destruct (_ <? 0)]; [stays_dead D1 D3 s t Destroying Ht | stays_dead D1 D3 s t Thrown Ht | stays_dead D1 D3 s t Idle Ht].
  - stays_dead D1 D3 s t Idle Ht.
  - counts s t Idle Ht. lia.
  - counts s t Idle Ht. lia.
Qed.

Lemma run_length t s s' : run t s = Some s' -> length (iterators s') = length (iterators s).
Proof.
  unfold run. intros E. apply bind_Some in E as (p & _ & E). destruct p; try discriminate E; injection E as <-;
    unfold returns, release; repeat destruct (_ && _); repeat destruct (_ =? 0); fields; apply length_insert.
Qed.

(** No iterator takes back an increment although the item exists. *)
Lemma undo_step s t s' : live s \/ dead s -> count undo_success (iterators s) = 0%nat -> run t s = Some s' ->
  count undo_success (iterators s') = 0%nat.
Proof.
  intros HI Hu E. unfold run in E. apply bind_Some in E as (p & Ht & E).
  assert (Hq : forall q, undo_success q = 0%nat -> count undo_success (<[t := q]> (iterators s)) = 0%nat)
    by (intros q Hq; pose proof (count_insert undo_success (iterators s) t q p Ht); lia).
  destruct p as [| off | | old | off | c | | | |]; try discriminate E; injection E as <-;
    unfold returns, release; fields; try (apply Hq; reflexivity).
  - destruct (_ && _); [apply Hq; reflexivity |]. destruct (_ =? 0); apply Hq; reflexivity.
  - apply Hq. destruct ((0 <=? old) && (iter_offset s =? 0)) eqn:Ec; [reflexivity |]. simpl.
    destruct (Z.eqb_spec (iter_offset s) 0) as [E0 |]; [exfalso | reflexivity].
    destruct HI as [[_ _ _ _ L5 _] | [D1 _ _]]; [| lia].
    pose proof (count_le late (iterators s) t _ Ht) as Hle. simpl in Hle. rewrite andb_true_r in Ec. rewrite Ec in Hle. lia.
  - destruct (_ =? 0); apply Hq; reflexivity.
  - destruct (_ =? 0); [| destruct (_ <? 0)]; apply Hq; reflexivity.
  - destruct (_ =? 0); [| destruct (_ <? 0)]; apply Hq; reflexivity.
Qed.

Lemma item_reachable_inv n s : Z.of_nat (S n) < 2 ^ 15 -> reachable (init n) step s -> inv s.
Proof.
  intros Hn Hr. assert (H : inv s /\ length (iterators s) = S n); [| apply H]. revert s Hr. apply reachable_invariant.
  - intros s Hi. split; [eapply item_inv_init, Hi | rewrite Hi; simpl; rewrite length_replicate; reflexivity].
  - intros s s' [[HI Hu] Hl] (t & E). split; [| rewrite (run_length _ _ _ E); exact Hl].
    split; [| eapply undo_step; eassumption].
    destruct HI as [HL | HD]; [eapply live_step; try eassumption; rewrite Hl; exact Hn | right; eapply dead_step; eassumption].
Qed.

(** C22 (refcount): however many iterators acquire, release and remove an item at
    once, the element is intact as long as an iterator holds a reference it has
    counted, and unless some [acquire] succeeded without counting, its destructor
    runs at most once and no [release] throws. *)
Theorem counted_item_intact n s :
  Z.of_nat (S n) < 2 ^ 15 -> reachable (init n) step s ->
  (Holds true ∈ iterators s -> destroyed s = 0%nat /\ Destroying ∉ iterators s) /\
  (deceived s = false -> (destroyed s <= 1)%nat /\ Thrown ∉ iterators s).
Proof.
  intros Hn Hr. destruct (item_reachable_inv n s Hn Hr) as [HI _].
  assert (Hin : forall f p, p ∈ iterators s -> (f p <= count f (iterators s))%nat)
    by (intros f p Hp; apply list_elem_of_lookup_1 in Hp as [t Ht]; eapply count_le, Ht).
  split.
  - intros Hh. destruct HI as [[L1 L2 L3 L4 L5 L6] | [D1 D2 D3]].
    + split; [exact L3 |]. intros Hd. specialize (Hin late _ Hd). simpl in Hin. lia.
    + specialize (Hin owns _ Hh). simpl in Hin. lia.
  - intros Hd. destruct HI as [[L1 L2 L3 L4 L5 L6] | [D1 D2 D3]].
    + split; [lia |]. intros Ht. specialize (Hin late _ Ht). simpl in Hin. lia.
    + destruct (D3 Hd) as [Ha Hb]. split; [lia |]. intros Ht. specialize (Hin fooled _ Ht). simpl in Hin. lia.
Qed.

Lemma run_all_reachable n l s : run_all l (mkItem 0 0 0 false (Removes :: replicate n Idle)) = Some s -> reachable (init n) step s.
Proof.
  intros E. assert (Hg : forall l s0 s1, run_all l s0 = Some s1 -> rtc step s0 s1).
  { clear. induction l as [| t l IH]; intros s0 s1 E; [injection E as <-; apply rtc_refl |].
    apply bind_Some in E as (s2 & E2 & E). eapply rtc_l; [exists t; exact E2 | apply IH, E]. }
  eexists. split; [reflexivity | apply (Hg l), E].
Qed.
End Steps.

(** ** What goes wrong *)

(** An iterator loads [iter_offset] before the item is removed and [refcount] after. *)
Definition late_look : list nat := [1; 0; 0; 0; 1]%nat.

(** A second one has already seen that the counter is not negative. *)
Definition late_add : list nat := [1; 2; 2; 0; 0; 0; 1; 2; 1; 1]%nat.

(** An iterator holds the item, another one has incremented the counter and looks
    at [iter_offset] only when the item was removed and released by the first. *)
Definition last_but_one : list nat := [1; 1; 1; 1; 2; 2; 0; 0; 2; 1; 2; 2]%nat.

Definition after (n : nat) (l : list nat) : Item :=
  default (mkItem 0 0 0 false []) (run_all 1 l (mkItem 0 0 0 false (Removes :: replicate n Idle))).

Lemma after_reachable n l s : run_all 1 l (mkItem 0 0 0 false (Removes :: replicate n Idle)) = Some s ->
  after n l = s /\ reachable (init n) (step 1) s.
Proof. intros E. split; [unfold after; rewrite E; reflexivity | apply (run_all_reachable 1 n l s E)]. Qed.

(** C23 (deceived): [acquire] may return 0, success, for an item that is already
    destroyed, whose [release] then throws; and with a third iterator the element is
    destroyed twice. *)
Theorem acquire_deceived :
  (exists s, reachable (init 1) (step 1) s /\ destroyed s = 1%nat /\ iterators s = [Idle; Holds false] /\
     exists s', step 1 s s' /\ iterators s' = [Idle; Thrown]) /\
  (exists s, reachable (init 2) (step 1) s /\ destroyed s = 2%nat).
Proof.
  split.
  - exists (after 1 late_look). destruct (after_reachable 1 late_look (mkItem 1 (-1) 1 true [Idle; Holds false]) eq_refl) as [-> Hr].
    split; [exact Hr |]. split; [reflexivity |]. split; [reflexivity |].
    eexists. split; [exists 1%nat; reflexivity | reflexivity].
  - exists (after 2 late_add).
    destruct (after_reachable 2 late_add (after 2 late_add) eq_refl) as [_ Hr]. split; [exact Hr | reflexivity].
Qed.

(** When the failing [acquire] takes back the last reference, nobody runs the
    destructor: the item is removed, all iterators are done, the element stays. *)
Example destructor_lost : let s := after 2 last_but_one in
  reachable (init 2) (step 1) s /\ iterators s = [Idle; Idle; Idle] /\ refcount s = -1 /\ destroyed s = 0%nat.
Proof. split; [apply (after_reachable 2 last_but_one _ eq_refl) | vm_compute; auto]. Qed.

(** An iterator that counted its reference while the item is being removed. *)
Definition held : list nat := [1; 1; 1; 1; 0; 0]%nat.

Lemma counted_item_intact_witness :
  let s := after 1 held in destroyed s = 0%nat /\ Destroying ∉ iterators s.
Proof.
  intros s. apply (counted_item_intact 1 ltac:(lia) 1 s); [lia | apply (after_reachable 1 held _ eq_refl) |].
  right. left.
Defined.
End RefCount.
