(* ===== verification/Access.v ===== *)
(** The access policies of [redGrapes/resource/access/]: what an access to a
    resource may do ([IOAccess], [AreaAccess]) and how policies are combined
    ([ArrayAccess], [CombineAccess], [FieldAccess]).  [AccessPolicy] is the
    concept the C++ templates require, [PolicyLaws] what the scheduler relies
    on: the conflict test is symmetric, it grows with the access, and a
    synchronizing access conflicts with everything that conflicts with
    anything. *)

From Stdlib Require Import ZArith Lia Bool.
From stdpp Require Import base list finite vector strings pretty.
From S2P Require Import Prelude.

Open Scope Z_scope.

Module Access.

(** ** The concept *)

Class AccessPolicy (A : Type) : Type := {
  default_access : A;
  is_synchronizing : A -> bool;
  is_serial : A -> A -> bool;
  is_superset_of : A -> A -> bool;
  access_eq : A -> A -> bool;
  format : A -> string;
  (** the values the C++ type can represent *)
  valid_access : A -> Prop
}.

Class PolicyLaws (A : Type) `{AccessPolicy A} : Prop := {
  default_valid : valid_access default_access;
  serial_sym : forall a b, is_serial a b = is_serial b a;
  superset_refl : forall a, is_superset_of a a = true;
  superset_trans : forall a b c,
    is_superset_of a b = true -> is_superset_of b c = true -> is_superset_of a c = true;
  superset_serial : forall a b c,
    is_superset_of a b = true -> is_serial b c = true -> is_serial a c = true;
  sync_serial : forall s u n, valid_access s -> valid_access u -> valid_access n ->
    is_synchronizing s = true -> is_serial u n = true -> is_serial s u = true;
  sync_superset : forall s u, valid_access s -> valid_access u ->
    is_synchronizing s = true -> is_superset_of s u = true;
  access_eq_spec : forall a b, access_eq a b = true <-> a = b
}.

(** ** Strings of the formatters *)

Definition dq : string := String (Ascii.ascii_of_nat 34) EmptyString.
Definition quoted (s : string) : string := dq +:+ s +:+ dq.

(** ** IOAccess *)

Inductive IOAccess : Type := write | read | aadd | amul.

#[export] Instance IOAccess_eq_dec : EqDecision IOAccess.
Proof. solve_decision. Defined.

Definition io_is_synchronizing (mode : IOAccess) : bool := bool_decide (mode = write).

Definition io_is_serial (a b : IOAccess) : bool :=
  negb (bool_decide (a = read) && bool_decide (b = read)
        || bool_decide (a = aadd) && bool_decide (b = aadd)
        || bool_decide (a = amul) && bool_decide (b = amul)).

Definition io_is_superset_of (mode a : IOAccess) : bool :=
  bool_decide (mode = write) || bool_decide (mode = a).

Definition io_format (acc : IOAccess) : string :=
  let mode_str := match acc with
    | read => "read" | write => "write" | aadd => "atomicAdd" | amul => "atomicMul" end in
  "{ " +:+ quoted "IOAccess" +:+ " : " +:+ quoted mode_str +:+ " }".

#[export] Instance io_policy : AccessPolicy IOAccess := {
  default_access := write;
  is_synchronizing := io_is_synchronizing;
  is_serial := io_is_serial;
  is_superset_of := io_is_superset_of;
  access_eq := fun a b => bool_decide (a = b);
  format := io_format;
  valid_access := fun _ => True
}.

#[export] Instance io_laws : PolicyLaws IOAccess.
Proof.
  constructor; simpl; [exact I | | | | | | | intros a b; apply bool_decide_eq_true];
    repeat match goal with |- forall _ : IOAccess, _ => intros [] end;
    intros; (reflexivity || discriminate).
Qed.

(** ** AreaAccess *)

(** [std::numeric_limits<size_t>::max()] *)
Definition size_max : Z := 2 ^ 64 - 1.

Record AreaAccess : Type := mkArea { area_begin : Z; area_end : Z }.

#[export] Instance AreaAccess_eq_dec : EqDecision AreaAccess.
Proof. solve_decision. Defined.

Definition area_default : AreaAccess := mkArea 0 size_max.

Definition area_is_synchronizing (a : AreaAccess) : bool :=
  (area_begin a =? 0) && (area_end a =? size_max).

Definition area_is_serial (a b : AreaAccess) : bool :=
  (area_begin b <? area_end a) && (area_begin a <? area_end b).

Definition area_is_superset_of (this a : AreaAccess) : bool :=
  (area_begin this <=? area_begin a) && (area_end a <=? area_end this).

Definition area_eq (a b : AreaAccess) : bool :=
  (area_begin a =? area_begin b) && (area_end a =? area_end b).

Definition area_format (acc : AreaAccess) : string :=
  "{ " +:+ quoted "area" +:+ " : { " +:+ quoted "begin" +:+ " : " +:+ pretty (area_begin acc) +:+
  ", " +:+ quoted "end" +:+ " : " +:+ pretty (area_end acc) +:+ " } }".

Definition area_valid (a : AreaAccess) : Prop :=
  is_word 64 (area_begin a) /\ is_word 64 (area_end a).

#[export] Instance area_policy : AccessPolicy AreaAccess := {
  default_access := area_default;
  is_synchronizing := area_is_synchronizing;
  is_serial := area_is_serial;
  is_superset_of := area_is_superset_of;
  access_eq := area_eq;
  format := area_format;
  valid_access := area_valid
}.

#[export] Instance area_laws : PolicyLaws AreaAccess.
Proof.
  constructor; simpl;
    unfold area_valid, is_word, area_is_serial, area_is_superset_of, area_is_synchronizing,
      area_eq, size_max.
  - simpl. unfold size_max. lia.
  - intros a b. apply andb_comm.
  - intros a. lia.
  - intros a b c. lia.
  - intros a b c. lia.
  - intros s u n. lia.
  - intros s u. lia.
  - intros [a1 a2] [b1 b2]. simpl. rewrite andb_true_iff, !Z.eqb_eq. split.
    + intros [-> ->]. reflexivity.
    + intros E. injection E. auto.
Qed.

(** ** Combinators *)

Inductive Op : Type := And_t | Or_t.

#[export] Instance Op_eq_dec : EqDecision Op.
Proof. solve_decision. Defined.

Record ArrayAccess (A : Type) (N : nat) (op : Op) : Type := mkArray { elems : vec A N }.
Arguments mkArray {A N op} _.
Arguments elems {A N op} _.

Section Array.
Context {A : Type} `{PolicyLaws A} {N : nat} {op : Op}.
Abbreviation ArrayAccess := (ArrayAccess A N op).

(** [for(i = 0; i < N; ++i) if(!p(i)) return false; return true;] *)
Definition loop_all (p : fin N -> bool) : bool := forallb p (enum (fin N)).
(** [for(i = 0; i < N; ++i) if(p(i)) return true; return false;] *)
Definition loop_any (p : fin N -> bool) : bool := existsb p (enum (fin N)).

Lemma loop_all_true p : loop_all p = true <-> forall i, p i = true.
Proof.
  unfold loop_all. rewrite forallb_forall. split.
  - intros Hp i. apply Hp, list_elem_of_In. apply (elem_of_enum i).
  - auto.
Qed.

Lemma loop_any_true p : loop_any p = true <-> exists i, p i = true.
Proof.
  unfold loop_any. rewrite existsb_exists. split.
  - intros (i & _ & Hi). eauto.
  - intros (i & Hi). exists i. split; [apply list_elem_of_In, (elem_of_enum i) | exact Hi].
Qed.

Definition array_default : ArrayAccess := mkArray (fun_to_vec (fun _ => default_access)).

Definition array_is_synchronizing (a : ArrayAccess) : bool :=
  loop_all (fun i => is_synchronizing (elems a !!! i)).

Definition array_is_serial (a b : ArrayAccess) : bool :=
  match op with
  | Or_t => loop_any (fun i => is_serial (elems a !!! i) (elems b !!! i))
  | And_t => loop_all (fun i => is_serial (elems a !!! i) (elems b !!! i))
  end.

Definition array_is_superset_of (this a : ArrayAccess) : bool :=
  loop_all (fun i => is_superset_of (elems this !!! i) (elems a !!! i)).

Definition array_eq (this other : ArrayAccess) : bool :=
  loop_all (fun i => access_eq (elems this !!! i) (elems other !!! i)).

Fixpoint format_elems (l : list A) : string :=
  match l with
  | [] => ""
  | [a] => format a
  | a :: l => format a +:+ ", " +:+ format_elems l
  end.

Definition array_format (acc : ArrayAccess) : string :=
  "{ " +:+ quoted (match op with And_t => "and" | Or_t => "or" end) +:+ " : [" +:+
  format_elems (vec_to_list (elems acc)) +:+ "] }".

#[export] Instance array_policy : AccessPolicy ArrayAccess := {
  default_access := array_default;
  is_synchronizing := array_is_synchronizing;
  is_serial := array_is_serial;
  is_superset_of := array_is_superset_of;
  access_eq := array_eq;
  format := array_format;
  valid_access := fun a => forall i, valid_access (elems a !!! i)
}.

#[export] Instance array_laws : PolicyLaws ArrayAccess.
Proof.
  constructor; simpl;
    unfold array_is_serial, array_is_superset_of, array_is_synchronizing, array_eq.
  - intros i. rewrite lookup_fun_to_vec. apply default_valid.
  - intros a b. assert (E : forall i, is_serial (elems a !!! i) (elems b !!! i)
      = is_serial (elems b !!! i) (elems a !!! i)) by (intros i; apply serial_sym).
    destruct op; apply eq_true_iff_eq.
    + rewrite !loop_all_true. setoid_rewrite E. reflexivity.
    + rewrite !loop_any_true. setoid_rewrite E. reflexivity.
  - intros a. apply loop_all_true. intros i. apply superset_refl.
  - intros a b c. rewrite !loop_all_true. intros H1 H2 i. eapply superset_trans; eauto.
  - intros a b c. rewrite loop_all_true. intros Hs. destruct op.
    + rewrite !loop_all_true. intros Hb i. eapply superset_serial; eauto.
    + rewrite !loop_any_true. intros [i Hi]. exists i. eapply superset_serial; eauto.
  - intros s u n Vs Vu Vn. rewrite loop_all_true. intros Hs. destruct op.
    + rewrite !loop_all_true. intros Hu i. eapply (sync_serial _ _ (elems n !!! i)); auto.
    + rewrite !loop_any_true. intros [i Hi]. exists i.
      eapply (sync_serial _ _ (elems n !!! i)); auto.
  - intros s u Vs Vu. rewrite !loop_all_true. intros Hs i. apply sync_superset; auto.
  - intros [a] [b]. rewrite loop_all_true. simpl. split.
    + intros Hab. f_equal. apply vec_eq. intros i. apply access_eq_spec, Hab.
    + intros E. injection E as ->. intros i. apply access_eq_spec. reflexivity.
Qed.
End Array.

Record CombineAccess (Acc1 Acc2 : Type) (op : Op) : Type :=
  mkCombine { first : Acc1; second : Acc2 }.
Arguments mkCombine {Acc1 Acc2 op} _ _.
Arguments first {Acc1 Acc2 op} _.
Arguments second {Acc1 Acc2 op} _.

Section Combine.
Context {Acc1 Acc2 : Type} `{PolicyLaws Acc1} `{PolicyLaws Acc2} {op : Op}.
Abbreviation CombineAccess := (CombineAccess Acc1 Acc2 op).

Definition combine_default : CombineAccess := mkCombine default_access default_access.
Definition combine_first (a : Acc1) : CombineAccess := mkCombine a default_access.

Definition combine_is_serial (a b : CombineAccess) : bool :=
  match op with
  | And_t => is_serial (first a) (first b) && is_serial (second a) (second b)
  | Or_t => is_serial (first a) (first b) || is_serial (second a) (second b)
  end.

Definition combine_is_synchronizing (a : CombineAccess) : bool :=
  is_synchronizing (first a) && is_synchronizing (second a).

Definition combine_is_superset_of (this a : CombineAccess) : bool :=
  is_superset_of (first this) (first a) && is_superset_of (second this) (second a).

Definition combine_eq (this other : CombineAccess) : bool :=
  access_eq (first this) (first other) && access_eq (second this) (second other).

Definition combine_format (acc : CombineAccess) : string :=
  "{ " +:+ quoted (match op with And_t => "and" | Or_t => "or" end) +:+ " : [ " +:+
  format (first acc) +:+ ", " +:+ format (second acc) +:+ " ] }".

#[export] Instance combine_policy : AccessPolicy CombineAccess := {
  default_access := combine_default;
  is_synchronizing := combine_is_synchronizing;
  is_serial := combine_is_serial;
  is_superset_of := combine_is_superset_of;
  access_eq := combine_eq;
  format := combine_format;
  valid_access := fun a => valid_access (first a) /\ valid_access (second a)
}.

#[export] Instance combine_laws : PolicyLaws CombineAccess.
Proof.
  constructor; simpl; unfold combine_is_serial, combine_is_superset_of,
    combine_is_synchronizing, combine_eq.
  - split; apply default_valid.
  - intros a b. rewrite (serial_sym (first a)), (serial_sym (second a)). reflexivity.
  - intros a. rewrite !superset_refl. reflexivity.
  - intros a b c. rewrite !andb_true_iff. intros [? ?] [? ?].
    split; eapply superset_trans; eauto.
  - intros a b c. rewrite andb_true_iff. intros [? ?]. destruct op.
    + rewrite !andb_true_iff. intros [? ?]. split; eapply superset_serial; eauto.
    + rewrite !orb_true_iff. intros [? | ?]; [left | right]; eapply superset_serial; eauto.
  - intros s u n [] [] []. rewrite andb_true_iff. intros [? ?]. destruct op.
    + rewrite !andb_true_iff. intros [? ?].
      split; [eapply (sync_serial _ _ (first n)) | eapply (sync_serial _ _ (second n))]; auto.
    + rewrite !orb_true_iff. intros [? | ?].
      * left. eapply (sync_serial _ _ (first n)); auto.
      * right. eapply (sync_serial _ _ (second n)); auto.
  - intros s u [] []. rewrite !andb_true_iff. intros [? ?]. split; apply sync_superset; auto.
  - intros [a1 a2] [b1 b2]. simpl. rewrite andb_true_iff, !access_eq_spec. split.
    + intros [-> ->]. reflexivity.
    + intros E. injection E. auto.
Qed.
End Combine.

(** ** FieldAccess *)

Definition FieldAccess (dimension : nat) : Type :=
  CombineAccess IOAccess (ArrayAccess AreaAccess dimension And_t) And_t.

#[export] Instance field_policy d : AccessPolicy (FieldAccess d) := combine_policy.
#[export] Instance field_laws d : PolicyLaws (FieldAccess d) := combine_laws.

(** An access to the boxes [areas] with the given mode. *)
Definition field_access {d} (mode : IOAccess) (areas : vec AreaAccess d) : FieldAccess d :=
  mkCombine mode (mkArray areas).

(** ** Properties *)

(** The boxes of two field accesses have a common point. *)
Definition boxes_intersect {d} (a b : vec AreaAccess d) : Prop :=
  forall i, exists x, area_begin (a !!! i) <= x < area_end (a !!! i) /\
                      area_begin (b !!! i) <= x < area_end (b !!! i).

Definition nonempty {d} (a : vec AreaAccess d) : Prop :=
  forall i, area_begin (a !!! i) < area_end (a !!! i).

(** C34 (field): two accesses to a field are serial exactly when their modes are
    incompatible and their boxes, both non-empty, overlap in every dimension. *)
Theorem field_serial_iff_overlap d (m1 m2 : IOAccess) (a b : vec AreaAccess d)
    (Ha : nonempty a) (Hb : nonempty b) :
  is_serial (field_access m1 a) (field_access m2 b) = true <->
  ~ (m1 = m2 /\ m1 <> write) /\ boxes_intersect a b.
Proof.
  change (is_serial (field_access m1 a) (field_access m2 b))
    with (io_is_serial m1 m2 && array_is_serial (op := And_t) (mkArray a) (mkArray b)).
  rewrite andb_true_iff. unfold array_is_serial. rewrite loop_all_true. simpl elems.
  assert (Hio : io_is_serial m1 m2 = true <-> ~ (m1 = m2 /\ m1 <> write)).
  { destruct m1, m2; vm_compute; split; intros H; try reflexivity; try discriminate;
      try (intros [E1 E2]; (discriminate E1 || apply E2, eq_refl));
      exfalso; apply H; (split; [reflexivity | discriminate]). }
  rewrite Hio. assert (Hbox : (forall i, is_serial (a !!! i) (b !!! i) = true) <-> boxes_intersect a b).
  { unfold boxes_intersect. split; intros H i.
    - specialize (H i). change (area_is_serial (a !!! i) (b !!! i) = true) in H.
      unfold area_is_serial in H. specialize (Ha i). specialize (Hb i).
      exists (Z.max (area_begin (a !!! i)) (area_begin (b !!! i))). lia.
    - destruct (H i) as (x & H1 & H2). change (area_is_serial (a !!! i) (b !!! i) = true).
      unfold area_is_serial. lia. }
  rewrite Hbox. reflexivity.
Qed.

(** (demote): an access demoted to a subset conflicts with nothing the wider
    access did not conflict with, under every policy; a synchronizing access
    contains every access and conflicts with every access that conflicts with
    anything at all. *)
Theorem demotion_sound {A} `{PolicyLaws A} (wide narrow other s : A)
    (Hsub : is_superset_of wide narrow = true) (Hser : is_serial other narrow = true)
    (Hs : is_synchronizing s = true) (Vs : valid_access s) (Vo : valid_access other)
    (Vn : valid_access narrow) :
  is_serial other wide = true /\ is_serial s other = true /\ is_superset_of s narrow = true.
Proof.
  rewrite (serial_sym other wide). split; [| split].
  - eapply superset_serial; [exact Hsub |]. rewrite serial_sym. exact Hser.
  - eapply sync_serial; eassumption.
  - apply sync_superset; assumption.
Qed.

Definition box (x0 x1 y0 y1 : Z) : vec AreaAccess 2 := [# mkArea x0 x1; mkArea y0 y1].

Lemma field_serial_iff_overlap_witness :
  nonempty (box 0 4 0 4) /\ nonempty (box 3 8 3 8) /\
  (~ (write = read /\ write <> write) /\ boxes_intersect (box 0 4 0 4) (box 3 8 3 8)).
Proof.
  assert (H1 : nonempty (box 0 4 0 4))
    by (intros i; inv_fin i; [reflexivity |]; intros i; inv_fin i; [reflexivity |];
        intros i; inv_fin i).
  assert (H2 : nonempty (box 3 8 3 8))
    by (intros i; inv_fin i; [reflexivity |]; intros i; inv_fin i; [reflexivity |];
        intros i; inv_fin i).
  split; [exact H1 |]. split; [exact H2 |].
  apply (field_serial_iff_overlap 2 write read _ _ H1 H2). vm_compute. reflexivity.
Defined.

Lemma demotion_sound_witness :
  is_serial (mkArea 5 9) (mkArea 0 10) = true /\
  is_serial area_default (mkArea 5 9) = true /\
  is_superset_of area_default (mkArea 4 6) = true.
Proof.
  apply (demotion_sound (mkArea 0 10) (mkArea 4 6) (mkArea 5 9) area_default);
    try reflexivity; cbn [valid_access area_policy]; unfold area_valid, is_word, area_default, size_max;
    cbn; lia.
Defined.

Example io_format_write : String.length (format write) = 24%nat.
Proof. reflexivity. Qed.

End Access.
