(* ===== verification/Resource.v ===== *)
(** Resources of [redGrapes/resource/]: the type-erased [ResourceAccess] over a
    family of access policies, resource identities and their mapping to workers.
    [AccessOps] and [AccessLaws] are what the task graph requires of an access; the type-erased
    accesses discharge them. *)

From Stdlib Require Import ZArith Lia Bool Eqdep_dec.
From stdpp Require Import base list finite vector strings pretty.
From S2P Require Import Prelude Access.

Open Scope Z_scope.
Open Scope word_scope.

(** ** Resources and their identities *)

Module Resource.
Import Access.

(** [ResourceBase]: [r_ptr] is the object's address, which [shared_ptr] compares. *)
Record ResourceBase : Type := mkResource { r_ptr : nat; r_id : Z; r_scope_level : Z }.

#[export] Instance ResourceBase_eq_dec : EqDecision ResourceBase.
Proof. solve_decision. Defined.

Definition same_object (a b : ResourceBase) : bool := (r_ptr a =? r_ptr b)%nat.

(** [TaskFreeCtx::create_resource_uid]: the id and the next counter value. *)
Definition create_resource_uid (counter : Z) : Z * Z := (counter, u16 (counter + 1)).

(** [ModuloMapping] *)
Definition map_resource_to_worker (n_workers resourceId : Z) : res Z :=
  if n_workers =? 0 then Err Undefined else Ok (u8 (resourceId mod n_workers)).

(** ** What the task graph needs to know about an access *)

Class AccessOps (RA : Type) : Type := {
  get_resource : RA -> ResourceBase;
  ra_synchronizing : RA -> bool;
  ra_serial : RA -> RA -> bool;
  ra_superset : RA -> RA -> bool;
  ra_eqb : RA -> RA -> bool;
  ra_format : RA -> string;
  ra_valid : RA -> Prop
}.

Class AccessLaws (RA : Type) `{AccessOps RA} : Prop := {
  ra_serial_sym : forall a b, ra_serial a b = ra_serial b a;
  ra_serial_resource : forall a b,
    ra_serial a b = true -> same_object (get_resource a) (get_resource b) = true;
  ra_superset_resource : forall a b,
    ra_superset a b = true -> same_object (get_resource a) (get_resource b) = true;
  ra_superset_refl : forall a, ra_superset a a = true;
  ra_superset_trans : forall a b c,
    ra_superset a b = true -> ra_superset b c = true -> ra_superset a c = true;
  ra_superset_serial : forall a b c,
    ra_superset a b = true -> ra_serial b c = true -> ra_serial a c = true;
  ra_sync_serial : forall s u n, ra_valid s -> ra_valid u -> ra_valid n ->
    same_object (get_resource s) (get_resource u) = true ->
    ra_synchronizing s = true -> ra_serial u n = true -> ra_serial s u = true;
  ra_eqb_resource : forall a b,
    ra_eqb a b = true -> same_object (get_resource a) (get_resource b) = true
}.

(** ** Type erasure *)

Section Erasure.
Context {TI : Type} `{EqDecision TI} (policy : TI -> Type) `{forall t, AccessPolicy (policy t)}.
(** the policy every resource was created with *)
Context (restype : nat -> TI).

(** [AccessBase] and the [Access] of [Resource<AccessPolicy>] *)
Record ResourceAccess : Type := mkRA {
  access_type : TI;
  resource : ResourceBase;
  access_policy : policy access_type
}.

Definition cast {t u : TI} (E : t = u) (p : policy t) : policy u := eq_rect t policy p u E.

Definition is_same_resource (a b : ResourceAccess) : bool :=
  if decide (access_type a = access_type b)
  then same_object (resource a) (resource b) else false.

Definition erased_is_serial (a b : ResourceAccess) : bool :=
  match decide (access_type a = access_type b) with
  | left E => same_object (resource a) (resource b)
              && is_serial (cast E (access_policy a)) (access_policy b)
  | right _ => false
  end.

Definition erased_is_superset_of (a b : ResourceAccess) : bool :=
  match decide (access_type a = access_type b) with
  | left E => same_object (resource a) (resource b)
              && is_superset_of (cast E (access_policy a)) (access_policy b)
  | right _ => false
  end.

Definition erased_eq (a b : ResourceAccess) : bool :=
  match decide (access_type a = access_type b) with
  | left E => same_object (resource a) (resource b)
              && access_eq (cast E (access_policy a)) (access_policy b)
  | right _ => false
  end.

Definition erased_is_synchronizing (a : ResourceAccess) : bool := is_synchronizing (access_policy a).

Definition mode_format (a : ResourceAccess) : string := format (access_policy a).
Definition scope_level (a : ResourceAccess) : Z := r_scope_level (resource a).
Definition resource_id (a : ResourceAccess) : Z := r_id (resource a).

Definition erased_format (a : ResourceAccess) : string :=
  "{ " +:+ quoted "resourceID" +:+ " : " +:+ pretty (resource_id a) +:+ ", " +:+
  quoted "scopeLevel" +:+ " : " +:+ pretty (scope_level a) +:+ ", " +:+
  quoted "mode" +:+ " : " +:+ mode_format a +:+ " }".

(** [Resource<AccessPolicy>::make_access] *)
Definition make_access {t : TI} (base : ResourceBase) (pol : policy t) : ResourceAccess :=
  mkRA t base pol.

(** What [make_access] builds from values the C++ types represent. *)
Definition erased_valid (a : ResourceAccess) : Prop :=
  access_type a = restype (r_ptr (resource a)) /\ valid_access (access_policy a).

#[export] Instance erased_ops : AccessOps ResourceAccess := {
  get_resource := resource;
  ra_synchronizing := erased_is_synchronizing;
  ra_serial := erased_is_serial;
  ra_superset := erased_is_superset_of;
  ra_eqb := erased_eq;
  ra_format := erased_format;
  ra_valid := erased_valid
}.

Lemma cast_refl t (E : t = t) (p : policy t) : cast E p = p.
Proof.
  assert (E = eq_refl) as -> by (apply UIP_dec; intros x y; apply decide, _). reflexivity.
Qed.

Lemma same_object_true a b : same_object a b = true <-> r_ptr a = r_ptr b.
Proof. apply Nat.eqb_eq. Qed.

(** Compares two accesses of the same type; those of different types never relate. *)
Ltac same_type :=
  repeat match goal with
    | a : ResourceAccess |- _ => destruct a as [? ? ?]
    end; simpl in *;
  repeat match goal with
    | H : context [decide (?t = ?u)] |- _ => destruct (decide (t = u)); [subst | try discriminate]
    | |- context [decide (?t = ?u)] => destruct (decide (t = u)); [subst | try discriminate]
    end;
  repeat rewrite cast_refl in *; repeat rewrite andb_true_iff in *;
  repeat rewrite same_object_true in *.

#[export] Instance erased_laws `{forall t, PolicyLaws (policy t)} : AccessLaws ResourceAccess.
Proof.
  constructor; simpl;
    unfold erased_is_serial, erased_is_superset_of, erased_eq, erased_is_synchronizing, erased_valid.
  - intros [t1 r1 p1] [t2 r2 p2]. simpl.
    destruct (decide (t1 = t2)) as [<- | Hne]; [| destruct (decide (t2 = t1)); congruence].
    destruct (decide (t1 = t1)); [| congruence]. rewrite !cast_refl, serial_sym. f_equal.
    unfold same_object. apply Nat.eqb_sym.
  - intros a b Hs. same_type. tauto.
  - intros a b Hs. same_type. tauto.
  - intros a. same_type; [split; [reflexivity | apply superset_refl] | congruence].
  - intros a b c H1 H2. same_type.
    destruct H1 as [E1 H1], H2 as [E2 H2]. split; [congruence | eapply superset_trans; eassumption].
  - intros a b c H1 H2. same_type.
    destruct H1 as [E1 H1], H2 as [E2 H2]. split; [congruence | eapply superset_serial; eassumption].
  - intros s u n Vs Vu Vn Hr Hs Hu. same_type; destruct Vs as [Ts Vs], Vu as [Tu Vu], Vn as [Tn Vn].
    + split; [exact Hr |]. eapply sync_serial; try eassumption. apply Hu.
    + exfalso. congruence.
  - intros a b Hs. same_type. tauto.
Qed.
End Erasure.

Arguments mkRA {TI policy} _ _ _.
Arguments access_type {TI policy} _.
Arguments resource {TI policy} _.
Arguments access_policy {TI policy} _.
Arguments make_access {TI policy t} _ _.
End Resource.
