(* ===== verification/Guards.v ===== *)
(** The typed resources of [redGrapes/resource/ioresource.hpp]: guards that pair a
    shared object with the access a task takes to it ([FieldGuards] has those of
    fields).  The accesses they convert to are the type-erased ones of [Resource],
    over the two policies the library's resources use. *)

From Stdlib Require Import ZArith Lia Bool.
From stdpp Require Import base list finite vector strings.
From S2P Require Import Prelude Access Resource.

Open Scope Z_scope.
Open Scope word_scope.

Module Guards.
Import Access Resource.

(** The policies of the library's resources. *)
Inductive policy_index : Type := IO_policy | Field_policy (dim : nat).

#[export] Instance policy_index_eq_dec : EqDecision policy_index.
Proof. solve_decision. Defined.

Definition policy (t : policy_index) : Type :=
  match t with IO_policy => IOAccess | Field_policy d => FieldAccess d end.

#[export] Instance policy_access t : AccessPolicy (policy t) :=
  match t return AccessPolicy (policy t) with
  | IO_policy => io_policy
  | Field_policy d => field_policy d
  end.

#[export] Instance policy_laws t : PolicyLaws (policy t) :=
  match t return PolicyLaws (policy t) with
  | IO_policy => io_laws
  | Field_policy d => field_laws d
  end.

Abbreviation RA := (ResourceAccess policy).

(** [SharedResourceObject]: the resource and the object it stands for. *)
Record SharedResourceObject (T : Type) : Type := mkShared { base : ResourceBase; obj : T }.
Arguments mkShared {T} _ _.
Arguments base {T} _.
Arguments obj {T} _.

(** ** IOResource *)

Module IO.
Section IO.
Context {T : Type}.

(** [ReadGuard] and [WriteGuard] hold the same data; a [WriteGuard] converts to
    a [ReadGuard] of the same resource. *)
Definition ReadGuard : Type := SharedResourceObject T.
Definition WriteGuard : Type := SharedResourceObject T.

Definition read (g : ReadGuard) : ReadGuard := g.
Definition write (g : WriteGuard) : WriteGuard := g.
Definition get (g : ReadGuard) : T := obj g.

(** [operator ResourceAccess] *)
Definition read_access (g : ReadGuard) : RA := @make_access _ policy IO_policy (base g) Access.read.
Definition write_access (g : WriteGuard) : RA := @make_access _ policy IO_policy (base g) Access.write.

(** [IOResource(std::shared_ptr<T> const&)]: a resource with an unused id. *)
Definition make_io (ptr : nat) (counter scope : Z) (o : T) : WriteGuard * Z :=
  let '(id, counter) := create_resource_uid counter in
  (mkShared (mkResource ptr id scope) o, counter).

(** [IOResource(IOResource<U> const&, std::shared_ptr<T> const&)]: another object
    under the same resource. *)
Definition share_io {U} (res : SharedResourceObject U) (o : T) : WriteGuard := mkShared (base res) o.
End IO.
End IO.

End Guards.
