(* ===== verification/FieldGuards.v ===== *)
(** The fields of [redGrapes/resource/fieldresource.hpp]: guards of a container
    that admit the indices of an area, and their sub-areas. *)

From Stdlib Require Import ZArith Lia Bool.
From stdpp Require Import base list finite vector strings.
From S2P Require Import Prelude Access Resource Guards.

Open Scope Z_scope.
Open Scope word_scope.

Module FieldGuards.
Import Access Resource Guards.

(** [trait::Field<Container>]: [get] returns the element a reference denotes. *)
Class Field (Container Item : Type) (dim : nat) : Type :=
  field_get : Container -> vec Z dim -> res Item.

(** [v[i]]; an index outside the container is undefined behaviour. *)
Definition subscript {A} (v : list A) (i : Z) : res A :=
  if 0 <=? i then deref (v !! Z.to_nat i) else Err Undefined.

(** [Field<std::vector<T>>] and [Field<std::array<T, N>>] *)
#[export] Instance vector_field {A} : Field (list A) A 1 := fun v index =>
  subscript v (index !!! 0%fin).

(** [Field<std::array<std::array<T, Nx>, Ny>>] *)
#[export] Instance array2_field {A} : Field (list (list A)) A 2 := fun array index =>
  row ← subscript array (index !!! 1%fin); subscript row (index !!! 0%fin).

Section FieldGuard.
Context {Container Item : Type} {dim : nat} `{Field Container Item dim}.

(** [m_area] has the template's default operation, [Or_t]. *)
Record AreaGuard : Type := mkGuard {
  shared : SharedResourceObject Container;
  m_area : ArrayAccess AreaAccess dim Or_t
}.

(** [m_area] starts as the default-constructed areas, the whole index range. *)
Definition make_guard (s : SharedResourceObject Container) : AreaGuard :=
  mkGuard s default_access.

Definition contains (g : AreaGuard) (index : vec Z dim) : bool :=
  loop_all (fun d => negb ((index !!! d <? area_begin (elems (m_area g) !!! d))
                           || (area_end (elems (m_area g) !!! d) <=? index !!! d))).

Definition get (g : AreaGuard) (index : vec Z dim) : res Item :=
  if negb (contains g index) then Err (Throw "invalid area access")
  else field_get (obj (shared g)) index.

Definition make_area (g : AreaGuard) (b e : vec Z dim) : res (ArrayAccess AreaAccess dim Or_t) :=
  let sub_area := mkArray (vzip_with mkArea b e) in
  if negb (is_superset_of (m_area g) sub_area) then Err (Throw "invalid sub area")
  else Ok sub_area.

(** [AreaGuard(other, begin, end)] *)
Definition sub_guard (g : AreaGuard) (b e : vec Z dim) : res AreaGuard :=
  a ← make_area g b e; Ok (mkGuard (shared g) a).

(** [end[d]++] in every dimension *)
Definition end_of (pos : vec Z dim) : vec Z dim := vmap (fun x => u64 (x + 1)) pos.

(** A [ReadGuard] has no members beyond those of its [AreaGuard], nor has a
    [WriteGuard]; they differ in what they let a task do. *)
Definition ReadGuard : Type := AreaGuard.
Definition WriteGuard : Type := ReadGuard.

Definition read (g : ReadGuard) : ReadGuard := g.
Definition area (g : ReadGuard) (b e : vec Z dim) : res ReadGuard := sub_guard g b e.
Definition at_pos (g : ReadGuard) (pos : vec Z dim) : res ReadGuard := sub_guard g pos (end_of pos).
Definition index (g : ReadGuard) (i : vec Z dim) : res Item := get g i.

Definition write (g : WriteGuard) : WriteGuard := g.
Definition write_area (g : WriteGuard) (b e : vec Z dim) : res WriteGuard := sub_guard g b e.
Definition write_at (g : WriteGuard) (pos : vec Z dim) : res WriteGuard := sub_guard g pos (end_of pos).
Definition write_index (g : WriteGuard) (i : vec Z dim) : res Item := get g i.

(** An [ArrayAccess] of one operation as one of the other, through [std::array]. *)
Definition as_and (a : ArrayAccess AreaAccess dim Or_t) : ArrayAccess AreaAccess dim And_t :=
  mkArray (elems a).

Definition guard_access (mode : IOAccess) (g : AreaGuard) : RA :=
  @make_access _ policy (Field_policy dim) (base (shared g)) (mkCombine mode (as_and (m_area g))).

(** [ReadGuard::operator ResourceAccess] and [WriteGuard::operator ResourceAccess] *)
Definition read_access : ReadGuard -> RA := guard_access Access.read.
Definition write_access : WriteGuard -> RA := guard_access Access.write.

(** [FieldResource(Container * c)] *)
Definition make_field (ptr : nat) (counter scope : Z) (o : Container) : WriteGuard * Z :=
  let '(id, counter) := create_resource_uid counter in
  (make_guard (mkShared (mkResource ptr id scope) o), counter).

(** [FieldResource(FieldResource<U> const& res, Container * c)]: another container
    under the same resource, with the whole index range. *)
Definition share_field {U} (res : SharedResourceObject U) (o : Container) : WriteGuard :=
  make_guard (mkShared (base res) o).

(** ** Properties *)

Lemma contains_true g index :
  contains g index = true <->
  forall d, area_begin (elems (m_area g) !!! d) <= index !!! d < area_end (elems (m_area g) !!! d).
Proof. unfold contains. rewrite loop_all_true. split; intros Hc d; specialize (Hc d); lia. Qed.

Lemma vzip_lookup (b e : vec Z dim) d : vzip_with mkArea b e !!! d = mkArea (b !!! d) (e !!! d).
Proof. apply vlookup_zip_with. Qed.

(** Every index of the sub-area is inside the guard's area. *)
Definition within (g : AreaGuard) (b e : vec Z dim) : Prop :=
  forall d, area_begin (elems (m_area g) !!! d) <= b !!! d /\
            e !!! d <= area_end (elems (m_area g) !!! d).

Lemma sub_area_superset g b e :
  is_superset_of (m_area g) (mkArray (vzip_with mkArea b e)) = true <-> within g b e.
Proof.
  change (array_is_superset_of (m_area g) (mkArray (vzip_with mkArea b e)) = true <-> within g b e).
  unfold array_is_superset_of, within. rewrite loop_all_true. simpl elems.
  split; intros Hs d; specialize (Hs d); revert Hs; rewrite vzip_lookup;
    change (is_superset_of (AccessPolicy := area_policy)) with area_is_superset_of;
    unfold area_is_superset_of; simpl; lia.
Qed.

(** (area): narrowing a guard to a sub-area succeeds exactly when the
    sub-area lies inside the guard's; the narrowed guard then admits exactly the
    indices of the sub-area, all admitted before, and its accesses are contained
    in those of the guard, so a child task may take them.  Otherwise it throws. *)
Theorem area_correct (g : AreaGuard) (b e : vec Z dim) :
  match area g b e with
  | Ok g' =>
      within g b e /\ shared g' = shared g /\
      (forall index, contains g' index = true <-> forall d, b !!! d <= index !!! d < e !!! d) /\
      (forall index, contains g' index = true -> contains g index = true) /\
      (forall mode, erased_is_superset_of policy (guard_access mode g) (guard_access mode g') = true)
  | Err x => x = Throw "invalid sub area" /\ ~ within g b e
  end.
Proof.
  unfold area, sub_guard, make_area.
  pose proof (sub_area_superset g b e) as Hs.
  destruct (is_superset_of (m_area g) _) eqn:E; cbn [negb mbind res_bind].
  - pose proof (proj1 Hs eq_refl) as Hw. split; [exact Hw |]. split; [reflexivity |].
    assert (Hc : forall index, contains (mkGuard (shared g) (mkArray (vzip_with mkArea b e))) index = true
      <-> forall d, b !!! d <= index !!! d < e !!! d).
    { intros index. rewrite contains_true. simpl elems.
      split; intros Hi d; specialize (Hi d); rewrite vzip_lookup in *; exact Hi. }
    split; [exact Hc |]. split.
    + intros index Hi. rewrite Hc in Hi. rewrite contains_true. intros d.
      specialize (Hi d). specialize (Hw d). lia.
    + intros mode. unfold guard_access, make_access.
      unfold erased_is_superset_of. cbn [access_type resource access_policy].
      rewrite decide_True_pi with (HP := eq_refl). cbn [cast eq_rect shared].
      unfold same_object. rewrite Nat.eqb_refl. simpl andb.
      change (io_is_superset_of mode mode
              && array_is_superset_of (m_area g) (mkArray (vzip_with mkArea b e)) = true).
      apply andb_true_iff. split; [destruct mode; reflexivity | exact E].
  - split; [reflexivity |]. intros Hw. apply Hs in Hw. discriminate Hw.
Qed.

(** (at): [at(pos)] of a position the guard admits, below the largest index,
    admits exactly that position. *)
Theorem at_correct (g : AreaGuard) (pos : vec Z dim)
    (Hp : contains g pos = true) (Hw : forall d, 0 <= pos !!! d < size_max)
    (Hv : valid_access (m_area g)) :
  exists g', at_pos g pos = Ok g' /\ forall index, contains g' index = true <-> index = pos.
Proof.
  unfold at_pos, end_of. set (e := vmap (fun x => u64 (x + 1)) pos).
  assert (He : forall d, e !!! d = pos !!! d + 1).
  { intros d. unfold e. rewrite vlookup_map, wrap_small; [reflexivity |].
    specialize (Hw d). unfold size_max in Hw. lia. }
  rewrite contains_true in Hp. pose proof (area_correct g pos e) as Ha.
  unfold area in Ha. destruct (sub_guard g pos e) as [g' | x].
  - destruct Ha as (_ & _ & Hc & _). exists g'. split; [reflexivity |].
    intros index. rewrite Hc. split.
    + intros Hi. apply vec_eq. intros d. specialize (Hi d). rewrite He in Hi. lia.
    + intros -> d. rewrite He. lia.
  - destruct Ha as [_ Hn]. exfalso. apply Hn. intros d. rewrite He. specialize (Hp d). lia.
Qed.
End FieldGuard.

Arguments AreaGuard Container dim : clear implicits.

(** A field of six values and the guard of its indices 2 and 3. *)
Definition sample_field : AreaGuard (list Z) 1 :=
  make_guard (mkShared (mkResource 0 0 0) [10; 11; 12; 13; 14; 15]).

Example sample_area_get :
  (g ← area sample_field [# 2] [# 4]; get g [# 3]) = Ok 13 /\
  (g ← area sample_field [# 2] [# 4]; get g [# 4]) = Err (Throw "invalid area access") /\
  (g ← area sample_field [# 2] [# 4]; area g [# 1] [# 3]) = Err (Throw "invalid sub area") /\
  get sample_field [# 9] = Err Undefined.
Proof. vm_compute. auto. Qed.

Lemma at_correct_witness :
  contains sample_field [# 3] = true /\
  exists g', at_pos sample_field [# 3] = Ok g' /\
    forall index, contains g' index = true <-> index = [# 3].
Proof.
  split; [vm_compute; reflexivity |]. apply (at_correct sample_field).
  - vm_compute. reflexivity.
  - intros d. inv_fin d; [vm_compute; split; congruence | intros d; inv_fin d].
  - intros d. inv_fin d; [vm_compute; repeat split; congruence | intros d; inv_fin d].
Defined.

End FieldGuards.
