(* ===== verification/Entries.v ===== *)
(** The content of a [ChunkedList] as its clients see it: the values newest
    first, each under a key that identifies its position for [remove] and for
    iteration from an iterator.  Keys are never reused. *)

From Stdlib Require Import ZArith Lia Bool Sorted.
From stdpp Require Import base list.
From S2P Require Import Prelude.

Open Scope nat_scope.

Module Entries.

Record Entries (T : Type) : Type := mkEntries {
  content : list (nat * T);
  next_key : nat
}.
Arguments mkEntries {T} _ _.
Arguments content {T} _.
Arguments next_key {T} _.

Section Ops.
Context {T : Type}.
Implicit Types (l : Entries T) (k : nat) (x : T).

Definition empty : Entries T := mkEntries [] 0.

(** [push]: the position the returned iterator addresses and the new list. *)
Definition push x l : nat * Entries T :=
  (next_key l, mkEntries ((next_key l, x) :: content l) (S (next_key l))).

(** [remove(it)] for an iterator at position [k] *)
Definition remove k l : Entries T :=
  mkEntries (List.filter (fun e => negb (fst e =? k)) (content l)) (next_key l).

(** [erase(x)], with the test the element type's [operator==] makes *)
Definition erase (eqb : T -> T -> bool) x l : Entries T :=
  mkEntries (List.filter (fun e => negb (eqb (snd e) x)) (content l)) (next_key l).

(** What a loop from [rbegin()] to [rend()] visits. *)
Definition values l : list T := (content l).*2.

(** What a loop visits that starts one past an iterator at position [k]. *)
Definition older k l : list (nat * T) := List.filter (fun e => fst e <? k) (content l).

(** Keys decrease along the list. *)
Definition wf l : Prop :=
  StronglySorted (fun a b => b < a) (content l).*1 /\ Forall (fun k => k < next_key l) (content l).*1.

Lemma wf_empty : wf empty.
Proof. split; constructor. Qed.

Lemma Forall_fst_filter (P : nat -> Prop) (q : nat * T -> bool) c :
  Forall P c.*1 -> Forall P (List.filter q c).*1.
Proof.
  induction c as [| e c IH]; simpl; intros H; [constructor |].
  inversion H; subst. destruct (q e); simpl; [constructor |]; auto.
Qed.

Lemma Sorted_fst_filter (q : nat * T -> bool) c :
  StronglySorted (fun a b => b < a) c.*1 -> StronglySorted (fun a b => b < a) (List.filter q c).*1.
Proof.
  induction c as [| e c IH]; simpl; intros H; [constructor |].
  inversion H; subst. destruct (q e); simpl; [| auto].
  constructor; [auto |]. apply Forall_fst_filter. assumption.
Qed.

Lemma wf_push x l : wf l -> wf (snd (push x l)).
Proof.
  intros [Hs Hf]. split; simpl.
  - constructor; [exact Hs | exact Hf].
  - constructor; [lia |]. eapply Forall_impl; [exact Hf |]. intros k Hk. simpl in Hk. lia.
Qed.

Lemma wf_remove k l : wf l -> wf (remove k l).
Proof. intros [Hs Hf]. split; simpl; [apply Sorted_fst_filter | apply Forall_fst_filter]; assumption. Qed.

Lemma wf_erase eqb x l : wf l -> wf (erase eqb x l).
Proof. intros [Hs Hf]. split; simpl; [apply Sorted_fst_filter | apply Forall_fst_filter]; assumption. Qed.

Lemma elem_of_older k l j x :
  (j, x) ∈ older k l <-> (j, x) ∈ content l /\ j < k.
Proof.
  unfold older. rewrite !list_elem_of_In, filter_In. simpl. rewrite Nat.ltb_lt. reflexivity.
Qed.

Lemma elem_of_remove k l j x :
  (j, x) ∈ content (remove k l) <-> (j, x) ∈ content l /\ j <> k.
Proof.
  simpl. rewrite !list_elem_of_In, filter_In. simpl.
  rewrite negb_true_iff, Nat.eqb_neq. reflexivity.
Qed.

Lemma content_key_lt l k x : wf l -> (k, x) ∈ content l -> k < next_key l.
Proof.
  intros [_ Hf] Hin. rewrite Forall_forall in Hf. apply Hf.
  apply list_elem_of_fmap. exists (k, x). auto.
Qed.

Lemma content_key_inj l k x y :
  wf l -> (k, x) ∈ content l -> (k, y) ∈ content l -> x = y.
Proof.
  intros [Hs _]. induction (content l) as [| [j z] c IH]; intros Hx Hy; [inversion Hx |].
  simpl in Hs. inversion Hs as [| ? ? Hs' Hf]; subst. rewrite Forall_forall in Hf.
  assert (Hnot : forall v, (j, v) ∈ c -> False).
  { intros v Hv. assert (Hj : j ∈ c.*1) by (apply list_elem_of_fmap; exists (j, v); auto).
    specialize (Hf j Hj). simpl in Hf. lia. }
  apply elem_of_cons in Hx as [Hx | Hx]; apply elem_of_cons in Hy as [Hy | Hy].
  - congruence.
  - injection Hx as -> ->. exfalso. eauto.
  - injection Hy as -> ->. exfalso. eauto.
  - auto.
Qed.

(** Once sorted, the entries older than a position are a suffix. *)
Lemma older_suffix l k x pre post :
  wf l -> content l = pre ++ (k, x) :: post -> older k l = post.
Proof.
  intros [Hs _] E. unfold older. rewrite E in *. clear E. rewrite fmap_app in Hs. simpl in Hs.
  rewrite List.filter_app. simpl. rewrite Nat.ltb_irrefl.
  assert (Hpre : List.filter (fun e => fst e <? k) pre = []).
  { induction pre as [| [j y] pre IH]; [reflexivity |]. simpl in *.
    inversion Hs as [| ? ? Hs' Hf]; subst. rewrite Forall_forall in Hf.
    assert (Hk : k < j) by (apply Hf; apply elem_of_app; right; left).
    replace (j <? k) with false by (symmetry; apply Nat.ltb_ge; lia). apply IH. exact Hs'. }
  rewrite Hpre. simpl. clear Hpre.
  assert (Hs2 : StronglySorted (fun a b => b < a) (k :: post.*1)).
  { clear -Hs. induction pre as [| e pre IH]; [exact Hs |]. simpl in Hs. inversion Hs; auto. }
  inversion Hs2 as [| ? ? _ Hf]; subst. clear -Hf.
  induction post as [| [j y] post IH]; [reflexivity |]. simpl in *. inversion Hf; subst.
  replace (j <? k) with true by (symmetry; apply Nat.ltb_lt; lia). f_equal. auto.
Qed.
End Ops.
End Entries.
