(* ===== verification/ResourceUser.v ===== *)
(** [redGrapes/resource/resource_user.hpp] and [task/property/resource.hpp]: the
    accesses of a task, the resources it uses, the conflict and containment tests
    of two tasks, and the patches a running task applies to its own accesses.
    Lists are kept newest first, the order in which the code iterates them. *)

From Stdlib Require Import ZArith Lia Bool.
From stdpp Require Import base list strings.
From S2P Require Import Prelude Access Resource Guards.

Open Scope Z_scope.

Module ResourceUser.
Import Resource.

(** [ResourceUsageEntry]: [user_entry] is the position of the task in the users
    of the resource, [None] for [rend()]. *)
Record ResourceUsageEntry : Type := mkUsage {
  ue_resource : ResourceBase;
  user_entry : option nat
}.

(** [operator==] of [ResourceUsageEntry] *)
Definition usage_eqb (a b : ResourceUsageEntry) : bool := same_object (ue_resource a) (ue_resource b).

Section ResourceUser.
Context {RA : Type} `{AccessOps RA}.
(** [ResourceAccess::scope_level] *)
Definition ra_scope (ra : RA) : Z := r_scope_level (get_resource ra).

Record ResourceUser : Type := mkUser {
  access_list : list RA;
  unique_resources : list ResourceUsageEntry;
  scope_level : Z
}.

Definition new_user (scope_depth : Z) : ResourceUser := mkUser [] [] (wrap 8 scope_depth).

(** [ResourceUser(ResourceUser const&, WorkerId)]: the copy constructor of the
    lists leaves them empty. *)
Definition copy_user (other : ResourceUser) : ResourceUser := mkUser [] [] (scope_level other).

Definition push_access (ra : RA) (u : ResourceUser) : ResourceUser :=
  mkUser (ra :: access_list u) (unique_resources u) (scope_level u).

Definition push_unique (e : ResourceUsageEntry) (u : ResourceUser) : ResourceUser :=
  mkUser (access_list u) (e :: unique_resources u) (scope_level u).

Definition erase_unique (e : ResourceUsageEntry) (u : ResourceUser) : ResourceUser :=
  mkUser (access_list u) (List.filter (fun x => negb (usage_eqb x e)) (unique_resources u))
    (scope_level u).

Definition add_resource_access (ra : RA) (u : ResourceUser) : ResourceUser :=
  let u := push_access ra u in
  push_unique (mkUsage (get_resource ra) None) u.

Definition rm_resource_access (ra : RA) (u : ResourceUser) : ResourceUser :=
  mkUser (List.filter (fun x => negb (ra_eqb x ra)) (access_list u)) (unique_resources u)
    (scope_level u).

(** [ResourceUser(std::initializer_list<ResourceAccess>, ...)] *)
Definition make_user (list : list RA) (scope_depth : Z) : ResourceUser :=
  fold_left (fun u ra => add_resource_access ra u) list (new_user scope_depth).

(** The loop of [build_unique_resource_list]. *)
Definition build_step (u : ResourceUser) (ra : RA) : ResourceUser :=
  let e := mkUsage (get_resource ra) None in push_unique e (erase_unique e u).

Definition build_unique_resource_list (u : ResourceUser) : ResourceUser :=
  fold_left build_step (access_list u) u.

Definition has_sync_access (r : ResourceBase) (u : ResourceUser) : bool :=
  existsb (fun ra => same_object (get_resource ra) r && ra_synchronizing ra) (access_list u).

(** [this->is_superset_of(a)] *)
Definition is_superset_of (this a : ResourceUser) : bool :=
  forallb (fun ra =>
    let found := existsb (fun r => ra_superset r ra) (access_list this) in
    negb (negb found && (ra_scope ra <=? scope_level this))) (access_list a).

Definition is_serial (a b : ResourceUser) : bool :=
  existsb (fun ra => existsb (fun rb => ra_serial ra rb) (access_list b)) (access_list a).

Fixpoint format_list (l : list RA) : string :=
  match l with
  | [] => ""
  | [ra] => ra_format ra
  | ra :: l => ra_format ra +:+ "," +:+ format_list l
  end.

Definition format_user (r : ResourceUser) : string := "[" +:+ format_list (access_list r) +:+ "]".

(** ** [ResourceProperty] *)

(** [Builder::resources] *)
Definition builder_resources (list : list RA) (u : ResourceUser) : ResourceUser :=
  build_unique_resource_list (fold_left (fun u ra => push_access ra u) list u).

(** [Builder::add_resource] *)
Definition builder_add_resource (ra : RA) (u : ResourceUser) : ResourceUser :=
  add_resource_access ra u.

Inductive DiffType : Type := ADD | REMOVE.

(** [Patch::diff], in the order the operations were recorded. *)
Definition Patch : Type := list (DiffType * RA).

Definition add_resources (list : list RA) (p : Patch) : Patch := p ++ ((ADD,.) <$> list).
Definition remove_resources (list : list RA) (p : Patch) : Patch := p ++ ((REMOVE,.) <$> list).
Definition patch_append (p other : Patch) : Patch := p ++ other.

Definition patch_step (u : ResourceUser) (x : DiffType * RA) : ResourceUser :=
  match fst x with
  | ADD => add_resource_access (snd x) u
  | REMOVE => rm_resource_access (snd x) u
  end.

(** [apply_patch]: the task afterwards, and the exception if there is one. *)
Definition apply_patch (patch : Patch) (this : ResourceUser) : ResourceUser * option error :=
  let before := copy_user this in
  let this := fold_left patch_step patch this in
  if negb (is_superset_of before this)
  then (this, Some (Throw "redGrapes: ResourceUserPolicy: updated access list is no subset!"))
  else (this, None).

(** ** Facts *)

Lemma is_serial_iff a b :
  is_serial a b = true <->
  exists ra rb, ra ∈ access_list a /\ rb ∈ access_list b /\ ra_serial ra rb = true.
Proof.
  unfold is_serial. rewrite existsb_exists. setoid_rewrite existsb_exists.
  split.
  - intros (ra & Ha & rb & Hb & Hs). exists ra, rb. rewrite !list_elem_of_In. auto.
  - intros (ra & rb & Ha & Hb & Hs). rewrite list_elem_of_In in Ha, Hb. eauto 10.
Qed.

Lemma has_sync_access_iff r u :
  has_sync_access r u = true <->
  exists ra, ra ∈ access_list u /\ same_object (get_resource ra) r = true /\
    ra_synchronizing ra = true.
Proof.
  unfold has_sync_access. rewrite existsb_exists. split.
  - intros (ra & Ha & Hs). apply andb_true_iff in Hs. exists ra. rewrite list_elem_of_In. auto.
  - intros (ra & Ha & Hr & Hs). rewrite list_elem_of_In in Ha. exists ra.
    rewrite andb_true_iff. auto.
Qed.

Lemma is_superset_of_iff this a :
  is_superset_of this a = true <->
  forall ra, ra ∈ access_list a -> ra_scope ra <= scope_level this ->
    exists r, r ∈ access_list this /\ ra_superset r ra = true.
Proof.
  unfold is_superset_of. rewrite forallb_forall. split.
  - intros Hall ra Ha Hs. rewrite list_elem_of_In in Ha. specialize (Hall ra Ha).
    apply negb_true_iff, andb_false_iff in Hall as [Hf | Hf]; [| lia].
    apply negb_false_iff, existsb_exists in Hf as (r & Hr & Hsup).
    exists r. rewrite list_elem_of_In. auto.
  - intros Hall ra Ha. rewrite <- list_elem_of_In in Ha.
    apply negb_true_iff, andb_false_iff.
    destruct (Z.leb_spec (ra_scope ra) (scope_level this)) as [Hle | Hgt]; [left | right; reflexivity].
    destruct (Hall ra Ha Hle) as (r & Hr & Hsup).
    apply negb_false_iff, existsb_exists. exists r. rewrite list_elem_of_In in Hr. auto.
Qed.

Lemma is_serial_sym `{!AccessLaws RA} a b : is_serial a b = is_serial b a.
Proof.
  apply eq_true_iff_eq. rewrite !is_serial_iff.
  split; intros (x & y & Hx & Hy & Hs); exists y, x; rewrite ra_serial_sym; auto.
Qed.

(** (nested): a task conflicts with everything that conflicts with a task it
    contains, over resources no deeper than itself; so ordering the parents
    orders their children. *)
Theorem superset_serial_user `{!AccessLaws RA} (parent child other : ResourceUser)
    (Hsub : is_superset_of parent child = true)
    (Hlevel : Forall (fun ra => ra_scope ra <= scope_level parent) (access_list child))
    (Hser : is_serial child other = true) :
  is_serial parent other = true.
Proof.
  rewrite is_superset_of_iff in Hsub. rewrite is_serial_iff in *. rewrite Forall_forall in Hlevel.
  destruct Hser as (rc & ro & Hc & Ho & Hs).
  destruct (Hsub rc Hc (Hlevel rc Hc)) as (rp & Hp & Hsup).
  exists rp, ro. split; [exact Hp |]. split; [exact Ho |]. eapply ra_superset_serial; eassumption.
Qed.

(** ** The list of resources *)

Definition resource_ptrs (u : ResourceUser) : list nat := (fun e => r_ptr (ue_resource e)) <$> unique_resources u.

Lemma erase_unique_ptrs e u :
  resource_ptrs (erase_unique e u)
  = List.filter (fun p => negb (p =? r_ptr (ue_resource e))%nat) (resource_ptrs u).
Proof. unfold resource_ptrs, erase_unique. simpl. rewrite bfilter_fmap. reflexivity. Qed.

Lemma build_step_ptrs u ra :
  resource_ptrs (build_step u ra)
  = r_ptr (get_resource ra)
    :: List.filter (fun p => negb (p =? r_ptr (get_resource ra))%nat) (resource_ptrs u).
Proof.
  unfold build_step. change (resource_ptrs (push_unique ?e ?v))
    with (r_ptr (ue_resource e) :: resource_ptrs v).
  f_equal. rewrite erase_unique_ptrs. reflexivity.
Qed.

Lemma NoDup_bfilter {A} (p : A -> bool) (xs : list A) : NoDup xs -> NoDup (List.filter p xs).
Proof.
  intros Hn. induction Hn as [| x xs Hx Hn IH]; simpl; [constructor |].
  destruct (p x); [constructor |]; auto. rewrite list_elem_of_In, filter_In. intros [Hin _].
  apply Hx. apply list_elem_of_In. exact Hin.
Qed.

Lemma build_fold l u :
  NoDup (resource_ptrs u) ->
  NoDup (resource_ptrs (fold_left build_step l u)) /\
  (forall p, p ∈ resource_ptrs (fold_left build_step l u) <->
     p ∈ resource_ptrs u \/ exists ra, ra ∈ l /\ p = r_ptr (get_resource ra)) /\
  access_list (fold_left build_step l u) = access_list u.
Proof.
  revert u. induction l as [| ra l IH]; intros u Hn; simpl.
  - split; [exact Hn |]. split; [| reflexivity]. intros p. split; [auto |].
    intros [Hp | (ra & Hra & _)]; [exact Hp | inversion Hra].
  - destruct (IH (build_step u ra)) as (H1 & H2 & H3).
    { rewrite build_step_ptrs. constructor; [| apply NoDup_bfilter, Hn].
      rewrite list_elem_of_In, filter_In, Nat.eqb_refl. intros [_ E]. discriminate E. }
    split; [exact H1 |]. split; [| exact H3]. intros p. rewrite H2, build_step_ptrs.
    rewrite elem_of_cons, (list_elem_of_In (List.filter _ _)), filter_In, <- list_elem_of_In.
    rewrite negb_true_iff, Nat.eqb_neq. split.
    + intros [[-> | [Hp _]] | (x & Hx & ->)]; [right | left; exact Hp | right].
      * exists ra. split; [left | reflexivity].
      * exists x. split; [right; exact Hx | reflexivity].
    + intros [Hp | (x & Hx & ->)].
      * destruct (decide (p = r_ptr (get_resource ra))) as [-> | Hne]; auto.
      * apply elem_of_cons in Hx as [-> | Hx]; [auto |]. right. eauto.
Qed.

(** (unique): [build_unique_resource_list] lists the resource of every access
    exactly once, whatever the list held before, and adds no other. *)
Theorem build_unique_correct (u : ResourceUser) (Hn : NoDup (resource_ptrs u)) :
  NoDup (resource_ptrs (build_unique_resource_list u)) /\
  access_list (build_unique_resource_list u) = access_list u /\
  forall p, p ∈ resource_ptrs (build_unique_resource_list u) <->
    p ∈ resource_ptrs u \/ exists ra, ra ∈ access_list u /\ p = r_ptr (get_resource ra).
Proof.
  destruct (build_fold (access_list u) u Hn) as (H1 & H2 & H3).
  split; [exact H1 |]. split; [exact H3 | exact H2].
Qed.

(** ** Patches *)

(** (patch): whether a patch is accepted does not depend on the accesses the
    task held before: it throws exactly when an access of the resulting list is
    to a resource no deeper than the task, so also when the patch only demotes
    an access.  The accesses are changed either way. *)
Theorem apply_patch_ignores_old (patch : Patch) (u : ResourceUser) :
  let u' := fold_left patch_step patch u in
  fst (apply_patch patch u) = u' /\
  (snd (apply_patch patch u) = None <->
   Forall (fun ra => scope_level u < ra_scope ra) (access_list u')).
Proof.
  simpl. unfold apply_patch.
  assert (Hiff : is_superset_of (copy_user u) (fold_left patch_step patch u) = true <->
    Forall (fun ra => scope_level u < ra_scope ra) (access_list (fold_left patch_step patch u))).
  { rewrite is_superset_of_iff, Forall_forall. simpl scope_level. simpl access_list. split.
    - intros Hall ra Hra. destruct (Z.lt_ge_cases (scope_level u) (ra_scope ra)) as [|Hge]; [assumption |].
      destruct (Hall ra Hra Hge) as (r & Hr & _). inversion Hr.
    - intros Hall ra Hra Hle. specialize (Hall ra Hra). simpl in Hall. lia. }
  destruct (is_superset_of (copy_user u) (fold_left patch_step patch u)); simpl.
  - split; [reflexivity |]. split; [intros _; apply Hiff; reflexivity | reflexivity].
  - split; [reflexivity |]. split; [discriminate |]. intros Hall. apply Hiff in Hall. discriminate Hall.
Qed.
End ResourceUser.

Arguments ResourceUser RA : clear implicits.
Arguments Patch RA : clear implicits.

(** ** Tasks with accesses to IO resources *)

Import Guards.

#[local] Instance io_ops : AccessOps Guards.RA := erased_ops Guards.policy (fun _ => Guards.IO_policy).
#[local] Instance io_access_laws : AccessLaws Guards.RA := erased_laws Guards.policy (fun _ => Guards.IO_policy).

(** An access to IO resource number [p], created outside of all tasks. *)
Definition io_access (mode : Access.IOAccess) (p : nat) : Guards.RA :=
  @make_access _ Guards.policy Guards.IO_policy (mkResource p (Z.of_nat p) 0) mode.

Lemma superset_serial_user_witness :
  is_serial (make_user [io_access Access.write 0; io_access Access.read 1] 0)
            (make_user [io_access Access.read 0] 0) = true.
Proof.
  apply (superset_serial_user _ (make_user [io_access Access.write 0] 1));
    [vm_compute; reflexivity | | vm_compute; reflexivity].
  repeat constructor; vm_compute; congruence.
Defined.

Lemma build_unique_correct_witness :
  let u := fold_left (fun u ra => push_access ra u)
    [io_access Access.write 0; io_access Access.read 1; io_access Access.read 0] (new_user 0) in
  NoDup (resource_ptrs u) /\ NoDup (resource_ptrs (build_unique_resource_list u)).
Proof.
  intros u. assert (Hn : NoDup (resource_ptrs u)) by constructor.
  split; [exact Hn |]. apply (build_unique_correct u Hn).
Defined.

(** The demotion of a write access to a read access, as in the tutorial, is rejected. *)
Example demotion_rejected :
  snd (apply_patch (add_resources [io_access Access.read 0]
        (remove_resources [io_access Access.write 0] [])) (make_user [io_access Access.write 0] 0))
  = Some (Throw "redGrapes: ResourceUserPolicy: updated access list is no subset!").
Proof. vm_compute. reflexivity. Qed.

(** [add_resource] lists the resource of a task once per access. *)
Example add_resource_duplicates :
  resource_ptrs (make_user [io_access Access.read 0; io_access Access.write 0] 0) = [0; 0]%nat.
Proof. vm_compute. reflexivity. Qed.

End ResourceUser.
