(* ===== verification/TaskProperties.v ===== *)
(** The properties a task is composed of ([redGrapes/task/property/inherit.hpp],
    [label.hpp], [id.hpp], [task/task.hpp]) and how the arguments of a task's
    function add properties to it ([task/property/trait.hpp],
    [task/task_builder.hpp]). *)

From Stdlib Require Import ZArith Lia Bool.
From stdpp Require Import base list strings pretty.
From S2P Require Import Prelude Access Resource Guards ResourceUser.

Open Scope Z_scope.

Module TaskProperties.
Import Access Resource ResourceUser.

(** A task property as the ones of the repository are: its data, its patches, the
    constructor from the worker and the depth, [apply_patch] with the exception it
    throws, and its formatter.  Besides the property itself, [apply_patch] is given
    the [worker_id] of [current_task], which [ResourceProperty] reads.  A property
    of an application whose [apply_patch] reaches further, into other properties or
    into global state, is none of these. *)
Record Property : Type := mkProperty {
  carrier : Type;
  patch : Type;
  make : Z -> Z -> carrier;
  apply : Z -> patch -> carrier -> carrier * option error;
  format : carrier -> string
}.

(** [TaskPropertiesInherit]: a base class per property, up to [PropEnd_t]. *)
Fixpoint TaskPropertiesInherit (l : list Property) : Type :=
  match l with [] => unit | p :: l => carrier p * TaskPropertiesInherit l end.

(** [TaskPropertiesInherit::Patch] *)
Fixpoint InheritPatch (l : list Property) : Type :=
  match l with [] => unit | p :: l => patch p * InheritPatch l end.

Fixpoint make_inherit (l : list Property) (worker_id scope_depth : Z) : TaskPropertiesInherit l :=
  match l with
  | [] => tt
  | p :: l => (make p worker_id scope_depth, make_inherit l worker_id scope_depth)
  end.

(** [apply_patch]: an exception of one property keeps the later ones from being
    patched, and undoes nothing. *)
Fixpoint apply_inherit (current : Z) (l : list Property) :
    InheritPatch l -> TaskPropertiesInherit l -> TaskPropertiesInherit l * option error :=
  match l with
  | [] => fun _ x => (x, None)
  | p :: l => fun '(d, ds) '(x, xs) =>
      match apply p current d x with
      | (x, Some e) => ((x, xs), Some e)
      | (x, None) => let '(xs, r) := apply_inherit current l ds xs in ((x, xs), r)
      end
  end.

(** The formatters of [TaskPropertiesInherit]: of the end, of the last property, and
    of the others. *)
Fixpoint format_inherit (l : list Property) : TaskPropertiesInherit l -> string :=
  match l with
  | [] => fun _ => ""
  | p :: l => fun '(x, xs) =>
      match l with
      | [] => format p x
      | _ => format p x +:+ ", " +:+ format_inherit l xs
      end
  end.

(** [TaskProperties1] *)
Definition format_properties (l : list Property) (x : TaskPropertiesInherit l) : string :=
  "{ " +:+ format_inherit l x +:+ " }".

(** A property of the list, and the part of the data and of the patch that is its. *)
Fixpoint has (l : list Property) (p : Property) : Type :=
  match l with [] => Empty_set | q :: l => (q = p) + has l p end.

Fixpoint get {l p} : has l p -> TaskPropertiesInherit l -> carrier p :=
  match l with
  | [] => fun h => match h with end
  | q :: l => fun h x => match h with
      | inl e => match e in _ = p return carrier p with eq_refl => fst x end
      | inr h => get h (snd x)
      end
  end.

Fixpoint get_patch {l p} : has l p -> InheritPatch l -> patch p :=
  match l with
  | [] => fun h => match h with end
  | q :: l => fun h d => match h with
      | inl e => match e in _ = p return patch p with eq_refl => fst d end
      | inr h => get_patch h (snd d)
      end
  end.

Fixpoint position {l p} : has l p -> nat :=
  match l with
  | [] => fun _ => 0%nat
  | q :: l => fun h => match h with inl _ => 0%nat | inr h => S (position h) end
  end.

(** What its own patch makes of a property. *)
Definition patched (current : Z) {l p} (h : has l p) (d : InheritPatch l) (x : TaskPropertiesInherit l) : carrier p * option error :=
  apply p current (get_patch h d) (get h x).

Lemma apply_inherit_cons current p l d ds x xs :
  apply_inherit current (p :: l) (d, ds) (x, xs) =
  match apply p current d x with
  | (x, Some e) => ((x, xs), Some e)
  | (x, None) => ((x, fst (apply_inherit current l ds xs)), snd (apply_inherit current l ds xs))
  end.
Proof. cbn [apply_inherit]. destruct (apply p current d x) as [y [e |]]; [reflexivity |]. destruct (apply_inherit current l ds xs). reflexivity. Qed.

(** (properties): a patch of a task changes each property by its own part of the
    patch only: all of them if none throws; otherwise the first to throw and those
    before it, while the later ones stay as they were. *)
Theorem apply_inherit_correct current l : forall (d : InheritPatch l) (x : TaskPropertiesInherit l),
  match snd (apply_inherit current l d x) with
  | None => forall p (h : has l p), snd (patched current h d x) = None /\ get h (fst (apply_inherit current l d x)) = fst (patched current h d x)
  | Some e => exists q (hq : has l q), snd (patched current hq d x) = Some e /\ forall p (h : has l p),
      ((position h < position hq)%nat -> snd (patched current h d x) = None) /\
      get h (fst (apply_inherit current l d x)) = if (position h <=? position hq)%nat then fst (patched current h d x) else get h x
  end.
Proof.
  induction l as [| p l IH]; intros d x.
  - intros q h. inversion h.
  - destruct d as [d ds], x as [x xs]. rewrite apply_inherit_cons. specialize (IH ds xs).
    destruct (apply p current d x) as [y [e |]] eqn:E; cbn [fst snd].
    + exists p, (inl eq_refl). unfold patched at 1. cbn [get get_patch fst snd]. rewrite E. split; [reflexivity |].
      intros q [<- | h]; cbn [position get get_patch fst snd]; (split; [lia |]); [unfold patched; cbn; rewrite E |]; reflexivity.
    + destruct (snd (apply_inherit current l ds xs)) as [e |].
      * destruct IH as (q & hq & Hq & Hall). exists q, (inr hq). split; [exact Hq |].
        intros r [<- | h]; cbn [position get fst snd].
        -- unfold patched. cbn [get get_patch fst snd]. rewrite E. auto.
        -- destruct (Hall r h) as [H1 H2]. split; [intros Hlt; apply H1; lia | exact H2].
      * intros q [<- | h]; cbn [get fst snd]; [unfold patched; cbn [get get_patch fst snd]; rewrite E; auto |].
        exact (IH q h).
Qed.

(** ** The properties of every task *)

(** [IDProperty]; ids are given by the builder. *)
Definition id_property : Property :=
  mkProperty Z unit (fun _ _ => 2 ^ 32 - 1) (fun _ _ x => (x, None)) (fun id => quoted "id" +:+ " : " +:+ pretty id).

(** [LabelProperty]; the label is not escaped. *)
Definition label_property : Property :=
  mkProperty string unit (fun _ _ => "") (fun _ _ x => (x, None)) (fun l => quoted "label" +:+ " : " +:+ quoted l).

Section Task.
Context {RA : Type} `{AccessOps RA}.

(** [ResourceProperty]; the worker of the current task is where the copy [before] is
    allocated. *)
Definition resource_property : Property :=
  mkProperty (ResourceUser RA) (Patch RA) (fun _ d => new_user d) (fun _ => ResourceUser.apply_patch)
    (fun u => quoted "resources" +:+ " : " +:+ format_user u).

(** [GraphProperty]: what [E] holds, the events of the task, no patch changes and no
    text shows. *)
Definition graph_property (E : Type) (new_events : E) : Property :=
  mkProperty E unit (fun _ _ => new_events) (fun _ _ x => (x, None)) (fun _ => "").

(** [Task::TaskProperties] *)
Definition task_properties (E : Type) (new_events : E) (user : list Property) : list Property :=
  graph_property E new_events :: resource_property :: id_property :: user.

(** The text of a task is no JSON object: it begins with a comma, which belongs to
    the empty text of the graph property. *)
Lemma task_text (E : Type) (e : E) user x :
  exists members, format_properties (task_properties E e user) x = "{ , " +:+ quoted "resources" +:+ members.
Proof.
  destruct x as (g & u & i & us). unfold format_properties, task_properties. cbn [format_inherit format graph_property resource_property].
  change ("" +:+ ?s) with s. eexists. cbn [String.app]. reflexivity.
Qed.

(** ** The arguments of a task's function *)

(** The types of arguments, as far as the specializations of [BuildProperties] tell
    them apart: [TAccess] can be converted to a [ResourceAccess], as the guards of
    resources can; [TWrapped] is [std::reference_wrapper]. *)
Inductive ArgType : Type :=
  | TAccess
  | TInt
  | TUnsigned
  | TOther
  | TWrapped (t : ArgType)
  | TRef (t : ArgType)
  | TConstRef (t : ArgType).

(** An argument stands for the access it is converted to. *)
Fixpoint arg (t : ArgType) : Type :=
  match t with TAccess => RA | TWrapped t | TRef t | TConstRef t => arg t | _ => unit end.

(** [std::is_convertible<T, ResourceAccess>]: references are; a reference wrapper
    would need two conversions. *)
Fixpoint is_convertible (t : ArgType) : bool :=
  match t with TAccess => true | TRef t | TConstRef t => is_convertible t | _ => false end.

(** The access an argument of a convertible type is converted to. *)
Fixpoint convert (t : ArgType) : arg t -> option RA :=
  match t with
  | TAccess => fun a => Some a
  | TRef t | TConstRef t => convert t
  | _ => fun _ => None
  end.

(** The accesses [BuildProperties<T, TTask>::build] adds.  The specializations for
    reference wrappers, references and integers are for [TTask = void] only, which
    [Builder::add] leaves it at; for a task type the primary template warns and adds
    nothing, unless the type is convertible. *)
Fixpoint build_properties (for_task : bool) (t : ArgType) : arg t -> list RA :=
  match t with
  | TAccess => fun a => [a]
  | TWrapped t => if for_task then fun _ => [] else build_properties false t
  | TRef t => if is_convertible t then fun a => option_list (convert t a)
      else if for_task then fun _ => [] else build_properties false t
  | TConstRef t => if is_convertible t then fun a => option_list (convert t a)
      else if for_task then fun _ => [] else build_properties false t
  | _ => fun _ => []
  end.

(** [Builder::add] *)
Definition add (t : ArgType) (a : arg t) (u : ResourceUser RA) : ResourceUser RA :=
  fold_left (fun u ra => builder_add_resource ra u) (build_properties false t a) u.

(** [PropBuildHelper::build] *)
Definition build (x : {t : ArgType & arg t}) (u : ResourceUser RA) : ResourceUser RA :=
  fold_left (fun u ra => builder_add_resource ra u) (build_properties true (projT1 x) (projT2 x)) u.

(** The constructor of [TaskBuilder]: [args] in the order in which the arguments of
    [pass] are evaluated, which the language leaves open. *)
Definition init_properties (args : list {t : ArgType & arg t}) (u : ResourceUser RA) : ResourceUser RA :=
  fold_left (fun u x => build x u) args u.

Definition accesses_of (args : list {t : ArgType & arg t}) : list RA :=
  args ≫= (fun x => build_properties true (projT1 x) (projT2 x)).

Lemma fold_add_lists l : forall u,
  access_list (fold_left (fun u ra => builder_add_resource ra u) l u) = rev l ++ access_list u /\
  unique_resources (fold_left (fun u ra => builder_add_resource ra u) l u)
    = rev ((fun ra => mkUsage (get_resource ra) None) <$> l) ++ unique_resources u /\
  scope_level (fold_left (fun u ra => builder_add_resource ra u) l u) = scope_level u.
Proof.
  induction l as [| ra l IH]; intros u; [auto |]. cbn [fold_left fmap list_fmap rev].
  destruct (IH (builder_add_resource ra u)) as (E1 & E2 & E3). rewrite E1, E2, E3.
  split; [| split; [| reflexivity]]; rewrite <- app_assoc; reflexivity.
Qed.

Lemma init_properties_fold args : forall u,
  init_properties args u = fold_left (fun u ra => builder_add_resource ra u) (accesses_of args) u.
Proof.
  induction args as [| x args IH]; intros u; [reflexivity |]. unfold accesses_of. cbn [mbind list_bind].
  rewrite fold_left_app. cbn [init_properties fold_left]. exact (IH (build x u)).
Qed.

Lemma is_serial_permuted (u u' other : ResourceUser RA) : access_list u ≡ₚ access_list u' -> is_serial u other = is_serial u' other.
Proof.
  intros Hp. apply eq_true_iff_eq. rewrite !is_serial_iff.
  split; intros (x & y & Hx & Hy & Hs); exists x, y; [rewrite <- Hp | rewrite Hp]; auto.
Qed.

Lemma is_superset_permuted (u u' child : ResourceUser RA) :
  access_list u ≡ₚ access_list u' -> scope_level u = scope_level u' -> is_superset_of u child = is_superset_of u' child.
Proof.
  intros Hp Hs. apply eq_true_iff_eq. rewrite !is_superset_of_iff, Hs.
  split; intros Hall ra Hra Hle; destruct (Hall ra Hra Hle) as (x & Hx & Hsup); exists x; [rewrite <- Hp | rewrite Hp]; auto.
Qed.

Lemma is_superset_of_permuted (parent u u' : ResourceUser RA) :
  access_list u ≡ₚ access_list u' -> is_superset_of parent u = is_superset_of parent u'.
Proof.
  intros Hp. apply eq_true_iff_eq. rewrite !is_superset_of_iff.
  split; intros Hall ra Hra; apply Hall; [rewrite Hp | rewrite <- Hp]; exact Hra.
Qed.

(** (args): whatever order the arguments of a task's function are evaluated in,
    the task gets the same accesses and resources, so it conflicts with the same
    tasks and is covered by the same parents: those of the arguments, and of the
    references to arguments, that can be converted to an access. *)
Theorem init_properties_order args args' d :
  args ≡ₚ args' ->
  let u := init_properties args (new_user d) in
  let u' := init_properties args' (new_user d) in
  access_list u ≡ₚ accesses_of args /\ resource_ptrs u ≡ₚ resource_ptrs u' /\
  forall other, is_serial u other = is_serial u' other /\ is_superset_of u other = is_superset_of u' other /\
    is_superset_of other u = is_superset_of other u'.
Proof.
  intros Hp u u'. subst u u'. rewrite !init_properties_fold.
  assert (Ha : accesses_of args ≡ₚ accesses_of args') by (unfold accesses_of; rewrite Hp; reflexivity).
  destruct (fold_add_lists (accesses_of args) (new_user d)) as (E1 & E2 & E3).
  destruct (fold_add_lists (accesses_of args') (new_user d)) as (F1 & F2 & F3).
  set (u := fold_left _ (accesses_of args) _) in *. set (u' := fold_left _ (accesses_of args') _) in *. clearbody u u'.
  assert (Hu : access_list u ≡ₚ access_list u') by (rewrite E1, F1, <- !Permutation_rev, Ha; reflexivity).
  split; [rewrite E1, <- Permutation_rev; simpl; rewrite app_nil_r; reflexivity |]. split.
  - unfold resource_ptrs. rewrite E2, F2, <- !Permutation_rev, Ha. reflexivity.
  - intros other. split; [apply is_serial_permuted, Hu |]. split; [apply is_superset_permuted; congruence |].
    apply is_superset_of_permuted, Hu.
Qed.

(** A wrapped access is passed over, although [Builder::add] would unwrap it. *)
Lemma wrapped_access_ignored (ra : RA) u :
  build (existT (TWrapped TAccess) ra) u = u /\ add (TWrapped TAccess) ra u = add_resource_access ra u.
Proof. split; reflexivity. Qed.
End Task.

(** ** Concrete tasks *)

Import Guards.
#[local] Instance props_ops : AccessOps Guards.RA := erased_ops Guards.policy (fun _ => Guards.IO_policy).

Definition two_args : list {t : ArgType & arg (RA := Guards.RA) t} :=
  [existT TInt tt; existT (TRef TAccess) (io_access Access.write 0); existT TAccess (io_access Access.read 1)].

Lemma init_properties_order_witness :
  is_serial (init_properties two_args (new_user 0)) (make_user [io_access Access.read 0] 0)
  = is_serial (init_properties (rev two_args) (new_user 0)) (make_user [io_access Access.read 0] 0).
Proof. apply (init_properties_order two_args (rev two_args) 0). apply Permutation_rev. Defined.

(** A patch of a labelled task that adds an access and then throws. *)
Example label_kept :
  let l := task_properties unit tt [label_property] in
  let x := make_inherit l 0 0 in
  apply_inherit 0 l (tt, (add_resources [io_access Access.write 0] [], (tt, (tt, tt)))) x =
  ((tt, (make_user [io_access Access.write 0] 0, (2 ^ 32 - 1, ("", tt)))),
   Some (Throw "redGrapes: ResourceUserPolicy: updated access list is no subset!")).
Proof. vm_compute. reflexivity. Qed.
End TaskProperties.
