(* ===== verification/Graph.v ===== *)
(** The task graph: events and their followers ([redGrapes/scheduler/event.*]),
    the dependencies a task takes from the users of its resources
    ([task/property/graph.*]), and the task spaces ([task/task_space.hpp]), as
    operations on the store of all tasks, events, spaces and resources.  Each
    operation is what one thread does; calls to the scheduler and to the parser's
    condition variable are recorded in the order they are made. *)

From Stdlib Require Import ZArith Lia Bool.
From stdpp Require Import base gmap list strings.
From S2P Require Import Prelude Resource ResourceUser Entries.

Open Scope Z_scope.
Open Scope word_scope.

Module Graph.
Import Resource ResourceUser.

(** ** Events *)

Inductive EventPtrTag : Type :=
  T_UNINITIALIZED | T_EVT_PRE | T_EVT_POST | T_EVT_RES_SET | T_EVT_RES_GET | T_EVT_EXT.

#[export] Instance EventPtrTag_eq_dec : EqDecision EventPtrTag.
Proof. solve_decision. Defined.

(** Tasks and external events are identified by their addresses. *)
Record EventPtr : Type := mkPtr {
  external_event : option nat;
  ep_task : option nat;
  tag : EventPtrTag
}.

#[export] Instance EventPtr_eq_dec : EqDecision EventPtr.
Proof. solve_decision. Defined.

(** [EventPtr::operator==] *)
Definition ptr_eqb (a b : EventPtr) : bool :=
  bool_decide (tag a = tag b) && bool_decide (ep_task a = ep_task b).

(** [followers] is newest first; [state] counts the incoming edges. *)
Record Event : Type := mkEvent {
  followers : list EventPtr;
  state : Z;
  waker_id : Z
}.

Definition new_event : Event := mkEvent [] 1 (-1).

Definition is_reached (e : Event) : bool := state e =? 0.
Definition is_ready (e : Event) : bool := state e =? 1.
Definition up (e : Event) : Event := mkEvent (followers e) (u16 (state e + 1)) (waker_id e).
Definition dn (e : Event) : Event := mkEvent (followers e) (u16 (state e - 1)) (waker_id e).
Definition set_state (s : Z) (e : Event) : Event := mkEvent (followers e) s (waker_id e).
Definition set_waker (wk : Z) (e : Event) : Event := mkEvent (followers e) (state e) wk.
Definition push_follower (f : EventPtr) (e : Event) : Event :=
  mkEvent (f :: followers e) (state e) (waker_id e).
Definition remove_follower (f : EventPtr) (e : Event) : Event :=
  mkEvent (List.filter (fun g => negb (ptr_eqb g f)) (followers e)) (state e) (waker_id e).

(** [WakerId]s of the worker threads start at 0; the parser has this one. *)
Definition parserID : Z := 254.

(** ** Tasks, task spaces, and the store *)

(** What a task does outside of the store. *)
Inductive Call : Type :=
  | Wake (task : nat) (waker : Z)
  | Activate (task : nat)
  | NotifyParser
  | Free (task : nat).

#[export] Instance Call_eq_dec : EqDecision Call.
Proof. solve_decision. Defined.

(** The tasks that a sequence of calls hands to the scheduler. *)
Definition activated_by (c : Call) : option nat := match c with Activate t => Some t | _ => None end.
Definition activations (cs : list Call) : list nat := omap activated_by cs.

Section Graph.
Context {RA : Type} `{AccessOps RA}.

Record Task : Type := mkTask {
  user : ResourceUser RA;
  space : option nat;
  children : option nat;
  pre_event : Event;
  post_event : Event;
  result_set_event : Event;
  result_get_event : Event;
  worker_id : Z;
  removal_countdown : Z
}.

Definition new_task (worker scope_depth : Z) : Task :=
  mkTask (new_user scope_depth) None None new_event new_event new_event new_event worker 2.

Definition with_user (u : ResourceUser RA) (t : Task) : Task :=
  mkTask u (space t) (children t) (pre_event t) (post_event t) (result_set_event t)
    (result_get_event t) (worker_id t) (removal_countdown t).
Definition with_space (s : option nat) (t : Task) : Task :=
  mkTask (user t) s (children t) (pre_event t) (post_event t) (result_set_event t)
    (result_get_event t) (worker_id t) (removal_countdown t).
Definition with_children (c : option nat) (t : Task) : Task :=
  mkTask (user t) (space t) c (pre_event t) (post_event t) (result_set_event t)
    (result_get_event t) (worker_id t) (removal_countdown t).
Definition with_countdown (n : Z) (t : Task) : Task :=
  mkTask (user t) (space t) (children t) (pre_event t) (post_event t) (result_set_event t)
    (result_get_event t) (worker_id t) n.

(** The four events of a task; [None] for the other tags. *)
Definition task_event (g : EventPtrTag) (t : Task) : option Event :=
  match g with
  | T_EVT_PRE => Some (pre_event t)
  | T_EVT_POST => Some (post_event t)
  | T_EVT_RES_SET => Some (result_set_event t)
  | T_EVT_RES_GET => Some (result_get_event t)
  | _ => None
  end.

Definition with_event (g : EventPtrTag) (e : Event) (t : Task) : Task :=
  mkTask (user t) (space t) (children t)
    (if bool_decide (g = T_EVT_PRE) then e else pre_event t)
    (if bool_decide (g = T_EVT_POST) then e else post_event t)
    (if bool_decide (g = T_EVT_RES_SET) then e else result_set_event t)
    (if bool_decide (g = T_EVT_RES_GET) then e else result_get_event t)
    (worker_id t) (removal_countdown t).

Definition task_is_ready (t : Task) : bool := is_ready (pre_event t).
Definition is_running (t : Task) : bool := is_reached (pre_event t).
Definition is_finished (t : Task) : bool := is_reached (post_event t).
Definition is_dead (t : Task) : bool := is_reached (post_event t) && is_reached (result_get_event t).

Record TaskSpace : Type := mkSpace {
  task_count : Z;
  depth : Z;
  parent : option nat
}.

Record World : Type := mkWorld {
  tasks : gmap nat Task;
  events : gmap nat Event;
  spaces : gmap nat TaskSpace;
  users : gmap nat (Entries.Entries nat);
  calls : list Call
}.

Definition put_task (p : nat) (t : Task) (w : World) : World :=
  mkWorld (<[p := t]> (tasks w)) (events w) (spaces w) (users w) (calls w).
Definition put_space (p : nat) (s : TaskSpace) (w : World) : World :=
  mkWorld (tasks w) (events w) (<[p := s]> (spaces w)) (users w) (calls w).
Definition put_users (p : nat) (l : Entries.Entries nat) (w : World) : World :=
  mkWorld (tasks w) (events w) (spaces w) (<[p := l]> (users w)) (calls w).
Definition put_external (p : nat) (e : Event) (w : World) : World :=
  mkWorld (tasks w) (<[p := e]> (events w)) (spaces w) (users w) (calls w).
Definition call (c : Call) (w : World) : World :=
  mkWorld (tasks w) (events w) (spaces w) (users w) (calls w ++ [c]).

Definition get_task (p : nat) (w : World) : res Task := deref (tasks w !! p).
Definition get_users (r : nat) (w : World) : Entries.Entries nat :=
  default Entries.empty (users w !! r).

(** [EventPtr::get_event] *)
Definition get_event (p : EventPtr) (w : World) : res Event :=
  match tag p with
  | T_EVT_EXT => e ← deref (external_event p); deref (events w !! e)
  | T_UNINITIALIZED => Err (Throw "invalid event tag")
  | g => t ← deref (ep_task p); t ← get_task t w; deref (task_event g t)
  end.

Definition put_event (p : EventPtr) (e : Event) (w : World) : res World :=
  match tag p with
  | T_EVT_EXT => x ← deref (external_event p); Ok (put_external x e w)
  | T_UNINITIALIZED => Err (Throw "invalid event tag")
  | g => i ← deref (ep_task p); t ← get_task i w; Ok (put_task i (with_event g e t) w)
  end.

Definition modify_event (p : EventPtr) (f : Event -> Event) (w : World) : res World :=
  e ← get_event p w; put_event p (f e) w.

Definition get_pre_event (t : nat) : EventPtr := mkPtr None (Some t) T_EVT_PRE.
Definition get_post_event (t : nat) : EventPtr := mkPtr None (Some t) T_EVT_POST.
Definition get_result_set_event (t : nat) : EventPtr := mkPtr None (Some t) T_EVT_RES_SET.
Definition get_result_get_event (t : nat) : EventPtr := mkPtr None (Some t) T_EVT_RES_GET.

(** [Event::add_follower] *)
Definition add_follower (p follower : EventPtr) (w : World) : res World :=
  e ← get_event p w;
  if is_reached e then Ok w
  else
    w ← modify_event p (push_follower follower) w;
    modify_event follower up w.

(** ** Leaving the graph *)

Fixpoint remove_users (l : list ResourceUsageEntry) (w : World) : World :=
  match l with
  | [] => w
  | r :: l =>
      let w := match user_entry r with
        | Some k => put_users (r_ptr (ue_resource r))
                      (Entries.remove k (get_users (r_ptr (ue_resource r)) w)) w
        | None => w
        end in
      remove_users l w
  end.

Definition delete_from_resources (t : nat) (w : World) : res World :=
  task ← get_task t w; Ok (remove_users (unique_resources (user task)) w).

(** [TaskSpace::free_task] *)
Definition free_task (s t : nat) (w : World) : res World :=
  sp ← deref (spaces w !! s);
  let count := u32 (task_count sp - 1) in
  let w := put_space s (mkSpace count (depth sp) (parent sp)) w in
  let w := mkWorld (delete t (tasks w)) (events w) (spaces w) (users w) (calls w) in
  let w := call (Free t) w in
  Ok (if (count =? 0) && (depth sp =? 0) then call NotifyParser w else w).

(** What [notify] does once the state of the event is known to be 0, around the
    notification of the followers. *)
Definition reached_before (p : EventPtr) (t : nat) (waker : Z) (w : World) : res World :=
  w ← (if bool_decide (tag p = T_EVT_POST) then delete_from_resources t w else Ok w);
  Ok (if bool_decide (tag p = T_EVT_RES_SET) && (waker =? parserID)
      then call NotifyParser w else w).

Definition reached_after (p : EventPtr) (t : nat) (w : World) : res World :=
  if bool_decide (tag p = T_EVT_POST) || bool_decide (tag p = T_EVT_RES_GET) then
    task ← get_task t w;
    let n := removal_countdown task in
    let w := put_task t (with_countdown (u8 (n - 1)) task) w in
    if n =? 1 then s ← deref (space task); free_task s t w else Ok w
  else Ok w.

(** [EventPtr::notify]: whether the event is now ready, and the store. *)
Fixpoint notify (fuel : nat) (p : EventPtr) (claimed : bool) (w : World) : res (bool * World) :=
  match fuel with
  | O => Err OutOfFuel
  | S fuel =>
      e ← get_event p w;
      let old_state := state e in
      w ← put_event p (dn e) w;
      let st := old_state - 1 in
      _ ← cpp_assert (0 <? old_state);
      if 1 <? st then Ok (false, w)
      else
        t ← deref (ep_task p);
        let waker := waker_id e in
        let w := if 0 <=? waker then call (Wake t waker) w else w in
        let w := if bool_decide (tag p = T_EVT_PRE) && (st =? 1) && negb claimed
                 then call (Activate t) w else w in
        if st =? 0 then
          w ← reached_before p t waker w;
          w ← (fix notify_followers (l : list EventPtr) (w : World) : res World :=
                 match l with
                 | [] => Ok w
                 | f :: l => '(_, w) ← notify fuel f false w; notify_followers l w
                 end) (followers e) w;
          w ← reached_after p t w;
          Ok (st =? 1, w)
        else Ok (st =? 1, w)
  end.

(** ** Entering the graph *)

(** [IScheduler::task_dependency_type]: the schedulers for CPU and MPI workers
    inherit this one; only [CudaThreadScheduler] overrides it. *)
Definition task_dependency_type (a b : Task) : bool := false.

Definition add_dependency (preceding t : nat) (w : World) : res World :=
  a ← get_task preceding w;
  b ← get_task t w;
  let preceding_event :=
    if task_dependency_type a b then get_pre_event preceding else get_post_event preceding in
  e ← get_event preceding_event w;
  if negb (is_reached e) then add_follower preceding_event (get_pre_event t) w else Ok w.

(** The loop of [init_graph] over the users older than the task's own entry. *)
Fixpoint check_predecessors (t : nat) (par : option nat) (r : ResourceBase) (l : list nat)
    (w : World) : res World :=
  match l with
  | [] => Ok w
  | preceding :: l =>
      if bool_decide (Some preceding = par) then Ok w
      else
        a ← get_task preceding w;
        b ← get_task t w;
        if bool_decide (space a = space b) && is_serial (user a) (user b) then
          w ← add_dependency preceding t w;
          a ← get_task preceding w;
          if has_sync_access r (user a) then Ok w else check_predecessors t par r l w
        else check_predecessors t par r l w
  end.

Fixpoint init_resources (t : nat) (par : option nat) (l : list ResourceUsageEntry) (w : World)
    : res World :=
  match l with
  | [] => Ok w
  | r :: l =>
      match user_entry r with
      | Some k =>
          let preds := (Entries.older k (get_users (r_ptr (ue_resource r)) w)).*2 in
          w ← check_predecessors t par (ue_resource r) preds w;
          init_resources t par l w
      | None => init_resources t par l w
      end
  end.

Definition init_graph (t : nat) (w : World) : res World :=
  task ← get_task t w;
  s ← deref (space task);
  sp ← deref (spaces w !! s);
  init_resources t (parent sp) (unique_resources (user task)) w.

(** [update_graph]: the loop runs over the followers the post-event has while
    the loop reaches them; erased followers are not reached any more. *)
Fixpoint update_followers (fuel : nat) (t : nat) (l : list EventPtr) (w : World) : res World :=
  match l with
  | [] => Ok w
  | f :: l =>
      task ← get_task t w;
      if existsb (ptr_eqb f) (followers (post_event task)) then
        match ep_task f with
        | Some ft =>
            ftask ← get_task ft w;
            if negb (is_serial (user task) (user ftask)) then
              w ← modify_event (get_post_event t) (remove_follower f) w;
              '(_, w) ← notify fuel f false w;
              update_followers fuel t l w
            else update_followers fuel t l w
        | None => update_followers fuel t l w
        end
      else update_followers fuel t l w
  end.

Definition update_graph (fuel : nat) (t : nat) (w : World) : res World :=
  task ← get_task t w; update_followers fuel t (followers (post_event task)) w.

(** [make_event]: a new external event that precedes the post-event. *)
Definition make_event (id t : nat) (w : World) : res (EventPtr * World) :=
  let ptr := mkPtr (Some id) (Some t) T_EVT_EXT in
  let w := put_external id new_event w in
  w ← add_follower ptr (get_post_event t) w;
  Ok (ptr, w).

Definition sg_pause (t : nat) (event : EventPtr) (w : World) : res World :=
  w ← modify_event (get_pre_event t) (set_state 1) w;
  add_follower event (get_pre_event t) w.

(** The external event that [make_event] of task [t] put at address [x]. *)
Definition external (x t : nat) : EventPtr := mkPtr (Some x) (Some t) T_EVT_EXT.

(** [execute_task] after the function of [t] has yielded for [event], up to the
    last notification; [waker] is the worker. *)
Definition prepare_pause (t : nat) (waker : Z) (event : EventPtr) (w : World) : res World :=
  w ← modify_event event (set_waker waker) w;
  w ← sg_pause t event w;
  modify_event (get_pre_event t) up w.

(** ** Task spaces *)

Definition top_space : TaskSpace := mkSpace 0 0 None.

Definition sub_space (par : nat) (w : World) : res TaskSpace :=
  t ← get_task par w;
  s ← deref (space t);
  sp ← deref (spaces w !! s);
  Ok (mkSpace 0 (u32 (depth sp + 1)) (Some par)).

(** The loop of [submit] that enters the task into the users of its resources. *)
Fixpoint push_users (t : nat) (l : list ResourceUsageEntry) (w : World)
    : list ResourceUsageEntry * World :=
  match l with
  | [] => ([], w)
  | r :: l =>
      let '(k, us) := Entries.push t (get_users (r_ptr (ue_resource r)) w) in
      let w := put_users (r_ptr (ue_resource r)) us w in
      let '(l, w) := push_users t l w in
      (mkUsage (ue_resource r) (Some k) :: l, w)
  end.

Definition submit (s t : nat) (w : World) : res World :=
  task ← get_task t w;
  sp ← deref (spaces w !! s);
  let w := put_task t (with_space (Some s) task) w in
  let w := put_space s (mkSpace (u32 (task_count sp + 1)) (depth sp) (parent sp)) w in
  w ← (match parent sp with
       | Some par =>
           pt ← get_task par w;
           _ ← cpp_assert (is_superset_of (user pt) (user task));
           add_follower (get_post_event t) (get_post_event par) w
       | None => Ok w
       end);
  task ← get_task t w;
  let '(entries, w) := push_users t (unique_resources (user task)) w in
  let u := mkUser (access_list (user task)) entries (ResourceUser.scope_level (user task)) in
  Ok (put_task t (with_user u task) w).

Definition space_empty (s : nat) (w : World) : res bool :=
  sp ← deref (spaces w !! s); Ok (task_count sp =? 0).
End Graph.

Arguments Task RA : clear implicits.
Arguments World RA : clear implicits.

End Graph.
