(* ===== verification/GraphInv.v ===== *)
(** The invariant of the edge counters and what one notification does to the
    store.  The state of an event is its own outstanding trigger, plus its edges
    from events not reached yet, plus the notifications already due but not
    delivered; [notify] delivers one of them and, when the event is reached,
    those of its followers, and never fails. *)

From Stdlib Require Import ZArith Lia Bool.
From stdpp Require Import base gmap list strings.
From S2P Require Import Prelude Resource ResourceUser Entries Graph GraphNotify.

Open Scope Z_scope.
Open Scope word_scope.

Module GraphInv.
Import Resource ResourceUser Graph GraphNotify.

(** ** Counting edges *)

Definition occ (f : EventPtr) (l : list EventPtr) : nat :=
  length (List.filter (fun g => bool_decide (g = f)) l).

Lemma occ_cons f g l : occ f (g :: l) = ((if bool_decide (g = f) then 1 else 0) + occ f l)%nat.
Proof. unfold occ. simpl. destruct (bool_decide (g = f)); reflexivity. Qed.

Lemma occ_app f l l' : occ f (l ++ l') = (occ f l + occ f l')%nat.
Proof. unfold occ. rewrite List.filter_app, length_app. reflexivity. Qed.

Lemma occ_pos f l : f ∈ l -> (0 < occ f l)%nat.
Proof.
  intros Hin. unfold occ. assert (Hf : In f (List.filter (fun g => bool_decide (g = f)) l)).
  { apply filter_In. split; [apply list_elem_of_In, Hin | apply bool_decide_eq_true; reflexivity]. }
  destruct (List.filter _ l); [contradiction | simpl; lia].
Qed.

Lemma occ_notin f l : (f ∉ l) -> occ f l = 0%nat.
Proof.
  intros Hn. unfold occ. destruct (List.filter (fun g => bool_decide (g = f)) l) as [| g gs] eqn:Eg; [reflexivity |].
  exfalso. assert (Hin : In g (List.filter (fun g => bool_decide (g = f)) l)) by (rewrite Eg; left; reflexivity).
  apply filter_In in Hin as [Hin Hb]. apply bool_decide_eq_true in Hb as ->.
  apply Hn, list_elem_of_In, Hin.
Qed.

Section Inv.
Context {RA : Type} `{AccessOps RA}.
Implicit Types (w : World RA) (task : Task RA).

Definition out_edges (f : EventPtr) (_ : nat) task : nat :=
  if is_finished task then 0 else occ f (followers (post_event task)).

(** The followers of an external event that is not reached. *)
Definition ext_edges (f : EventPtr) (_ : nat) (e : Event) : nat :=
  if is_reached e then 0 else occ f (followers e).

(** The edges into [f] from post-events and external events that are not reached. *)
Definition edges w (f : EventPtr) : nat :=
  (map_sum (out_edges f) (tasks w) + map_sum (ext_edges f) (events w))%nat.

(** The task is gone, or its post-event is reached. *)
Definition finished_in (t : nat) w : Prop :=
  forall task, tasks w !! t = Some task -> is_finished task = true.

Definition target w (f : EventPtr) : Prop :=
  exists t, is_Some (tasks w !! t) /\ (f = get_pre_event t \/ f = get_post_event t).

(** [bpre t] and [bpost t] are 1 while the task still has to trigger its pre-event
    (by starting) and its post-event (by returning); [pend] are the notifications
    due but not delivered. *)
Record Inv (bpre bpost : nat -> nat) w (pend : list EventPtr) : Prop := {
  inv_pre : forall t task, tasks w !! t = Some task ->
    state (pre_event task) = Z.of_nat (bpre t + edges w (get_pre_event t) + occ (get_pre_event t) pend);
  inv_post : forall t task, tasks w !! t = Some task ->
    state (post_event task) = Z.of_nat (bpost t + edges w (get_post_event t) + occ (get_post_event t) pend);
  inv_small : forall t task, tasks w !! t = Some task ->
    state (pre_event task) < 2 ^ 16 /\ state (post_event task) < 2 ^ 16;
  inv_followers : forall t task f, tasks w !! t = Some task -> is_finished task = false ->
    f ∈ followers (post_event task) -> target w f;
  inv_pend : forall f, f ∈ pend -> target w f;
  inv_leaf : forall t task, tasks w !! t = Some task ->
    followers (pre_event task) = [] /\ followers (result_set_event task) = [] /\
    followers (result_get_event task) = [];
  inv_run : forall t task, tasks w !! t = Some task -> bpost t = 0%nat -> state (pre_event task) = 0;
  inv_space : forall t task, tasks w !! t = Some task ->
    exists s, space task = Some s /\ is_Some (spaces w !! s);
  inv_countdown : forall t task, tasks w !! t = Some task ->
    1 <= removal_countdown task <= 2 /\
    (removal_countdown task = 1 -> is_finished task = true \/ is_reached (result_get_event task) = true);
  inv_events : forall x e, events w !! x = Some e -> state e = 0 \/ state e = 1 /\
    forall f, f ∈ followers e -> target w f
}.

Lemma edges_pos w t task f :
  tasks w !! t = Some task -> is_finished task = false -> f ∈ followers (post_event task) ->
  (0 < edges w f)%nat.
Proof.
  intros Ht Hf Hin. pose proof (map_sum_le (out_edges f) (tasks w) t task Ht) as Hle.
  unfold edges. unfold out_edges at 1 in Hle. rewrite Hf in Hle. pose proof (occ_pos f _ Hin). lia.
Qed.

Lemma edges_pos_event w x e f :
  events w !! x = Some e -> is_reached e = false -> f ∈ followers e -> (0 < edges w f)%nat.
Proof.
  intros Hx He Hin. pose proof (map_sum_le (ext_edges f) (events w) x e Hx) as Hle.
  unfold edges. unfold ext_edges at 1 in Hle. rewrite He in Hle. pose proof (occ_pos f _ Hin). lia.
Qed.

(** The followers of an external event stay targets. *)
Lemma events_mono w w' :
  events w' = events w -> (forall f, target w f -> target w' f) ->
  (forall x e, events w !! x = Some e -> state e = 0 \/ state e = 1 /\ forall f, f ∈ followers e -> target w f) ->
  forall x e, events w' !! x = Some e -> state e = 0 \/ state e = 1 /\ forall f, f ∈ followers e -> target w' f.
Proof.
  intros E Ht Hx x e He. rewrite E in He. destruct (Hx x e He) as [Hz | [Ho Hf]]; [left; exact Hz | right].
  split; [exact Ho |]. auto.
Qed.

(** ** The parts of a task a notification leaves alone *)

Record same_static task task' : Prop := {
  ss_user : user task' = user task;
  ss_space : space task' = space task;
  ss_children : children task' = children task;
  ss_followers : followers (post_event task') = followers (post_event task);
  ss_pre : is_running task = true -> is_running task' = true;
  ss_low : state (pre_event task') <= state (pre_event task);
  ss_post : is_finished task = true -> is_finished task' = true
}.

Lemma same_static_refl task : same_static task task.
Proof. constructor; auto. reflexivity. Qed.

Lemma same_static_trans a b c : same_static a b -> same_static b c -> same_static a c.
Proof. intros [] []. constructor; try congruence; auto. etransitivity; eassumption. Qed.

(** The entry at position [k] of resource [r] is one of task [t]'s. *)
Definition own_entry w (t r k : nat) : Prop :=
  exists task e, tasks w !! t = Some task /\ e ∈ unique_resources (user task) /\
    r_ptr (ue_resource e) = r /\ user_entry e = Some k.

(** What happens to the store between two points of a notification; [X] are the
    tasks whose removal may be under way. *)
Record Frame (X : nat -> Prop) (bpost : nat -> nat) w w' : Prop := {
  fr_tasks : forall t task', tasks w' !! t = Some task' ->
    exists task, tasks w !! t = Some task /\ same_static task task';
  fr_keep : forall t task, tasks w !! t = Some task -> is_finished task = true -> ~ X t ->
    exists task', tasks w' !! t = Some task' /\ removal_countdown task' = removal_countdown task;
  fr_gone : forall t, is_Some (tasks w !! t) -> tasks w' !! t = None -> bpost t = 0%nat;
  fr_users_sub : forall r e, e ∈ Entries.content (get_users r w') -> e ∈ Entries.content (get_users r w);
  fr_users_gone : forall r k x, (k, x) ∈ Entries.content (get_users r w) ->
    (k, x) ∉ Entries.content (get_users r w') ->
    exists t, own_entry w t r k /\ finished_in t w';
  fr_clean : forall t task e k x, tasks w !! t = Some task -> is_finished task = false -> ~ X t ->
    finished_in t w' -> e ∈ unique_resources (user task) -> user_entry e = Some k ->
    (k, x) ∉ Entries.content (get_users (r_ptr (ue_resource e)) w');
  fr_users_wf : forall r, Entries.wf (get_users r w) -> Entries.wf (get_users r w');
  fr_users_next : forall r, Entries.next_key (get_users r w') = Entries.next_key (get_users r w);
  fr_spaces : forall s, (fun sp => (depth sp, parent sp)) <$> spaces w' !! s
                      = (fun sp => (depth sp, parent sp)) <$> spaces w !! s;
  fr_events : events w' = events w
}.

Lemma finished_in_frame X bpost w w' t : Frame X bpost w w' -> finished_in t w -> finished_in t w'.
Proof.
  intros Hf Hfin task' Ht'. destruct (fr_tasks _ _ _ _ Hf t task' Ht') as (task & Ht & Hss).
  apply (ss_post _ _ Hss), Hfin, Ht.
Qed.

Lemma Frame_refl X bpost w : Frame X bpost w w.
Proof.
  constructor; auto.
  - intros t task' Ht. exists task'. split; [exact Ht | apply same_static_refl].
  - intros t task Ht _ _. eauto.
  - intros t [task Ht] E. congruence.
  - intros r k x Hin Hn. contradiction.
  - intros t task e k x Ht Hn _ Hfin. specialize (Hfin task Ht). congruence.
Qed.

Lemma Frame_trans X bpost w1 w2 w3 : Frame X bpost w1 w2 -> Frame X bpost w2 w3 -> Frame X bpost w1 w3.
Proof.
  intros H1 H2. constructor.
  - intros t task3 Ht3. destruct (fr_tasks _ _ _ _ H2 t task3 Ht3) as (task2 & Ht2 & Hs2).
    destruct (fr_tasks _ _ _ _ H1 t task2 Ht2) as (task1 & Ht1 & Hs1).
    exists task1. split; [exact Ht1 | eapply same_static_trans; eassumption].
  - intros t task Ht Hfin HX. destruct (fr_keep _ _ _ _ H1 t task Ht Hfin HX) as (task2 & Ht2 & E2).
    destruct (fr_tasks _ _ _ _ H1 t task2 Ht2) as (task1 & Ht1 & Hs1).
    assert (task1 = task) as -> by congruence.
    destruct (fr_keep _ _ _ _ H2 t task2 Ht2 (ss_post _ _ Hs1 Hfin) HX) as (task3 & Ht3 & E3).
    exists task3. split; [exact Ht3 | congruence].
  - intros t Hs Hn. destruct (tasks w2 !! t) as [task2 |] eqn:E2.
    + eapply (fr_gone _ _ _ _ H2); eauto.
    + eapply (fr_gone _ _ _ _ H1); eauto.
  - intros r e He. eapply fr_users_sub, fr_users_sub; eauto.
  - intros r k x Hin Hn. destruct (decide ((k, x) ∈ Entries.content (get_users r w2))) as [Hin2 | Hn2].
    + destruct (fr_users_gone _ _ _ _ H2 r k x Hin2 Hn) as (t & (task2 & e & Ht2 & He) & Hfin).
      destruct (fr_tasks _ _ _ _ H1 t task2 Ht2) as (task1 & Ht1 & Hs1).
      exists t. split; [| exact Hfin]. exists task1, e. rewrite <- (ss_user _ _ Hs1). auto.
    + destruct (fr_users_gone _ _ _ _ H1 r k x Hin Hn2) as (t & Ho & Hfin).
      exists t. split; [exact Ho |]. eapply finished_in_frame; eassumption.
  - intros t task e k x Ht Hn HX Hfin He Hk.
    destruct (tasks w2 !! t) as [task2 |] eqn:E2; [destruct (is_finished task2) eqn:Ef2 |].
    + intros Hin. apply (fr_users_sub _ _ _ _ H2) in Hin. revert Hin.
      eapply (fr_clean _ _ _ _ H1); eauto. intros y Hy. congruence.
    + destruct (fr_tasks _ _ _ _ H1 t task2 E2) as (task1 & Ht1 & Hs1).
      assert (task1 = task) as -> by congruence. rewrite <- (ss_user _ _ Hs1) in He.
      eapply (fr_clean _ _ _ _ H2); eauto.
    + intros Hin. apply (fr_users_sub _ _ _ _ H2) in Hin. revert Hin.
      eapply (fr_clean _ _ _ _ H1); eauto. intros y Hy. congruence.
  - intros r Hw. eapply fr_users_wf; [exact H2 |]. eapply fr_users_wf; eassumption.
  - intros r. rewrite (fr_users_next _ _ _ _ H2), (fr_users_next _ _ _ _ H1). reflexivity.
  - intros s. rewrite (fr_spaces _ _ _ _ H2), (fr_spaces _ _ _ _ H1). reflexivity.
  - rewrite (fr_events _ _ _ _ H2). apply (fr_events _ _ _ _ H1).
Qed.

(** Replacing one task by a version of it, everything else untouched. *)
Lemma Frame_put (X : nat -> Prop) bpost w t task task' cs :
  tasks w !! t = Some task -> same_static task task' ->
  (is_finished task = true -> ~ X t -> removal_countdown task' = removal_countdown task) ->
  (is_finished task' = true -> ~ X t -> is_finished task = true) ->
  Frame X bpost w (mkWorld (<[t := task']> (tasks w)) (events w) (spaces w) (users w) cs).
Proof.
  intros Ht Hss Hcd Hfn. constructor; simpl; auto.
  - intros t0 task0 Ht0. apply lookup_insert_Some in Ht0 as [(<- & <-) | (Hne & Ht0)]; [eauto |].
    exists task0. split; [exact Ht0 | apply same_static_refl].
  - intros t0 task0 Ht0 Hfin HX. destruct (decide (t = t0)) as [<- | Hne].
    + assert (task0 = task) as -> by congruence. exists task'. rewrite lookup_insert_eq. auto.
    + exists task0. rewrite lookup_insert_ne by exact Hne. auto.
  - intros t0 [x Hx] Hn. apply lookup_insert_None in Hn as [Hn _]. congruence.
  - intros r k x Hin Hn. contradiction.
  - intros t0 task0 e k x Ht0 Hn HX Hfin. exfalso. destruct (decide (t = t0)) as [<- | Hne].
    + assert (task0 = task) as -> by congruence.
      rewrite Hfn in Hn; [discriminate | apply Hfin; simpl; apply lookup_insert_eq | exact HX].
    + rewrite Hfin in Hn; [discriminate | simpl; rewrite lookup_insert_ne by exact Hne; exact Ht0].
Qed.

Lemma Frame_call X bpost w c : Frame X bpost w (call c w).
Proof.
  constructor; simpl; auto.
  - intros t task' Ht. exists task'. split; [exact Ht | apply same_static_refl].
  - intros t task Ht _ _. eauto.
  - intros t [task Ht] E. congruence.
  - intros r k x Hin Hn. contradiction.
  - intros t task e k x Ht Hn _ Hfin. rewrite (Hfin task Ht) in Hn. discriminate Hn.
Qed.

Lemma Inv_call bpre bpost w pend c : Inv bpre bpost w pend -> Inv bpre bpost (call c w) pend.
Proof. intros []. constructor; assumption. Qed.

(** [Inv] reads the tasks, the external events and which spaces exist. *)
Lemma Inv_ext bpre bpost w w' pend :
  tasks w' = tasks w -> events w' = events w -> (forall s, is_Some (spaces w !! s) -> is_Some (spaces w' !! s)) ->
  Inv bpre bpost w pend -> Inv bpre bpost w' pend.
Proof.
  intros Et Ev Es [I1 I2 I3 I4 I5 I6 I7 I8 I9 I10].
  assert (Ee : forall f, edges w' f = edges w f) by (intros f; unfold edges; rewrite Et, Ev; reflexivity).
  assert (Eg : forall f, target w f -> target w' f) by (intros f (t & Ht & Hf); exists t; rewrite Et; auto).
  constructor; rewrite ?Et; try assumption.
  - intros t task Ht. rewrite Ee. auto.
  - intros t task Ht. rewrite Ee. auto.
  - intros t task f Ht Hn Hf. apply Eg. eauto.
  - intros f Hf. apply Eg. auto.
  - intros t task Ht. destruct (I8 t task Ht) as (s & Hs & Hsp). eauto.
  - apply (events_mono w); assumption.
Qed.

(** Moving triggers between the tasks that owe them and the notifications due. *)
Lemma Inv_rebase bpre bpost bpre' bpost' w pend pend' :
  Inv bpre bpost w pend ->
  (forall t, is_Some (tasks w !! t) ->
     (bpre t + occ (get_pre_event t) pend = bpre' t + occ (get_pre_event t) pend')%nat /\
     (bpost t + occ (get_post_event t) pend = bpost' t + occ (get_post_event t) pend')%nat) ->
  (forall f, f ∈ pend' -> target w f) ->
  (forall t task, tasks w !! t = Some task -> bpost' t = 0%nat -> state (pre_event task) = 0) ->
  Inv bpre' bpost' w pend'.
Proof.
  intros [I1 I2 I3 I4 I5 I6 I7 I8 I9 I10] Hb Hp Hr. constructor; auto.
  - intros t task Ht. rewrite (I1 t task Ht). destruct (Hb t ltac:(eauto)). lia.
  - intros t task Ht. rewrite (I2 t task Ht). destruct (Hb t ltac:(eauto)). lia.
Qed.

(** ** Delivering one notification *)

Lemma edges_put w t task task' f cs :
  tasks w !! t = Some task ->
  (edges (mkWorld (<[t := task']> (tasks w)) (events w) (spaces w) (users w) cs) f + out_edges f t task
   = out_edges f t task' + edges w f)%nat.
Proof. intros Ht. pose proof (map_sum_insert (out_edges f) (tasks w) t task' task Ht). unfold edges. simpl. lia. Qed.

(** The event of task [t] that a pointer addresses, and the task with it replaced. *)
Lemma get_pre w t task :
  tasks w !! t = Some task -> get_event (get_pre_event t) w = Ok (pre_event task).
Proof. intros Ht. unfold get_event, get_pre_event, get_task. simpl. rewrite Ht. reflexivity. Qed.

Lemma get_post w t task :
  tasks w !! t = Some task -> get_event (get_post_event t) w = Ok (post_event task).
Proof. intros Ht. unfold get_event, get_post_event, get_task. simpl. rewrite Ht. reflexivity. Qed.

Lemma put_pre w t task e :
  tasks w !! t = Some task ->
  put_event (get_pre_event t) e w = Ok (put_task t (with_event T_EVT_PRE e task) w).
Proof. intros Ht. unfold put_event, get_pre_event, get_task. simpl. rewrite Ht. reflexivity. Qed.

Lemma put_post w t task e :
  tasks w !! t = Some task ->
  put_event (get_post_event t) e w = Ok (put_task t (with_event T_EVT_POST e task) w).
Proof. intros Ht. unfold put_event, get_post_event, get_task. simpl. rewrite Ht. reflexivity. Qed.

Lemma dn_state e : 0 < state e < 2 ^ 16 -> state (dn e) = state e - 1.
Proof. intros Hs. unfold dn. simpl. apply wrap_small. lia. Qed.

Lemma target_put w t task task' f cs :
  tasks w !! t = Some task -> target w f ->
  target (mkWorld (<[t := task']> (tasks w)) (events w) (spaces w) (users w) cs) f.
Proof.
  intros Ht (t0 & Hs & Hf). exists t0. split; [| exact Hf]. simpl.
  destruct (decide (t = t0)) as [<- | Hne].
  - rewrite lookup_insert_eq. eauto.
  - rewrite lookup_insert_ne by exact Hne. exact Hs.
Qed.

Lemma deliver_pre bpre bpost w t task pend :
  Inv bpre bpost w (get_pre_event t :: pend) -> tasks w !! t = Some task ->
  let task' := with_event T_EVT_PRE (dn (pre_event task)) task in
  0 < state (pre_event task) /\ state (pre_event task') = state (pre_event task) - 1 /\
  Inv bpre bpost (put_task t task' w) pend /\ same_static task task'.
Proof.
  intros HI Ht task'. pose proof (inv_pre _ _ _ _ HI t task Ht) as Epre.
  rewrite occ_cons, bool_decide_true in Epre by reflexivity.
  destruct (inv_small _ _ _ _ HI t task Ht) as [Hsm _].
  assert (Hpos : 0 < state (pre_event task)) by lia.
  assert (Est : state (pre_event task') = state (pre_event task) - 1) by (apply dn_state; lia).
  split; [exact Hpos |]. split; [exact Est |].
  assert (Ee : forall f, edges (put_task t task' w) f = edges w f).
  { intros f. pose proof (edges_put w t task task' f (calls w) Ht) as Hsum.
    change (out_edges f t task') with (out_edges f t task) in Hsum. unfold put_task. lia. }
  assert (Eo : forall f, f <> get_pre_event t ->
    occ f (get_pre_event t :: pend) = occ f pend).
  { intros f Hne. rewrite occ_cons, bool_decide_false by congruence. reflexivity. }
  destruct HI as [I1 I2 I3 I4 I5 I6 I7 I8 I9 I10]. split; [constructor |].
  - intros t0 task0 Ht0. rewrite Ee. simpl in Ht0.
    apply lookup_insert_Some in Ht0 as [(<- & <-) | (Hne & Ht0)]; [rewrite Est; lia |].
    rewrite (I1 t0 task0 Ht0), Eo by (intros E; injection E; congruence). reflexivity.
  - intros t0 task0 Ht0. rewrite Ee. simpl in Ht0.
    apply lookup_insert_Some in Ht0 as [(<- & <-) | (Hne & Ht0)].
    + simpl. rewrite (I2 t task Ht), Eo by discriminate. reflexivity.
    + rewrite (I2 t0 task0 Ht0), Eo by discriminate. reflexivity.
  - intros t0 task0 Ht0. simpl in Ht0.
    apply lookup_insert_Some in Ht0 as [(<- & <-) | (Hne & Ht0)]; [| eauto].
    rewrite Est. simpl. destruct (I3 t task Ht). lia.
  - intros t0 task0 f Ht0 Hf Hin. apply (target_put w t task task' f (calls w) Ht). simpl in Ht0.
    apply lookup_insert_Some in Ht0 as [(<- & <-) | (Hne & Ht0)]; eauto.
  - intros f Hin. apply (target_put w t task task' f (calls w) Ht). apply I5. right. exact Hin.
  - intros t0 task0 Ht0. simpl in Ht0.
    apply lookup_insert_Some in Ht0 as [(<- & <-) | (Hne & Ht0)]; [apply (I6 t task Ht) | eauto].
  - intros t0 task0 Ht0 Hb. simpl in Ht0.
    apply lookup_insert_Some in Ht0 as [(<- & <-) | (Hne & Ht0)]; [| eauto].
    specialize (I7 t task Ht Hb). lia.
  - intros t0 task0 Ht0. simpl in Ht0.
    apply lookup_insert_Some in Ht0 as [(<- & <-) | (Hne & Ht0)]; [apply (I8 t task Ht) | eauto].
  - intros t0 task0 Ht0. simpl in Ht0.
    apply lookup_insert_Some in Ht0 as [(<- & <-) | (Hne & Ht0)]; [apply (I9 t task Ht) | eauto].
  - apply (events_mono w); [reflexivity | intros f; apply (target_put w t task task' f (calls w) Ht) | exact I10].
  - constructor; try reflexivity; try (intros Hr; exact Hr).
    + unfold is_running, is_reached. intros Hr. lia.
    + lia.
Qed.

Lemma deliver_post bpre bpost w t task pend :
  Inv bpre bpost w (get_post_event t :: pend) -> tasks w !! t = Some task ->
  let task' := with_event T_EVT_POST (dn (post_event task)) task in
  let due := if state (post_event task) =? 1 then followers (post_event task) else [] in
  0 < state (post_event task) /\ state (post_event task') = state (post_event task) - 1 /\
  Inv bpre bpost (put_task t task' w) (due ++ pend) /\ same_static task task' /\
  (state (post_event task) = 1 -> bpost t = 0%nat).
Proof.
  intros HI Ht task' due. pose proof (inv_post _ _ _ _ HI t task Ht) as Epost.
  rewrite occ_cons, bool_decide_true in Epost by reflexivity.
  destruct (inv_small _ _ _ _ HI t task Ht) as [_ Hsm].
  assert (Hpos : 0 < state (post_event task)) by lia.
  assert (Est : state (post_event task') = state (post_event task) - 1) by (apply dn_state; lia).
  split; [exact Hpos |]. split; [exact Est |].
  assert (Hunf : is_finished task = false) by (unfold is_finished, is_reached; lia).
  assert (Hfin' : is_finished task' = (state (post_event task) =? 1)).
  { unfold is_finished, is_reached. rewrite Est. lia. }
  assert (Ee : forall f, (edges (put_task t task' w) f + occ f due = edges w f)%nat).
  { intros f. pose proof (edges_put w t task task' f (calls w) Ht) as Hsum. unfold put_task.
    assert (E1 : out_edges f t task = occ f (followers (post_event task)))
      by (unfold out_edges; rewrite Hunf; reflexivity).
    assert (E2 : out_edges f t task' = if state (post_event task) =? 1 then 0%nat
                                       else occ f (followers (post_event task)))
      by (unfold out_edges; rewrite Hfin'; reflexivity).
    unfold due. destruct (state (post_event task) =? 1); [| unfold occ at 1; simpl]; lia. }
  assert (Eo : forall f, f <> get_post_event t ->
    occ f (get_post_event t :: pend) = occ f pend).
  { intros f Hne. rewrite occ_cons, bool_decide_false by congruence. reflexivity. }
  destruct HI as [I1 I2 I3 I4 I5 I6 I7 I8 I9 I10]. split; [constructor | split].
  - intros t0 task0 Ht0. rewrite occ_app. pose proof (Ee (get_pre_event t0)). simpl in Ht0.
    apply lookup_insert_Some in Ht0 as [(<- & <-) | (Hne & Ht0)].
    + simpl. rewrite (I1 t task Ht), Eo by discriminate. lia.
    + rewrite (I1 t0 task0 Ht0), Eo by discriminate. lia.
  - intros t0 task0 Ht0. rewrite occ_app. pose proof (Ee (get_post_event t0)). simpl in Ht0.
    apply lookup_insert_Some in Ht0 as [(<- & <-) | (Hne & Ht0)]; [rewrite Est; lia |].
    rewrite (I2 t0 task0 Ht0), Eo by (intros E; injection E; congruence). lia.
  - intros t0 task0 Ht0. simpl in Ht0.
    apply lookup_insert_Some in Ht0 as [(<- & <-) | (Hne & Ht0)]; [| eauto].
    rewrite Est. simpl. destruct (I3 t task Ht). lia.
  - intros t0 task0 f Ht0 Hf Hin. apply (target_put w t task task' f (calls w) Ht). simpl in Ht0.
    apply lookup_insert_Some in Ht0 as [(<- & <-) | (Hne & Ht0)]; eauto.
  - intros f Hin. apply (target_put w t task task' f (calls w) Ht).
    apply elem_of_app in Hin as [Hin | Hin]; [| apply I5; right; exact Hin].
    unfold due in Hin. destruct (state (post_event task) =? 1); [eauto | inversion Hin].
  - intros t0 task0 Ht0. simpl in Ht0.
    apply lookup_insert_Some in Ht0 as [(<- & <-) | (Hne & Ht0)]; [apply (I6 t task Ht) | eauto].
  - intros t0 task0 Ht0 Hb. simpl in Ht0.
    apply lookup_insert_Some in Ht0 as [(<- & <-) | (Hne & Ht0)]; [apply (I7 t task Ht Hb) | eauto].
  - intros t0 task0 Ht0. simpl in Ht0.
    apply lookup_insert_Some in Ht0 as [(<- & <-) | (Hne & Ht0)]; [apply (I8 t task Ht) | eauto].
  - intros t0 task0 Ht0. simpl in Ht0.
    apply lookup_insert_Some in Ht0 as [(<- & <-) | (Hne & Ht0)]; [| eauto].
    destruct (I9 t task Ht) as [Hc Hr]. split; [exact Hc |]. intros Ec.
    destruct (Hr Ec) as [Hr' | Hr']; [congruence | right; exact Hr'].
  - apply (events_mono w); [reflexivity | intros f; apply (target_put w t task task' f (calls w) Ht) | exact I10].
  - constructor; try reflexivity; try (intros Hr; exact Hr). congruence.
  - lia.
Qed.

(** ** Leaving the resources and the space *)

Lemma get_users_put r p l w :
  get_users r (put_users p l w) = if decide (p = r) then l else get_users r w.
Proof.
  unfold get_users. simpl. destruct (decide (p = r)) as [<- | Hne].
  - rewrite lookup_insert_eq. reflexivity.
  - rewrite lookup_insert_ne by exact Hne. reflexivity.
Qed.

Lemma Frame_remove_user X bpost w t task e k :
  tasks w !! t = Some task -> is_finished task = true ->
  e ∈ unique_resources (user task) -> user_entry e = Some k ->
  Frame X bpost w (put_users (r_ptr (ue_resource e))
    (Entries.remove k (get_users (r_ptr (ue_resource e)) w)) w).
Proof.
  intros Ht Hfin He Hk. constructor; auto.
  - intros t0 task0 Ht0. exists task0. split; [exact Ht0 | apply same_static_refl].
  - intros t0 task0 Ht0 _ _. exists task0. auto.
  - intros t0 [x Hx] Hn. simpl in Hn. congruence.
  - intros r y. rewrite get_users_put. destruct (decide (r_ptr (ue_resource e) = r)) as [<- | Hne]; [| auto].
    destruct y as [j x]. rewrite Entries.elem_of_remove. tauto.
  - intros r j x Hin Hn. rewrite get_users_put in Hn.
    destruct (decide (r_ptr (ue_resource e) = r)) as [<- | Hne]; [| contradiction].
    rewrite Entries.elem_of_remove in Hn. assert (j = k) as -> by (apply dec_stable; tauto).
    exists t. split.
    + exists task, e. auto.
    + intros task0 Ht0. simpl in Ht0. congruence.
  - intros t0 task0 e0 k0 x Ht0 Hn _ Hfin0. rewrite (Hfin0 task0 Ht0) in Hn. discriminate Hn.
  - intros r Hw. rewrite get_users_put. destruct (decide (r_ptr (ue_resource e) = r)) as [<- | Hne]; [| auto].
    apply Entries.wf_remove, Hw.
  - intros r. rewrite get_users_put. destruct (decide (r_ptr (ue_resource e) = r)) as [<- | Hne]; reflexivity.
Qed.

Lemma remove_users_keeps l w :
  tasks (remove_users l w) = tasks w /\ spaces (remove_users l w) = spaces w /\ events (remove_users l w) = events w.
Proof.
  revert w. induction l as [| r l IH]; intros w; [auto |]. simpl.
  destruct (IH (match user_entry r with
                | Some k => put_users (r_ptr (ue_resource r))
                    (Entries.remove k (get_users (r_ptr (ue_resource r)) w)) w
                | None => w end)) as (-> & -> & ->).
  destruct (user_entry r); auto.
Qed.

Lemma Frame_remove_users X bpost l w t task :
  tasks w !! t = Some task -> is_finished task = true ->
  (forall e, e ∈ l -> e ∈ unique_resources (user task)) ->
  Frame X bpost w (remove_users l w).
Proof.
  revert w. induction l as [| e l IH]; intros w Ht Hfin Hsub; [apply Frame_refl |]. simpl.
  assert (He : e ∈ unique_resources (user task)) by (apply Hsub; left).
  destruct (user_entry e) as [k |] eqn:Ek.
  - eapply Frame_trans; [eapply Frame_remove_user; eassumption |].
    apply IH; [exact Ht | exact Hfin |]. intros e' He'. apply Hsub. right. exact He'.
  - apply IH; [exact Ht | exact Hfin |]. intros e' He'. apply Hsub. right. exact He'.
Qed.

(** A task whose post-event is reached has no edge left into its events. *)
Lemma no_edge_left bpre bpost w t task pend :
  Inv bpre bpost w pend -> tasks w !! t = Some task -> is_finished task = true ->
  edges w (get_pre_event t) = 0%nat /\ edges w (get_post_event t) = 0%nat /\
  (get_pre_event t ∉ pend) /\ (get_post_event t ∉ pend).
Proof.
  intros HI Ht Hfin. pose proof (inv_post _ _ _ _ HI t task Ht) as Epost.
  pose proof (inv_pre _ _ _ _ HI t task Ht) as Epre.
  unfold is_finished, is_reached in Hfin. assert (Eb : bpost t = 0%nat) by lia.
  pose proof (inv_run _ _ _ _ HI t task Ht Eb) as Erun.
  split; [lia |]. split; [lia |].
  split; intros Hin; apply occ_pos in Hin; lia.
Qed.

Lemma free_task_spec bpre bpost w pend s sp t task (X : nat -> Prop) :
  Inv bpre bpost w pend -> tasks w !! t = Some task -> is_finished task = true -> X t ->
  spaces w !! s = Some sp -> bpost t = 0%nat ->
  exists w', free_task s t w = Ok w' /\ Inv bpre bpost w' pend /\ Frame X bpost w w' /\
    tasks w' = delete t (tasks w).
Proof.
  intros HI Ht Hfin HX Hsp Hb. unfold free_task. rewrite Hsp. cbn [deref mbind res_bind].
  set (count := u32 (task_count sp - 1)).
  set (w1 := mkWorld (delete t (tasks w)) (events w) (<[s := mkSpace count (depth sp) (parent sp)]> (spaces w))
               (users w) (calls w)).
  assert (Hfree : exists cs, (if (count =? 0) && (depth sp =? 0)
      then call NotifyParser (call (Free t) w1) else call (Free t) w1)
    = mkWorld (tasks w1) (events w1) (spaces w1) (users w1) cs).
  { destruct (_ && _); eexists; reflexivity. }
  destruct Hfree as [cs Ecs].
  exists (mkWorld (tasks w1) (events w1) (spaces w1) (users w1) cs).
  split; [rewrite <- Ecs; reflexivity |].
  destruct (no_edge_left _ _ _ _ _ _ HI Ht Hfin) as (E1 & E2 & P1 & P2).
  assert (Ee : forall f, edges w1 f = edges w f).
  { intros f. unfold edges. simpl. rewrite (map_sum_delete (out_edges f) (tasks w) t task Ht).
    unfold out_edges at 2. rewrite Hfin. reflexivity. }
  assert (Hext : forall x e, events w1 !! x = Some e -> state e = 0 \/ state e = 1 /\ forall f, f ∈ followers e -> target w1 f).
  { intros x e Hx. destruct (inv_events _ _ _ _ HI x e Hx) as [Hz | [Ho Hf]]; [left; exact Hz | right].
    split; [exact Ho |]. intros f Hin.
    assert (Her : is_reached e = false) by (unfold is_reached; lia).
    pose proof (edges_pos_event w x e f Hx Her Hin) as Hpos.
    destruct (Hf f Hin) as (t0 & [y Hy] & Eq). exists t0. split; [| exact Eq]. exists y. simpl.
    rewrite lookup_delete_ne; [exact Hy |]. intros <-. destruct Eq as [-> | ->]; lia. }
  assert (Hkeep : forall t0 task0, tasks w1 !! t0 = Some task0 -> t0 <> t /\ tasks w !! t0 = Some task0).
  { intros t0 task0 Ht0. simpl in Ht0. apply lookup_delete_Some in Ht0 as [Hne Ht0]. auto. }
  assert (Htgt : forall f, target w f -> f <> get_pre_event t -> f <> get_post_event t -> target w1 f).
  { intros f (t0 & [x Hx] & Hf) N1 N2. exists t0. split; [| exact Hf].
    exists x. simpl. rewrite lookup_delete_ne; [exact Hx |]. intros <-. destruct Hf; congruence. }
  split; [| split; [| reflexivity]].
  - apply (Inv_ext _ _ w1); [reflexivity | reflexivity | auto |].
    destruct HI as [I1 I2 I3 I4 I5 I6 I7 I8 I9 I10]. constructor.
    + intros t0 task0 Ht0. apply Hkeep in Ht0 as [_ Ht0]. rewrite Ee. auto.
    + intros t0 task0 Ht0. apply Hkeep in Ht0 as [_ Ht0]. rewrite Ee. auto.
    + intros t0 task0 Ht0. apply Hkeep in Ht0 as [_ Ht0]. eauto.
    + intros t0 task0 f Ht0 Hn Hin. apply Hkeep in Ht0 as [_ Ht0].
      pose proof (edges_pos w t0 task0 f Ht0 Hn Hin).
      apply Htgt; [eauto | |]; intros ->; lia.
    + intros f Hin. apply Htgt; [auto | |]; intros ->; contradiction.
    + intros t0 task0 Ht0. apply Hkeep in Ht0 as [_ Ht0]. eauto.
    + intros t0 task0 Ht0. apply Hkeep in Ht0 as [_ Ht0]. eauto.
    + intros t0 task0 Ht0. apply Hkeep in Ht0 as [_ Ht0]. destruct (I8 t0 task0 Ht0) as (s0 & Hs0 & [x Hx]).
      exists s0. split; [exact Hs0 |]. simpl. destruct (decide (s = s0)) as [<- | Hne].
      * rewrite lookup_insert_eq. eauto.
      * rewrite lookup_insert_ne by exact Hne. eauto.
    + intros t0 task0 Ht0. apply Hkeep in Ht0 as [_ Ht0]. eauto.
    + exact Hext.
  - constructor; auto.
    + intros t0 task0 Ht0. apply Hkeep in Ht0 as [_ Ht0]. exists task0.
      split; [exact Ht0 | apply same_static_refl].
    + intros t0 task0 Ht0 _ HnX. exists task0. split; [| reflexivity]. simpl.
      rewrite lookup_delete_ne; [exact Ht0 |]. intros <-. contradiction.
    + intros t0 [x Hx] Hn. simpl in Hn. destruct (decide (t = t0)) as [<- | Hne]; [exact Hb |].
      rewrite lookup_delete_ne in Hn by exact Hne. congruence.
    + intros r k x Hin Hn. contradiction.
    + intros t0 task0 e k x Ht0 Hn HnX Hfin0. exfalso.
      rewrite Hfin0 in Hn; [discriminate |]. simpl. rewrite lookup_delete_ne; [exact Ht0 |].
      intros <-. contradiction.
    + intros s0. simpl. destruct (decide (s = s0)) as [<- | Hne].
      * rewrite lookup_insert_eq, Hsp. reflexivity.
      * rewrite lookup_insert_ne by exact Hne. reflexivity.
Qed.

(** ** notify *)

Lemma reached_after_spec bpre bpost w pend t task :
  Inv bpre bpost w pend -> tasks w !! t = Some task -> is_finished task = true -> bpost t = 0%nat ->
  exists w', reached_after (get_post_event t) t w = Ok w' /\ Inv bpre bpost w' pend /\
    Frame (fun t0 => t0 = t) bpost w w'.
Proof.
  intros HI Ht Hfin Hb. unfold reached_after, get_task. simpl bool_decide.
  rewrite Ht. cbn [deref mbind res_bind orb].
  destruct (inv_countdown _ _ _ _ HI t task Ht) as [Hc _].
  set (task1 := with_countdown (u8 (removal_countdown task - 1)) task).
  set (w1 := put_task t task1 w).
  assert (Hss : same_static task task1) by (constructor; auto; reflexivity).
  assert (HF1 : Frame (fun t0 => t0 = t) bpost w w1)
    by (apply (Frame_put _ bpost w t task task1 (calls w) Ht Hss); auto; intros _ Hn; exfalso; apply Hn; reflexivity).
  assert (Ht1 : tasks w1 !! t = Some task1) by (simpl; apply lookup_insert_eq).
  assert (Hget : forall t0 task0, tasks w1 !! t0 = Some task0 -> exists task00,
     tasks w !! t0 = Some task00 /\ pre_event task0 = pre_event task00 /\ post_event task0 = post_event task00 /\
     result_set_event task0 = result_set_event task00 /\ result_get_event task0 = result_get_event task00 /\
     space task0 = space task00 /\ (t0 <> t -> task0 = task00)).
  { intros t0 task0 Ht0. simpl in Ht0. apply lookup_insert_Some in Ht0 as [(<- & <-) | (Hne & Ht0)].
    - exists task. repeat split; try assumption; try reflexivity. congruence.
    - exists task0. repeat split. exact Ht0. }
  assert (Ee : forall f, edges w1 f = edges w f).
  { intros f. pose proof (edges_put w t task task1 f (calls w) Ht) as Hsum.
    change (out_edges f t task1) with (out_edges f t task) in Hsum. unfold w1, put_task. lia. }
  assert (HI1 : 1 < removal_countdown task -> Inv bpre bpost w1 pend).
  { intros Hgt. destruct HI as [I1 I2 I3 I4 I5 I6 I7 I8 I9 I10].
    assert (Htgt : forall f, target w f -> target w1 f)
      by (intros f; apply (target_put w t task task1 f (calls w) Ht)).
    constructor.
    - intros t0 task0 Ht0. apply Hget in Ht0 as (x & Hx & -> & _). rewrite Ee. auto.
    - intros t0 task0 Ht0. apply Hget in Ht0 as (x & Hx & _ & -> & _). rewrite Ee. auto.
    - intros t0 task0 Ht0. apply Hget in Ht0 as (x & Hx & -> & -> & _). eauto.
    - intros t0 task0 f Ht0 Hn Hin. apply Hget in Ht0 as (x & Hx & _ & E & _).
      unfold is_finished in Hn. rewrite E in Hn, Hin. eauto.
    - auto.
    - intros t0 task0 Ht0. apply Hget in Ht0 as (x & Hx & -> & _ & -> & -> & _). eauto.
    - intros t0 task0 Ht0. apply Hget in Ht0 as (x & Hx & -> & _). eauto.
    - intros t0 task0 Ht0. apply Hget in Ht0 as (x & Hx & _ & _ & _ & _ & -> & _). eauto.
    - intros t0 task0 Ht0. destruct (decide (t0 = t)) as [-> | Hne].
      + rewrite Ht1 in Ht0. injection Ht0 as <-. simpl. rewrite wrap_small by lia.
        split; [lia |]. intros _. left. exact Hfin.
      + apply Hget in Ht0 as (x & Hx & _ & _ & _ & _ & _ & E). rewrite (E Hne). eauto.
    - apply (events_mono w); [reflexivity | exact Htgt | exact I10]. }
  destruct (Z.eqb_spec (removal_countdown task) 1) as [E1 | Hne1].
  - destruct (inv_space _ _ _ _ HI t task Ht) as (s & Es & [sp Hsp]). rewrite Es. cbn [deref mbind res_bind].
    destruct (free_task_spec bpre bpost w pend s sp t task (fun t0 => t0 = t) HI Ht Hfin eq_refl Hsp Hb)
      as (w' & Hfree & HI' & HF & Etasks).
    assert (Eq : exists cs, free_task s t w1 = Ok (mkWorld (tasks w') (events w') (spaces w') (users w') cs)).
    { revert Hfree. unfold free_task, w1, put_task. simpl. rewrite Hsp. cbn [deref mbind res_bind].
      intros Hfree. injection Hfree as <-. rewrite delete_insert_eq.
      destruct (_ && _); eexists; reflexivity. }
    destruct Eq as [cs Ecs]. fold w1. rewrite Ecs. eexists. split; [reflexivity |]. split.
    + eapply Inv_ext; [| | | exact HI']; [reflexivity | reflexivity | auto].
    + eapply Frame_trans; [exact HF |]. constructor; auto.
      * intros t0 task0 Ht0. exists task0. split; [exact Ht0 | apply same_static_refl].
      * intros t0 task0 Ht0 _ _. exists task0. auto.
      * intros t0 [x Hx] Hn. simpl in Hn. congruence.
      * intros r k x Hin Hn. contradiction.
      * intros t0 task0 e k x Ht0 Hn _ Hfin0. rewrite (Hfin0 task0 Ht0) in Hn. discriminate Hn.
  - fold w1. exists w1. split; [reflexivity |]. split; [apply HI1; lia | exact HF1].
Qed.

(** The calls made on the way do not matter to the invariant. *)
Definition with_calls (c1 c2 : bool) t wk w : World RA :=
  let w := if c1 then call (Wake t wk) w else w in if c2 then call (Activate t) w else w.

Lemma with_calls_facts X bpre bpost c1 c2 t wk w pend :
  tasks (with_calls c1 c2 t wk w) = tasks w /\
  Frame X bpost w (with_calls c1 c2 t wk w) /\
  (Inv bpre bpost w pend -> Inv bpre bpost (with_calls c1 c2 t wk w) pend).
Proof.
  unfold with_calls. destruct c1, c2; (split; [reflexivity | split]); auto using Frame_refl, Frame_call, Inv_call.
  eapply Frame_trans; apply Frame_call.
Qed.

(** [P w r]: the call returned, delivered the notification, and kept the frame. *)
Definition delivers bpre bpost w pend (r : res (bool * World RA)) : Prop :=
  exists b w', r = Ok (b, w') /\ Inv bpre bpost w' pend /\ Frame (fun _ => False) bpost w w'.

Lemma notify_all_spec bpre bpost fuel :
  (forall p w pend claimed, (total w < fuel)%nat -> Inv bpre bpost w (p :: pend) ->
     delivers bpre bpost w pend (notify fuel p claimed w)) ->
  forall l w pend, (total w < fuel)%nat -> Inv bpre bpost w (l ++ pend) ->
  exists w', notify_all fuel l w = Ok w' /\ Inv bpre bpost w' pend /\ Frame (fun _ => False) bpost w w'.
Proof.
  intros IH. induction l as [| f l IHl]; intros w pend Hf HI.
  - exists w. split; [reflexivity |]. split; [exact HI | apply Frame_refl].
  - destruct (IH f w (l ++ pend) false Hf HI) as (b & w1 & E & HI1 & HF1).
    destruct (notify_total fuel f false w Hf) as [_ Hlt]. specialize (Hlt b w1 E).
    destruct (IHl w1 pend ltac:(lia) HI1) as (w2 & E2 & HI2 & HF2).
    exists w2. simpl. rewrite E. cbn [mbind res_bind]. split; [exact E2 |].
    split; [exact HI2 | eapply Frame_trans; eassumption].
Qed.

Lemma Frame_weaken (X Y : nat -> Prop) bpost w w' :
  (forall t, X t -> Y t) -> Frame X bpost w w' -> Frame Y bpost w w'.
Proof.
  intros HXY []. constructor; auto.
  intros t task e k x Ht Hn HY. apply fr_clean0; auto.
Qed.

(** A task exempt from the frame that was not finished at the start is none. *)
Lemma Frame_unfinished bpost w w' t task :
  tasks w !! t = Some task -> is_finished task = false ->
  (forall e k x, e ∈ unique_resources (user task) -> user_entry e = Some k ->
     (k, x) ∉ Entries.content (get_users (r_ptr (ue_resource e)) w')) ->
  Frame (fun t0 => t0 = t) bpost w w' -> Frame (fun _ => False) bpost w w'.
Proof.
  intros Ht Hn Hcl []. constructor; auto.
  - intros t0 task0 Ht0 Hfin _. apply fr_keep0; [exact Ht0 | exact Hfin |]. intros ->. congruence.
  - intros t0 task0 e k x Ht0 Hn0 _ Hfin He Hk. destruct (decide (t0 = t)) as [-> | Hne].
    + assert (task0 = task) as -> by congruence. eauto.
    + eapply fr_clean0; eassumption.
Qed.

Lemma remove_users_clean l w e k x :
  e ∈ l -> user_entry e = Some k ->
  (k, x) ∉ Entries.content (get_users (r_ptr (ue_resource e)) (remove_users l w)).
Proof.
  assert (Hsub : forall l w r y, y ∈ Entries.content (get_users r (remove_users l w)) ->
    y ∈ Entries.content (get_users r w)).
  { clear. intros l. induction l as [| f l IH]; intros w r y Hy; [exact Hy |]. simpl in Hy.
    apply IH in Hy. destruct (user_entry f) as [j |]; [| exact Hy]. rewrite get_users_put in Hy.
    destruct (decide (r_ptr (ue_resource f) = r)) as [<- | Hne]; [| exact Hy].
    destruct y as [i z]. apply Entries.elem_of_remove in Hy. tauto. }
  revert w. induction l as [| f l IH]; intros w He Hk; [inversion He |]. simpl.
  apply elem_of_cons in He as [-> | He]; [| apply IH; assumption].
  rewrite Hk. intros Hin. apply Hsub in Hin. rewrite get_users_put, decide_True in Hin by reflexivity.
  apply Entries.elem_of_remove in Hin. tauto.
Qed.

Lemma notify_pre_spec bpre bpost fuel t w pend claimed :
  Inv bpre bpost w (get_pre_event t :: pend) ->
  delivers bpre bpost w pend (notify (S fuel) (get_pre_event t) claimed w).
Proof.
  intros HI. assert (exists task, tasks w !! t = Some task) as [task Ht].
  { destruct (inv_pend _ _ _ _ HI (get_pre_event t) ltac:(left)) as (t0 & [x Hx] & [E | E]);
      [injection E as -> | discriminate E]. eauto. }
  destruct (deliver_pre _ _ _ _ _ _ HI Ht) as (Hpos & Est & HI1 & Hss).
  rewrite notify_S, (get_pre w t task Ht). cbn [mbind res_bind].
  rewrite (put_pre w t task _ Ht). cbn [mbind res_bind].
  set (w1 := put_task t (with_event T_EVT_PRE (dn (pre_event task)) task) w) in *.
  replace (0 <? state (pre_event task)) with true by lia. cbn [cpp_assert mbind res_bind].
  assert (HF1 : Frame (fun _ => False) bpost w w1)
    by (apply (Frame_put _ _ w t task _ (calls w) Ht Hss); auto).
  destruct (1 <? state (pre_event task) - 1).
  { exists false, w1. auto. }
  cbn [ep_task get_pre_event deref mbind res_bind].
  set (c2 := bool_decide (tag (get_pre_event t) = T_EVT_PRE) && (state (pre_event task) - 1 =? 1)
             && negb claimed).
  destruct (with_calls_facts (fun _ => False) bpre bpost (0 <=? waker_id (pre_event task)) c2 t
      (waker_id (pre_event task)) w1 pend) as (Et & HF2 & HI2).
  fold (with_calls (0 <=? waker_id (pre_event task)) c2 t (waker_id (pre_event task)) w1).
  set (w2 := with_calls (0 <=? waker_id (pre_event task)) c2 t (waker_id (pre_event task)) w1) in *.
  specialize (HI2 HI1).
  assert (Hdone : delivers bpre bpost w pend (Ok (state (pre_event task) - 1 =? 1, w2))).
  { eexists _, w2. split; [reflexivity |]. split; [exact HI2 | eapply Frame_trans; eassumption]. }
  destruct (state (pre_event task) - 1 =? 0); [| exact Hdone].
  unfold reached_before, reached_after. simpl bool_decide. cbn [mbind res_bind andb orb].
  destruct (inv_leaf _ _ _ _ HI t task Ht) as (-> & _). cbn [notify_all mbind res_bind].
  exact Hdone.
Qed.

Lemma notify_post_spec bpre bpost fuel t w pend claimed :
  (forall p w pend claimed, (total w < fuel)%nat -> Inv bpre bpost w (p :: pend) ->
     delivers bpre bpost w pend (notify fuel p claimed w)) ->
  (total w < S fuel)%nat -> Inv bpre bpost w (get_post_event t :: pend) ->
  delivers bpre bpost w pend (notify (S fuel) (get_post_event t) claimed w).
Proof.
  intros IH Hf HI. assert (exists task, tasks w !! t = Some task) as [task Ht].
  { destruct (inv_pend _ _ _ _ HI (get_post_event t) ltac:(left)) as (t0 & [x Hx] & [E | E]);
      [discriminate E | injection E as ->]. eauto. }
  destruct (deliver_post _ _ _ _ _ _ HI Ht) as (Hpos & Est & HI1 & Hss & Hb).
  rewrite notify_S, (get_post w t task Ht). cbn [mbind res_bind].
  rewrite (put_post w t task _ Ht). cbn [mbind res_bind].
  pose proof (put_dn_total (get_post_event t) (post_event task) w _
    (get_post w t task Ht) (put_post w t task _ Ht) Hpos) as Hlt.
  set (task1 := with_event T_EVT_POST (dn (post_event task)) task) in *.
  set (w1 := put_task t task1 w) in *.
  replace (0 <? state (post_event task)) with true by lia. cbn [cpp_assert mbind res_bind].
  assert (Ht1 : tasks w1 !! t = Some task1) by (simpl; apply lookup_insert_eq).
  assert (Hunf : is_finished task = false) by (unfold is_finished, is_reached; lia).
  assert (HF1 : state (post_event task) <> 1 -> Frame (fun _ => False) bpost w w1).
  { intros Hne. apply (Frame_put _ _ w t task _ (calls w) Ht Hss); [auto |].
    unfold is_finished, is_reached. fold task1. rewrite Est. lia. }
  destruct (Z.ltb_spec 1 (state (post_event task) - 1)) as [Hbig | Hsmall].
  { specialize (HF1 ltac:(lia)). exists false, w1. replace (state (post_event task) =? 1) with false in HI1 by lia. auto. }
  cbn [ep_task get_post_event deref mbind res_bind].
  set (c2 := bool_decide (tag (get_post_event t) = T_EVT_PRE) && (state (post_event task) - 1 =? 1)
             && negb claimed).
  destruct (with_calls_facts (fun _ => False) bpre bpost (0 <=? waker_id (post_event task)) c2 t
      (waker_id (post_event task)) w1
      ((if state (post_event task) =? 1 then followers (post_event task) else []) ++ pend))
      as (Et & HF2 & HI2).
  fold (with_calls (0 <=? waker_id (post_event task)) c2 t (waker_id (post_event task)) w1).
  set (w2 := with_calls (0 <=? waker_id (post_event task)) c2 t (waker_id (post_event task)) w1) in *.
  assert (E2 : total w2 = total w1).
  { unfold w2, with_calls. destruct c2, (0 <=? _); reflexivity. }
  specialize (HI2 HI1). rewrite <- Et in Ht1.
  destruct (Z.eqb_spec (state (post_event task)) 1) as [E1 | Hne1].
  2: { replace (state (post_event task) - 1 =? 0) with false by lia.
       eexists _, w2. split; [reflexivity |]. split; [exact HI2 |].
       eapply Frame_trans; [apply HF1, Hne1 | exact HF2]. }
  replace (state (post_event task) - 1 =? 0) with true by lia.
  assert (Hfin1 : is_finished task1 = true) by (unfold is_finished, is_reached; lia).
  unfold reached_before, delete_from_resources, get_task. simpl bool_decide.
  rewrite Ht1. cbn [deref mbind res_bind andb].
  set (w3 := remove_users (unique_resources (user task1)) w2).
  destruct (remove_users_keeps (unique_resources (user task1)) w2) as (Et3 & Es3 & Ev3). fold w3 in Et3, Es3, Ev3.
  assert (HF3 : Frame (fun _ => False) bpost w2 w3)
    by (eapply Frame_remove_users; [exact Ht1 | exact Hfin1 | auto]).
  assert (HI3 : Inv bpre bpost w3 (followers (post_event task) ++ pend)).
  { eapply Inv_ext; [exact Et3 | exact Ev3 | | exact HI2]. intros s Hs. rewrite Es3. exact Hs. }
  assert (E3 : total w3 = total w2) by apply remove_users_total.
  destruct (notify_all_spec bpre bpost fuel IH (followers (post_event task)) w3 pend ltac:(lia) HI3)
    as (w4 & En & HI4 & HF4).
  rewrite En. cbn [mbind res_bind].
  rewrite <- Et3 in Ht1.
  destruct (fr_keep _ _ _ _ HF4 t task1 Ht1 Hfin1 (fun X => X)) as (task4 & Ht4 & _).
  assert (Hfin4 : is_finished task4 = true).
  { destruct (fr_tasks _ _ _ _ HF4 t task4 Ht4) as (x & Hx & Hss4).
    assert (x = task1) as -> by congruence. apply (ss_post _ _ Hss4), Hfin1. }
  destruct (reached_after_spec bpre bpost w4 pend t task4 HI4 Ht4 Hfin4 (Hb E1))
    as (w5 & Ea & HI5 & HF5).
  rewrite Ea. cbn [mbind res_bind].
  eexists _, w5. split; [reflexivity |]. split; [exact HI5 |].
  eapply Frame_unfinished; [exact Ht | exact Hunf | |].
  - intros e k x He Hk Hin. apply (fr_users_sub _ _ _ _ HF5) in Hin.
    apply (fr_users_sub _ _ _ _ HF4) in Hin. revert Hin. apply remove_users_clean; assumption.
  - assert (HX : forall t0, False -> t0 = t) by tauto.
    eapply Frame_trans; [apply (Frame_put _ _ w t task _ (calls w) Ht Hss); [congruence | tauto] |].
    eapply Frame_trans; [eapply Frame_weaken; [exact HX | exact HF2] |].
    eapply Frame_trans; [eapply Frame_weaken; [exact HX | exact HF3] |].
    eapply Frame_trans; [eapply Frame_weaken; [exact HX | exact HF4] | exact HF5].
Qed.

Lemma notify_spec bpre bpost fuel p w pend claimed :
  (total w < fuel)%nat -> Inv bpre bpost w (p :: pend) ->
  delivers bpre bpost w pend (notify fuel p claimed w).
Proof.
  revert p w pend claimed. induction fuel as [| fuel IH]; intros p w pend claimed Hf HI; [lia |].
  destruct (inv_pend _ _ _ _ HI p ltac:(left)) as (t & _ & [-> | ->]).
  - apply notify_pre_spec, HI.
  - apply notify_post_spec; assumption.
Qed.

(** ** The result events *)

(** A frame that says nothing about the removal of finished tasks. *)
Record SFrame (bpost : nat -> nat) w w' : Prop := {
  sf_tasks : forall t task', tasks w' !! t = Some task' ->
    exists task, tasks w !! t = Some task /\ same_static task task';
  sf_gone : forall t, is_Some (tasks w !! t) -> tasks w' !! t = None -> bpost t = 0%nat;
  sf_users_sub : forall r e, e ∈ Entries.content (get_users r w') -> e ∈ Entries.content (get_users r w);
  sf_users_gone : forall r k x, (k, x) ∈ Entries.content (get_users r w) ->
    (k, x) ∉ Entries.content (get_users r w') ->
    exists t, own_entry w t r k /\ finished_in t w';
  sf_clean : forall t task e k x, tasks w !! t = Some task -> is_finished task = false ->
    finished_in t w' -> e ∈ unique_resources (user task) -> user_entry e = Some k ->
    (k, x) ∉ Entries.content (get_users (r_ptr (ue_resource e)) w');
  sf_users_wf : forall r, Entries.wf (get_users r w) -> Entries.wf (get_users r w');
  sf_users_next : forall r, Entries.next_key (get_users r w') = Entries.next_key (get_users r w);
  sf_spaces : forall s, (fun sp => (depth sp, parent sp)) <$> spaces w' !! s
                      = (fun sp => (depth sp, parent sp)) <$> spaces w !! s;
  sf_events : events w' = events w
}.

Lemma Frame_SFrame bpost w w' : Frame (fun _ => False) bpost w w' -> SFrame bpost w w'.
Proof.
  intros []. constructor; auto. intros t task e k x Ht Hn. eapply fr_clean0; eauto.
Qed.

(** Removing a finished task keeps the frame. *)
Lemma Frame_finished bpost w w' t :
  (forall task, tasks w !! t = Some task -> is_finished task = false -> ~ finished_in t w') ->
  Frame (fun t0 => t0 = t) bpost w w' -> SFrame bpost w w'.
Proof.
  intros Hn []. constructor; auto. intros t0 task0 e k x Ht0 Hn0 Hfin He Hk.
  destruct (decide (t0 = t)) as [-> | Hne]; [exfalso; eapply Hn; eassumption |].
  eapply fr_clean0; eassumption.
Qed.

Lemma put_result bpre bpost w pend t task g e' :
  Inv bpre bpost w pend -> tasks w !! t = Some task -> g = T_EVT_RES_SET \/ g = T_EVT_RES_GET ->
  followers e' = [] -> (g = T_EVT_RES_GET -> is_reached (result_get_event task) = false) ->
  let task' := with_event g e' task in
  Inv bpre bpost (put_task t task' w) pend /\ same_static task task'.
Proof.
  intros HI Ht Hg He Hr task'.
  assert (Epre : pre_event task' = pre_event task) by (destruct Hg as [-> | ->]; reflexivity).
  assert (Epost : post_event task' = post_event task) by (destruct Hg as [-> | ->]; reflexivity).
  assert (Ee : forall f, edges (put_task t task' w) f = edges w f).
  { intros f. pose proof (edges_put w t task task' f (calls w) Ht) as Hsum.
    assert (E0 : out_edges f t task' = out_edges f t task)
      by (unfold out_edges, is_finished; rewrite Epost; reflexivity).
    unfold put_task. lia. }
  assert (Htgt : forall f, target w f -> target (put_task t task' w) f)
    by (intros f; apply (target_put w t task task' f (calls w) Ht)).
  destruct HI as [I1 I2 I3 I4 I5 I6 I7 I8 I9 I10]. split; [constructor |].
  - intros t0 task0 Ht0. rewrite Ee. simpl in Ht0.
    apply lookup_insert_Some in Ht0 as [(<- & <-) | (Hne & Ht0)]; [rewrite Epre |]; auto.
  - intros t0 task0 Ht0. rewrite Ee. simpl in Ht0.
    apply lookup_insert_Some in Ht0 as [(<- & <-) | (Hne & Ht0)]; [rewrite Epost |]; auto.
  - intros t0 task0 Ht0. simpl in Ht0.
    apply lookup_insert_Some in Ht0 as [(<- & <-) | (Hne & Ht0)]; [rewrite Epre, Epost |]; eauto.
  - intros t0 task0 f Ht0 Hn Hin. apply Htgt. simpl in Ht0.
    apply lookup_insert_Some in Ht0 as [(<- & <-) | (Hne & Ht0)]; [| eauto].
    unfold is_finished in Hn. rewrite Epost in *. eauto.
  - auto.
  - intros t0 task0 Ht0. simpl in Ht0.
    apply lookup_insert_Some in Ht0 as [(<- & <-) | (Hne & Ht0)]; [| eauto].
    destruct (I6 t task Ht) as (H1 & H2 & H3). rewrite Epre.
    destruct Hg as [-> | ->]; simpl; auto.
  - intros t0 task0 Ht0. simpl in Ht0.
    apply lookup_insert_Some in Ht0 as [(<- & <-) | (Hne & Ht0)]; [rewrite Epre |]; eauto.
  - intros t0 task0 Ht0. simpl in Ht0.
    apply lookup_insert_Some in Ht0 as [(<- & <-) | (Hne & Ht0)]; [apply (I8 t task Ht) | eauto].
  - intros t0 task0 Ht0. simpl in Ht0.
    apply lookup_insert_Some in Ht0 as [(<- & <-) | (Hne & Ht0)]; [| eauto].
    destruct (I9 t task Ht) as [Hc Hcr]. split; [exact Hc |]. intros Ec. simpl in Ec.
    unfold is_finished. rewrite Epost. destruct (Hcr Ec) as [Hf | Hget]; [left; exact Hf |].
    destruct Hg as [-> | ->]; [right; exact Hget |]. rewrite Hr in Hget by reflexivity. discriminate Hget.
  - apply (events_mono w); [reflexivity | exact Htgt | exact I10].
  - constructor; try (destruct Hg as [-> | ->]; reflexivity); unfold is_running, is_finished; rewrite ?Epre, ?Epost; auto; reflexivity.
Qed.

Definition result_spec bpre bpost w (r : res (bool * World RA)) : Prop :=
  exists b w', r = Ok (b, w') /\ Inv bpre bpost w' [] /\ SFrame bpost w w'.

Lemma notify_result_set_spec bpre bpost fuel w t task :
  Inv bpre bpost w [] -> tasks w !! t = Some task -> state (result_set_event task) = 1 ->
  result_spec bpre bpost w (notify (S fuel) (get_result_set_event t) false w).
Proof.
  intros HI Ht Hs. destruct (inv_leaf _ _ _ _ HI t task Ht) as (_ & Hl & _).
  destruct (put_result bpre bpost w [] t task T_EVT_RES_SET (dn (result_set_event task)) HI Ht
    ltac:(auto) Hl ltac:(discriminate)) as (HI1 & Hss).
  assert (Eg : get_event (get_result_set_event t) w = Ok (result_set_event task))
    by (unfold get_event, get_task; simpl; rewrite Ht; reflexivity).
  assert (Ep : forall e, put_event (get_result_set_event t) e w = Ok (put_task t (with_event T_EVT_RES_SET e task) w))
    by (intros e; unfold put_event, get_task; simpl; rewrite Ht; reflexivity).
  rewrite notify_S, Eg. cbn [mbind res_bind]. rewrite Ep. cbn [mbind res_bind].
  rewrite Hs. cbn [cpp_assert mbind res_bind]. change (0 <? 1) with true. change (1 <? 1 - 1) with false.
  change (1 - 1 =? 0) with true. change (1 - 1 =? 1) with false. cbn [cpp_assert mbind res_bind andb].
  rewrite Hl. unfold reached_before, reached_after. simpl bool_decide. cbn [orb notify_all mbind res_bind].
  set (w1 := put_task t (with_event T_EVT_RES_SET (dn (result_set_event task)) task) w) in *.
  assert (HF1 : Frame (fun _ => False) bpost w w1)
    by (apply (Frame_put _ _ w t task _ (calls w) Ht Hss); auto).
  eexists _, _. split; [reflexivity |].
  destruct (0 <=? waker_id (result_set_event task)), (_ && _); (split;
    [repeat apply Inv_call; exact HI1
    | apply Frame_SFrame; repeat (eapply Frame_trans; [| apply Frame_call]); exact HF1]).
Qed.

Lemma reached_after_get bpre bpost w t task :
  Inv bpre bpost w [] -> tasks w !! t = Some task -> is_reached (result_get_event task) = true ->
  (removal_countdown task = 1 -> is_finished task = true) ->
  exists w', reached_after (get_result_get_event t) t w = Ok w' /\ Inv bpre bpost w' [] /\
    Frame (fun t0 => t0 = t) bpost w w' /\ (is_finished task = false -> ~ finished_in t w').
Proof.
  intros HI Ht Hr Hone. unfold reached_after, get_task. simpl bool_decide. rewrite Ht.
  cbn [deref mbind res_bind orb]. destruct (inv_countdown _ _ _ _ HI t task Ht) as [Hc _].
  set (task1 := with_countdown (u8 (removal_countdown task - 1)) task).
  destruct (Z.eqb_spec (removal_countdown task) 1) as [E1 | Hne1].
  - specialize (Hone E1). destruct (inv_space _ _ _ _ HI t task Ht) as (s & Es & [sp Hsp]).
    rewrite Es. cbn [deref mbind res_bind].
    assert (Hb : bpost t = 0%nat).
    { pose proof (inv_post _ _ _ _ HI t task Ht) as E. unfold is_finished, is_reached in Hone. lia. }
    destruct (free_task_spec bpre bpost w [] s sp t task (fun t0 => t0 = t) HI Ht Hone eq_refl Hsp Hb)
      as (w' & Hfree & HI' & HF & Etasks).
    assert (Eq : free_task s t (put_task t task1 w) = free_task s t w).
    { unfold free_task, put_task, put_space. simpl. rewrite delete_insert_eq. reflexivity. }
    rewrite Eq. exists w'. split; [exact Hfree |]. split; [exact HI' |]. split; [exact HF | congruence].
  - assert (Hss : same_static task task1) by (constructor; auto; reflexivity).
    exists (put_task t task1 w). split; [reflexivity |].
    assert (Ee : forall f, edges (put_task t task1 w) f = edges w f).
    { intros f. pose proof (edges_put w t task task1 f (calls w) Ht) as Hsum.
      change (out_edges f t task1) with (out_edges f t task) in Hsum. unfold put_task. lia. }
    split; [| split].
    + assert (Htgt : forall f, target w f -> target (put_task t task1 w) f)
        by (intros f; apply (target_put w t task task1 f (calls w) Ht)).
      destruct HI as [I1 I2 I3 I4 I5 I6 I7 I8 I9 I10]. constructor;
        [intros t0 task0 Ht0; rewrite Ee | intros t0 task0 Ht0; rewrite Ee | intros t0 task0 Ht0
        | intros t0 task0 f Ht0 Hn Hin; apply Htgt | auto | intros t0 task0 Ht0 | intros t0 task0 Ht0
        | intros t0 task0 Ht0 | intros t0 task0 Ht0 | apply (events_mono w); [reflexivity | exact Htgt | exact I10]]; simpl in Ht0;
        apply lookup_insert_Some in Ht0 as [(<- & <-) | (Hne & Ht0)]; eauto.
      * apply (I1 t task Ht).
      * apply (I2 t task Ht).
      * apply (I3 t task Ht).
      * apply (I6 t task Ht).
      * apply (I7 t task Ht).
      * apply (I8 t task Ht).
      * simpl. rewrite wrap_small by lia. split; [lia |]. intros _. right. exact Hr.
    + apply (Frame_put _ _ w t task task1 (calls w) Ht Hss); auto.
      intros _ Hn. exfalso. apply Hn. reflexivity.
    + intros Hn Hfin. specialize (Hfin task1 (lookup_insert_eq _ _ _)).
      change (is_finished task1) with (is_finished task) in Hfin. congruence.
Qed.

Lemma notify_result_get_spec bpre bpost fuel w t task :
  Inv bpre bpost w [] -> tasks w !! t = Some task -> state (result_get_event task) = 1 ->
  result_spec bpre bpost w (notify (S fuel) (get_result_get_event t) false w).
Proof.
  intros HI Ht Hs. destruct (inv_leaf _ _ _ _ HI t task Ht) as (_ & _ & Hl).
  assert (Hnr : is_reached (result_get_event task) = false) by (unfold is_reached; rewrite Hs; reflexivity).
  set (task1 := with_event T_EVT_RES_GET (dn (result_get_event task)) task).
  destruct (put_result bpre bpost w [] t task T_EVT_RES_GET (dn (result_get_event task)) HI Ht
    ltac:(auto) Hl ltac:(auto)) as (HI1 & Hss). fold task1 in HI1, Hss.
  assert (Eg : get_event (get_result_get_event t) w = Ok (result_get_event task))
    by (unfold get_event, get_task; simpl; rewrite Ht; reflexivity).
  assert (Ep : forall e, put_event (get_result_get_event t) e w = Ok (put_task t (with_event T_EVT_RES_GET e task) w))
    by (intros e; unfold put_event, get_task; simpl; rewrite Ht; reflexivity).
  rewrite notify_S, Eg. cbn [mbind res_bind]. rewrite Ep. cbn [mbind res_bind].
  rewrite Hs. change (0 <? 1) with true. change (1 <? 1 - 1) with false.
  change (1 - 1 =? 0) with true. change (1 - 1 =? 1) with false. cbn [cpp_assert mbind res_bind andb].
  rewrite Hl. unfold reached_before. simpl bool_decide. cbn [orb notify_all mbind res_bind].
  fold task1. set (w1 := put_task t task1 w) in *. cbn [andb].
  set (w2 := if 0 <=? waker_id (result_get_event task) then call (Wake t (waker_id (result_get_event task))) w1 else w1).
  assert (HF1 : Frame (fun _ => False) bpost w w1)
    by (apply (Frame_put _ _ w t task _ (calls w) Ht Hss); auto).
  assert (HF2 : Frame (fun _ => False) bpost w w2)
    by (unfold w2; destruct (0 <=? _); [eapply Frame_trans; [exact HF1 | apply Frame_call] | exact HF1]).
  assert (HI2 : Inv bpre bpost w2 []) by (unfold w2; destruct (0 <=? _); [apply Inv_call |]; exact HI1).
  assert (Ht2 : tasks w2 !! t = Some task1) by (unfold w2; destruct (0 <=? _); simpl; apply lookup_insert_eq).
  destruct (reached_after_get bpre bpost w2 t task1 HI2 Ht2) as (w3 & E3 & HI3 & HF3 & Hfin).
  - unfold task1, is_reached. cbn [result_get_event with_event]. rewrite bool_decide_true by reflexivity.
    rewrite dn_state by (rewrite Hs; lia). rewrite Hs. reflexivity.
  - intros Ec. destruct (inv_countdown _ _ _ _ HI t task Ht) as [_ Hcd].
    destruct (Hcd Ec) as [Hf | Hr]; [exact Hf | congruence].
  - change (deref (ep_task (get_result_get_event t))) with (Ok t). cbn [mbind res_bind]. fold w2.
    rewrite E3. cbn [mbind res_bind]. eexists _, w3. split; [reflexivity |]. split; [exact HI3 |].
    apply (Frame_finished bpost w w3 t).
    + intros x Hx Hn. assert (x = task) as -> by congruence. apply Hfin. exact Hn.
    + eapply Frame_trans; [| exact HF3]. eapply Frame_weaken; [| exact HF2]. intros t0 [].
Qed.
End Inv.
End GraphInv.
