(* ===== verification/GraphInit.v ===== *)
(** Entering the graph: what [init_graph] adds to the store.  Every older user of
    a resource that conflicts with the task becomes a predecessor, unless the
    scan stopped before at a conflicting user that synchronizes the resource, or
    at the parent task. *)

From Stdlib Require Import ZArith Lia Bool.
From stdpp Require Import base gmap list strings.
From S2P Require Import Prelude Resource ResourceUser Entries Graph GraphNotify GraphInv.

Open Scope Z_scope.
Open Scope word_scope.

Module GraphInit.
Import Resource ResourceUser Graph GraphInv.

Section Init.
Context {RA : Type} `{AccessOps RA}.
Implicit Types (w : World RA) (task : Task RA).

(** [t] waits for [a]: it is a follower of its post-event, or [a] is done. *)
Definition dep (a t : nat) w : Prop :=
  finished_in a w \/
  exists task, tasks w !! a = Some task /\ get_pre_event t ∈ followers (post_event task).

(** How one task may change while [t] enters the graph. *)
Record grown (self : Prop) task task' : Prop := {
  gt_user : user task' = user task;
  gt_space : space task' = space task;
  gt_children : children task' = children task;
  gt_finished : is_finished task' = is_finished task;
  gt_post : ~ self -> state (post_event task') = state (post_event task);
  gt_followers : forall f, f ∈ followers (post_event task) -> f ∈ followers (post_event task');
  gt_pre_followers : followers (pre_event task') = followers (pre_event task);
  gt_pre : ~ self -> pre_event task' = pre_event task;
  gt_set : result_set_event task' = result_set_event task;
  gt_get : result_get_event task' = result_get_event task;
  gt_countdown : removal_countdown task' = removal_countdown task
}.

Lemma grown_refl P task : grown P task task.
Proof. constructor; auto. Qed.

Lemma grown_trans P a b c : grown P a b -> grown P b c -> grown P a c.
Proof.
  intros [] []. constructor; auto; try congruence.
  - intros HP. rewrite gt_post1, gt_post0; auto.
  - intros HP. rewrite gt_pre1, gt_pre0; auto.
Qed.

Record Grow (t : nat) w w' : Prop := {
  gr_users : users w' = users w;
  gr_spaces : spaces w' = spaces w;
  gr_events : forall x e, events w !! x = Some e -> exists e', events w' !! x = Some e' /\
    state e' = state e /\ forall f, f ∈ followers e -> f ∈ followers e';
  gr_back : forall a task', tasks w' !! a = Some task' ->
    exists task, tasks w !! a = Some task /\ grown (a = t) task task';
  gr_forth : forall a, is_Some (tasks w !! a) -> is_Some (tasks w' !! a)
}.

Lemma Grow_refl t w : Grow t w w.
Proof. constructor; eauto. intros a task Ha. exists task. auto using grown_refl. Qed.

Lemma Grow_trans t w1 w2 w3 : Grow t w1 w2 -> Grow t w2 w3 -> Grow t w1 w3.
Proof.
  intros H1 H2. constructor.
  - rewrite (gr_users _ _ _ H2). apply H1.
  - rewrite (gr_spaces _ _ _ H2). apply H1.
  - intros x e Hx. destruct (gr_events _ _ _ H1 x e Hx) as (e2 & Hx2 & E2 & Hf2).
    destruct (gr_events _ _ _ H2 x e2 Hx2) as (e3 & Hx3 & E3 & Hf3). exists e3. split; [exact Hx3 |].
    split; [congruence | auto].
  - intros a task3 H3. destruct (gr_back _ _ _ H2 a task3 H3) as (task2 & Ha2 & G2).
    destruct (gr_back _ _ _ H1 a task2 Ha2) as (task1 & Ha1 & G1).
    exists task1. split; [exact Ha1 | eapply grown_trans; eassumption].
  - intros a Ha. apply (gr_forth _ _ _ H2), (gr_forth _ _ _ H1), Ha.
Qed.

Lemma Grow_lookup t w w' a task :
  Grow t w w' -> tasks w !! a = Some task ->
  exists task', tasks w' !! a = Some task' /\ grown (a = t) task task'.
Proof.
  intros G Ha. destruct (gr_forth _ _ _ G a ltac:(eauto)) as [task' Ha'].
  destruct (gr_back _ _ _ G a task' Ha') as (x & Hx & Gx).
  assert (x = task) as -> by congruence. eauto.
Qed.

Lemma finished_in_grow t w w' a : Grow t w w' -> finished_in a w -> finished_in a w'.
Proof.
  intros G Hf task' Ha. destruct (gr_back _ _ _ G a task' Ha) as (task & Ht & Gt).
  rewrite (gt_finished _ _ _ Gt). apply Hf, Ht.
Qed.

Lemma dep_grow t w w' a b : Grow t w w' -> dep a b w -> dep a b w'.
Proof.
  intros G [Hf | (task & Ha & Hin)].
  - left. eapply finished_in_grow; eassumption.
  - right. destruct (Grow_lookup _ _ _ _ _ G Ha) as (task' & Ha' & Gt). exists task'.
    split; [exact Ha' |]. apply (gt_followers _ _ _ Gt), Hin.
Qed.

(** ** One edge *)

Lemma up_state e : 0 <= state e -> state e + 1 < 2 ^ 16 -> state (up e) = state e + 1.
Proof. intros H1 H2. unfold up. simpl. apply wrap_small. lia. Qed.

Lemma modify_pre w t task f :
  tasks w !! t = Some task ->
  modify_event (get_pre_event t) f w = Ok (put_task t (with_event T_EVT_PRE (f (pre_event task)) task) w).
Proof.
  intros Ht. unfold modify_event. rewrite (get_pre w t task Ht). cbn [mbind res_bind].
  apply put_pre, Ht.
Qed.

Lemma modify_post w t task f :
  tasks w !! t = Some task ->
  modify_event (get_post_event t) f w = Ok (put_task t (with_event T_EVT_POST (f (post_event task)) task) w).
Proof.
  intros Ht. unfold modify_event. rewrite (get_post w t task Ht). cbn [mbind res_bind].
  apply put_post, Ht.
Qed.

Lemma state_pre_nonneg bpre bpost w pend t task :
  Inv bpre bpost w pend -> tasks w !! t = Some task -> 0 <= state (pre_event task).
Proof. intros HI Ht. rewrite (inv_pre _ _ _ _ HI t task Ht). lia. Qed.

(** Incrementing a pre-event makes one notification due. *)
Lemma up_pre_spec bpre bpost w pend t task :
  Inv bpre bpost w pend -> tasks w !! t = Some task -> bpost t <> 0%nat ->
  state (pre_event task) + 1 < 2 ^ 16 ->
  let task' := with_event T_EVT_PRE (up (pre_event task)) task in
  Inv bpre bpost (put_task t task' w) (get_pre_event t :: pend) /\
  Grow t w (put_task t task' w) /\ state (pre_event task') = state (pre_event task) + 1.
Proof.
  intros HI Ht Hb Hsm task'.
  assert (Est : state (pre_event task') = state (pre_event task) + 1)
    by (apply up_state; [eapply state_pre_nonneg; eassumption | exact Hsm]).
  assert (Ee : forall f, edges (put_task t task' w) f = edges w f).
  { intros f. pose proof (edges_put w t task task' f (calls w) Ht) as Hsum.
    change (out_edges f t task') with (out_edges f t task) in Hsum. unfold put_task. lia. }
  assert (Htgt : forall f, target w f -> target (put_task t task' w) f)
    by (intros f; apply (target_put w t task task' f (calls w) Ht)).
  assert (Eo : forall f, f <> get_pre_event t -> occ f (get_pre_event t :: pend) = occ f pend).
  { intros f Hne. rewrite occ_cons, bool_decide_false by congruence. reflexivity. }
  destruct HI as [I1 I2 I3 I4 I5 I6 I7 I8 I9 I10]. split; [constructor | split; [constructor |]].
  - intros t0 task0 Ht0. rewrite Ee. simpl in Ht0.
    apply lookup_insert_Some in Ht0 as [(<- & <-) | (Hne & Ht0)].
    + rewrite Est, (I1 t task Ht), occ_cons, bool_decide_true by reflexivity. lia.
    + rewrite (I1 t0 task0 Ht0), Eo by (intros E; injection E; congruence). reflexivity.
  - intros t0 task0 Ht0. rewrite Ee, Eo by discriminate. simpl in Ht0.
    apply lookup_insert_Some in Ht0 as [(<- & <-) | (Hne & Ht0)]; [apply (I2 t task Ht) | auto].
  - intros t0 task0 Ht0. simpl in Ht0.
    apply lookup_insert_Some in Ht0 as [(<- & <-) | (Hne & Ht0)]; [| eauto].
    rewrite Est. simpl. destruct (I3 t task Ht). lia.
  - intros t0 task0 f Ht0 Hn Hin. apply Htgt. simpl in Ht0.
    apply lookup_insert_Some in Ht0 as [(<- & <-) | (Hne & Ht0)]; eauto.
  - intros f Hin. apply Htgt. apply elem_of_cons in Hin as [-> | Hin]; [| auto].
    exists t. split; [eauto | left; reflexivity].
  - intros t0 task0 Ht0. simpl in Ht0.
    apply lookup_insert_Some in Ht0 as [(<- & <-) | (Hne & Ht0)]; [apply (I6 t task Ht) | eauto].
  - intros t0 task0 Ht0 Hb0. simpl in Ht0.
    apply lookup_insert_Some in Ht0 as [(<- & <-) | (Hne & Ht0)]; [contradiction | eauto].
  - intros t0 task0 Ht0. simpl in Ht0.
    apply lookup_insert_Some in Ht0 as [(<- & <-) | (Hne & Ht0)]; [apply (I8 t task Ht) | eauto].
  - intros t0 task0 Ht0. simpl in Ht0.
    apply lookup_insert_Some in Ht0 as [(<- & <-) | (Hne & Ht0)]; [apply (I9 t task Ht) | eauto].
  - apply (events_mono w); [reflexivity | exact Htgt | exact I10].
  - reflexivity.
  - reflexivity.
  - intros x e Hx. exists e. auto.
  - intros a x Hx. simpl in Hx. apply lookup_insert_Some in Hx as [(<- & <-) | (Hne & Hx)].
    + exists task. split; [exact Ht |]. constructor; try reflexivity; auto. intros Hn. congruence.
    + exists x. split; [exact Hx | apply grown_refl].
  - intros a [x Hx]. simpl. destruct (decide (t = a)) as [<- | Hne].
    + rewrite lookup_insert_eq. eauto.
    + rewrite lookup_insert_ne by exact Hne. eauto.
  - exact Est.
Qed.

(** Edges leave or enter the post-event of a task: notifications become due, or
    stop being due, in exchange. *)
Definition set_followers (l : list EventPtr) (e : Event) : Event := mkEvent l (state e) (waker_id e).

Lemma Inv_set_followers bpre bpost w pend pend' a taska l :
  Inv bpre bpost w pend -> tasks w !! a = Some taska -> is_finished taska = false ->
  (forall g, (occ g l + occ g pend' = occ g (followers (post_event taska)) + occ g pend)%nat) ->
  Inv bpre bpost (put_task a (with_event T_EVT_POST (set_followers l (post_event taska)) taska) w) pend'.
Proof.
  intros HI Ha Hn Hbal. set (taska' := with_event T_EVT_POST (set_followers l (post_event taska)) taska).
  assert (Ee : forall g, (edges (put_task a taska' w) g + occ g pend' = edges w g + occ g pend)%nat).
  { intros g. pose proof (edges_put w a taska taska' g (calls w) Ha) as Hsum.
    assert (E1 : out_edges g a taska = occ g (followers (post_event taska)))
      by (unfold out_edges; rewrite Hn; reflexivity).
    assert (E2 : out_edges g a taska' = occ g l).
    { unfold out_edges. change (is_finished taska') with (is_finished taska). rewrite Hn. reflexivity. }
    specialize (Hbal g). unfold put_task. lia. }
  assert (Htgt : forall g, target w g -> target (put_task a taska' w) g)
    by (intros g; apply (target_put w a taska taska' g (calls w) Ha)).
  assert (Hin : forall g, g ∈ l \/ g ∈ pend' -> target w g).
  { intros g Hg. assert (Hpos : (0 < occ g l + occ g pend')%nat).
    { destruct Hg as [Hg | Hg]; apply occ_pos in Hg; lia. }
    rewrite Hbal in Hpos. destruct (decide (g ∈ followers (post_event taska))) as [Hf | Hf].
    - apply (inv_followers _ _ _ _ HI a taska g Ha Hn Hf).
    - destruct (decide (g ∈ pend)) as [Hp | Hp]; [apply (inv_pend _ _ _ _ HI g Hp) |]. exfalso.
      rewrite (occ_notin g _ Hf), (occ_notin g _ Hp) in Hpos. lia. }
  destruct HI as [I1 I2 I3 I4 I5 I6 I7 I8 I9 I10]. constructor.
  - intros t0 task0 Ht0. simpl in Ht0. specialize (Ee (get_pre_event t0)).
    apply lookup_insert_Some in Ht0 as [(<- & <-) | (Hne & Ht0)].
    + change (pre_event taska') with (pre_event taska). rewrite (I1 a taska Ha). lia.
    + rewrite (I1 t0 task0 Ht0). lia.
  - intros t0 task0 Ht0. simpl in Ht0. specialize (Ee (get_post_event t0)).
    apply lookup_insert_Some in Ht0 as [(<- & <-) | (Hne & Ht0)].
    + change (state (post_event taska')) with (state (post_event taska)). rewrite (I2 a taska Ha). lia.
    + rewrite (I2 t0 task0 Ht0). lia.
  - intros t0 task0 Ht0. simpl in Ht0.
    apply lookup_insert_Some in Ht0 as [(<- & <-) | (Hne & Ht0)]; [apply (I3 a taska Ha) | eauto].
  - intros t0 task0 g Ht0 Hn0 Hg. apply Htgt. simpl in Ht0.
    apply lookup_insert_Some in Ht0 as [(<- & <-) | (Hne & Ht0)]; [apply Hin; left; exact Hg | eauto].
  - intros g Hg. apply Htgt, Hin. right. exact Hg.
  - intros t0 task0 Ht0. simpl in Ht0.
    apply lookup_insert_Some in Ht0 as [(<- & <-) | (Hne & Ht0)]; [apply (I6 a taska Ha) | eauto].
  - intros t0 task0 Ht0 Hb0. simpl in Ht0.
    apply lookup_insert_Some in Ht0 as [(<- & <-) | (Hne & Ht0)]; [apply (I7 a taska Ha Hb0) | eauto].
  - intros t0 task0 Ht0. simpl in Ht0.
    apply lookup_insert_Some in Ht0 as [(<- & <-) | (Hne & Ht0)]; [apply (I8 a taska Ha) | eauto].
  - intros t0 task0 Ht0. simpl in Ht0.
    apply lookup_insert_Some in Ht0 as [(<- & <-) | (Hne & Ht0)]; [apply (I9 a taska Ha) | eauto].
  - apply (events_mono w); [reflexivity | exact Htgt | exact I10].
Qed.

(** The edge itself: the follower is entered and the notification is owed by it. *)
Lemma push_follower_spec bpre bpost w pend a taska f :
  Inv bpre bpost w (f :: pend) -> tasks w !! a = Some taska -> is_finished taska = false ->
  let taska' := with_event T_EVT_POST (push_follower f (post_event taska)) taska in
  Inv bpre bpost (put_task a taska' w) pend /\ (forall t, Grow t w (put_task a taska' w)) /\
  f ∈ followers (post_event taska').
Proof.
  intros HI Ha Hn taska'. split; [| split; [intros t; constructor | left]]; try reflexivity.
  - apply (Inv_set_followers _ _ w (f :: pend) pend a taska (f :: followers (post_event taska))); auto.
    intros g. rewrite !occ_cons. lia.
  - intros x e Hx. exists e. auto.
  - intros b x Hx. simpl in Hx. apply lookup_insert_Some in Hx as [(<- & <-) | (Hne & Hx)].
    + exists taska. split; [exact Ha |]. constructor; try reflexivity; auto.
      intros g Hg. simpl. right. exact Hg.
    + exists x. split; [exact Hx | apply grown_refl].
  - intros b [x Hx]. simpl. destruct (decide (a = b)) as [<- | Hne].
    + rewrite lookup_insert_eq. eauto.
    + rewrite lookup_insert_ne by exact Hne. eauto.
Qed.

(** The state of a task's pre-event. *)
Definition pre_state (t : nat) w : Z :=
  match tasks w !! t with Some task => state (pre_event task) | None => 0 end.

Lemma add_follower_eq w a t taska task :
  tasks w !! a = Some taska -> tasks w !! t = Some task -> is_finished taska = false ->
  let w1 := put_task t (with_event T_EVT_PRE (up (pre_event task)) task) w in
  forall taska1, tasks w1 !! a = Some taska1 ->
  add_follower (get_post_event a) (get_pre_event t) w
  = Ok (put_task a (with_event T_EVT_POST (push_follower (get_pre_event t) (post_event taska1)) taska1) w1).
Proof.
  intros Ha Ht Hn w1 taska1 Ha1. unfold add_follower. rewrite (get_post w a taska Ha).
  cbn [mbind res_bind]. unfold is_finished in Hn. rewrite Hn.
  rewrite (modify_post w a taska _ Ha). cbn [mbind res_bind].
  unfold w1 in *. simpl in Ha1. destruct (decide (t = a)) as [<- | Hne].
  - rewrite lookup_insert_eq in Ha1. injection Ha1 as <-. assert (taska = task) as -> by congruence.
    erewrite modify_pre by (simpl; apply lookup_insert_eq).
    unfold put_task. simpl. rewrite !insert_insert_eq. reflexivity.
  - rewrite lookup_insert_ne in Ha1 by exact Hne. assert (taska1 = taska) as -> by congruence.
    erewrite modify_pre by (simpl; rewrite lookup_insert_ne by congruence; exact Ht).
    unfold put_task. simpl. rewrite insert_insert_ne by congruence. reflexivity.
Qed.

(** The only new followers are [t]'s pre-event, entered in tasks that satisfy [Q]. *)
Definition added (t : nat) (Q : nat -> Prop) w w' : Prop :=
  forall a task' f, tasks w' !! a = Some task' -> f ∈ followers (post_event task') ->
    (exists task, tasks w !! a = Some task /\ f ∈ followers (post_event task)) \/
    (f = get_pre_event t /\ Q a).

Lemma added_refl t Q w : added t Q w w.
Proof. intros a task' f Ha Hf. left. eauto. Qed.

Lemma added_trans t (Q1 Q2 Q : nat -> Prop) w1 w2 w3 :
  (forall a, Q1 a -> Q a) -> (forall a, Q2 a -> Q a) -> added t Q1 w1 w2 -> added t Q2 w2 w3 -> added t Q w1 w3.
Proof.
  intros H1 H2 A1 A2 a x f Hx Hf. destruct (A2 a x f Hx Hf) as [(y & Hy & Hfy) | [E HQ]]; [| auto].
  destruct (A1 a y f Hy Hfy) as [Hz | [E HQ]]; auto.
Qed.

(** A step of the scan: at most one more edge into the pre-event of [t]. *)
Definition scanned bpre bpost (t : nat) w pend (n : Z) (r : res (World RA)) (Q : nat -> Prop)
    (P : World RA -> Prop) : Prop :=
  exists w', r = Ok w' /\ Inv bpre bpost w' pend /\ Grow t w w' /\ added t Q w w' /\
    pre_state t w' <= pre_state t w + n /\ P w'.

Lemma pre_state_put w a t task' :
  pre_state t (put_task a task' w) = if decide (a = t) then state (pre_event task') else pre_state t w.
Proof.
  unfold pre_state. simpl. destruct (decide (a = t)) as [<- | Hne].
  - rewrite lookup_insert_eq. reflexivity.
  - rewrite lookup_insert_ne by exact Hne. reflexivity.
Qed.

Lemma add_dependency_spec bpre bpost w pend a t :
  Inv bpre bpost w pend -> is_Some (tasks w !! a) -> is_Some (tasks w !! t) ->
  bpost t <> 0%nat -> pre_state t w + 1 < 2 ^ 16 ->
  scanned bpre bpost t w pend 1 (add_dependency a t w) (eq a) (dep a t).
Proof.
  intros HI [taska Ha] [task Ht] Hb Hsm. unfold pre_state in Hsm. rewrite Ht in Hsm.
  unfold add_dependency, get_task, task_dependency_type. rewrite Ha, Ht. cbn [deref mbind res_bind].
  rewrite (get_post w a taska Ha). cbn [mbind res_bind].
  destruct (is_reached (post_event taska)) eqn:Er; cbn [negb].
  { exists w. split; [reflexivity |]. split; [exact HI |]. split; [apply Grow_refl |].
    split; [apply added_refl |]. split; [lia |]. left. intros x Hx. assert (x = taska) as -> by congruence. exact Er. }
  destruct (up_pre_spec _ _ _ _ _ _ HI Ht Hb Hsm) as (HI1 & G1 & Est).
  set (w1 := put_task t (with_event T_EVT_PRE (up (pre_event task)) task) w) in *.
  destruct (Grow_lookup _ _ _ _ _ G1 Ha) as (taska1 & Ha1 & Gt1).
  assert (Hn1 : is_finished taska1 = false) by (rewrite (gt_finished _ _ _ Gt1); exact Er).
  destruct (push_follower_spec _ _ _ _ _ _ _ HI1 Ha1 Hn1) as (HI2 & G2 & Hin).
  rewrite (add_follower_eq w a t taska task Ha Ht Er taska1 Ha1).
  eexists. split; [reflexivity |]. split; [exact HI2 |]. split; [eapply Grow_trans; [exact G1 | apply G2] |].
  assert (A1 : added t (fun _ => False) w w1).
  { intros b x f Hx Hf. left. unfold w1 in Hx. simpl in Hx.
    apply lookup_insert_Some in Hx as [(<- & <-) | (Hne & Hx)]; eauto. }
  split; [| split].
  - apply (added_trans t (fun _ => False) (eq a) (eq a) w w1); [tauto | auto | exact A1 |].
    intros b x f Hx Hf. simpl in Hx. apply lookup_insert_Some in Hx as [(<- & <-) | (Hne & Hx)]; [| eauto].
    simpl in Hf. apply elem_of_cons in Hf as [-> | Hf]; [auto | left; eauto].
  - rewrite pre_state_put. unfold pre_state at 2. rewrite Ht.
    destruct (decide (a = t)) as [-> | Hne].
    + simpl. unfold w1 in Ha1. simpl in Ha1. rewrite lookup_insert_eq in Ha1. injection Ha1 as <-.
      rewrite Est. lia.
    + unfold w1. rewrite pre_state_put, decide_True by reflexivity. rewrite Est. lia.
  - right. eexists. split; [simpl; apply lookup_insert_eq | exact Hin].
Qed.

(** ** The scan of one resource *)

(** [a] and [t] are tasks of one space that must not run at the same time. *)
Definition conflicts (a t : nat) w : Prop :=
  exists taska task, tasks w !! a = Some taska /\ tasks w !! t = Some task /\
    space taska = space task /\ is_serial (user taska) (user task) = true.

Definition same_space (a t : nat) w : Prop :=
  exists taska task, tasks w !! a = Some taska /\ tasks w !! t = Some task /\ space taska = space task.

Lemma same_space_grow t w w' a b : Grow t w w' -> same_space a b w' -> same_space a b w.
Proof.
  intros G (x & y & Hx & Hy & E). destruct (gr_back _ _ _ G a x Hx) as (x' & Hx' & Gx).
  destruct (gr_back _ _ _ G b y Hy) as (y' & Hy' & Gy). exists x', y'.
  rewrite <- (gt_space _ _ _ Gx), <- (gt_space _ _ _ Gy). auto.
Qed.

Definition syncs (a : nat) (r : ResourceBase) w : Prop :=
  exists taska, tasks w !! a = Some taska /\ has_sync_access r (user taska) = true.

(** What the scan of [l], newest first, guarantees about its element [a]. *)
Definition covered (par : option nat) (r : ResourceBase) (t : nat) (l : list nat) w' (a : nat) : Prop :=
  dep a t w' \/
  (exists pre s post, l = pre ++ s :: post /\ a ∈ post /\ conflicts s t w' /\ syncs s r w' /\ dep s t w') \/
  (exists pre p post, l = pre ++ p :: post /\ a ∈ p :: post /\ par = Some p).

Lemma conflicts_grow t w w' a b : Grow t w w' -> conflicts a b w <-> conflicts a b w'.
Proof.
  intros G. split.
  - intros (x & y & Hx & Hy & Hs & Hc).
    destruct (Grow_lookup _ _ _ _ _ G Hx) as (x' & Hx' & Gx).
    destruct (Grow_lookup _ _ _ _ _ G Hy) as (y' & Hy' & Gy).
    exists x', y'. rewrite (gt_space _ _ _ Gx), (gt_space _ _ _ Gy), (gt_user _ _ _ Gx), (gt_user _ _ _ Gy).
    auto.
  - intros (x & y & Hx & Hy & Hs & Hc).
    destruct (gr_back _ _ _ G _ _ Hx) as (x' & Hx' & Gx).
    destruct (gr_back _ _ _ G _ _ Hy) as (y' & Hy' & Gy).
    exists x', y'. rewrite <- (gt_space _ _ _ Gx), <- (gt_space _ _ _ Gy), <- (gt_user _ _ _ Gx), <- (gt_user _ _ _ Gy).
    auto.
Qed.

Lemma syncs_grow t w w' a r : Grow t w w' -> syncs a r w -> syncs a r w'.
Proof.
  intros G (x & Hx & Hs). destruct (Grow_lookup _ _ _ _ _ G Hx) as (x' & Hx' & Gx).
  exists x'. rewrite (gt_user _ _ _ Gx). auto.
Qed.

Lemma covered_grow t w w' par r l a : Grow t w w' -> covered par r t l w a -> covered par r t l w' a.
Proof.
  intros G [Hd | [(pre & s & post & E & Hin & Hc & Hs & Hd) | Hp]].
  - left. eapply dep_grow; eassumption.
  - right. left. exists pre, s, post. split; [exact E |]. split; [exact Hin |].
    split; [apply (conflicts_grow _ _ _ _ _ G), Hc |].
    split; [eapply syncs_grow; eassumption | eapply dep_grow; eassumption].
  - right. right. exact Hp.
Qed.

Lemma covered_cons par r t l w a b : covered par r t l w a -> covered par r t (b :: l) w a.
Proof.
  intros [Hd | [(pre & s & post & -> & Hin & Hr) | (pre & p & post & -> & Hin & Hp)]].
  - left. exact Hd.
  - right. left. exists (b :: pre), s, post. auto.
  - right. right. exists (b :: pre), p, post. auto.
Qed.

Lemma check_predecessors_spec bpre bpost par r t l : forall w pend,
  Inv bpre bpost w pend -> is_Some (tasks w !! t) -> bpost t <> 0%nat ->
  (forall a, a ∈ l -> is_Some (tasks w !! a)) ->
  pre_state t w + Z.of_nat (length l) < 2 ^ 16 ->
  scanned bpre bpost t w pend (Z.of_nat (length l)) (check_predecessors t par r l w)
    (fun a => a ∈ l /\ same_space a t w)
    (fun w' => forall a, a ∈ l -> conflicts a t w' -> covered par r t l w' a).
Proof.
  induction l as [| b l IH]; intros w pend HI Ht Hb Hl Hsm.
  { exists w. split; [reflexivity |]. split; [assumption |]. split; [first [assumption | apply Grow_refl] |]. split; [apply added_refl |]. split; [simpl; lia |]. intros a Ha. inversion Ha. }
  cbn [check_predecessors]. simpl length in *.
  destruct (bool_decide (Some b = par)) eqn:Ep.
  { apply bool_decide_eq_true in Ep. exists w. split; [reflexivity |]. split; [assumption |]. split; [first [assumption | apply Grow_refl] |]. split; [apply added_refl |]. split; [simpl; lia |].
    intros a Ha _. right. right. exists [], b, l. auto. }
  destruct (Hl b ltac:(left)) as [taskb Hbt]. destruct Ht as [task Ht].
  unfold get_task. rewrite Hbt, Ht. cbn [deref mbind res_bind].
  assert (Hl' : forall a, a ∈ l -> is_Some (tasks w !! a)) by (intros a Ha; apply Hl; right; exact Ha).
  assert (Hskip : ~ conflicts b t w ->
    scanned bpre bpost t w pend (Z.of_nat (S (length l))) (check_predecessors t par r l w)
      (fun a => a ∈ b :: l /\ same_space a t w)
      (fun w' => forall a, a ∈ b :: l -> conflicts a t w' -> covered par r t (b :: l) w' a)).
  { intros Hnc. destruct (IH w pend HI ltac:(eauto) Hb Hl' ltac:(lia)) as (w' & E & HI' & G & A & Hp & Hcov).
    exists w'. split; [exact E |]. split; [exact HI' |]. split; [exact G |].
    split; [eapply added_trans; [| | apply (added_refl t (fun _ => False)) | exact A]; [intros ? [] |];
      intros a [Ha Hs]; split; [right; exact Ha | exact Hs] |]. split; [lia |].
    intros a Ha Hc. apply elem_of_cons in Ha as [-> | Ha]; [| apply covered_cons; auto].
    exfalso. apply Hnc, (conflicts_grow _ _ _ _ _ G), Hc. }
  destruct (bool_decide (space taskb = space task)) eqn:Esp; cbn [andb].
  2: { apply Hskip. intros (x & y & Hx & Hy & Hs & _). apply bool_decide_eq_false in Esp. congruence. }
  destruct (is_serial (user taskb) (user task)) eqn:Ese.
  2: { apply Hskip. intros (x & y & Hx & Hy & _ & Hs). congruence. }
  apply bool_decide_eq_true in Esp.
  destruct (add_dependency_spec _ _ _ _ b t HI ltac:(eauto) ltac:(eauto) Hb ltac:(lia))
    as (w1 & E1 & HI1 & G1 & A1 & Hp1 & Hd1).
  rewrite E1. cbn [mbind res_bind].
  destruct (Grow_lookup _ _ _ _ _ G1 Hbt) as (taskb1 & Hbt1 & Gb). rewrite Hbt1. cbn [deref mbind res_bind].
  assert (HQ1 : forall a, b = a -> a ∈ b :: l /\ same_space a t w).
  { intros a <-. split; [left |]. exists taskb, task. auto. }
  assert (Hc1 : conflicts b t w1) by (apply (conflicts_grow _ _ _ _ _ G1); exists taskb, task; auto).
  destruct (has_sync_access r (user taskb1)) eqn:Esy.
  - exists w1. split; [reflexivity |]. split; [assumption |]. split; [first [assumption | apply Grow_refl] |].
    split; [eapply added_trans; [exact HQ1 | | exact A1 | apply (added_refl t (fun _ => False))]; intros ? [] |]. split; [simpl; lia |]. intros a Ha _.
    apply elem_of_cons in Ha as [-> | Ha]; [left; exact Hd1 |].
    right. left. exists [], b, l. split; [reflexivity |]. split; [exact Ha |].
    split; [exact Hc1 |]. split; [exists taskb1; auto | exact Hd1].
  - destruct (IH w1 pend HI1) as (w' & E & HI' & G & A & Hp & Hcov).
    + destruct (Grow_lookup _ _ _ _ _ G1 Ht) as (x & Hx & _). eauto.
    + exact Hb.
    + intros a Ha. apply (gr_forth _ _ _ G1), Hl', Ha.
    + lia.
    + exists w'. split; [exact E |]. split; [exact HI' |]. split; [eapply Grow_trans; eassumption |].
      split; [eapply added_trans; [exact HQ1 | | exact A1 | exact A];
        intros a [Ha Hs]; split; [right; exact Ha | eapply same_space_grow; eassumption] |].
      split; [lia |]. intros a Ha Hc. apply elem_of_cons in Ha as [-> | Ha].
      * left. eapply dep_grow; eassumption.
      * apply covered_cons. auto.
Qed.

(** ** All resources *)

Definition older_users (e : ResourceUsageEntry) w : list nat :=
  match user_entry e with
  | Some k => (Entries.older k (get_users (r_ptr (ue_resource e)) w)).*2
  | None => []
  end.

Fixpoint scan_length (l : list ResourceUsageEntry) w : nat :=
  match l with
  | [] => 0
  | e :: l => length (older_users e w) + scan_length l w
  end.

Lemma scan_length_users l w w' : users w' = users w -> scan_length l w' = scan_length l w.
Proof.
  intros Eu. induction l as [| e l IH]; [reflexivity |]. simpl. rewrite IH.
  unfold older_users, get_users. rewrite Eu. reflexivity.
Qed.

Lemma init_resources_spec bpre bpost par t l : forall w pend,
  Inv bpre bpost w pend -> is_Some (tasks w !! t) -> bpost t <> 0%nat ->
  (forall e a, e ∈ l -> a ∈ older_users e w -> is_Some (tasks w !! a)) ->
  pre_state t w + Z.of_nat (scan_length l w) < 2 ^ 16 ->
  scanned bpre bpost t w pend (Z.of_nat (scan_length l w)) (init_resources t par l w)
    (fun a => (exists e, e ∈ l /\ a ∈ older_users e w) /\ same_space a t w)
    (fun w' => forall e a, e ∈ l -> a ∈ older_users e w -> conflicts a t w' ->
       covered par (ue_resource e) t (older_users e w) w' a).
Proof.
  induction l as [| e l IH]; intros w pend HI Ht Hb Hl Hsm.
  { exists w. split; [reflexivity |]. split; [assumption |]. split; [first [assumption | apply Grow_refl] |]. split; [apply added_refl |]. split; [simpl; lia |]. intros e a He. inversion He. }
  cbn [init_resources scan_length] in *.
  assert (Hl' : forall e a, e ∈ l -> a ∈ older_users e w -> is_Some (tasks w !! a))
    by (intros e' a He'; apply Hl; right; exact He').
  assert (Hold : forall w1 e, users w1 = users w -> older_users e w1 = older_users e w).
  { intros w1 e' Eu. unfold older_users, get_users. rewrite Eu. reflexivity. }
  destruct (user_entry e) as [k |] eqn:Ek.
  - assert (Eo : (Entries.older k (get_users (r_ptr (ue_resource e)) w)).*2 = older_users e w)
      by (unfold older_users; rewrite Ek; reflexivity).
    rewrite Eo.
    destruct (check_predecessors_spec bpre bpost par (ue_resource e) t (older_users e w) w pend HI Ht Hb)
      as (w1 & E1 & HI1 & G1 & A1 & Hp1 & Hc1); [intros a; apply Hl; left | lia |].
    rewrite E1. cbn [mbind res_bind].
    assert (Elen : scan_length l w1 = scan_length l w) by (apply scan_length_users, G1).
    destruct (IH w1 pend HI1) as (w' & E & HI' & G & A & Hp & Hcov).
    + apply (gr_forth _ _ _ G1), Ht.
    + exact Hb.
    + intros e' a He' Ha. rewrite (Hold w1 e') in Ha by apply G1.
      apply (gr_forth _ _ _ G1). eauto.
    + rewrite Elen. lia.
    + rewrite Elen in Hp. exists w'. split; [exact E |]. split; [exact HI' |].
      split; [eapply Grow_trans; eassumption |].
      split.
      { eapply added_trans; [| | exact A1 | exact A].
        - intros a [Ha Hs]. split; [exists e; split; [left | exact Ha] | exact Hs].
        - intros a [(e' & He' & Ha) Hs]. rewrite (Hold w1 e') in Ha by apply G1.
          split; [exists e'; split; [right; exact He' | exact Ha] | eapply same_space_grow; eassumption]. }
      split; [lia |].
      intros e' a He' Ha Hc. apply elem_of_cons in He' as [-> | He'].
      * eapply covered_grow; [exact G |]. apply Hc1; [exact Ha |].
        apply (conflicts_grow _ _ _ _ _ G), Hc.
      * rewrite <- (Hold w1 e') in * by apply G1. auto.
  - destruct (IH w pend HI Ht Hb Hl' ltac:(lia)) as (w' & E & HI' & G & A & Hp & Hcov).
    exists w'. split; [exact E |]. split; [exact HI' |]. split; [exact G |].
    split.
    { eapply added_trans; [| | apply (added_refl t (fun _ => False)) | exact A]; [intros ? [] |].
      intros a [(e' & He' & Ha) Hs]. split; [exists e'; split; [right; exact He' | exact Ha] | exact Hs]. }
    split; [lia |].
    intros e' a He' Ha Hc. apply elem_of_cons in He' as [-> | He'].
    + unfold older_users in Ha. rewrite Ek in Ha. inversion Ha.
    + auto.
Qed.
End Init.
End GraphInit.
