(* ===== verification/GraphSubmit.v ===== *)
(** Entering a task space: what [TaskSpace::submit] does to the store.  The task
    becomes the newest user of each of its resources and, in a child space, its
    post-event precedes the post-event of the parent. *)

From Stdlib Require Import ZArith Lia Bool.
From stdpp Require Import base gmap list strings.
From S2P Require Import Prelude Resource ResourceUser Entries Graph GraphNotify GraphInv GraphInit.

Open Scope Z_scope.
Open Scope word_scope.

Module GraphSubmit.
Import Resource ResourceUser Graph GraphInv GraphInit.

Section Submit.
Context {RA : Type} `{AccessOps RA}.
Implicit Types (w : World RA) (task : Task RA).

(** ** The users of the resources *)

(** [g] and [g'] give the users of each resource before and after. *)
Record pushed (t : nat) (l : list ResourceUsageEntry) (g : nat -> Entries.Entries nat)
    (l' : list ResourceUsageEntry) (g' : nat -> Entries.Entries nat) : Prop := {
  pu_next : forall r, (Entries.next_key (g r) <= Entries.next_key (g' r))%nat;
  pu_wf : forall r, Entries.wf (g r) -> Entries.wf (g' r);
  pu_entry : forall e', e' ∈ l' -> exists k, user_entry e' = Some k /\
    (Entries.next_key (g (r_ptr (ue_resource e'))) <= k
       < Entries.next_key (g' (r_ptr (ue_resource e'))))%nat /\
    (k, t) ∈ Entries.content (g' (r_ptr (ue_resource e')));
  pu_resources : ue_resource <$> l' = ue_resource <$> l;
  pu_old : forall r e, e ∈ Entries.content (g r) -> e ∈ Entries.content (g' r);
  pu_new : forall r k x, (k, x) ∈ Entries.content (g' r) ->
    (k, x) ∈ Entries.content (g r) \/
    x = t /\ exists e', e' ∈ l' /\ r_ptr (ue_resource e') = r /\ user_entry e' = Some k
}.

Lemma push_users_spec t l w : exists l' w', push_users t l w = (l', w') /\
  tasks w' = tasks w /\ spaces w' = spaces w /\ events w' = events w /\
  pushed t l (fun r => get_users r w) l' (fun r => get_users r w').
Proof.
  revert w. induction l as [| e l IH]; intros w.
  { exists [], w. repeat (split; [reflexivity |]). constructor; auto.
    intros e' He. inversion He. }
  cbn [push_users]. unfold Entries.push.
  set (r := r_ptr (ue_resource e)). set (us := get_users r w).
  set (w1 := put_users r (Entries.mkEntries ((Entries.next_key us, t) :: Entries.content us)
               (S (Entries.next_key us))) w).
  destruct (IH w1) as (l' & w' & E & Et & Es & Ee & P). rewrite E.
  exists (mkUsage (ue_resource e) (Some (Entries.next_key us)) :: l'), w'. split; [reflexivity |].
  split; [exact Et |]. split; [exact Es |]. split; [exact Ee |].
  assert (Hget : forall q, get_users q w1 = if decide (r = q)
     then Entries.mkEntries ((Entries.next_key us, t) :: Entries.content us) (S (Entries.next_key us))
     else get_users q w) by (intros q; apply get_users_put).
  destruct P as [P4 P5 P6 P7 P8 P9]. constructor.
  - intros q. specialize (P4 q). simpl in P4. rewrite Hget in P4. destruct (decide (r = q)) as [<- | Hne]; simpl in P4; fold us; lia.
  - intros q Hq. apply P5. rewrite Hget. destruct (decide (r = q)) as [<- | Hne]; [| exact Hq].
    apply (Entries.wf_push t us Hq).
  - intros e' He'. apply elem_of_cons in He' as [-> | He'].
    + exists (Entries.next_key us). split; [reflexivity |]. simpl ue_resource. fold r us.
      pose proof (P4 r) as Hle. simpl in Hle. rewrite Hget, decide_True in Hle by reflexivity. simpl in Hle.
      split; [lia |]. apply P8. rewrite Hget, decide_True by reflexivity. left.
    + destruct (P6 e' He') as (k & Ek & Hk & Hin). exists k. split; [exact Ek |]. split; [| exact Hin].
      simpl in Hk. rewrite Hget in Hk. destruct (decide (r = r_ptr (ue_resource e'))) as [Er | Hne]; [| exact Hk].
      rewrite <- Er in *. simpl in Hk. fold us. lia.
  - rewrite !fmap_cons, P7. reflexivity.
  - intros q x Hx. apply P8. rewrite Hget. destruct (decide (r = q)) as [<- | Hne]; [| exact Hx].
    simpl. right. exact Hx.
  - intros q k x Hx. destruct (P9 q k x Hx) as [Hin | (-> & e' & He' & Hr)].
    + simpl in Hin. rewrite Hget in Hin. destruct (decide (r = q)) as [<- | Hne]; [| auto].
      simpl in Hin. apply elem_of_cons in Hin as [Hin | Hin]; [| auto].
      injection Hin as -> ->. right. split; [reflexivity |].
      exists (mkUsage (ue_resource e) (Some (Entries.next_key us))). split; [left | auto].
    + right. split; [reflexivity |]. exists e'. split; [right; exact He' | exact Hr].
Qed.

(** ** A new task *)

Lemma edges_zero bpre bpost w pend t :
  Inv bpre bpost w pend -> tasks w !! t = None ->
  edges w (get_pre_event t) = 0%nat /\ edges w (get_post_event t) = 0%nat /\
  (get_pre_event t ∉ pend) /\ (get_post_event t ∉ pend).
Proof.
  intros HI Hn.
  assert (Hno : forall f, (f = get_pre_event t \/ f = get_post_event t) -> ~ target w f).
  { intros f Hf (t0 & [x Hx] & [E | E]); destruct Hf; subst f; try discriminate;
      injection E as <-; congruence. }
  assert (Hz : forall f, (f = get_pre_event t \/ f = get_post_event t) -> edges w f = 0%nat).
  { intros f Hf. unfold edges. rewrite !map_sum_zero; [reflexivity | |].
    - intros x e Hx. unfold ext_edges. destruct (is_reached e) eqn:Er; [reflexivity |].
      apply occ_notin. intros Hin. apply (Hno f Hf).
      destruct (inv_events _ _ _ _ HI x e Hx) as [Hz | [_ Ht]]; [unfold is_reached in Er; lia | apply Ht, Hin].
    - intros a task Ha. unfold out_edges. destruct (is_finished task) eqn:Ef; [reflexivity |].
      apply occ_notin. intros Hin. apply (Hno f Hf), (inv_followers _ _ _ _ HI a task f Ha Ef), Hin. }
  split; [apply Hz; auto |]. split; [apply Hz; auto |].
  split; intros Hin; apply (inv_pend _ _ _ _ HI) in Hin; apply Hno in Hin; auto.
Qed.

(** A task fresh from its constructor, in a space. *)
Definition fresh_task task : Prop :=
  pre_event task = new_event /\ post_event task = new_event /\ result_set_event task = new_event /\
  result_get_event task = new_event /\ removal_countdown task = 2.

Lemma add_task_inv bpre bpost w pend t task s :
  Inv bpre bpost w pend -> tasks w !! t = None -> fresh_task task ->
  space task = Some s -> is_Some (spaces w !! s) -> bpre t = 1%nat -> bpost t = 1%nat ->
  Inv bpre bpost (put_task t task w) pend.
Proof.
  intros HI Hn (E1 & E2 & E3 & E4 & E5) Es Hs Hbp Hbq.
  destruct (edges_zero _ _ _ _ t HI Hn) as (Z1 & Z2 & Z3 & Z4).
  apply occ_notin in Z3, Z4.
  assert (Ee : forall f, edges (put_task t task w) f = edges w f).
  { intros f. unfold edges, put_task. simpl. rewrite map_sum_insert_new by exact Hn.
    unfold out_edges at 1. rewrite E2. destruct (is_finished task); reflexivity. }
  assert (Htgt : forall f, target w f -> target (put_task t task w) f).
  { intros f (t0 & [x Hx] & Hf). exists t0. split; [| exact Hf]. simpl.
    rewrite lookup_insert_ne by congruence. eauto. }
  destruct HI as [I1 I2 I3 I4 I5 I6 I7 I8 I9 I10]. constructor.
  - intros t0 task0 Ht0. rewrite Ee. simpl in Ht0.
    apply lookup_insert_Some in Ht0 as [(<- & <-) | (Hne & Ht0)]; [| auto].
    rewrite E1, Z1, Z3, Hbp. reflexivity.
  - intros t0 task0 Ht0. rewrite Ee. simpl in Ht0.
    apply lookup_insert_Some in Ht0 as [(<- & <-) | (Hne & Ht0)]; [| auto].
    rewrite E2, Z2, Z4, Hbq. reflexivity.
  - intros t0 task0 Ht0. simpl in Ht0.
    apply lookup_insert_Some in Ht0 as [(<- & <-) | (Hne & Ht0)]; [| eauto].
    rewrite E1, E2. simpl. lia.
  - intros t0 task0 f Ht0 Hf Hin. apply Htgt. simpl in Ht0.
    apply lookup_insert_Some in Ht0 as [(<- & <-) | (Hne & Ht0)]; [| eauto].
    rewrite E2 in Hin. inversion Hin.
  - auto.
  - intros t0 task0 Ht0. simpl in Ht0.
    apply lookup_insert_Some in Ht0 as [(<- & <-) | (Hne & Ht0)]; [| eauto].
    rewrite E1, E3, E4. auto.
  - intros t0 task0 Ht0 Hb. simpl in Ht0.
    apply lookup_insert_Some in Ht0 as [(<- & <-) | (Hne & Ht0)]; [lia | eauto].
  - intros t0 task0 Ht0. simpl in Ht0.
    apply lookup_insert_Some in Ht0 as [(<- & <-) | (Hne & Ht0)]; eauto.
  - intros t0 task0 Ht0. simpl in Ht0.
    apply lookup_insert_Some in Ht0 as [(<- & <-) | (Hne & Ht0)]; [| eauto].
    rewrite E5. split; lia.
  - apply (events_mono w); [reflexivity | exact Htgt | exact I10].
Qed.

(** Incrementing the post-event of an unfinished task makes a notification due. *)
Lemma up_post_spec bpre bpost w pend p taskp :
  Inv bpre bpost w pend -> tasks w !! p = Some taskp -> is_finished taskp = false ->
  state (post_event taskp) + 1 < 2 ^ 16 ->
  Inv bpre bpost (put_task p (with_event T_EVT_POST (up (post_event taskp)) taskp) w)
    (get_post_event p :: pend).
Proof.
  intros HI Hp Hf Hsm. set (taskp' := with_event T_EVT_POST (up (post_event taskp)) taskp).
  assert (H0 : 0 <= state (post_event taskp)) by (rewrite (inv_post _ _ _ _ HI p taskp Hp); lia).
  assert (Est : state (post_event taskp') = state (post_event taskp) + 1) by (apply up_state; assumption).
  assert (Hf' : is_finished taskp' = false) by (unfold is_finished, is_reached; rewrite Est; lia).
  assert (Ee : forall f, edges (put_task p taskp' w) f = edges w f).
  { intros f. pose proof (edges_put w p taskp taskp' f (calls w) Hp) as Hsum.
    assert (Eo : out_edges f p taskp' = out_edges f p taskp).
    { unfold out_edges. rewrite Hf, Hf'. reflexivity. }
    unfold put_task. lia. }
  assert (Htgt : forall f, target w f -> target (put_task p taskp' w) f)
    by (intros f; apply (target_put w p taskp taskp' f (calls w) Hp)).
  assert (Eo : forall f, f <> get_post_event p -> occ f (get_post_event p :: pend) = occ f pend).
  { intros f Hne. rewrite occ_cons, bool_decide_false by congruence. reflexivity. }
  destruct HI as [I1 I2 I3 I4 I5 I6 I7 I8 I9 I10]. constructor.
  - intros t0 task0 Ht0. rewrite Ee, Eo by discriminate. simpl in Ht0.
    apply lookup_insert_Some in Ht0 as [(<- & <-) | (Hne & Ht0)]; [apply (I1 p taskp Hp) | auto].
  - intros t0 task0 Ht0. rewrite Ee. simpl in Ht0.
    apply lookup_insert_Some in Ht0 as [(<- & <-) | (Hne & Ht0)].
    + rewrite Est, (I2 p taskp Hp), occ_cons, bool_decide_true by reflexivity. lia.
    + rewrite Eo by (intros E; injection E; congruence). auto.
  - intros t0 task0 Ht0. simpl in Ht0.
    apply lookup_insert_Some in Ht0 as [(<- & <-) | (Hne & Ht0)]; [| eauto].
    rewrite Est. simpl. destruct (I3 p taskp Hp). lia.
  - intros t0 task0 f Ht0 Hn Hin. apply Htgt. simpl in Ht0.
    apply lookup_insert_Some in Ht0 as [(<- & <-) | (Hne & Ht0)]; eauto.
  - intros f Hin. apply Htgt. apply elem_of_cons in Hin as [-> | Hin]; [| auto].
    exists p. split; [eauto | right; reflexivity].
  - intros t0 task0 Ht0. simpl in Ht0.
    apply lookup_insert_Some in Ht0 as [(<- & <-) | (Hne & Ht0)]; [apply (I6 p taskp Hp) | eauto].
  - intros t0 task0 Ht0 Hb0. simpl in Ht0.
    apply lookup_insert_Some in Ht0 as [(<- & <-) | (Hne & Ht0)]; [apply (I7 p taskp Hp Hb0) | eauto].
  - intros t0 task0 Ht0. simpl in Ht0.
    apply lookup_insert_Some in Ht0 as [(<- & <-) | (Hne & Ht0)]; [apply (I8 p taskp Hp) | eauto].
  - intros t0 task0 Ht0. simpl in Ht0.
    apply lookup_insert_Some in Ht0 as [(<- & <-) | (Hne & Ht0)]; [| eauto].
    destruct (I9 p taskp Hp) as [Hc Hr]. split; [exact Hc |]. intros Ec.
    destruct (Hr Ec) as [Hr' | Hr']; [congruence | right; exact Hr'].
  - apply (events_mono w); [reflexivity | exact Htgt | exact I10].
Qed.

(** Changing what the invariant does not read. *)
Lemma Inv_put_same bpre bpost w pend t task task' :
  Inv bpre bpost w pend -> tasks w !! t = Some task ->
  pre_event task' = pre_event task -> post_event task' = post_event task ->
  result_set_event task' = result_set_event task -> result_get_event task' = result_get_event task ->
  space task' = space task -> removal_countdown task' = removal_countdown task ->
  Inv bpre bpost (put_task t task' w) pend.
Proof.
  intros HI Ht E1 E2 E3 E4 E5 E6.
  assert (Ee : forall f, edges (put_task t task' w) f = edges w f).
  { intros f. pose proof (edges_put w t task task' f (calls w) Ht) as Hsum.
    assert (Eo : out_edges f t task' = out_edges f t task)
      by (unfold out_edges, is_finished; rewrite E2; reflexivity).
    unfold put_task. lia. }
  assert (Htgt : forall f, target w f -> target (put_task t task' w) f)
    by (intros f; apply (target_put w t task _ f (calls w) Ht)).
  assert (Hget : forall t0 task0, tasks (put_task t task' w) !! t0 = Some task0 ->
    exists x, tasks w !! t0 = Some x /\ pre_event task0 = pre_event x /\ post_event task0 = post_event x /\
      result_set_event task0 = result_set_event x /\ result_get_event task0 = result_get_event x /\
      space task0 = space x /\ removal_countdown task0 = removal_countdown x).
  { intros t0 task0 Ht0. simpl in Ht0.
    apply lookup_insert_Some in Ht0 as [(<- & <-) | (Hne & Ht0)]; [exists task | exists task0]; auto 10. }
  destruct HI as [I1 I2 I3 I4 I5 I6 I7 I8 I9 I10]. constructor; unfold is_finished in *.
  - intros t0 task0 Ht0. apply Hget in Ht0 as (x & Hx & -> & _). rewrite Ee. auto.
  - intros t0 task0 Ht0. apply Hget in Ht0 as (x & Hx & _ & -> & _). rewrite Ee. auto.
  - intros t0 task0 Ht0. apply Hget in Ht0 as (x & Hx & -> & -> & _). eauto.
  - intros t0 task0 f Ht0. apply Hget in Ht0 as (x & Hx & _ & -> & _). eauto.
  - auto.
  - intros t0 task0 Ht0. apply Hget in Ht0 as (x & Hx & -> & _ & -> & -> & _). eauto.
  - intros t0 task0 Ht0. apply Hget in Ht0 as (x & Hx & -> & _). eauto.
  - intros t0 task0 Ht0. apply Hget in Ht0 as (x & Hx & _ & _ & _ & _ & -> & _). eauto.
  - intros t0 task0 Ht0. apply Hget in Ht0 as (x & Hx & _ & -> & _ & -> & _ & ->). eauto.
  - apply (events_mono w); [reflexivity | exact Htgt | exact I10].
Qed.

(** How a task other than the new one may change. *)
Record kept task task' : Prop := {
  kp_user : user task' = user task;
  kp_space : space task' = space task;
  kp_children : children task' = children task;
  kp_followers : followers (post_event task') = followers (post_event task);
  kp_finished : is_finished task' = is_finished task;
  kp_pre : pre_event task' = pre_event task;
  kp_set : result_set_event task' = result_set_event task;
  kp_get : result_get_event task' = result_get_event task;
  kp_countdown : removal_countdown task' = removal_countdown task
}.

Record submitted (s t : nat) (u : ResourceUser RA) w (l' : list ResourceUsageEntry) w' : Prop := {
  sb_users : pushed t (unique_resources u) (fun r => get_users r w) l' (fun r => get_users r w');
  sb_spaces : forall q, (fun sp => (depth sp, parent sp)) <$> spaces w' !! q
                      = (fun sp => (depth sp, parent sp)) <$> spaces w !! q;
  sb_events : events w' = events w;
  sb_task : exists task, tasks w' !! t = Some task /\
    user task = mkUser (access_list u) l' (ResourceUser.scope_level u) /\ space task = Some s /\
    pre_event task = new_event /\ is_finished task = false;
  sb_new : forall task, tasks w' !! t = Some task -> children task = None /\
    result_set_event task = new_event /\ result_get_event task = new_event /\ removal_countdown task = 2;
  sb_edge : forall task, tasks w' !! t = Some task -> forall f, f ∈ followers (post_event task) <->
    exists sp p, spaces w !! s = Some sp /\ parent sp = Some p /\ f = get_post_event p;
  sb_back : forall a task', a <> t -> tasks w' !! a = Some task' ->
    exists task, tasks w !! a = Some task /\ kept task task';
  sb_forth : forall a task, tasks w !! a = Some task -> exists task', tasks w' !! a = Some task' /\ kept task task'
}.

Lemma kept_refl task : kept task task.
Proof. constructor; reflexivity. Qed.

(** The edge from the post-event of the child to the post-event of its parent. *)
Lemma parent_edge bpre bpost w t task p taskp :
  Inv bpre bpost w [] -> tasks w !! t = Some task -> is_finished task = false -> p <> t ->
  tasks w !! p = Some taskp -> is_finished taskp = false -> state (post_event taskp) + 1 < 2 ^ 16 ->
  let task' := with_event T_EVT_POST (push_follower (get_post_event p) (post_event task)) task in
  let taskp' := with_event T_EVT_POST (up (post_event taskp)) taskp in
  let w' := put_task t task' (put_task p taskp' w) in
  add_follower (get_post_event t) (get_post_event p) w = Ok w' /\ Inv bpre bpost w' [] /\ kept taskp taskp'.
Proof.
  intros HI Ht Hf Hne Hp Hfp Hsm task' taskp' w'. split; [| split].
  - unfold add_follower. rewrite (get_post w t task Ht). cbn [mbind res_bind].
    unfold is_finished in Hf. rewrite Hf. rewrite (modify_post w t task _ Ht). cbn [mbind res_bind].
    erewrite modify_post by (simpl; rewrite lookup_insert_ne by congruence; exact Hp).
    unfold w', put_task. simpl. rewrite insert_insert_ne by congruence. reflexivity.
  - pose proof (up_post_spec _ _ _ _ _ _ HI Hp Hfp Hsm) as HI1. fold taskp' in HI1.
    assert (Ht1 : tasks (put_task p taskp' w) !! t = Some task)
      by (simpl; rewrite lookup_insert_ne by congruence; exact Ht).
    apply (push_follower_spec _ _ _ _ _ _ _ HI1 Ht1 Hf).
  - pose proof (inv_post _ _ _ _ HI p taskp Hp) as E0.
    assert (Est : state (post_event taskp') = state (post_event taskp) + 1)
      by (apply up_state; [lia | exact Hsm]).
    constructor; try reflexivity. unfold is_finished, is_reached in *. rewrite Est. lia.
Qed.

(** The new task in its space, before it is entered into the users. *)
Lemma submit_enter bpre bpost w s sp t u worker :
  Inv bpre bpost w [] -> tasks w !! t = None -> spaces w !! s = Some sp ->
  bpre t = 1%nat -> bpost t = 1%nat ->
  let task0 := with_user u (new_task worker (depth sp)) in
  let w1 := put_space s (mkSpace (u32 (task_count sp + 1)) (depth sp) (parent sp))
              (put_task t (with_space (Some s) task0) w) in
  Inv bpre bpost w1 [].
Proof.
  intros HI Hn Hsp Hb1 Hb2 task0 w1.
  apply (Inv_ext _ _ (put_task t (with_space (Some s) task0) w)); [reflexivity | reflexivity | |].
  - intros q [x Hx]. simpl. destruct (decide (s = q)) as [<- | Hne].
    + rewrite lookup_insert_eq. eauto.
    + rewrite lookup_insert_ne by exact Hne. eauto.
  - eapply add_task_inv; [exact HI | exact Hn | repeat split | reflexivity | eauto | exact Hb1 | exact Hb2].
Qed.

(** The part of [submit] that orders the new task before its parent. *)
Definition order_before_parent (sp : TaskSpace) (t : nat) (u : ResourceUser RA) w : res (World RA) :=
  match parent sp with
  | Some par =>
      pt ← get_task par w;
      _ ← cpp_assert (is_superset_of (user pt) u);
      add_follower (get_post_event t) (get_post_event par) w
  | None => Ok w
  end.

(** The new task [t] once it is ordered before its parent; [w] is the store
    without it, [w2] the store with it. *)
Record entered (s : nat) (sp : TaskSpace) (t : nat) (u : ResourceUser RA) w w2 task2 : Prop := {
  et_task : tasks w2 !! t = Some task2;
  et_user : user task2 = u;
  et_space : space task2 = Some s;
  et_finished : is_finished task2 = false;
  et_new : pre_event task2 = new_event /\ children task2 = None /\ result_set_event task2 = new_event /\
    result_get_event task2 = new_event /\ removal_countdown task2 = 2;
  et_followers : followers (post_event task2) = match parent sp with Some p => [get_post_event p] | None => [] end;
  et_users : users w2 = users w;
  et_events : events w2 = events w;
  et_back : forall a task', a <> t -> tasks w2 !! a = Some task' ->
    exists task, tasks w !! a = Some task /\ kept task task';
  et_forth : forall a task, tasks w !! a = Some task -> exists task', tasks w2 !! a = Some task' /\ kept task task'
}.

Lemma order_before_parent_spec bpre bpost w s sp t u worker :
  Inv bpre bpost w [] -> tasks w !! t = None -> spaces w !! s = Some sp ->
  bpre t = 1%nat -> bpost t = 1%nat ->
  (forall p, parent sp = Some p -> exists taskp, tasks w !! p = Some taskp /\ is_finished taskp = false /\
     state (post_event taskp) + 1 < 2 ^ 16 /\ is_superset_of (user taskp) u = true) ->
  let w1 := put_space s (mkSpace (u32 (task_count sp + 1)) (depth sp) (parent sp))
              (put_task t (with_space (Some s) (with_user u (new_task worker (depth sp)))) w) in
  exists w2 task2, order_before_parent sp t u w1 = Ok w2 /\ Inv bpre bpost w2 [] /\ spaces w2 = spaces w1 /\
    entered s sp t u w w2 task2.
Proof.
  intros HI Hn Hsp Hb1 Hb2 Hpar w1.
  pose proof (submit_enter bpre bpost w s sp t u worker HI Hn Hsp Hb1 Hb2) as HI1. cbv zeta in HI1. fold w1 in HI1.
  set (task1 := with_space (Some s) (with_user u (new_task worker (depth sp)))) in *.
  assert (Ht1 : tasks w1 !! t = Some task1) by (simpl; apply lookup_insert_eq).
  assert (Ho1 : forall a, a <> t -> tasks w1 !! a = tasks w !! a)
    by (intros a Ha; simpl; apply lookup_insert_ne; congruence).
  unfold order_before_parent. destruct (parent sp) as [p |] eqn:Ep.
  - destruct (Hpar p eq_refl) as (taskp & Hp & Hfp & Hsm & Hsup).
    assert (Hpt : p <> t) by congruence.
    assert (Hp1 : tasks w1 !! p = Some taskp) by (rewrite Ho1 by exact Hpt; exact Hp).
    destruct (parent_edge _ _ _ _ _ _ _ HI1 Ht1 eq_refl Hpt Hp1 Hfp Hsm) as (E & HI2 & Hk).
    unfold get_task. rewrite Hp1. cbn [deref mbind res_bind]. rewrite Hsup. cbn [cpp_assert mbind res_bind].
    eexists _, _. split; [exact E |]. split; [exact HI2 |]. split; [reflexivity |].
    constructor; [simpl; apply lookup_insert_eq | reflexivity | reflexivity | reflexivity | repeat split
      | rewrite Ep; reflexivity | reflexivity | reflexivity | |].
    + intros a task' Ha Hin. simpl in Hin. rewrite lookup_insert_ne in Hin by congruence.
      apply lookup_insert_Some in Hin as [(<- & <-) | (Hne & Hin)]; [eauto |].
      rewrite lookup_insert_ne in Hin by congruence. exists task'. auto using kept_refl.
    + intros a task Ha. simpl. assert (a <> t) by congruence.
      rewrite lookup_insert_ne by congruence. destruct (decide (p = a)) as [<- | Hne].
      * rewrite lookup_insert_eq. assert (task = taskp) as -> by congruence. eauto.
      * rewrite lookup_insert_ne by exact Hne. rewrite lookup_insert_ne by congruence.
        exists task. auto using kept_refl.
  - eexists _, _. split; [reflexivity |]. split; [exact HI1 |]. split; [reflexivity |].
    constructor; [exact Ht1 | reflexivity | reflexivity | reflexivity | repeat split | rewrite Ep; reflexivity | reflexivity | reflexivity | |].
    + intros a task' Ha Hin. rewrite Ho1 in Hin by exact Ha. exists task'. auto using kept_refl.
    + intros a task Ha. rewrite Ho1 by congruence. exists task. auto using kept_refl.
Qed.

(** ... and entered into the users of its resources. *)
Lemma entered_submitted s sp t u w w2 task2 l' w3 :
  tasks w !! t = None -> spaces w !! s = Some sp -> entered s sp t u w w2 task2 ->
  (forall q, (fun sp => (depth sp, parent sp)) <$> spaces w3 !! q = (fun sp => (depth sp, parent sp)) <$> spaces w !! q) ->
  tasks w3 = tasks w2 -> events w3 = events w2 ->
  pushed t (unique_resources u) (fun r => get_users r w2) l' (fun r => get_users r w3) ->
  submitted s t u w l' (put_task t (with_user (mkUser (access_list u) l' (ResourceUser.scope_level u)) task2) w3).
Proof.
  intros Hn Hsp [Ht2 Eu Es Efin (Epre & Ech & Eset & Eget & Ecd) Efo Eus Eev Hb Hfo] Hdp Pt Pe P. constructor.
  - assert (Eg : forall r, get_users r w2 = get_users r w) by (intros r; unfold get_users; rewrite Eus; reflexivity).
    destruct P as [P4 P5 P6 P7 P8 P9]. constructor.
    + intros r. rewrite <- Eg. apply P4.
    + intros r. rewrite <- Eg. apply P5.
    + intros e' He'. rewrite <- Eg. apply P6, He'.
    + exact P7.
    + intros r e. rewrite <- Eg. apply P8.
    + intros r k x. rewrite <- Eg. apply P9.
  - exact Hdp.
  - simpl. congruence.
  - eexists. split; [simpl; apply lookup_insert_eq |]. split; [reflexivity |]. auto.
  - intros task Htask. simpl in Htask. rewrite lookup_insert_eq in Htask. injection Htask as <-. auto.
  - intros task Htask f. simpl in Htask. rewrite lookup_insert_eq in Htask. injection Htask as <-.
    change (post_event (with_user ?v task2)) with (post_event task2). rewrite Efo. split.
    + destruct (parent sp) as [p |] eqn:Ep; intros Hf; [| inversion Hf].
      apply list_elem_of_singleton in Hf as ->. eauto.
    + intros (sp0 & p & Hsp0 & Ep & ->). assert (sp0 = sp) as -> by congruence. rewrite Ep. left.
  - intros a task' Ha Hin. simpl in Hin. rewrite lookup_insert_ne in Hin by congruence.
    rewrite Pt in Hin. eauto.
  - intros a task Ha. destruct (Hfo a task Ha) as (task' & Ha' & Hk). exists task'. split; [| exact Hk].
    simpl. rewrite lookup_insert_ne by congruence. rewrite Pt. exact Ha'.
Qed.

Lemma submit_spec bpre bpost w s sp t u worker :
  Inv bpre bpost w [] -> tasks w !! t = None -> spaces w !! s = Some sp ->
  bpre t = 1%nat -> bpost t = 1%nat ->
  (forall p, parent sp = Some p -> exists taskp, tasks w !! p = Some taskp /\ is_finished taskp = false /\
     state (post_event taskp) + 1 < 2 ^ 16 /\ is_superset_of (user taskp) u = true) ->
  exists l' w', submit s t (put_task t (with_user u (new_task worker (depth sp))) w) = Ok w' /\
    Inv bpre bpost w' [] /\ submitted s t u w l' w'.
Proof.
  intros HI Hn Hsp Hb1 Hb2 Hpar.
  destruct (order_before_parent_spec _ _ _ _ _ _ _ worker HI Hn Hsp Hb1 Hb2 Hpar) as (w2 & task2 & E2 & HI2 & Esp & He).
  cbv zeta in E2, Esp. set (w1 := put_space s _ _) in *.
  destruct (push_users_spec t (unique_resources u) w2) as (l' & w3 & E3 & Pt & Ps & Pe & P).
  pose proof (et_task _ _ _ _ _ _ _ He) as Ht2. pose proof (et_user _ _ _ _ _ _ _ He) as Eu.
  exists l', (put_task t (with_user (mkUser (access_list u) l' (ResourceUser.scope_level u)) task2) w3).
  split; [| split].
  - unfold submit, get_task. simpl (tasks (put_task _ _ _) !! t). rewrite lookup_insert_eq.
    simpl (spaces (put_task _ _ _) !! s). rewrite Hsp. cbn [deref mbind res_bind].
    assert (Ew : put_space s (mkSpace (u32 (task_count sp + 1)) (depth sp) (parent sp)) (put_task t
      (with_space (Some s) (with_user u (new_task worker (depth sp)))) (put_task t (with_user u (new_task worker (depth sp))) w)) = w1)
      by (unfold w1, put_space, put_task; simpl; rewrite insert_insert_eq; reflexivity).
    rewrite Ew. unfold order_before_parent, get_task in E2.
    change (user (with_user u ?v)) with u. rewrite E2. cbn [mbind res_bind].
    rewrite Ht2. cbn [deref mbind res_bind]. rewrite Eu, E3. reflexivity.
  - apply (Inv_put_same _ _ _ _ _ task2); try reflexivity; [| rewrite Pt; exact Ht2].
    eapply Inv_ext; [exact Pt | exact Pe | | exact HI2]. intros q Hq. rewrite Ps. exact Hq.
  - apply (entered_submitted s sp t u w w2); [exact Hn | exact Hsp | exact He | | exact Pt | exact Pe | exact P].
    intros q. rewrite Ps, Esp. unfold w1. simpl. destruct (decide (s = q)) as [<- | Hne].
    + rewrite lookup_insert_eq, Hsp. reflexivity.
    + rewrite lookup_insert_ne by exact Hne. reflexivity.
Qed.
End Submit.
End GraphSubmit.
