(* ===== verification/GraphEvents.v ===== *)
(** External events: what making one, waiting for one and reaching one does to the
    counters of the graph ([GraphProperty::make_event], [sg_pause] of
    [redGrapes/task/property/graph.*], [EventPtr::notify]). *)

From Stdlib Require Import ZArith Lia Bool.
From stdpp Require Import base gmap list strings.
From S2P Require Import Prelude Resource ResourceUser Entries Graph GraphNotify GraphInv GraphInit GraphSubmit.

Open Scope Z_scope.
Open Scope word_scope.

Module GraphEvents.
Import Resource ResourceUser Graph GraphNotify GraphInv GraphInit GraphSubmit.

Section Events.
Context {RA : Type} `{AccessOps RA}.
Implicit Types (w : World RA) (task : Task RA).

(** ** Replacing an external event *)

Lemma edges_put_external w x e0 e f : events w !! x = Some e0 ->
  (edges (put_external x e w) f + ext_edges f x e0 = ext_edges f x e + edges w f)%nat.
Proof.
  intros Hx. pose proof (map_sum_insert (ext_edges f) (events w) x e e0 Hx). unfold edges. simpl. lia.
Qed.

Lemma edges_new_external w x e f : events w !! x = None ->
  edges (put_external x e w) f = (ext_edges f x e + edges w f)%nat.
Proof.
  intros Hx. unfold edges. simpl. rewrite map_sum_insert_new by exact Hx. lia.
Qed.

Lemma Inv_put_external bpre bpost w pend pend' x e :
  Inv bpre bpost w pend ->
  (forall f, (edges (put_external x e w) f + occ f pend' = edges w f + occ f pend)%nat) ->
  (forall f, f ∈ pend' -> target w f) ->
  state e = 0 \/ state e = 1 /\ (forall f, f ∈ followers e -> target w f) ->
  Inv bpre bpost (put_external x e w) pend'.
Proof.
  intros [I1 I2 I3 I4 I5 I6 I7 I8 I9 I10] Hbal Hp He. constructor; try assumption.
  - intros t task Ht. specialize (Hbal (get_pre_event t)). rewrite (I1 t task Ht). lia.
  - intros t task Ht. specialize (Hbal (get_post_event t)). rewrite (I2 t task Ht). lia.
  - intros y e' Hy. simpl in Hy. apply lookup_insert_Some in Hy as [(<- & <-) | (_ & Hy)]; [exact He | apply (I10 y e' Hy)].
Qed.

Lemma Inv_new_external bpre bpost w pend x :
  Inv bpre bpost w pend -> events w !! x = None -> Inv bpre bpost (put_external x new_event w) pend.
Proof.
  intros HI Hx. apply (Inv_put_external _ _ _ pend); [exact HI | | apply (inv_pend _ _ _ _ HI) | right].
  - intros f. rewrite (edges_new_external w x new_event f Hx). reflexivity.
  - split; [reflexivity |]. intros f Hf. inversion Hf.
Qed.

Lemma Inv_set_waker bpre bpost w pend x e wk :
  Inv bpre bpost w pend -> events w !! x = Some e -> Inv bpre bpost (put_external x (set_waker wk e) w) pend.
Proof.
  intros HI Hx. apply (Inv_put_external _ _ _ pend); [exact HI | | apply (inv_pend _ _ _ _ HI) | apply (inv_events _ _ _ _ HI x e Hx)].
  intros f. pose proof (edges_put_external w x e (set_waker wk e) f Hx) as Hs.
  change (ext_edges f x (set_waker wk e)) with (ext_edges f x e) in Hs. lia.
Qed.

(** A new follower takes the notification that is due. *)
Lemma Inv_push_external bpre bpost w pend x e f :
  Inv bpre bpost w (f :: pend) -> events w !! x = Some e -> state e = 1 ->
  Inv bpre bpost (put_external x (push_follower f e) w) pend.
Proof.
  intros HI Hx Hs. assert (Hr : is_reached e = false) by (unfold is_reached; lia).
  apply (Inv_put_external _ _ _ (f :: pend)); [exact HI | | | right].
  - intros g. pose proof (edges_put_external w x e (push_follower f e) g Hx) as Hsum.
    assert (E : ext_edges g x (push_follower f e) = ((if bool_decide (f = g) then 1 else 0) + ext_edges g x e)%nat).
    { unfold ext_edges. change (is_reached (push_follower f e)) with (is_reached e). rewrite Hr. simpl. apply occ_cons. }
    rewrite occ_cons. lia.
  - intros g Hg. apply (inv_pend _ _ _ _ HI). right. exact Hg.
  - split; [exact Hs |]. intros g Hg. simpl in Hg. apply elem_of_cons in Hg as [-> | Hg].
    + apply (inv_pend _ _ _ _ HI). left.
    + destruct (inv_events _ _ _ _ HI x e Hx) as [Hz | [_ Ht]]; [lia | auto].
Qed.

(** Reaching the event makes the notifications of its followers due. *)
Lemma Inv_reach_external bpre bpost w pend x e :
  Inv bpre bpost w pend -> events w !! x = Some e -> state e = 1 ->
  Inv bpre bpost (put_external x (dn e) w) (followers e ++ pend).
Proof.
  intros HI Hx Hs. assert (Ed : state (dn e) = 0) by (rewrite dn_state by lia; lia).
  apply (Inv_put_external _ _ _ pend); [exact HI | | | left; exact Ed].
  - intros g. pose proof (edges_put_external w x e (dn e) g Hx) as Hsum.
    assert (E1 : ext_edges g x (dn e) = 0%nat) by (unfold ext_edges, is_reached; rewrite Ed; reflexivity).
    assert (E2 : ext_edges g x e = occ g (followers e)) by (unfold ext_edges, is_reached; rewrite Hs; reflexivity).
    rewrite occ_app. lia.
  - intros g Hg. apply elem_of_app in Hg as [Hg | Hg]; [| apply (inv_pend _ _ _ _ HI g Hg)].
    destruct (inv_events _ _ _ _ HI x e Hx) as [Hz | [_ Ht]]; [lia | auto].
Qed.

(** What an external event gains leaves the tasks as they are. *)
Lemma Grow_put_external t w x e e' :
  events w !! x = Some e -> state e' = state e -> (forall f, f ∈ followers e -> f ∈ followers e') ->
  Grow t w (put_external x e' w).
Proof.
  intros Hx Es Hf. constructor; try reflexivity; auto.
  - intros y z Hy. simpl. destruct (decide (x = y)) as [<- | Hne].
    + exists e'. rewrite lookup_insert_eq. assert (z = e) as -> by congruence. auto.
    + exists z. rewrite lookup_insert_ne by exact Hne. auto.
  - intros a task Ha. exists task. split; [exact Ha | apply grown_refl].
Qed.

Lemma get_external w x c e : events w !! x = Some e -> get_event (external x c) w = Ok e.
Proof. intros Hx. unfold get_event. simpl. rewrite Hx. reflexivity. Qed.

Lemma modify_external w x c e f : events w !! x = Some e ->
  modify_event (external x c) f w = Ok (put_external x (f e) w).
Proof. intros Hx. unfold modify_event. rewrite (get_external w x c e Hx). reflexivity. Qed.

(** ** Making an event *)

Lemma make_event_spec bpre bpost w t task x :
  Inv bpre bpost w [] -> tasks w !! t = Some task -> is_finished task = false ->
  state (post_event task) + 1 < 2 ^ 16 -> events w !! x = None ->
  exists w', make_event x t w = Ok (external x t, w') /\ Inv bpre bpost w' [] /\ Grow t w w' /\
    tasks w' = <[t := with_event T_EVT_POST (up (post_event task)) task]> (tasks w) /\
    events w' = <[x := mkEvent [get_post_event t] 1 (-1)]> (events w) /\ calls w' = calls w.
Proof.
  intros HI Ht Hf Hsm Hx. set (task' := with_event T_EVT_POST (up (post_event task)) task).
  set (w1 := put_external x new_event w). set (w2 := put_external x (push_follower (get_post_event t) new_event) w1).
  assert (Hx1 : events w1 !! x = Some new_event) by (simpl; apply lookup_insert_eq).
  pose proof (Inv_new_external _ _ _ _ x HI Hx) as HI1. fold w1 in HI1.
  pose proof (up_post_spec _ _ _ _ _ _ HI1 Ht Hf Hsm) as HI2. fold task' in HI2.
  pose proof (Inv_push_external _ _ _ _ x new_event (get_post_event t) HI2 Hx1 eq_refl) as HI3.
  exists (put_task t task' w2). split; [| split; [exact HI3 | split; [| split; [reflexivity | split; [| reflexivity]]]]].
  - unfold make_event. fold w1. change (mkPtr (Some x) (Some t) T_EVT_EXT) with (external x t).
    unfold add_follower. rewrite (get_external w1 x t new_event Hx1). cbn [mbind res_bind].
    change (is_reached new_event) with false. cbn iota.
    rewrite (modify_external w1 x t new_event _ Hx1). cbn [mbind res_bind]. fold w2.
    rewrite (modify_post w2 t task _ Ht). reflexivity.
  - constructor; try reflexivity.
    + intros y e Hy. exists e. simpl. rewrite insert_insert_eq, lookup_insert_ne by congruence. auto.
    + intros a y Hy. simpl in Hy. apply lookup_insert_Some in Hy as [(<- & <-) | (Hne & Hy)].
      * exists task. split; [exact Ht |]. constructor; try reflexivity; try (intros Hn; exfalso; apply Hn; reflexivity); auto.
        change (is_reached (up (post_event task)) = is_reached (post_event task)).
        pose proof (inv_post _ _ _ _ HI t task Ht) as Ep. unfold is_finished, is_reached in *.
        rewrite up_state by lia. lia.
      * exists y. split; [exact Hy | apply grown_refl].
    + intros a [y Hy]. simpl. destruct (decide (t = a)) as [<- | Hne].
      * rewrite lookup_insert_eq. eauto.
      * rewrite lookup_insert_ne by exact Hne. eauto.
  - simpl. rewrite insert_insert_eq. reflexivity.
Qed.

(** ** Waiting for an event *)

(** Where the counters of a started task are when it begins to wait: its own
    trigger is owed again. *)
Lemma Inv_wait bpre bpre' bpost w t task :
  Inv bpre bpost w [] -> tasks w !! t = Some task -> state (pre_event task) = 0 -> bpre t = 0%nat -> bpost t <> 0%nat ->
  bpre' t = 1%nat -> (forall a, a <> t -> bpre' a = bpre a) ->
  let w1 := put_task t (with_event T_EVT_PRE (set_state 1 (pre_event task)) task) w in
  Inv bpre' bpost w1 [] /\ Grow t w w1.
Proof.
  intros HI Ht Hs Hb Hbp Hb' Ho w1.
  destruct (up_pre_spec _ _ _ _ _ _ HI Ht Hbp ltac:(lia)) as (HI1 & G & _).
  assert (Eup : up (pre_event task) = set_state 1 (pre_event task)) by (unfold up, set_state; rewrite Hs; reflexivity).
  rewrite Eup in HI1, G. fold w1 in HI1, G. split; [| exact G].
  eapply Inv_rebase; [exact HI1 | | intros f Hf; inversion Hf |].
  - intros a _. change (occ ?f []) with 0%nat. rewrite !occ_cons. change (occ ?f []) with 0%nat.
    rewrite (bool_decide_false (get_pre_event t = get_post_event a)) by discriminate.
    destruct (decide (a = t)) as [-> | Hne].
    + rewrite bool_decide_true by reflexivity. lia.
    + rewrite bool_decide_false, (Ho a Hne) by (intros E; injection E; congruence). lia.
  - apply (inv_run _ _ _ _ HI1).
Qed.

Lemma prepare_pause_spec bpre bpre' bpost w t task x e c wk :
  Inv bpre bpost w [] -> tasks w !! t = Some task -> state (pre_event task) = 0 -> bpre t = 0%nat -> bpost t <> 0%nat ->
  bpre' t = 1%nat -> (forall a, a <> t -> bpre' a = bpre a) -> events w !! x = Some e ->
  exists w' task', prepare_pause t wk (external x c) w = Ok w' /\ Inv bpre' bpost w' [get_pre_event t] /\ Grow t w w' /\
    tasks w' = <[t := task']> (tasks w) /\ post_event task' = post_event task /\
    state (pre_event task') = (if is_reached e then 2 else 3) /\
    calls w' = calls w /\
    (is_reached e = false -> exists e', events w' !! x = Some e' /\ state e' = 1 /\ get_pre_event t ∈ followers e').
Proof.
  intros HI Ht Hs Hb Hbp Hb' Ho Hx. unfold prepare_pause, sg_pause.
  set (w1 := put_external x (set_waker wk e) w). pose proof (Inv_set_waker _ _ _ _ x e wk HI Hx) as HI1. fold w1 in HI1.
  assert (G1 : Grow t w w1) by (apply (Grow_put_external _ _ x e); auto).
  rewrite (modify_external w x c e _ Hx). cbn [mbind res_bind]. fold w1.
  rewrite (modify_pre w1 t task _ Ht). cbn [mbind res_bind].
  destruct (Inv_wait bpre bpre' bpost w1 t task HI1 Ht Hs Hb Hbp Hb' Ho) as [HI2 G2].
  set (task1 := with_event T_EVT_PRE (set_state 1 (pre_event task)) task) in *. set (w2 := put_task t task1 w1) in *.
  assert (Ht2 : tasks w2 !! t = Some task1) by (simpl; apply lookup_insert_eq).
  assert (Hx2 : events w2 !! x = Some (set_waker wk e)) by (simpl; apply lookup_insert_eq).
  unfold add_follower. rewrite (get_external w2 x c _ Hx2). cbn [mbind res_bind].
  change (is_reached (set_waker wk e)) with (is_reached e).
  destruct (up_pre_spec _ _ _ _ _ _ HI2 Ht2 Hbp ltac:(simpl; lia)) as (HI3 & G3 & Es3). destruct (is_reached e) eqn:Er.
  - cbn [mbind res_bind]. rewrite (modify_pre w2 t task1 _ Ht2). cbn [mbind res_bind].
    eexists _, _. split; [reflexivity |]. split; [exact HI3 |]. split; [eapply Grow_trans; [eapply Grow_trans |]; eassumption |].
    split; [simpl; apply insert_insert_eq |]. split; [reflexivity |]. split; [exact (eq_trans Es3 eq_refl) |]. split; [reflexivity | discriminate].
  - assert (Hs1 : state e = 1).
    { destruct (inv_events _ _ _ _ HI x e Hx) as [Hz | [Hz _]]; [unfold is_reached in Er; lia | exact Hz]. }
    rewrite (modify_external w2 x c _ _ Hx2). cbn [mbind res_bind].
    set (e3 := push_follower (get_pre_event t) (set_waker wk e)). set (w3 := put_external x e3 w2).
    rewrite (modify_pre w3 t task1 _ Ht2). cbn [mbind res_bind].
    set (task2 := with_event T_EVT_PRE (up (pre_event task1)) task1) in *.
    pose proof (Inv_push_external _ _ _ _ x _ _ HI3 Hx2 Hs1) as HI4. fold e3 in HI4.
    change (put_external x e3 (put_task t task2 w2)) with (put_task t task2 w3) in HI4.
    assert (G4 : Grow t w2 w3).
    { apply (Grow_put_external _ _ x (set_waker wk e)); auto. intros f Hf. right. exact Hf. }
    assert (G4' : Grow t (put_task t task2 w2) (put_task t task2 w3)).
    { apply (Grow_put_external t (put_task t task2 w2) x (set_waker wk e) e3); auto. intros f Hf. right. exact Hf. }
    assert (Es3' : state (pre_event task2) = 2) by exact (eq_trans Es3 eq_refl).
    assert (Ht4 : tasks (put_task t task2 w3) !! t = Some task2) by (simpl; apply lookup_insert_eq).
    rewrite (modify_pre (put_task t task2 w3) t task2 _ Ht4).
    destruct (up_pre_spec _ _ _ _ _ _ HI4 Ht4 Hbp ltac:(lia)) as (HI5 & G5 & Es5).
    eexists _, _. split; [reflexivity |]. split; [exact HI5 |].
    split; [eapply Grow_trans; [exact G1 |]; eapply Grow_trans; [exact G2 |]; eapply Grow_trans; [exact G3 |];
      eapply Grow_trans; [exact G4' | exact G5] |].
    split; [simpl; rewrite !insert_insert_eq; reflexivity |]. split; [reflexivity |]. split; [exact (eq_trans Es5 (f_equal (fun z => z + 1) Es3')) |].
    split; [reflexivity |]. intros _. exists e3. split; [simpl; apply lookup_insert_eq |]. split; [exact Hs1 | left].
Qed.

(** ** Reaching an event *)

Lemma notify_external_spec bpre bpost fuel w x e c claimed :
  Inv bpre bpost w [] -> events w !! x = Some e -> state e = 1 -> (total w < S fuel)%nat ->
  exists b w', notify (S fuel) (external x c) claimed w = Ok (b, w') /\ Inv bpre bpost w' [] /\
    Frame (fun _ => False) bpost (put_external x (dn e) w) w'.
Proof.
  intros HI Hx Hs Hfuel. pose proof (Inv_reach_external _ _ _ _ x e HI Hx Hs) as HI1. rewrite app_nil_r in HI1.
  set (w1 := put_external x (dn e) w) in *.
  assert (Hp : put_event (external x c) (dn e) w = Ok w1) by reflexivity.
  pose proof (put_dn_total _ _ _ _ (get_external w x c e Hx) Hp ltac:(lia)) as Hlt.
  rewrite notify_S, (get_external w x c e Hx). cbn [mbind res_bind]. rewrite Hp. cbn [mbind res_bind].
  rewrite Hs. cbn [cpp_assert mbind res_bind deref ep_task external].
  change (0 <? 1) with true. change (1 <? 1 - 1) with false. change (1 - 1 =? 0) with true.
  cbn [cpp_assert mbind res_bind]. simpl bool_decide. cbn [andb].
  set (w2 := if 0 <=? waker_id e then call (Wake c (waker_id e)) w1 else w1).
  assert (HF2 : Frame (fun _ => False) bpost w1 w2) by (unfold w2; destruct (0 <=? _); auto using Frame_call, Frame_refl).
  assert (HI2 : Inv bpre bpost w2 (followers e ++ [])) by (rewrite app_nil_r; unfold w2; destruct (0 <=? _); auto using Inv_call).
  assert (E2 : total w2 = total w1) by (unfold w2; destruct (0 <=? _); reflexivity).
  unfold reached_before, reached_after. simpl bool_decide. cbn [mbind res_bind andb orb].
  destruct (notify_all_spec bpre bpost fuel (notify_spec bpre bpost fuel) (followers e) w2 [] ltac:(lia) HI2)
    as (w3 & E3 & HI3 & HF3).
  rewrite E3. cbn [mbind res_bind]. eexists _, w3. split; [reflexivity |]. split; [exact HI3 |].
  eapply Frame_trans; eassumption.
Qed.
End Events.
End GraphEvents.
