(* ===== verification/GraphDemote.v ===== *)
(** Giving up accesses while running: [update_properties] patches the access list
    of the running task, and [update_graph] then removes the edges to the tasks it
    no longer conflicts with ([redGrapes/redGrapes.tpp],
    [task/property/graph.tpp]). *)

From Stdlib Require Import ZArith Lia Bool.
From stdpp Require Import base gmap list strings.
From S2P Require Import Prelude Resource ResourceUser Entries Graph GraphNotify GraphInv GraphInit.

Open Scope Z_scope.
Open Scope word_scope.

Module GraphDemote.
Import Resource ResourceUser Graph GraphNotify GraphInv GraphInit.

Section Demote.
Context {RA : Type} `{AccessOps RA}.
Implicit Types (w : World RA) (task : Task RA).

(** [update_properties]; an exception leaves the accesses changed. *)
Definition update_properties (fuel : nat) (current_task : option nat) (patch : Patch RA) w : res (World RA) :=
  match current_task with
  | None => Err (Throw "update_properties: currently no task running")
  | Some t =>
      task ← get_task t w;
      let '(u, failed) := apply_patch patch (user task) in
      let w := put_task t (with_user u task) w in
      match failed with
      | Some e => Err e
      | None => update_graph fuel t w
      end
  end.

(** A follower whose task does not conflict with the accesses [u]. *)
Definition released w (u : ResourceUser RA) (f : EventPtr) : bool :=
  match ep_task f with
  | Some ft => match tasks w !! ft with Some ftask => negb (is_serial u (user ftask)) | None => false end
  | None => false
  end.

(** The tasks that are left have the accesses they had. *)
Definition same_users w w' : Prop :=
  forall a task', tasks w' !! a = Some task' -> exists task, tasks w !! a = Some task /\ user task' = user task.

(** ** Removing a follower *)

(** The pointers kept as followers differ as soon as they compare different. *)
Lemma ptr_eqb_target w f g : target w f -> target w g -> ptr_eqb f g = bool_decide (f = g).
Proof.
  intros (a & _ & Hf) (b & _ & Hg). unfold ptr_eqb. apply eq_true_iff_eq.
  rewrite andb_true_iff, !bool_decide_eq_true. split; [| intros ->; auto].
  intros [Et Ep]. destruct Hf as [-> | ->], Hg as [-> | ->]; simpl in *; congruence.
Qed.

Lemma occ_removed (f g : EventPtr) l : NoDup l -> f ∈ l ->
  (occ g (List.filter (fun x => negb (bool_decide (x = f))) l) + occ g [f] = occ g l)%nat.
Proof.
  intros Hnd Hin. assert (Hf : occ g (List.filter (fun x => bool_decide (x = f)) l) = occ g [f]).
  { induction Hnd as [| x l Hx Hnd IH]; [inversion Hin |]. simpl. destruct (decide (x = f)) as [-> | Hne].
    - rewrite bool_decide_true by reflexivity. rewrite !occ_cons. f_equal.
      destruct (List.filter (fun x => bool_decide (x = f)) l) as [| y ys] eqn:E; [reflexivity |]. exfalso. apply Hx.
      assert (Hy : In y (List.filter (fun x => bool_decide (x = f)) l)) by (rewrite E; left; reflexivity).
      apply filter_In in Hy as [Hy Ey]. apply bool_decide_eq_true in Ey as ->. apply list_elem_of_In, Hy.
    - rewrite bool_decide_false by exact Hne. apply elem_of_cons in Hin as [-> | Hin]; [contradiction | apply IH, Hin]. }
  rewrite <- Hf. clear. induction l as [| x l IH]; [reflexivity |]. simpl.
  destruct (bool_decide (x = f)); simpl; rewrite !occ_cons; lia.
Qed.

Lemma removed_followers w task f :
  target w f -> (forall g, g ∈ followers (post_event task) -> target w g) ->
  remove_follower f (post_event task) =
  set_followers (List.filter (fun g => negb (bool_decide (g = f))) (followers (post_event task))) (post_event task).
Proof.
  intros Hf Hall. unfold remove_follower, set_followers. f_equal. apply filter_ext_in. intros g Hg.
  rewrite (ptr_eqb_target w g f); [reflexivity | apply Hall, list_elem_of_In, Hg | exact Hf].
Qed.

(** ** The loop *)

Lemma update_followers_spec bpre bpost fuel t u : forall l w task,
  Inv bpre bpost w [] -> tasks w !! t = Some task -> user task = u -> bpost t <> 0%nat -> (total w < fuel)%nat ->
  NoDup (followers (post_event task)) -> NoDup l -> (forall f, f ∈ l -> f ∈ followers (post_event task)) ->
  exists w' task', update_followers fuel t l w = Ok w' /\ Inv bpre bpost w' [] /\ tasks w' !! t = Some task' /\
    user task' = u /\ same_users w w' /\
    followers (post_event task') =
      List.filter (fun f => negb (bool_decide (f ∈ l) && released w u f)) (followers (post_event task)).
Proof.
  induction l as [| f l IH]; intros w task HI Ht Hu Hb Hfuel Hnd Hndl Hl.
  { exists w, task. split; [reflexivity |]. split; [exact HI |]. split; [exact Ht |]. split; [exact Hu |].
    split; [intros a x Hx; eauto |]. symmetry. rewrite <- (filter_true (followers (post_event task))) at 2.
    apply filter_ext_in. intros g _. rewrite bool_decide_false by apply not_elem_of_nil. reflexivity. }
  apply NoDup_cons in Hndl as [Hfl Hndl]. assert (Hf : f ∈ followers (post_event task)) by (apply Hl; left).
  assert (Hun : is_finished task = false).
  { unfold is_finished, is_reached. rewrite (inv_post _ _ _ _ HI t task Ht). apply Z.eqb_neq. lia. }
  pose proof (inv_followers _ _ _ _ HI t task f Ht Hun Hf) as Htf.
  assert (Hall : forall g, g ∈ followers (post_event task) -> target w g)
    by (intros g Hg; eapply inv_followers; eassumption).
  destruct Htf as (ft & [ftask Hft] & Ef). assert (Eft : ep_task f = Some ft) by (destruct Ef as [-> | ->]; reflexivity).
  cbn [update_followers]. unfold get_task. rewrite Ht. cbn [deref mbind res_bind].
  assert (Eex : existsb (ptr_eqb f) (followers (post_event task)) = true).
  { apply existsb_exists. exists f. split; [apply list_elem_of_In, Hf |]. unfold ptr_eqb. rewrite !bool_decide_true by reflexivity.
    reflexivity. }
  rewrite Eex, Eft, Hft, Hu. cbn [deref mbind res_bind].
  assert (Erel : released w u f = negb (is_serial u (user ftask))) by (unfold released; rewrite Eft, Hft; reflexivity).
  rewrite <- Erel. destruct (released w u f) eqn:Er.
  - rewrite (modify_post w t task _ Ht). cbn [mbind res_bind].
    rewrite (removed_followers w task f (Hall f Hf) Hall).
    set (F := List.filter (fun g => negb (bool_decide (g = f))) (followers (post_event task))).
    set (task1 := with_event T_EVT_POST (set_followers F (post_event task)) task). set (w1 := put_task t task1 w).
    assert (HI1 : Inv bpre bpost w1 [f]).
    { apply (Inv_set_followers _ _ w [] [f] t task F HI Ht Hun). intros g. unfold F.
      change (occ g []) with 0%nat. rewrite (occ_removed f g _ Hnd Hf). lia. }
    assert (Etot : total w1 = total w) by (pose proof (total_put_task t task task1 w Ht) as E; change (task_weight t task1) with (task_weight t task) in E; unfold w1; lia).
    destruct (notify_spec bpre bpost fuel f w1 [] false ltac:(lia) HI1) as (b & w2 & E2 & HI2 & HF).
    destruct (notify_total fuel f false w1 ltac:(lia)) as [_ Hlt]. specialize (Hlt b w2 E2).
    rewrite E2. cbn [mbind res_bind].
    assert (Ht1 : tasks w1 !! t = Some task1) by apply lookup_insert_eq.
    destruct (tasks w2 !! t) as [task2 |] eqn:Ht2; [| exfalso; apply Hb; eapply fr_gone; eauto].
    destruct (fr_tasks _ _ _ _ HF t task2 Ht2) as (x & Hx & Hss). assert (x = task1) as -> by congruence.
    assert (EF : followers (post_event task2) = F) by (rewrite (ss_followers _ _ Hss); reflexivity).
    assert (Hsame : same_users w w2).
    { intros a y Hy. destruct (fr_tasks _ _ _ _ HF a y Hy) as (z & Hz & Hssz). simpl in Hz.
      apply lookup_insert_Some in Hz as [(<- & <-) | (_ & Hz)]; [exists task | exists z];
        (split; [assumption |]; rewrite (ss_user _ _ Hssz); reflexivity). }
    assert (HFin : forall g, g ∈ F <-> g ∈ followers (post_event task) /\ g <> f).
    { intros g. unfold F. rewrite list_elem_of_In, filter_In, <- list_elem_of_In, negb_true_iff, bool_decide_eq_false. reflexivity. }
    destruct (IH w2 task2 HI2 Ht2) as (w' & task' & E' & HI' & Ht' & Hu' & Hs' & El').
    + rewrite (ss_user _ _ Hss). exact Hu.
    + exact Hb.
    + lia.
    + rewrite EF. apply NoDup_bfilter, Hnd.
    + exact Hndl.
    + intros g Hg. rewrite EF. apply HFin. split; [apply Hl; right; exact Hg |]. intros ->. contradiction.
    + exists w', task'. split; [exact E' |]. split; [exact HI' |]. split; [exact Ht' |]. split; [exact Hu' |]. split.
      * intros a y Hy. destruct (Hs' a y Hy) as (z & Hz & Ez). destruct (Hsame a z Hz) as (q & Hq & Eq).
        exists q. split; [exact Hq | congruence].
      * rewrite El', EF. unfold F. rewrite bfilter_filter. apply filter_ext_in. intros g Hg.
        apply list_elem_of_In in Hg. destruct (decide (g = f)) as [-> | Hne].
        { rewrite bool_decide_true by reflexivity. rewrite (bool_decide_true (f ∈ f :: l)) by left. rewrite Er. reflexivity. }
        rewrite (bool_decide_false (g = f)) by exact Hne. cbn [negb andb].
        assert (Hg2 : target w2 g).
        { eapply (inv_followers _ _ _ _ HI2 t task2 g Ht2).
          - unfold is_finished, is_reached. rewrite (inv_post _ _ _ _ HI2 t task2 Ht2). apply Z.eqb_neq. lia.
          - rewrite EF. apply HFin. auto. }
        assert (Eq : released w2 u g = released w u g).
        { destruct Hg2 as (gt & [gtask Hgt] & Eg). destruct (Hsame gt gtask Hgt) as (y & Hy & Ey).
          assert (Egt : ep_task g = Some gt) by (destruct Eg as [-> | ->]; reflexivity).
          unfold released. rewrite Egt, Hgt, Hy, Ey. reflexivity. }
        rewrite Eq. do 2 f_equal. apply bool_decide_ext. rewrite elem_of_cons. tauto.
  - destruct (IH w task HI Ht Hu Hb Hfuel Hnd Hndl) as (w' & task' & E' & HI' & Ht' & Hu' & Hs' & El').
    { intros g Hg. apply Hl. right. exact Hg. }
    exists w', task'. split; [exact E' |]. split; [exact HI' |]. split; [exact Ht' |]. split; [exact Hu' |].
    split; [exact Hs' |]. rewrite El'. apply filter_ext_in. intros g Hg. destruct (decide (g = f)) as [-> | Hne].
    + rewrite Er, !andb_false_r. reflexivity.
    + do 2 f_equal. apply bool_decide_ext. rewrite elem_of_cons. tauto.
Qed.

(** (demote_graph): while a task runs [update_graph] returns, keeps the counters of
    the graph exact, and leaves of the followers of its post-event exactly those
    whose tasks conflict with the accesses it has now, provided that no follower
    is entered twice. *)
Theorem update_graph_correct bpre bpost fuel w t task :
  Inv bpre bpost w [] -> tasks w !! t = Some task -> bpost t <> 0%nat -> (total w < fuel)%nat ->
  NoDup (followers (post_event task)) ->
  exists w' task', update_graph fuel t w = Ok w' /\ Inv bpre bpost w' [] /\ tasks w' !! t = Some task' /\
    user task' = user task /\
    followers (post_event task') =
      List.filter (fun f => negb (released w (user task) f)) (followers (post_event task)).
Proof.
  intros HI Ht Hb Hfuel Hnd. unfold update_graph, get_task. rewrite Ht. cbn [deref mbind res_bind].
  destruct (update_followers_spec bpre bpost fuel t (user task) (followers (post_event task)) w task)
    as (w' & task' & E & HI' & Ht' & Hu & _ & El); auto.
  exists w', task'. split; [exact E |]. split; [exact HI' |]. split; [exact Ht' |]. split; [exact Hu |].
  rewrite El. apply filter_ext_in. intros f Hf. rewrite bool_decide_true by (apply list_elem_of_In, Hf). reflexivity.
Qed.
End Demote.
End GraphDemote.
