(* ===== verification/System.v ===== *)
(** The runtime as a step relation: tasks are submitted to their space, have
    their dependencies initialized, start, create children, return, and have
    their results taken, in any interleaving of these handlers.  The main
    theorem: two tasks of one space that must not run at the same time run in
    the order they were submitted. *)

From Stdlib Require Import ZArith Lia Bool.
From stdpp Require Import base gmap list strings.
From S2P Require Import Prelude Resource ResourceUser Entries Graph GraphNotify GraphInv GraphInit.
From S2P Require Import GraphSubmit GraphEvents.

Open Scope Z_scope.
Open Scope word_scope.

Module System.
Import Resource ResourceUser Graph GraphNotify GraphInv GraphInit GraphSubmit GraphEvents.

(** The life of a task: emplaced, dependencies initialized, running, returned. *)
Inductive Status : Type := Emplaced | Initialized | Running | Returned.

#[export] Instance Status_eq_dec : EqDecision Status.
Proof. solve_decision. Defined.

Definition started (s : Status) : bool :=
  match s with Running | Returned => true | _ => false end.

Section System.
Context {RA : Type} `{AccessOps RA}.
Implicit Types (w : World RA) (task : Task RA).

(** What is remembered of a task after it is freed. *)
Record Info : Type := mkInfo {
  i_seq : nat;
  i_user : ResourceUser RA;
  i_space : nat;
  i_status : Status
}.

Record State : Type := mkState {
  world : World RA;
  info : gmap nat Info;
  next_seq : nat
}.

Implicit Types (m : gmap nat Info).

Definition set_status (st : Status) (i : Info) : Info := mkInfo (i_seq i) (i_user i) (i_space i) st.

(** Fuel that covers every notification the graph can still make. *)
Definition notify_fuel w : nat := S (total w).

(** [init_dependencies] for a task taken from an emplacement queue. *)
Definition init_task (t : nat) (claimed : bool) w : res (bool * World RA) :=
  w ← modify_event (get_pre_event t) up w;
  w ← init_graph t w;
  notify (notify_fuel w) (get_pre_event t) claimed w.

(** [execute_task] up to the call of the task's function. *)
Definition start_task (t : nat) w : res (World RA) :=
  task ← get_task t w;
  _ ← cpp_assert (task_is_ready task);
  '(_, w) ← notify (notify_fuel w) (get_pre_event t) false w;
  Ok w.

(** A task built from its access list, as the builder leaves it. *)
Definition built (u : ResourceUser RA) : Prop :=
  (forall ra, ra ∈ access_list u -> ra_valid ra) /\
  (forall ra, ra ∈ access_list u -> exists e, e ∈ unique_resources u /\
     r_ptr (ue_resource e) = r_ptr (get_resource ra)).

(** Room for one more edge into an event: the counters are 16 bits wide. *)
Definition room (p : nat) (n : Z) w : Prop :=
  forall task, tasks w !! p = Some task ->
    state (pre_event task) + n < 2 ^ 16 /\ state (post_event task) + n < 2 ^ 16.

(** [execute_task] after the function of [t] has yielded for [event]. *)
Definition pause_task (t : nat) (waker : Z) (event : EventPtr) w : res (bool * World RA) :=
  w ← prepare_pause t waker event w;
  notify (notify_fuel w) (get_pre_event t) false w.

Inductive step : State -> State -> Prop :=
  | step_space p q ip task sp s :
      (* current_task_space: the running task [p] gets a space for its children *)
      info s !! p = Some ip -> i_status ip = Running ->
      tasks (world s) !! p = Some task -> children task = None -> spaces (world s) !! q = None ->
      sub_space p (world s) = Ok sp ->
      step s (mkState (put_task p (with_children (Some q) task) (put_space q sp (world s)))
                (info s) (next_seq s))
  | step_submit x t u worker sp w' user' s :
      (* TaskBuilder::submit of a new task into space [x], by its parent *)
      info s !! t = None -> tasks (world s) !! t = None -> spaces (world s) !! x = Some sp -> built u ->
      (forall p, parent sp = Some p ->
         (exists ip, info s !! p = Some ip /\ i_status ip = Running) /\ room p 1 (world s)) ->
      submit x t (put_task t (with_user u (new_task worker (depth sp))) (world s)) = Ok w' ->
      user <$> tasks w' !! t = Some user' ->
      step s (mkState w' (<[t := mkInfo (next_seq s) user' x Emplaced]> (info s)) (S (next_seq s)))
  | step_init t i claimed b w' s :
      info s !! t = Some i -> i_status i = Emplaced ->
      room t (1 + Z.of_nat (scan_length (unique_resources (i_user i)) (world s))) (world s) ->
      init_task t claimed (world s) = Ok (b, w') ->
      step s (mkState w' (<[t := set_status Initialized i]> (info s)) (next_seq s))
  | step_start t i w' s :
      info s !! t = Some i -> i_status i = Initialized ->
      start_task t (world s) = Ok w' ->
      step s (mkState w' (<[t := set_status Running i]> (info s)) (next_seq s))
  | step_result_set t i task b w' s :
      info s !! t = Some i -> i_status i = Running ->
      tasks (world s) !! t = Some task -> state (result_set_event task) = 1 ->
      notify (notify_fuel (world s)) (get_result_set_event t) false (world s) = Ok (b, w') ->
      step s (mkState w' (info s) (next_seq s))
  | step_return t i b w' s :
      info s !! t = Some i -> i_status i = Running ->
      notify (notify_fuel (world s)) (get_post_event t) false (world s) = Ok (b, w') ->
      step s (mkState w' (<[t := set_status Returned i]> (info s)) (next_seq s))
  | step_result_get t task b w' s :
      (* the future of [t] is read or destroyed *)
      tasks (world s) !! t = Some task -> state (result_get_event task) = 1 ->
      notify (notify_fuel (world s)) (get_result_get_event t) false (world s) = Ok (b, w') ->
      step s (mkState w' (info s) (next_seq s))
  | step_create_event t i x p w' s :
      (* create_event: the running task [t] makes an event at [x] *)
      info s !! t = Some i -> i_status i = Running -> events (world s) !! x = None -> room t 1 (world s) ->
      make_event x t (world s) = Ok (p, w') ->
      step s (mkState w' (info s) (next_seq s))
  | step_pause t i x e c waker b w' s :
      (* the function of [t] yields until the event at [x] is reached: the task
         waits like a task whose dependencies have just been initialized *)
      info s !! t = Some i -> i_status i = Running -> events (world s) !! x = Some e ->
      pause_task t waker (external x c) (world s) = Ok (b, w') ->
      step s (mkState w' (<[t := set_status Initialized i]> (info s)) (next_seq s))
  | step_notify_event x e c b w' s :
      (* EventPtr::notify on the external event at [x] *)
      events (world s) !! x = Some e -> state e = 1 ->
      notify (notify_fuel (world s)) (external x c) false (world s) = Ok (b, w') ->
      step s (mkState w' (info s) (next_seq s)).

Definition initial_world : World RA := mkWorld ∅ ∅ {[0%nat := top_space]} ∅ [].
Definition init (s : State) : Prop := s = mkState initial_world ∅ 0.

(** ** The invariant *)

Definition bpre_of (m : gmap nat Info) (t : nat) : nat :=
  match m !! t with Some i => if started (i_status i) then 0 else 1 | None => 1 end.
Definition bpost_of (m : gmap nat Info) (t : nat) : nat :=
  match m !! t with Some i => if bool_decide (i_status i = Returned) then 0 else 1 | None => 1 end.

(** [a] was submitted before [b], to the same space, and they conflict. *)
Definition before (m : gmap nat Info) (a b : nat) : Prop :=
  exists ia ib, m !! a = Some ia /\ m !! b = Some ib /\ (i_seq ia < i_seq ib)%nat /\
    i_space ia = i_space ib /\ is_serial (i_user ia) (i_user ib) = true.

(** What holds of the tasks ever submitted, whatever became of them. *)
Record static (m : gmap nat Info) (n : nat) : Prop := {
  st_seq : forall t i, m !! t = Some i -> (i_seq i < n)%nat;
  st_inj : forall a b ia ib, m !! a = Some ia -> m !! b = Some ib -> i_seq ia = i_seq ib -> a = b;
  st_built : forall t i, m !! t = Some i -> built (i_user i);
  st_key : forall t i e, m !! t = Some i -> e ∈ unique_resources (i_user i) -> is_Some (user_entry e);
  st_order : forall a b ia ib ea eb ka kb, m !! a = Some ia -> m !! b = Some ib ->
    (i_seq ia < i_seq ib)%nat -> ea ∈ unique_resources (i_user ia) -> eb ∈ unique_resources (i_user ib) ->
    r_ptr (ue_resource ea) = r_ptr (ue_resource eb) ->
    user_entry ea = Some ka -> user_entry eb = Some kb -> (ka < kb)%nat
}.

(** What holds of the store. *)
Record linked (m : gmap nat Info) w : Prop := {
  ln_task : forall t task, tasks w !! t = Some task -> exists i, m !! t = Some i /\
    user task = i_user i /\ space task = Some (i_space i);
  ln_gone : forall t i, m !! t = Some i -> tasks w !! t = None -> i_status i = Returned;
  ln_wf : forall r, Entries.wf (get_users r w);
  ln_entry : forall r k x, (k, x) ∈ Entries.content (get_users r w) ->
    (exists task, tasks w !! x = Some task /\ is_finished task = false) /\
    exists i e, m !! x = Some i /\ e ∈ unique_resources (i_user i) /\
      r_ptr (ue_resource e) = r /\ user_entry e = Some k;
  ln_present : forall t i e k, m !! t = Some i -> e ∈ unique_resources (i_user i) ->
    user_entry e = Some k ->
    (k < Entries.next_key (get_users (r_ptr (ue_resource e)) w))%nat /\
    ((k, t) ∈ Entries.content (get_users (r_ptr (ue_resource e)) w) \/ finished_in t w);
  ln_space : forall t i, m !! t = Some i -> exists sp, spaces w !! (i_space i) = Some sp /\
    forall p, parent sp = Some p -> exists ip, m !! p = Some ip /\ (i_seq ip < i_seq i)%nat;
  ln_parent : forall q sp p, spaces w !! q = Some sp -> parent sp = Some p -> is_Some (m !! p);
  ln_running : forall t i task, m !! t = Some i -> tasks w !! t = Some task ->
    started (i_status i) = true -> is_running task = true
}.

(** What the graph has recorded of the conflicts. *)
Record ordered (m : gmap nat Info) w : Prop := {
  od_deps : forall a b ib, before m a b -> m !! b = Some ib -> i_status ib <> Emplaced ->
    dep a b w \/ exists s, before m a s /\ dep s b w;
  od_safe : forall a b ib, before m a b -> m !! b = Some ib -> started (i_status ib) = true ->
    finished_in a w
}.

Record invariant (s : State) : Prop := {
  iv_inv : Inv (bpre_of (info s)) (bpost_of (info s)) (world s) [];
  iv_static : static (info s) (next_seq s);
  iv_linked : linked (info s) (world s);
  iv_ordered : ordered (info s) (world s)
}.

Lemma invariant_init s : init s -> invariant s.
Proof.
  intros ->. constructor; simpl.
  - constructor; simpl; try (intros t task Ht; rewrite lookup_empty in Ht; discriminate).
    + intros t task f Ht. rewrite lookup_empty in Ht. discriminate.
    + intros f Hin. inversion Hin.
  - constructor; intros *; rewrite ?lookup_empty; discriminate.
  - constructor.
    + intros t task Ht. simpl in Ht. rewrite lookup_empty in Ht. discriminate.
    + intros t i Ht. rewrite lookup_empty in Ht. discriminate.
    + intros r. unfold get_users. simpl. rewrite lookup_empty. apply Entries.wf_empty.
    + intros r k x Hin. unfold get_users in Hin. simpl in Hin. rewrite lookup_empty in Hin. inversion Hin.
    + intros t i e k Ht. rewrite lookup_empty in Ht. discriminate.
    + intros t i Ht. rewrite lookup_empty in Ht. discriminate.
    + intros q sp p Hq Hp. simpl in Hq. apply lookup_singleton_Some in Hq as [_ <-]. discriminate.
    + intros t i task Ht. rewrite lookup_empty in Ht. discriminate.
  - constructor; intros a b ib (ia & ib' & Ha & _); rewrite lookup_empty in Ha; discriminate.
Qed.

(** ** Changing the status of a task *)

(** The tasks are the same but for their status. *)
Definition same_info m m' : Prop :=
  forall t, (fun i => (i_seq i, i_user i, i_space i)) <$> m' !! t
          = (fun i => (i_seq i, i_user i, i_space i)) <$> m !! t.

Lemma same_info_refl m : same_info m m.
Proof. intros t. reflexivity. Qed.

Lemma same_info_sym m m' : same_info m m' -> same_info m' m.
Proof. intros Hs t. symmetry. apply Hs. Qed.

Lemma same_info_set_status m t i st : m !! t = Some i -> same_info m (<[t := set_status st i]> m).
Proof.
  intros Ht a. destruct (decide (t = a)) as [<- | Hne].
  - rewrite lookup_insert_eq, Ht. reflexivity.
  - rewrite lookup_insert_ne by exact Hne. reflexivity.
Qed.

Lemma same_info_lookup m m' a ia :
  same_info m m' -> m' !! a = Some ia ->
  exists i0, m !! a = Some i0 /\ i_seq ia = i_seq i0 /\ i_user ia = i_user i0 /\ i_space ia = i_space i0.
Proof.
  intros Hs Ha. specialize (Hs a). rewrite Ha in Hs. simpl in Hs.
  destruct (m !! a) as [i0 |]; [| discriminate]. injection Hs as E1 E2 E3. exists i0. auto.
Qed.

Lemma before_same m m' a b : same_info m m' -> before m' a b -> before m a b.
Proof.
  intros Hs (ia & ib & Ha & Hb & Hlt & Hsp & Hser).
  destruct (same_info_lookup _ _ _ _ Hs Ha) as (xa & Hxa & E1 & E2 & E3).
  destruct (same_info_lookup _ _ _ _ Hs Hb) as (xb & Hxb & F1 & F2 & F3).
  exists xa, xb. rewrite <- E1, <- E2, <- E3, <- F1, <- F2, <- F3. auto.
Qed.

Lemma static_same m m' n : same_info m m' -> static m n -> static m' n.
Proof.
  intros Hs [S1 S2 S3 S4 S5]. constructor.
  - intros a ia Ha. destruct (same_info_lookup _ _ _ _ Hs Ha) as (x & Hx & -> & _). eauto.
  - intros a b ia ib Ha Hb E.
    destruct (same_info_lookup _ _ _ _ Hs Ha) as (xa & Hxa & E1 & _).
    destruct (same_info_lookup _ _ _ _ Hs Hb) as (xb & Hxb & F1 & _).
    apply (S2 a b xa xb Hxa Hxb). congruence.
  - intros a ia Ha. destruct (same_info_lookup _ _ _ _ Hs Ha) as (x & Hx & _ & -> & _). eauto.
  - intros a ia e Ha. destruct (same_info_lookup _ _ _ _ Hs Ha) as (x & Hx & _ & -> & _). eauto.
  - intros a b ia ib ea eb ka kb Ha Hb.
    destruct (same_info_lookup _ _ _ _ Hs Ha) as (xa & Hxa & -> & -> & _).
    destruct (same_info_lookup _ _ _ _ Hs Hb) as (xb & Hxb & -> & -> & _). eauto.
Qed.

(** ** Steps that only deliver notifications *)

Lemma finished_in_sframe bpost w w' t : SFrame bpost w w' -> finished_in t w -> finished_in t w'.
Proof.
  intros Hf Hfin task' Ht'. destruct (sf_tasks _ _ _ Hf t task' Ht') as (task & Ht & Hss).
  apply (ss_post _ _ Hss), Hfin, Ht.
Qed.

Lemma dep_sframe bpost w w' a b : SFrame bpost w w' -> dep a b w -> dep a b w'.
Proof.
  intros Hf [Hfin | (task & Ha & Hin)]; [left; eapply finished_in_sframe; eassumption |].
  destruct (tasks w' !! a) as [task' |] eqn:E.
  - right. exists task'. split; [exact E |].
    destruct (sf_tasks _ _ _ Hf a task' E) as (x & Hx & Hss).
    rewrite (ss_followers _ _ Hss). congruence.
  - left. intros x Hx. congruence.
Qed.

(** A position in the users of a resource belongs to one task. *)
Lemma key_owner m n a b ia ib ea eb k :
  static m n -> m !! a = Some ia -> m !! b = Some ib ->
  ea ∈ unique_resources (i_user ia) -> eb ∈ unique_resources (i_user ib) ->
  r_ptr (ue_resource ea) = r_ptr (ue_resource eb) ->
  user_entry ea = Some k -> user_entry eb = Some k -> a = b.
Proof.
  intros [S1 S2 S3 S4 S5] Ha Hb Hea Heb Er Ka Kb. apply (S2 a b ia ib Ha Hb).
  destruct (Nat.lt_trichotomy (i_seq ia) (i_seq ib)) as [Hlt | [E | Hlt]]; [| exact E |]; exfalso.
  - pose proof (S5 a b ia ib ea eb k k Ha Hb Hlt Hea Heb Er Ka Kb). lia.
  - pose proof (S5 b a ib ia eb ea k k Hb Ha Hlt Heb Hea (eq_sym Er) Kb Ka). lia.
Qed.

Lemma linked_sframe m m' n w w' :
  static m n -> SFrame (bpost_of m') w w' -> same_info m m' -> linked m w ->
  (forall t i task, m' !! t = Some i -> tasks w' !! t = Some task -> started (i_status i) = true ->
     is_running task = true) ->
  (forall t i i', m !! t = Some i -> m' !! t = Some i' -> i_status i = Returned -> i_status i' = Returned) ->
  linked m' w'.
Proof.
  intros Hst Hf Hs [L1 L2 L3 L4 L5 L6 L7 L8] Hrun Hret. pose proof (same_info_sym _ _ Hs) as Hs'. constructor.
  - intros t task' Ht'. destruct (sf_tasks _ _ _ Hf t task' Ht') as (task & Ht & Hss).
    destruct (L1 t task Ht) as (i & Hi & Eu & Es).
    destruct (same_info_lookup _ _ _ _ Hs' Hi) as (i' & Hi' & _ & E2 & E3).
    exists i'. rewrite (ss_user _ _ Hss), (ss_space _ _ Hss), Eu, Es, E2, E3. auto.
  - intros t i' Hi' Hn. destruct (same_info_lookup _ _ _ _ Hs Hi') as (i & Hi & _).
    destruct (tasks w !! t) as [task |] eqn:Et.
    + pose proof (sf_gone _ _ _ Hf t ltac:(eauto) Hn) as Hb. unfold bpost_of in Hb. rewrite Hi' in Hb.
      destruct (bool_decide (i_status i' = Returned)) eqn:E; [| discriminate].
      apply bool_decide_eq_true in E. exact E.
    + eapply Hret; eauto.
  - intros r. eapply sf_users_wf; eauto.
  - intros r k x Hin. pose proof (sf_users_sub _ _ _ Hf r _ Hin) as Hin0.
    destruct (L4 r k x Hin0) as ((task & Ht & Hn) & i & e & Hi & He & Er & Ek).
    destruct (same_info_lookup _ _ _ _ Hs' Hi) as (i' & Hi' & _ & E2 & _).
    destruct (L1 x task Ht) as (i0 & Hi0 & Eu & _). assert (i0 = i) as -> by congruence.
    assert (Hnf : ~ finished_in x w').
    { intros Hfin. apply (sf_clean _ _ _ Hf x task e k x Ht Hn Hfin); [rewrite Eu; exact He | exact Ek |].
      rewrite Er. exact Hin. }
    split; [| exists i', e; rewrite <- E2; auto].
    destruct (tasks w' !! x) as [task' |] eqn:E'.
    + exists task'. split; [reflexivity |]. destruct (is_finished task') eqn:Ef; [| reflexivity].
      exfalso. apply Hnf. intros y Hy. congruence.
    + exfalso. apply Hnf. intros y Hy. congruence.
  - intros t i' e k Hi' He Hk. destruct (same_info_lookup _ _ _ _ Hs Hi') as (i & Hi & _ & E2 & _).
    rewrite E2 in He. destruct (L5 t i e k Hi He Hk) as [Hlt Hp].
    rewrite (sf_users_next _ _ _ Hf). split; [exact Hlt |].
    destruct Hp as [Hin | Hfin]; [| right; eapply finished_in_sframe; eassumption].
    destruct (decide ((k, t) ∈ Entries.content (get_users (r_ptr (ue_resource e)) w'))) as [Hin' | Hn]; [auto |].
    destruct (sf_users_gone _ _ _ Hf _ _ _ Hin Hn) as (t' & (task & e' & Ht' & He' & Er' & Ek') & Hfin).
    right. destruct (L1 t' task Ht') as (j & Hj & Eu & _). rewrite Eu in He'.
    rewrite (key_owner m n t t' i j e e' k); try assumption. congruence.
  - intros t i' Hi'. destruct (same_info_lookup _ _ _ _ Hs Hi') as (i & Hi & E1 & _ & E3).
    destruct (L6 t i Hi) as (sp & Hsp & Hpar). rewrite E3, E1.
    pose proof (sf_spaces _ _ _ Hf (i_space i)) as Esp. rewrite Hsp in Esp.
    destruct (spaces w' !! i_space i) as [sp' |]; [| discriminate]. injection Esp as Ed Ep.
    exists sp'. split; [reflexivity |]. intros p Hp. rewrite Ep in Hp.
    destruct (Hpar p Hp) as (ip & Hip & Hlt).
    destruct (same_info_lookup _ _ _ _ Hs' Hip) as (ip' & Hip' & F1 & _). exists ip'. rewrite <- F1. auto.
  - intros q sp' p Hq Hp. pose proof (sf_spaces _ _ _ Hf q) as Esp. rewrite Hq in Esp.
    destruct (spaces w !! q) as [sp |] eqn:E; [| discriminate]. injection Esp as Ed Ep.
    rewrite Ep in Hp. destruct (L7 q sp p E Hp) as [ip Hip].
    destruct (same_info_lookup _ _ _ _ Hs' Hip) as (ip' & Hip' & _). eauto.
  - exact Hrun.
Qed.

Lemma ordered_sframe m m' w w' bpost :
  SFrame bpost w w' -> same_info m m' -> ordered m w ->
  (forall b i i', m !! b = Some i -> m' !! b = Some i' -> i_status i' <> Emplaced -> i_status i <> Emplaced) ->
  (forall b i i', m !! b = Some i -> m' !! b = Some i' -> started (i_status i') = true ->
     started (i_status i) = true \/ forall a, before m a b -> finished_in a w) ->
  ordered m' w'.
Proof.
  intros Hf Hs [O1 O2] He Hst. pose proof (same_info_sym _ _ Hs) as Hs'. constructor.
  - intros a b ib' Hab Hb' Hne. destruct (same_info_lookup _ _ _ _ Hs Hb') as (ib & Hb & _).
    pose proof (before_same _ _ _ _ Hs Hab) as Hab0.
    destruct (O1 a b ib Hab0 Hb (He _ _ _ Hb Hb' Hne)) as [Hd | (x & Hx & Hd)].
    + left. eapply dep_sframe; eassumption.
    + right. exists x. split; [apply (before_same _ _ _ _ Hs'), Hx | eapply dep_sframe; eassumption].
  - intros a b ib' Hab Hb' Hsb. destruct (same_info_lookup _ _ _ _ Hs Hb') as (ib & Hb & _).
    pose proof (before_same _ _ _ _ Hs Hab) as Hab0.
    eapply finished_in_sframe; [exact Hf |].
    destruct (Hst _ _ _ Hb Hb' Hsb) as [Hsb0 | Hall]; eauto.
Qed.

(** ** Starting and returning *)

Lemma occ_single f g : occ f [g] = (if bool_decide (g = f) then 1 else 0)%nat.
Proof. rewrite occ_cons. apply Nat.add_0_r. Qed.

Lemma bpre_set m t i st a :
  bpre_of (<[t := set_status st i]> m) a
  = if decide (t = a) then (if started st then 0 else 1)%nat else bpre_of m a.
Proof.
  unfold bpre_of. destruct (decide (t = a)) as [<- | Hne].
  - rewrite lookup_insert_eq. reflexivity.
  - rewrite lookup_insert_ne by exact Hne. reflexivity.
Qed.

Lemma bpost_set m t i st a :
  bpost_of (<[t := set_status st i]> m) a
  = if decide (t = a) then (if bool_decide (st = Returned) then 0 else 1)%nat else bpost_of m a.
Proof.
  unfold bpost_of. destruct (decide (t = a)) as [<- | Hne].
  - rewrite lookup_insert_eq. reflexivity.
  - rewrite lookup_insert_ne by exact Hne. reflexivity.
Qed.

Lemma get_pre_inj a b : get_pre_event a = get_pre_event b <-> a = b.
Proof. split; [intros E; injection E; auto | intros ->; reflexivity]. Qed.

Lemma get_post_inj a b : get_post_event a = get_post_event b <-> a = b.
Proof. split; [intros E; injection E; auto | intros ->; reflexivity]. Qed.

Lemma occ_pre_single a b : occ (get_pre_event a) [get_pre_event b] = (if decide (b = a) then 1 else 0)%nat.
Proof.
  rewrite occ_single. destruct (decide (b = a)) as [-> | Hne].
  - rewrite bool_decide_true by reflexivity. reflexivity.
  - rewrite bool_decide_false by (rewrite get_pre_inj; exact Hne). reflexivity.
Qed.

Lemma occ_post_single a b : occ (get_post_event a) [get_post_event b] = (if decide (b = a) then 1 else 0)%nat.
Proof.
  rewrite occ_single. destruct (decide (b = a)) as [-> | Hne].
  - rewrite bool_decide_true by reflexivity. reflexivity.
  - rewrite bool_decide_false by (rewrite get_post_inj; exact Hne). reflexivity.
Qed.

Lemma occ_other a b :
  occ (get_post_event a) [get_pre_event b] = 0%nat /\ occ (get_pre_event a) [get_post_event b] = 0%nat.
Proof. rewrite !occ_single. split; rewrite bool_decide_false by discriminate; reflexivity. Qed.

(** A starting task trades its own trigger for a notification of its pre-event. *)
Lemma Inv_start m w t i :
  Inv (bpre_of m) (bpost_of m) w [] -> m !! t = Some i -> i_status i = Initialized -> is_Some (tasks w !! t) ->
  Inv (bpre_of (<[t := set_status Running i]> m)) (bpost_of (<[t := set_status Running i]> m)) w
    [get_pre_event t].
Proof.
  intros HI Ht Hst Hex. eapply Inv_rebase; [exact HI | | |].
  - intros a _. rewrite bpre_set, bpost_set, occ_pre_single, (proj1 (occ_other a t)).
    change (occ ?f []) with 0%nat. destruct (decide (t = a)) as [<- | Hne]; [| lia].
    unfold bpre_of, bpost_of. rewrite Ht, Hst. split; reflexivity.
  - intros f Hf. apply list_elem_of_singleton in Hf as ->. exists t. auto.
  - intros a task Ha. rewrite bpost_set. destruct (decide (t = a)) as [<- | Hne]; [discriminate |].
    apply (inv_run _ _ _ _ HI a task Ha).
Qed.

(** A returning task trades its own trigger for a notification of its post-event. *)
Lemma Inv_return m w t i task :
  Inv (bpre_of m) (bpost_of m) w [] -> m !! t = Some i -> i_status i = Running ->
  tasks w !! t = Some task -> is_running task = true ->
  Inv (bpre_of (<[t := set_status Returned i]> m)) (bpost_of (<[t := set_status Returned i]> m)) w
    [get_post_event t].
Proof.
  intros HI Ht Hst Hex Hrun. eapply Inv_rebase; [exact HI | | |].
  - intros a _. rewrite bpre_set, bpost_set, occ_post_single, (proj2 (occ_other a t)).
    change (occ ?f []) with 0%nat. destruct (decide (t = a)) as [<- | Hne]; [| lia].
    unfold bpre_of, bpost_of. rewrite Ht, Hst. split; reflexivity.
  - intros f Hf. apply list_elem_of_singleton in Hf as ->. exists t. eauto.
  - intros a task' Ha. rewrite bpost_set. destruct (decide (t = a)) as [<- | Hne].
    + intros _. assert (task' = task) as -> by congruence. unfold is_running, is_reached in Hrun. lia.
    + apply (inv_run _ _ _ _ HI a task' Ha).
Qed.

Lemma finished_returned m w t i :
  Inv (bpre_of m) (bpost_of m) w [] -> linked m w -> m !! t = Some i -> finished_in t w ->
  i_status i = Returned.
Proof.
  intros HI HL Ht Hfin. destruct (tasks w !! t) as [task |] eqn:E; [| eapply ln_gone; eauto].
  pose proof (inv_post _ _ _ _ HI t task E) as Hp. specialize (Hfin task E).
  unfold is_finished, is_reached in Hfin. assert (Hb : bpost_of m t = 0%nat) by lia.
  unfold bpost_of in Hb. rewrite Ht in Hb.
  destruct (bool_decide (i_status i = Returned)) eqn:Eb; [| discriminate].
  apply bool_decide_eq_true in Eb. exact Eb.
Qed.

Lemma dep_finished w a t : edges w (get_pre_event t) = 0%nat -> dep a t w -> finished_in a w.
Proof.
  intros He [Hf | (task & Ha & Hin)]; [exact Hf |]. intros x Hx.
  assert (x = task) as -> by congruence. destruct (is_finished task) eqn:Ef; [reflexivity |].
  pose proof (edges_pos w a task _ Ha Ef Hin). lia.
Qed.

(** A task whose pre-event is ready has all its conflicting predecessors done. *)
Lemma ready_safe m w t i task :
  Inv (bpre_of m) (bpost_of m) w [] -> linked m w -> ordered m w ->
  m !! t = Some i -> i_status i = Initialized -> tasks w !! t = Some task -> state (pre_event task) = 1 ->
  edges w (get_pre_event t) = 0%nat /\ forall a, before m a t -> finished_in a w.
Proof.
  intros HI HL HO Ht Hst Hex Hs.
  pose proof (inv_pre _ _ _ _ HI t task Hex) as Epre.
  assert (Eb : bpre_of m t = 1%nat) by (unfold bpre_of; rewrite Ht, Hst; reflexivity).
  assert (He : edges w (get_pre_event t) = 0%nat) by (unfold occ in Epre; simpl in Epre; lia).
  split; [exact He |]. intros a Hab.
  destruct (od_deps _ _ HO a t i Hab Ht ltac:(congruence)) as [Hd | (x & Hax & Hd)].
  - eapply dep_finished; eassumption.
  - pose proof (dep_finished w x t He Hd) as Hfx.
    pose proof Hax as (ia & ix & Ha & Hx & _).
    pose proof (finished_returned m w x ix HI HL Hx Hfx) as Hr.
    apply (od_safe _ _ HO a x ix Hax Hx). rewrite Hr. reflexivity.
Qed.

Lemma edges_sframe_zero bpost w w' f : SFrame bpost w w' -> edges w f = 0%nat -> edges w' f = 0%nat.
Proof.
  intros Hf He. unfold edges in *. rewrite (sf_events _ _ _ Hf).
  cut (map_sum (out_edges f) (tasks w') = 0%nat); [lia |].
  apply map_sum_zero. intros a task' Ha. unfold out_edges.
  destruct (is_finished task') eqn:Ef; [reflexivity |].
  destruct (sf_tasks _ _ _ Hf a task' Ha) as (task & Ha0 & Hss).
  pose proof (map_sum_le (out_edges f) (tasks w) a task Ha0) as Hle. unfold out_edges at 1 in Hle. rewrite (ss_followers _ _ Hss).
  destruct (is_finished task) eqn:Ef0; [| lia]. rewrite (ss_post _ _ Hss Ef0) in Ef. discriminate Ef.
Qed.

(** ** Initializing the dependencies *)

Lemma linked_grow m t w w' :
  Grow t w w' ->
  (forall i task', m !! t = Some i -> started (i_status i) = true -> tasks w' !! t = Some task' -> is_running task' = true) ->
  linked m w -> linked m w'.
Proof.
  intros G Ht [L1 L2 L3 L4 L5 L6 L7 L8].
  assert (Eu : forall r, get_users r w' = get_users r w)
    by (intros r; unfold get_users; rewrite (gr_users _ _ _ G); reflexivity).
  constructor.
  - intros a task' Ha. destruct (gr_back _ _ _ G a task' Ha) as (task & Ha0 & Gt).
    rewrite (gt_user _ _ _ Gt), (gt_space _ _ _ Gt). eauto.
  - intros a i Ha Hn. apply (L2 a i Ha). destruct (tasks w !! a) as [x |] eqn:E; [| reflexivity].
    destruct (gr_forth _ _ _ G a ltac:(eauto)) as [y Hy]. congruence.
  - intros r. rewrite Eu. apply L3.
  - intros r k x. rewrite Eu. intros Hin. destruct (L4 r k x Hin) as ((task & Hx & Hn) & Hr).
    split; [| exact Hr]. destruct (Grow_lookup _ _ _ _ _ G Hx) as (task' & Hx' & Gt).
    exists task'. rewrite (gt_finished _ _ _ Gt). auto.
  - intros a i e k Ha He Hk. rewrite Eu. destruct (L5 a i e k Ha He Hk) as [Hlt [Hin | Hf]]; [auto |].
    split; [exact Hlt |]. right. eapply finished_in_grow; eassumption.
  - intros a i Ha. rewrite (gr_spaces _ _ _ G). eauto.
  - intros q sp p. rewrite (gr_spaces _ _ _ G). eauto.
  - intros a i task' Ha Hw Hs. destruct (gr_back _ _ _ G a task' Hw) as (task & Hw0 & Gt).
    destruct (decide (a = t)) as [-> | Hne]; [eapply Ht; eassumption |].
    unfold is_running. rewrite (gt_pre _ _ _ Gt Hne). eapply L8; eauto.
Qed.

Lemma ordered_grow m t w w' : Grow t w w' -> ordered m w -> ordered m w'.
Proof.
  intros G [O1 O2]. constructor.
  - intros a b ib Hab Hb Hne. destruct (O1 a b ib Hab Hb Hne) as [Hd | (x & Hx & Hd)].
    + left. eapply dep_grow; eassumption.
    + right. exists x. split; [exact Hx | eapply dep_grow; eassumption].
  - intros a b ib Hab Hb Hs. eapply finished_in_grow; [exact G |]. eauto.
Qed.

(** Two entries of the users list are as far apart as their tasks. *)
Lemma entry_order m n w r ka kb a b ia ib :
  static m n -> linked m w -> m !! a = Some ia -> m !! b = Some ib ->
  (ka, a) ∈ Entries.content (get_users r w) -> (kb, b) ∈ Entries.content (get_users r w) ->
  (ka < kb)%nat -> a = b \/ (i_seq ia < i_seq ib)%nat.
Proof.
  intros Hst HL Ha Hb Hka Hkb Hlt.
  destruct (ln_entry _ _ HL r ka a Hka) as (_ & ja & ea & Hja & Hea & Era & Eka).
  destruct (ln_entry _ _ HL r kb b Hkb) as (_ & jb & eb & Hjb & Heb & Erb & Ekb).
  assert (ja = ia) as -> by congruence. assert (jb = ib) as -> by congruence.
  destruct (Nat.lt_trichotomy (i_seq ia) (i_seq ib)) as [Hs | [E | Hs]]; [auto | left; eapply st_inj; eauto |].
  pose proof (st_order _ _ Hst b a ib ia eb ea kb ka Hb Ha Hs Heb Hea ltac:(congruence) Ekb Eka). lia.
Qed.

(** An element after another one in a scan has the smaller position. *)
Lemma older_split (l : Entries.Entries nat) k pre x post a :
  Entries.wf l -> (Entries.older k l).*2 = pre ++ x :: post -> a ∈ post ->
  exists kx ka, (kx, x) ∈ Entries.content l /\ (ka, a) ∈ Entries.content l /\ (ka < kx < k)%nat.
Proof.
  intros Hwf E Ha. apply fmap_app_inv in E as (l1 & l2 & -> & E & Eo).
  destruct l2 as [| [kx x'] l2]; [discriminate |]. rewrite fmap_cons in E. injection E as Ex Epost.
  subst x post. apply list_elem_of_fmap in Ha as ([ka a'] & Ea & Ha). simpl in Ea. subst a'.
  exists kx, ka.
  assert (Hx : (kx, x') ∈ Entries.older k l) by (rewrite Eo; apply elem_of_app; right; left).
  assert (Hka : (ka, a) ∈ Entries.older k l) by (rewrite Eo; apply elem_of_app; right; right; exact Ha).
  apply Entries.elem_of_older in Hx as [Hx Hlt], Hka as [Hka _].
  split; [exact Hx |]. split; [exact Hka |]. split; [| exact Hlt].
  assert (Hsort : Sorted.StronglySorted (fun a b => (b < a)%nat) (Entries.older k l).*1)
    by (apply Entries.Sorted_fst_filter, Hwf).
  rewrite Eo, fmap_app, fmap_cons in Hsort. clear -Hsort Ha.
  induction l1 as [| e l1 IH]; simpl in Hsort.
  - inversion Hsort as [| ? ? _ Hf]; subst. rewrite Forall_forall in Hf.
    apply Hf, list_elem_of_fmap. exists (ka, a). auto.
  - inversion Hsort; auto.
Qed.

Context `{!AccessLaws RA}.

(** A synchronizing user between two conflicting ones conflicts with the older. *)
Lemma sync_between m a b x ia ib ix r ra rb :
  m !! a = Some ia -> m !! b = Some ib -> m !! x = Some ix ->
  built (i_user ia) -> built (i_user ib) -> built (i_user ix) ->
  i_space ia = i_space ix -> (i_seq ia < i_seq ix)%nat ->
  ra ∈ access_list (i_user ia) -> rb ∈ access_list (i_user ib) -> ra_serial ra rb = true ->
  r_ptr r = r_ptr (get_resource ra) -> has_sync_access r (i_user ix) = true ->
  before m a x.
Proof.
  intros Ha Hb Hx [Va _] [Vb _] [Vx _] Esp Hlt Hra Hrb Hs Er Hsync.
  exists ia, ix. split; [exact Ha |]. split; [exact Hx |]. split; [exact Hlt |]. split; [exact Esp |].
  apply has_sync_access_iff in Hsync as (rx & Hrx & Hsame & Hsy).
  apply is_serial_iff. exists ra, rx. split; [exact Hra |]. split; [exact Hrx |].
  rewrite ra_serial_sym. apply (ra_sync_serial rx ra rb); auto.
  apply same_object_true. apply same_object_true in Hsame. congruence.
Qed.

(** The scans of a task's resources record all its conflicts. *)
Lemma init_covers m n w w2 t it par sp :
  static m n -> linked m w -> m !! t = Some it -> spaces w !! (i_space it) = Some sp -> par = parent sp ->
  Grow t w w2 ->
  (forall e a, e ∈ unique_resources (i_user it) -> a ∈ older_users e w -> conflicts a t w2 ->
     covered par (ue_resource e) t (older_users e w) w2 a) ->
  is_Some (tasks w !! t) ->
  forall a, before m a t -> dep a t w2 \/ exists x, before m a x /\ dep x t w2.
Proof.
  intros Hst HL Hit Hsp Hpar G Hcov [taskt Ht] a Hab.
  pose proof Hab as (ia & it' & Hia & Hit' & Hlt & Esp & Hser). assert (it' = it) as -> by congruence.
  apply is_serial_iff in Hser as (ra & rb & Hra & Hrb & Hs).
  pose proof (ra_serial_resource _ _ Hs) as Hsame. apply same_object_true in Hsame.
  destruct (st_built _ _ Hst a ia Hia) as [Va Ba]. destruct (st_built _ _ Hst t it Hit) as [Vt Bt].
  destruct (Ba ra Hra) as (ea & Hea & Era). destruct (Bt rb Hrb) as (eb & Heb & Erb).
  destruct (st_key _ _ Hst a ia ea Hia Hea) as [ka Hka]. destruct (st_key _ _ Hst t it eb Hit Heb) as [kb Hkb].
  assert (Er : r_ptr (ue_resource ea) = r_ptr (ue_resource eb)) by congruence.
  pose proof (st_order _ _ Hst a t ia it ea eb ka kb Hia Hit Hlt Hea Heb Er Hka Hkb) as Hk.
  destruct (ln_present _ _ HL a ia ea ka Hia Hea Hka) as [_ [Hin | Hfin]].
  2: { left. left. eapply finished_in_grow; eassumption. }
  destruct (ln_entry _ _ HL _ _ _ Hin) as ((taska & Hta & Hna) & _).
  assert (Hold : a ∈ older_users eb w).
  { unfold older_users. rewrite Hkb. apply list_elem_of_fmap. exists (ka, a). split; [reflexivity |].
    apply Entries.elem_of_older. rewrite <- Er. auto. }
  destruct (ln_task _ _ HL a taska Hta) as (ia' & Hia' & Eua & Esa). assert (ia' = ia) as -> by congruence.
  destruct (ln_task _ _ HL t taskt Ht) as (it' & Hit2 & Eut & Est). assert (it' = it) as -> by congruence.
  assert (Hconf : conflicts a t w2).
  { apply (conflicts_grow _ _ _ _ _ G). exists taska, taskt. split; [exact Hta |]. split; [exact Ht |].
    split; [congruence |]. rewrite Eua, Eut. apply is_serial_iff. eauto. }
  pose proof (ln_wf _ _ HL (r_ptr (ue_resource eb))) as Hwf.
  destruct (Hcov eb a Heb Hold Hconf) as [Hd | [(pre & x & post & E & Hpost & Hcx & Hsx & Hdx) | (pre & p & post & E & Hpost & Hp)]].
  - left. exact Hd.
  - unfold older_users in E. rewrite Hkb in E.
    destruct (older_split _ _ _ _ _ _ Hwf E Hpost) as (kx & ka' & Hx & Ha' & Hkk).
    destruct (ln_entry _ _ HL _ _ _ Hx) as (_ & ix & _ & Hix & _).
    destruct (entry_order m n w _ ka' kx a x ia ix Hst HL Hia Hix Ha' Hx ltac:(lia)) as [-> | Hlx].
    { left. exact Hdx. }
    right. exists x. split; [| exact Hdx].
    destruct Hcx as (taskx2 & taskt2 & Hx2 & Ht2 & Espx & _). destruct Hsx as (y & Hy & Hsync).
    assert (y = taskx2) as -> by congruence.
    destruct (gr_back _ _ _ G x taskx2 Hx2) as (taskx & Htx & Gx).
    destruct (gr_back _ _ _ G t taskt2 Ht2) as (taskt' & Htt & Gt). assert (taskt' = taskt) as -> by congruence.
    destruct (ln_task _ _ HL x taskx Htx) as (ix' & Hix' & Eux & Esx). assert (ix' = ix) as -> by congruence.
    rewrite (gt_user _ _ _ Gx), Eux in Hsync.
    rewrite (gt_space _ _ _ Gx), (gt_space _ _ _ Gt), Esx, Est in Espx. injection Espx as Espx.
    apply (sync_between m a t x ia it ix (ue_resource eb) ra rb); try assumption;
      [exact (conj Va Ba) | exact (conj Vt Bt) | eapply st_built; eassumption | congruence | congruence].
  - (* the parent is older than all its children *)
    exfalso. destruct (ln_space _ _ HL t it Hit) as (sp' & Hsp' & Hpar').
    assert (sp' = sp) as -> by congruence.
    destruct (Hpar' p ltac:(congruence)) as (ip & Hip & _).
    destruct (ln_space _ _ HL a ia Hia) as (sp'' & Hsp'' & Hpar'').
    assert (sp'' = sp) as -> by congruence. destruct (Hpar'' p ltac:(congruence)) as (ip' & Hip' & Hlp).
    assert (ip' = ip) as -> by congruence.
    apply elem_of_cons in Hpost as [-> | Hpost].
    { assert (ip = ia) as -> by congruence. lia. }
    unfold older_users in E. rewrite Hkb in E.
    destruct (older_split _ _ _ _ _ _ Hwf E Hpost) as (kp & ka' & Hkp & Ha' & Hkk).
    destruct (entry_order m n w _ ka' kp a p ia ip Hst HL Hia Hip Ha' Hkp ltac:(lia)) as [-> | Hlx].
    + assert (ip = ia) as -> by congruence. lia.
    + lia.
Qed.

(** ** Every step keeps the invariant *)

Lemma linked_new_space m w q sp :
  linked m w -> spaces w !! q = None -> (forall p, parent sp = Some p -> is_Some (m !! p)) ->
  linked m (put_space q sp w).
Proof.
  intros [L1 L2 L3 L4 L5 L6 L7 L8] Hq Hp. constructor; auto.
  - intros t i Ht. destruct (L6 t i Ht) as (sp0 & Hsp & Hpar). exists sp0. split; [| exact Hpar].
    simpl. rewrite lookup_insert_ne by congruence. exact Hsp.
  - intros q0 sp0 p Hq0 Hp0. simpl in Hq0. apply lookup_insert_Some in Hq0 as [(<- & <-) | (_ & Hq0)]; eauto.
Qed.

Lemma invariant_space p q ip task sp s :
  invariant s -> info s !! p = Some ip -> tasks (world s) !! p = Some task ->
  spaces (world s) !! q = None -> sub_space p (world s) = Ok sp ->
  invariant (mkState (put_task p (with_children (Some q) task) (put_space q sp (world s))) (info s) (next_seq s)).
Proof.
  intros [HI HS HL HO] Hip Hp Hq Hsub. unfold sub_space, get_task in Hsub. rewrite Hp in Hsub.
  cbn [deref mbind res_bind] in Hsub.
  assert (Hpar : parent sp = Some p) by (res_inv; reflexivity).
  set (w1 := mkWorld (<[p := with_children (Some q) task]> (tasks (world s))) (events (world s))
               (spaces (world s)) (users (world s)) (calls (world s))).
  assert (Hw1 : put_task p (with_children (Some q) task) (put_space q sp (world s)) = put_space q sp w1) by reflexivity.
  assert (HI1 : Inv (bpre_of (info s)) (bpost_of (info s)) w1 [])
    by (apply (Inv_put_same _ _ (world s) _ p task); auto).
  assert (Hget : forall a x, tasks w1 !! a = Some x -> exists y, tasks (world s) !! a = Some y /\
     user x = user y /\ space x = space y /\ pre_event x = pre_event y /\ post_event x = post_event y).
  { intros a x Hx. simpl in Hx. apply lookup_insert_Some in Hx as [(<- & <-) | (Hne & Hx)];
      [exists task | exists x]; auto. }
  assert (Hback : forall a y, tasks (world s) !! a = Some y -> exists x, tasks w1 !! a = Some x /\
     post_event x = post_event y).
  { intros a y Hy. simpl. destruct (decide (p = a)) as [<- | Hne].
    - rewrite lookup_insert_eq. eexists. split; [reflexivity |]. simpl. congruence.
    - rewrite lookup_insert_ne by exact Hne. eauto. }
  assert (Hfin : forall a, finished_in a (world s) -> finished_in a w1).
  { intros a Hf x Hx. apply Hget in Hx as (y & Hy & _ & _ & _ & E). unfold is_finished. rewrite E. apply Hf, Hy. }
  assert (Hdep : forall a b, dep a b (world s) -> dep a b w1).
  { intros a b [Hf | (y & Hy & Hin)]; [left; auto |]. right.
    destruct (Hback a y Hy) as (x & Hx & E). exists x. rewrite E. auto. }
  rewrite Hw1. constructor; cbn [world info next_seq].
  - eapply Inv_ext; [| | | exact HI1]; [reflexivity | reflexivity |]. intros r [x Hx]. simpl in Hx |- *.
    rewrite lookup_insert_ne by congruence. eauto.
  - exact HS.
  - apply linked_new_space; [| exact Hq | intros p' Hp'; assert (p' = p) as -> by congruence; eauto].
    destruct HL as [L1 L2 L3 L4 L5 L6 L7 L8]. constructor; auto.
    + intros a x Hx. apply Hget in Hx as (y & Hy & -> & -> & _). eauto.
    + intros a i Ha Hn. apply (L2 a i Ha). destruct (tasks (world s) !! a) as [y |] eqn:E; [| reflexivity].
      destruct (Hback a y E) as (x & Hx & _). congruence.
    + intros r k x Hin. destruct (L4 r k x Hin) as ((y & Hy & Hn) & Hr). split; [| exact Hr].
      destruct (Hback x y Hy) as (x' & Hx' & E). exists x'. split; [exact Hx' |].
      unfold is_finished. rewrite E. exact Hn.
    + intros a i e k Ha He Hk. destruct (L5 a i e k Ha He Hk) as [Hlt [Hin | Hf]]; auto.
    + intros a i x Ha Hx Hs. apply Hget in Hx as (y & Hy & _ & _ & E & _). unfold is_running. rewrite E.
      eapply L8; eauto.
  - destruct HO as [O1 O2]. constructor; [| intros a b ib Hab Hb Hst; apply Hfin; eauto].
    intros a b ib Hab Hb Hne. destruct (O1 a b ib Hab Hb Hne) as [Hd | (x & Hx & Hd)].
    + left. apply Hdep, Hd.
    + right. exists x. split; [exact Hx | apply Hdep, Hd].
Qed.

(** A handler that delivers notifications and may move a task on in its life. *)
Lemma invariant_deliver m n m' w w' :
  static m n -> linked m w -> ordered m w -> same_info m m' ->
  Inv (bpre_of m') (bpost_of m') w' [] -> SFrame (bpost_of m') w w' ->
  (forall t i i' task, m !! t = Some i -> m' !! t = Some i' -> tasks w' !! t = Some task ->
     started (i_status i') = true -> started (i_status i) = true \/ is_running task = true) ->
  (forall t i i', m !! t = Some i -> m' !! t = Some i' ->
     (i_status i = Returned -> i_status i' = Returned) /\
     (i_status i' <> Emplaced -> i_status i <> Emplaced) /\
     (started (i_status i') = true -> started (i_status i) = true \/ forall a, before m a t -> finished_in a w)) ->
  invariant (mkState w' m' n).
Proof.
  intros HS HL HO Hs HI HF Hrun Hst. constructor; cbn [world info next_seq].
  - exact HI.
  - eapply static_same; eassumption.
  - eapply linked_sframe; try eassumption.
    + intros t i' task' Hi' Ht' Hsi.
      destruct (same_info_lookup _ _ _ _ Hs Hi') as (i & Hi & _).
      destruct (Hrun t i i' task' Hi Hi' Ht' Hsi) as [Hsi0 | Hr]; [| exact Hr].
      destruct (sf_tasks _ _ _ HF t task' Ht') as (task & Ht & Hss).
      apply (ss_pre _ _ Hss). eapply ln_running; eassumption.
    + intros t i i' Hi Hi'. apply (Hst t i i' Hi Hi').
  - eapply ordered_sframe; try eassumption; intros t i i' Hi Hi'; apply (Hst t i i' Hi Hi').
Qed.

Lemma invariant_start t i w' s :
  invariant s -> info s !! t = Some i -> i_status i = Initialized ->
  start_task t (world s) = Ok w' ->
  invariant (mkState w' (<[t := set_status Running i]> (info s)) (next_seq s)).
Proof.
  intros [HI HS HL HO] Hi Hst Hstart. unfold start_task, get_task in Hstart.
  destruct (tasks (world s) !! t) as [task |] eqn:Ht; [| discriminate]. cbn [deref mbind res_bind] in Hstart.
  destruct (task_is_ready task) eqn:Er; [| discriminate]. cbn [cpp_assert mbind res_bind] in Hstart.
  assert (Es : state (pre_event task) = 1) by (unfold task_is_ready, is_ready in Er; lia).
  destruct (ready_safe _ _ _ _ _ HI HL HO Hi Hst Ht Es) as [He Hsafe].
  pose proof (Inv_start _ _ _ _ HI Hi Hst ltac:(eauto)) as HI1.
  destruct (notify_spec _ _ (notify_fuel (world s)) _ (world s) [] false (Nat.lt_succ_diag_r _) HI1)
    as (b & w2 & E2 & HI2 & HF2).
  rewrite E2 in Hstart. cbn [mbind res_bind] in Hstart. injection Hstart as <-.
  apply Frame_SFrame in HF2.
  eapply invariant_deliver; [exact HS | exact HL | exact HO | apply same_info_set_status, Hi | exact HI2 | exact HF2 | |].
  - intros a j j' x Hj Hj' Hx Hs. destruct (decide (t = a)) as [<- | Hne].
    + right. pose proof (inv_pre _ _ _ _ HI2 t x Hx) as Ep.
      rewrite bpre_set, decide_True in Ep by reflexivity.
      rewrite (edges_sframe_zero _ _ _ _ HF2 He) in Ep. unfold is_running, is_reached. rewrite Ep. reflexivity.
    + rewrite lookup_insert_ne in Hj' by exact Hne. left. congruence.
  - intros a j j' Hj Hj'. destruct (decide (t = a)) as [<- | Hne].
    + rewrite lookup_insert_eq in Hj'. injection Hj' as <-. assert (j = i) as -> by congruence.
      rewrite Hst. split; [discriminate |]. split; [discriminate |]. intros _. right. exact Hsafe.
    + rewrite lookup_insert_ne in Hj' by exact Hne. assert (j' = j) as -> by congruence. auto.
Qed.

Lemma invariant_return t i b w' s :
  invariant s -> info s !! t = Some i -> i_status i = Running ->
  notify (notify_fuel (world s)) (get_post_event t) false (world s) = Ok (b, w') ->
  invariant (mkState w' (<[t := set_status Returned i]> (info s)) (next_seq s)).
Proof.
  intros [HI HS HL HO] Hi Hst Hret.
  destruct (tasks (world s) !! t) as [task |] eqn:Ht.
  2: { rewrite (ln_gone _ _ HL t i Hi Ht) in Hst. discriminate. }
  assert (Hrun : is_running task = true) by (eapply ln_running; eauto; rewrite Hst; reflexivity).
  pose proof (Inv_return _ _ _ _ _ HI Hi Hst Ht Hrun) as HI1.
  destruct (notify_spec _ _ (notify_fuel (world s)) _ (world s) [] false (Nat.lt_succ_diag_r _) HI1)
    as (b' & w2 & E2 & HI2 & HF2).
  assert (w2 = w') as -> by congruence. apply Frame_SFrame in HF2.
  eapply invariant_deliver; [exact HS | exact HL | exact HO | apply same_info_set_status, Hi | exact HI2 | exact HF2 | |].
  - intros a j j' x Hj Hj' Hx Hs. left. destruct (decide (t = a)) as [<- | Hne].
    + assert (j = i) as -> by congruence. rewrite Hst. reflexivity.
    + rewrite lookup_insert_ne in Hj' by exact Hne. congruence.
  - intros a j j' Hj Hj'. destruct (decide (t = a)) as [<- | Hne].
    + rewrite lookup_insert_eq in Hj'. injection Hj' as <-. assert (j = i) as -> by congruence.
      rewrite Hst. simpl. repeat split; auto; discriminate.
    + rewrite lookup_insert_ne in Hj' by exact Hne. assert (j' = j) as -> by congruence. auto.
Qed.

Lemma invariant_result s r :
  invariant s -> result_spec (bpre_of (info s)) (bpost_of (info s)) (world s) r ->
  forall b w', r = Ok (b, w') -> invariant (mkState w' (info s) (next_seq s)).
Proof.
  intros [HI HS HL HO] (b0 & w0 & E & HI' & HF) b w' Er. assert (w0 = w') as -> by congruence.
  eapply invariant_deliver; [exact HS | exact HL | exact HO | apply same_info_refl | exact HI' | exact HF | |].
  - intros a j j' x Hj Hj' _ Hs. left. congruence.
  - intros a j j' Hj Hj'. assert (j' = j) as -> by congruence. auto.
Qed.

(** *** Initialization *)

Lemma bpre_emplaced m t i st a :
  m !! t = Some i -> i_status i = Emplaced -> started st = false ->
  bpre_of (<[t := set_status st i]> m) a = bpre_of m a.
Proof.
  intros Hi Hst Hs. rewrite bpre_set. destruct (decide (t = a)) as [<- | Hne]; [| reflexivity].
  unfold bpre_of. rewrite Hi, Hst, Hs. reflexivity.
Qed.

Lemma bpost_emplaced m t i st a :
  m !! t = Some i -> i_status i = Emplaced -> st <> Returned ->
  bpost_of (<[t := set_status st i]> m) a = bpost_of m a.
Proof.
  intros Hi Hst Hs. rewrite bpost_set. destruct (decide (t = a)) as [<- | Hne]; [| reflexivity].
  unfold bpost_of. rewrite Hi, Hst. rewrite !bool_decide_false by congruence. reflexivity.
Qed.

Lemma Inv_pointwise bpre bpost bpre' bpost' w pend :
  (forall t, bpre' t = bpre t) -> (forall t, bpost' t = bpost t) ->
  Inv bpre bpost w pend -> Inv bpre' bpost' w pend.
Proof.
  intros E1 E2 HI. eapply Inv_rebase; [exact HI | | |].
  - intros t _. rewrite E1, E2. auto.
  - apply (inv_pend _ _ _ _ HI).
  - intros t task Ht. rewrite E2. apply (inv_run _ _ _ _ HI t task Ht).
Qed.

Lemma SFrame_pointwise bpost bpost' w w' :
  (forall t, bpost' t = bpost t) -> SFrame bpost w w' -> SFrame bpost' w w'.
Proof. intros E []. constructor; auto. intros t Hs Hn. rewrite E. auto. Qed.

(** The graph part of the initialization: the scans, with their coverage. *)
Lemma init_graph_covers s t i :
  invariant s -> info s !! t = Some i -> i_status i = Emplaced ->
  room t (1 + Z.of_nat (scan_length (unique_resources (i_user i)) (world s))) (world s) ->
  exists w1 w2, modify_event (get_pre_event t) up (world s) = Ok w1 /\ init_graph t w1 = Ok w2 /\
    Inv (bpre_of (info s)) (bpost_of (info s)) w2 [get_pre_event t] /\ Grow t (world s) w2 /\
    added t (fun a => (exists e, e ∈ unique_resources (i_user i) /\ a ∈ older_users e (world s)) /\
      same_space a t (world s)) (world s) w2 /\
    forall a, before (info s) a t -> dep a t w2 \/ exists x, before (info s) a x /\ dep x t w2.
Proof.
  intros [HI HS HL HO] Hi Hst Hroom.
  destruct (tasks (world s) !! t) as [task |] eqn:Ht.
  2: { rewrite (ln_gone _ _ HL t i Hi Ht) in Hst. discriminate. }
  destruct (ln_task _ _ HL t task Ht) as (i' & Hi' & Eu & Es). assert (i' = i) as -> by congruence.
  destruct (ln_space _ _ HL t i Hi) as (sp & Hsp & _).
  destruct (Hroom task Ht) as [Hr _].
  assert (Hb : bpost_of (info s) t <> 0%nat).
  { unfold bpost_of. rewrite Hi, bool_decide_false by congruence. discriminate. }
  destruct (up_pre_spec _ _ _ _ _ _ HI Ht Hb ltac:(lia)) as (HI1 & G1 & Est).
  set (w1 := put_task t (with_event T_EVT_PRE (up (pre_event task)) task) (world s)) in *.
  assert (Eold : forall e, older_users e w1 = older_users e (world s)) by reflexivity.
  assert (Ht1 : tasks w1 !! t = Some (with_event T_EVT_PRE (up (pre_event task)) task))
    by (simpl; apply lookup_insert_eq).
  destruct (init_resources_spec _ _ (parent sp) t (unique_resources (i_user i)) w1 _ HI1
    ltac:(eauto) Hb) as (w2 & E2 & HI2 & G2 & A2 & _ & Hcov).
  - intros e a _ Ha. rewrite Eold in Ha. apply (gr_forth _ _ _ G1).
    unfold older_users in Ha. destruct (user_entry e) as [k |]; [| inversion Ha].
    apply list_elem_of_fmap in Ha as ([j y] & -> & Hy). apply Entries.elem_of_older in Hy as [Hy _].
    destruct (ln_entry _ _ HL _ _ _ Hy) as ((x & Hx & _) & _). eauto.
  - unfold pre_state. rewrite Ht1, Est, (scan_length_users _ (world s) w1 eq_refl). lia.
  - exists w1, w2. split; [apply modify_pre, Ht |]. split.
    + unfold init_graph, get_task. rewrite Ht1. cbn [deref mbind res_bind].
      change (space (with_event T_EVT_PRE (up (pre_event task)) task)) with (space task). rewrite Es.
      cbn [deref mbind res_bind]. change (spaces w1) with (spaces (world s)). rewrite Hsp.
      cbn [deref mbind res_bind].
      change (user (with_event T_EVT_PRE (up (pre_event task)) task)) with (user task). rewrite Eu.
      exact E2.
    + split; [exact HI2 |]. pose proof (Grow_trans _ _ _ _ G1 G2) as G. split; [exact G |].
      split.
      { eapply added_trans; [| | | exact A2].
        - instantiate (1 := fun _ => False). intros a [].
        - intros a [(e & He & Ha) Hs]. rewrite Eold in Ha. split; [eauto |].
          apply (same_space_grow _ _ _ _ _ G1), Hs.
        - intros a x f Hx Hf. left. unfold w1 in Hx. simpl in Hx.
          apply lookup_insert_Some in Hx as [(<- & <-) | (Hne & Hx)]; eauto. }
      apply (init_covers (info s) (next_seq s) (world s) w2 t i (parent sp) sp HS HL Hi Hsp eq_refl G); [| eauto].
      intros e a He Ha. rewrite <- Eold in Ha |- *. auto.
Qed.

Lemma invariant_init_step t i claimed b w' s :
  invariant s -> info s !! t = Some i -> i_status i = Emplaced ->
  room t (1 + Z.of_nat (scan_length (unique_resources (i_user i)) (world s))) (world s) ->
  init_task t claimed (world s) = Ok (b, w') ->
  invariant (mkState w' (<[t := set_status Initialized i]> (info s)) (next_seq s)).
Proof.
  intros Hinv Hi Hst Hroom Hinit.
  destruct (init_graph_covers s t i Hinv Hi Hst Hroom) as (w1 & w2 & E1 & E2 & HI2 & G & _ & Hcov).
  destruct Hinv as [HI HS HL HO]. unfold init_task in Hinit. rewrite E1 in Hinit.
  cbn [mbind res_bind] in Hinit. rewrite E2 in Hinit. cbn [mbind res_bind] in Hinit.
  destruct (notify_spec _ _ (notify_fuel w2) _ w2 [] claimed (Nat.lt_succ_diag_r _) HI2)
    as (b' & w3 & E3 & HI3 & HF3).
  assert (w3 = w') as -> by congruence. apply Frame_SFrame in HF3.
  set (m' := <[t := set_status Initialized i]> (info s)).
  assert (Ebpre : forall a, bpre_of m' a = bpre_of (info s) a) by (intros a; apply bpre_emplaced; auto).
  assert (Ebpost : forall a, bpost_of m' a = bpost_of (info s) a)
    by (intros a; apply bpost_emplaced; auto; discriminate).
  assert (Hs : same_info (info s) m') by (apply same_info_set_status, Hi).
  assert (HL2 : linked (info s) w2).
  { eapply linked_grow; [exact G | | exact HL]. intros j y Hj Hsj _. assert (j = i) as -> by congruence.
    rewrite Hst in Hsj. discriminate. }
  pose proof (ordered_grow _ _ _ _ G HO) as HO2.
  constructor; cbn [world info next_seq].
  - eapply Inv_pointwise; [exact Ebpre | exact Ebpost | exact HI3].
  - eapply static_same; eassumption.
  - eapply linked_sframe; [exact HS | eapply SFrame_pointwise; [exact Ebpost | exact HF3] | exact Hs | exact HL2 | |].
    + intros a j x Hj Hx Hsj. destruct (decide (t = a)) as [<- | Hne].
      * unfold m' in Hj. rewrite lookup_insert_eq in Hj. injection Hj as <-. discriminate.
      * unfold m' in Hj. rewrite lookup_insert_ne in Hj by exact Hne.
        destruct (sf_tasks _ _ _ HF3 a x Hx) as (y & Hy & Hss).
        apply (ss_pre _ _ Hss). eapply (ln_running _ _ HL2); eassumption.
    + intros a j j' Hj Hj' Hr. unfold m' in Hj'. apply lookup_insert_Some in Hj' as [(<- & <-) | (Hne & Hj')].
      * assert (j = i) as -> by congruence. congruence.
      * congruence.
  - assert (HO3 : ordered (info s) w').
    { eapply ordered_sframe; [exact HF3 | apply same_info_refl | exact HO2 | |];
        intros a j j' Hj Hj'; assert (j' = j) as -> by congruence; auto. }
    pose proof (same_info_sym _ _ Hs) as Hs'.
    constructor.
    + intros a c ic Hab Hc Hne. pose proof (before_same _ _ _ _ Hs Hab) as Hab0.
      assert (Hd : dep a c w' \/ exists x, before (info s) a x /\ dep x c w').
      { destruct (decide (t = c)) as [<- | Hnc].
        - destruct (Hcov a Hab0) as [Hd | (x & Hx & Hd)].
          + left. eapply dep_sframe; eassumption.
          + right. exists x. split; [exact Hx | eapply dep_sframe; eassumption].
        - unfold m' in Hc. rewrite lookup_insert_ne in Hc by exact Hnc.
          eapply od_deps; eassumption. }
      destruct Hd as [Hd | (x & Hx & Hd)]; [left; exact Hd | right].
      exists x. split; [apply (before_same _ _ _ _ Hs'), Hx | exact Hd].
    + intros a c ic Hab Hc Hsc. pose proof (before_same _ _ _ _ Hs Hab) as Hab0.
      destruct (decide (t = c)) as [<- | Hnc].
      * unfold m' in Hc. rewrite lookup_insert_eq in Hc. injection Hc as <-. discriminate.
      * unfold m' in Hc. rewrite lookup_insert_ne in Hc by exact Hnc. eapply od_safe; eassumption.
Qed.

(** *** External events *)

Lemma running_task s t i : invariant s -> info s !! t = Some i -> i_status i = Running ->
  exists task, tasks (world s) !! t = Some task /\ is_running task = true /\ is_finished task = false /\
    bpre_of (info s) t = 0%nat /\ bpost_of (info s) t = 1%nat.
Proof.
  intros [HI HS HL HO] Hi Hst. destruct (tasks (world s) !! t) as [task |] eqn:Ht.
  2: { rewrite (ln_gone _ _ HL t i Hi Ht) in Hst. discriminate. }
  assert (Hb : bpost_of (info s) t = 1%nat) by (unfold bpost_of; rewrite Hi, Hst; reflexivity).
  exists task. split; [reflexivity |]. split; [eapply ln_running; eauto; rewrite Hst; reflexivity |].
  split; [| split; [unfold bpre_of; rewrite Hi, Hst; reflexivity | exact Hb]].
  unfold is_finished, is_reached. rewrite (inv_post _ _ _ _ HI t task Ht), Hb. apply Z.eqb_neq. lia.
Qed.

Lemma invariant_create_event t i x p w' s :
  invariant s -> info s !! t = Some i -> i_status i = Running -> events (world s) !! x = None -> room t 1 (world s) ->
  make_event x t (world s) = Ok (p, w') -> invariant (mkState w' (info s) (next_seq s)).
Proof.
  intros Hinv Hi Hst Hx Hroom E. destruct (running_task s t i Hinv Hi Hst) as (task & Ht & Hrun & Hf & _).
  destruct Hinv as [HI HS HL HO]. destruct (Hroom task Ht) as [_ Hr].
  destruct (make_event_spec _ _ _ t task x HI Ht Hf Hr Hx) as (w1 & E1 & HI1 & G & Et & _).
  assert (w1 = w') as -> by congruence. constructor; cbn [world info next_seq]; [exact HI1 | exact HS | |].
  - eapply linked_grow; [exact G | | exact HL]. intros j y _ _ Hy. rewrite Et, lookup_insert_eq in Hy.
    injection Hy as <-. exact Hrun.
  - eapply ordered_grow; eassumption.
Qed.

(** The store just before the last notification of a pause, and the invariant
    with the task waiting again. *)
Lemma pause_prepared s t i x e c wk :
  invariant s -> info s !! t = Some i -> i_status i = Running -> events (world s) !! x = Some e ->
  let m' := <[t := set_status Initialized i]> (info s) in
  exists w2 task2, prepare_pause t wk (external x c) (world s) = Ok w2 /\
    Inv (bpre_of m') (bpost_of m') w2 [get_pre_event t] /\ Grow t (world s) w2 /\
    tasks w2 = <[t := task2]> (tasks (world s)) /\
    (forall task, tasks (world s) !! t = Some task -> post_event task2 = post_event task) /\
    state (pre_event task2) = (if is_reached e then 2 else 3) /\ calls w2 = calls (world s) /\
    (is_reached e = false -> exists e', events w2 !! x = Some e' /\ state e' = 1 /\ get_pre_event t ∈ followers e') /\
    linked m' w2 /\ ordered m' w2.
Proof.
  intros Hinv Hi Hst Hx m'. destruct (running_task s t i Hinv Hi Hst) as (task & Ht & Hrun & Hf & Hb1 & Hb2).
  destruct Hinv as [HI HS HL HO].
  assert (Hb' : bpre_of m' t = 1%nat) by (unfold m'; rewrite bpre_set, decide_True by reflexivity; reflexivity).
  assert (Ho : forall a, a <> t -> bpre_of m' a = bpre_of (info s) a)
    by (intros a Ha; unfold m'; rewrite bpre_set, decide_False by congruence; reflexivity).
  assert (Ebpost : forall a, bpost_of m' a = bpost_of (info s) a).
  { intros a. unfold m'. rewrite bpost_set. destruct (decide (t = a)) as [<- | _]; [rewrite Hb2 |]; reflexivity. }
  assert (Hz : state (pre_event task) = 0) by (apply Z.eqb_eq, Hrun).
  assert (Hnz : bpost_of (info s) t <> 0%nat) by (rewrite Hb2; discriminate).
  destruct (prepare_pause_spec _ _ _ _ _ _ x e c wk HI Ht Hz Hb1 Hnz Hb' Ho Hx)
    as (w2 & task2 & E2 & HI2 & G & Et & Ep & Hge & Ec & Hev).
  assert (Hs : same_info (info s) m') by (apply same_info_set_status, Hi).
  assert (HF : SFrame (bpost_of m') (world s) (world s)) by apply Frame_SFrame, Frame_refl.
  assert (Hm : forall a j j', info s !! a = Some j -> m' !! a = Some j' -> j' = j \/ a = t /\ i_status j = Running /\ i_status j' = Initialized).
  { intros a j j' Hj Hj'. unfold m' in Hj'. apply lookup_insert_Some in Hj' as [(<- & <-) | (Hne & Hj')]; [right | left; congruence].
    assert (j = i) as -> by congruence. auto. }
  exists w2, task2. split; [exact E2 |]. split; [eapply Inv_pointwise; [reflexivity | exact Ebpost | exact HI2] |].
  split; [exact G |]. split; [exact Et |]. split; [intros y Hy; congruence |]. split; [exact Hge |]. split; [exact Ec |]. split; [exact Hev |]. split.
  - eapply linked_grow; [exact G | |].
    { intros j y Hj Hsj _. unfold m' in Hj. rewrite lookup_insert_eq in Hj. injection Hj as <-. discriminate. }
    eapply linked_sframe; [exact HS | exact HF | exact Hs | exact HL | |].
    + intros a j' y Hj' Hy Hsj. destruct (same_info_lookup _ _ _ _ Hs Hj') as (j & Hj & _).
      destruct (Hm a j j' Hj Hj') as [-> | (_ & _ & E)]; [eapply ln_running; eassumption | rewrite E in Hsj; discriminate].
    + intros a j j' Hj Hj' Er. destruct (Hm a j j' Hj Hj') as [-> | (_ & E & _)]; congruence.
  - eapply ordered_grow; [exact G |]. eapply ordered_sframe; [exact HF | exact Hs | exact HO | |].
    + intros a j j' Hj Hj'. destruct (Hm a j j' Hj Hj') as [-> | (_ & E & _)]; congruence.
    + intros a j j' Hj Hj' Hsj. left. destruct (Hm a j j' Hj Hj') as [-> | (_ & E & _)]; [exact Hsj | rewrite E; reflexivity].
Qed.

Lemma invariant_pause t i x e c wk b w' s :
  invariant s -> info s !! t = Some i -> i_status i = Running -> events (world s) !! x = Some e ->
  pause_task t wk (external x c) (world s) = Ok (b, w') ->
  invariant (mkState w' (<[t := set_status Initialized i]> (info s)) (next_seq s)).
Proof.
  intros Hinv Hi Hst Hx E.
  destruct (pause_prepared s t i x e c wk Hinv Hi Hst Hx) as (w2 & task2 & E2 & HI2 & _ & _ & _ & _ & _ & _ & HL2 & HO2).
  unfold pause_task in E. rewrite E2 in E. cbn [mbind res_bind] in E.
  destruct (notify_spec _ _ (notify_fuel w2) _ w2 [] false (Nat.lt_succ_diag_r _) HI2) as (b' & w3 & E3 & HI3 & HF3).
  assert (w3 = w') as -> by congruence. apply Frame_SFrame in HF3.
  eapply invariant_deliver; [| exact HL2 | exact HO2 | apply same_info_refl | exact HI3 | exact HF3 | |].
  - eapply static_same; [apply same_info_set_status, Hi | apply Hinv].
  - intros a j j' y Hj Hj' _ Hs. left. congruence.
  - intros a j j' Hj Hj'. assert (j' = j) as -> by congruence. auto.
Qed.

(** Nothing but the counters reads the external events. *)
Lemma linked_tasks m w w' : tasks w' = tasks w -> spaces w' = spaces w -> users w' = users w -> linked m w -> linked m w'.
Proof.
  intros Et Es Eu [L1 L2 L3 L4 L5 L6 L7 L8].
  assert (Eg : forall r, get_users r w' = get_users r w) by (intros r; unfold get_users; rewrite Eu; reflexivity).
  constructor; unfold finished_in in *; rewrite ?Et, ?Es; try assumption.
  - intros r. rewrite Eg. auto.
  - intros r k x. rewrite Eg. auto.
  - intros t i e k. rewrite Eg. apply L5.
Qed.

Lemma ordered_tasks m w w' : tasks w' = tasks w -> ordered m w -> ordered m w'.
Proof. intros Et [O1 O2]. constructor; unfold dep, finished_in in *; rewrite ?Et; assumption. Qed.

Lemma invariant_notify_event x e c b w' s :
  invariant s -> events (world s) !! x = Some e -> state e = 1 ->
  notify (notify_fuel (world s)) (external x c) false (world s) = Ok (b, w') ->
  invariant (mkState w' (info s) (next_seq s)).
Proof.
  intros [HI HS HL HO] Hx Hs E.
  destruct (notify_external_spec _ _ (total (world s)) _ x e c false HI Hx Hs (Nat.lt_succ_diag_r _)) as (b' & w1 & E1 & HI1 & HF).
  assert (w1 = w') as -> by (unfold notify_fuel in E; congruence). apply Frame_SFrame in HF.
  eapply invariant_deliver; [exact HS | | | apply same_info_refl | exact HI1 | exact HF | |].
  - eapply linked_tasks; [| | | exact HL]; reflexivity.
  - eapply ordered_tasks; [| exact HO]. reflexivity.
  - intros a j j' y Hj Hj' _ Hsj. left. congruence.
  - intros a j j' Hj Hj'. assert (j' = j) as -> by congruence. auto.
Qed.

(** *** Submission *)

Lemma submit_superset x t u worker sp w w' p taskp :
  submit x t (put_task t (with_user u (new_task worker (depth sp))) w) = Ok w' ->
  spaces w !! x = Some sp -> parent sp = Some p -> tasks w !! p = Some taskp -> p <> t ->
  is_superset_of (user taskp) u = true.
Proof.
  unfold submit, get_task. intros Hs Hsp Hpar Hp Hne. simpl (tasks (put_task _ _ _) !! t) in Hs.
  rewrite lookup_insert_eq in Hs. simpl (spaces (put_task _ _ _) !! x) in Hs. rewrite Hsp in Hs.
  cbn [deref mbind res_bind] in Hs. rewrite Hpar in Hs. simpl (tasks _ !! p) in Hs.
  rewrite !lookup_insert_ne in Hs by congruence. rewrite Hp in Hs. cbn [deref mbind res_bind] in Hs.
  change (user (with_user u (new_task worker (depth sp)))) with u in Hs.
  destruct (is_superset_of (user taskp) u); [reflexivity | discriminate Hs].
Qed.

Lemma built_pushed u l' : built u -> ue_resource <$> l' = ue_resource <$> unique_resources u ->
  built (mkUser (access_list u) l' (ResourceUser.scope_level u)).
Proof.
  intros [Hv Hb] E. split; [exact Hv |]. simpl. intros ra Hra. destruct (Hb ra Hra) as (e & He & Er).
  assert (Hin : ue_resource e ∈ ue_resource <$> l')
    by (rewrite E; apply list_elem_of_fmap; eauto).
  apply list_elem_of_fmap in Hin as (e' & Ee & He'). exists e'. split; [exact He' |]. congruence.
Qed.

Lemma static_submit m n t u l' x w w' :
  static m n -> linked m w -> m !! t = None -> built u -> submitted x t u w l' w' ->
  static (<[t := mkInfo n (mkUser (access_list u) l' (ResourceUser.scope_level u)) x Emplaced]> m) (S n).
Proof.
  intros [S1 S2 S3 S4 S5] HL Hn Hu Hsub. pose proof (sb_users _ _ _ _ _ _ Hsub) as P. constructor.
  - intros a ia Ha. apply lookup_insert_Some in Ha as [(<- & <-) | (Hne & Ha)]; [simpl; lia |].
    specialize (S1 a ia Ha). lia.
  - intros a b ia ib Ha Hb E.
    apply lookup_insert_Some in Ha as [(<- & <-) | (Hna & Ha)];
      apply lookup_insert_Some in Hb as [(<- & <-) | (Hnb & Hb)].
    + reflexivity.
    + specialize (S1 b ib Hb). simpl in E. lia.
    + specialize (S1 a ia Ha). simpl in E. lia.
    + eauto.
  - intros a ia Ha. apply lookup_insert_Some in Ha as [(<- & <-) | (Hna & Ha)]; [| eauto].
    apply built_pushed; [exact Hu | apply P].
  - intros a ia e Ha He. apply lookup_insert_Some in Ha as [(<- & <-) | (Hna & Ha)]; [| eauto].
    destruct (pu_entry _ _ _ _ _ P e He) as (k & -> & _). eauto.
  - intros a b ia ib ea eb ka kb Ha Hb Hlt Hea Heb Er Eka Ekb.
    apply lookup_insert_Some in Ha as [(<- & <-) | (Hna & Ha)].
    + exfalso. apply lookup_insert_Some in Hb as [(<- & <-) | (Hnb & Hb)]; [lia |].
      specialize (S1 b ib Hb). simpl in Hlt. lia.
    + apply lookup_insert_Some in Hb as [(<- & <-) | (Hnb & Hb)]; [| apply (S5 a b ia ib ea eb ka kb Ha Hb Hlt Hea Heb Er Eka Ekb)].
      destruct (pu_entry _ _ _ _ _ P eb Heb) as (k & Ek & Hk & _).
      destruct (ln_present _ _ HL a ia ea ka Ha Hea Eka) as [Hlt' _]. rewrite Er in Hlt'. simpl in Hk.
      assert (k = kb) as -> by congruence. lia.
Qed.

Lemma linked_submit m n t u l' x w w' :
  linked m w -> static m n -> m !! t = None -> tasks w !! t = None -> submitted x t u w l' w' ->
  (exists sp, spaces w !! x = Some sp) ->
  linked (<[t := mkInfo n (mkUser (access_list u) l' (ResourceUser.scope_level u)) x Emplaced]> m) w'.
Proof.
  intros [L1 L2 L3 L4 L5 L6 L7 L8] HS Hn Hnt Hsub [sp Hsp].
  pose proof (sb_users _ _ _ _ _ _ Hsub) as P.
  destruct (sb_task _ _ _ _ _ _ Hsub) as (task & Htask & Eu & Esp & Epre & Efin).
  set (i := mkInfo n (mkUser (access_list u) l' (ResourceUser.scope_level u)) x Emplaced).
  assert (Hfin : forall a, a <> t -> finished_in a w -> finished_in a w').
  { intros a Ha Hf y Hy. destruct (sb_back _ _ _ _ _ _ Hsub a y Ha Hy) as (z & Hz & K).
    rewrite (kp_finished _ _ K). apply Hf, Hz. }
  assert (Hpar : forall q sp', spaces w' !! q = Some sp' -> exists sp0, spaces w !! q = Some sp0 /\ parent sp' = parent sp0).
  { intros q sp' Hq. pose proof (sb_spaces _ _ _ _ _ _ Hsub q) as E. rewrite Hq in E.
    destruct (spaces w !! q) as [sp0 |]; [| discriminate]. injection E as _ E. eauto. }
  constructor.
  - intros a y Hy. destruct (decide (a = t)) as [-> | Hne].
    + exists i. rewrite lookup_insert_eq. assert (y = task) as -> by congruence. auto.
    + destruct (sb_back _ _ _ _ _ _ Hsub a y Hne Hy) as (z & Hz & K).
      destruct (L1 a z Hz) as (j & Hj & E1 & E2). exists j. rewrite lookup_insert_ne by congruence.
      rewrite (kp_user _ _ K), (kp_space _ _ K). auto.
  - intros a j Hj Hno. apply lookup_insert_Some in Hj as [(<- & <-) | (Hne & Hj)]; [congruence |].
    apply (L2 a j Hj). destruct (tasks w !! a) as [z |] eqn:E; [| reflexivity].
    destruct (sb_forth _ _ _ _ _ _ Hsub a z E) as (y & Hy & _). congruence.
  - intros r. apply (pu_wf _ _ _ _ _ P), L3.
  - intros r k a Hin. destruct (pu_new _ _ _ _ _ P r k a Hin) as [Hin0 | (-> & e & He & Er & Ek)].
    + destruct (L4 r k a Hin0) as ((z & Hz & Hnf) & j & e & Hj & He & Er & Ek). split.
      * destruct (sb_forth _ _ _ _ _ _ Hsub a z Hz) as (y & Hy & K). exists y.
        rewrite (kp_finished _ _ K). auto.
      * exists j, e. rewrite lookup_insert_ne by congruence. auto.
    + split; [eauto |]. exists i, e. rewrite lookup_insert_eq. auto.
  - intros a j e k Hj He Hk. apply lookup_insert_Some in Hj as [(<- & <-) | (Hne & Hj)].
    + destruct (pu_entry _ _ _ _ _ P e He) as (k' & Ek & Hlt & Hin). simpl in *.
      assert (k' = k) as -> by congruence. split; [lia | auto].
    + destruct (L5 a j e k Hj He Hk) as [Hlt Hp].
      pose proof (pu_next _ _ _ _ _ P (r_ptr (ue_resource e))) as Hle. simpl in Hle. split; [lia |].
      destruct Hp as [Hin | Hf]; [left; apply (pu_old _ _ _ _ _ P), Hin | right; apply Hfin; auto].
  - intros a j Hj.
    assert (Hj' : exists sp0, spaces w !! i_space j = Some sp0 /\
       forall p, parent sp0 = Some p -> exists ip, m !! p = Some ip /\ (i_seq ip < i_seq j)%nat).
    { apply lookup_insert_Some in Hj as [(<- & <-) | (Hne & Hj)]; [| eauto].
      exists sp. split; [exact Hsp |]. intros p Hp. destruct (L7 x sp p Hsp Hp) as [ip Hip].
      exists ip. split; [exact Hip |]. apply (st_seq _ _ HS p ip Hip). }
    destruct Hj' as (sp0 & Hsp0 & Hp0). pose proof (sb_spaces _ _ _ _ _ _ Hsub (i_space j)) as E.
    rewrite Hsp0 in E. destruct (spaces w' !! i_space j) as [sp' |]; [| discriminate].
    injection E as _ E. exists sp'. split; [reflexivity |]. intros p Hp. rewrite E in Hp.
    destruct (Hp0 p Hp) as (ip & Hip & Hlt). exists ip. rewrite lookup_insert_ne by congruence. auto.
  - intros q sp' p Hq Hp. destruct (Hpar q sp' Hq) as (sp0 & Hsp0 & E). rewrite E in Hp.
    destruct (L7 q sp0 p Hsp0 Hp) as [ip Hip]. exists ip. rewrite lookup_insert_ne by congruence. exact Hip.
  - intros a j y Hj Hy Hs. apply lookup_insert_Some in Hj as [(<- & <-) | (Hne & Hj)]; [discriminate |].
    destruct (sb_back _ _ _ _ _ _ Hsub a y ltac:(congruence) Hy) as (z & Hz & K).
    unfold is_running. rewrite (kp_pre _ _ K). eapply L8; eassumption.
Qed.
End System.
End System.
