(* ===== verification/SystemSafe.v ===== *)
(** The invariant of [System] is kept by every step, and what follows from it:
    conflicting tasks run in the order of their submission, parents outlive
    their children, and no enabled handler fails. *)

From Stdlib Require Import ZArith Lia Bool.
From stdpp Require Import base gmap list strings.
From S2P Require Import Prelude Resource ResourceUser Entries Graph GraphNotify GraphInv GraphInit.
From S2P Require Import GraphSubmit System.

Open Scope Z_scope.
Open Scope word_scope.

Module SystemSafe.
Import Resource ResourceUser Graph GraphNotify GraphInv GraphInit GraphSubmit System.

Section Safe.
Context {RA : Type} `{AccessOps RA} `{!AccessLaws RA}.
Implicit Types (w : World RA) (task : Task RA) (m : gmap nat (Info (RA := RA))) (s : State (RA := RA)).

(** ** Submission *)

Lemma before_submit m n t i a b :
  static m n -> m !! t = None -> i_seq i = n -> b <> t -> before (<[t := i]> m) a b -> a <> t /\ before m a b.
Proof.
  intros HS Hn Hseq Hb (ia & ib & Ha & Hib & Hlt & Hr).
  rewrite lookup_insert_ne in Hib by congruence.
  apply lookup_insert_Some in Ha as [(<- & <-) | (Hne & Ha)].
  - pose proof (st_seq _ _ HS b ib Hib). lia.
  - split; [congruence |]. exists ia, ib. auto.
Qed.

Lemma ordered_submit m n t i x u l' w w' :
  static m n -> ordered m w -> m !! t = None -> i_seq i = n -> i_status i = Emplaced ->
  submitted x t u w l' w' -> ordered (<[t := i]> m) w'.
Proof.
  intros HS [O1 O2] Hn Hseq Hst Hsub.
  assert (Hfin : forall a, a <> t -> finished_in a w -> finished_in a w').
  { intros a Ha Hf y Hy. destruct (sb_back _ _ _ _ _ _ Hsub a y Ha Hy) as (z & Hz & K).
    rewrite (kp_finished _ _ K). apply Hf, Hz. }
  assert (Hdep : forall a b, a <> t -> dep a b w -> dep a b w').
  { intros a b Ha [Hf | (z & Hz & Hin)]; [left; auto |]. right.
    destruct (sb_forth _ _ _ _ _ _ Hsub a z Hz) as (y & Hy & K). exists y.
    rewrite (kp_followers _ _ K). auto. }
  assert (Hbt : forall b ib, <[t := i]> m !! b = Some ib -> i_status ib <> Emplaced -> b <> t /\ m !! b = Some ib).
  { intros b ib Hb Hne. apply lookup_insert_Some in Hb as [(<- & <-) | (Hbt & Hb)]; [congruence | auto]. }
  constructor.
  - intros a b ib Hab Hb Hne. destruct (Hbt b ib Hb Hne) as [Hb1 Hb2].
    destruct (before_submit _ _ _ _ _ _ HS Hn Hseq Hb1 Hab) as [Ha Hab'].
    destruct (O1 a b ib Hab' Hb2 Hne) as [Hd | (y & Hy & Hd)]; [left; auto |]. right.
    pose proof Hy as (ia & iy & Hia & Hiy & Hr). exists y.
    assert (y <> t) by congruence. split; [| auto].
    exists ia, iy. rewrite !lookup_insert_ne by congruence. auto.
  - intros a b ib Hab Hb Hs. assert (Hne : i_status ib <> Emplaced) by (intros E; rewrite E in Hs; discriminate).
    destruct (Hbt b ib Hb Hne) as [Hb1 Hb2].
    destruct (before_submit _ _ _ _ _ _ HS Hn Hseq Hb1 Hab) as [Ha Hab']. eauto.
Qed.

(** What the graph needs of the parent of a task that is submitted. *)
Lemma submit_parent s x t u worker sp p ip w' :
  invariant s -> info s !! t = None -> spaces (world s) !! x = Some sp -> parent sp = Some p ->
  info s !! p = Some ip -> i_status ip = Running -> room p 1 (world s) ->
  submit x t (put_task t (with_user u (new_task worker (depth sp))) (world s)) = Ok w' ->
  exists taskp, tasks (world s) !! p = Some taskp /\ is_finished taskp = false /\
    state (post_event taskp) + 1 < 2 ^ 16 /\ is_superset_of (user taskp) u = true.
Proof.
  intros [HI HS HL HO] Hn Hsp Hpar Hip Hrun Hroom Hsub.
  destruct (tasks (world s) !! p) as [taskp |] eqn:Hp.
  2: { rewrite (ln_gone _ _ HL p ip Hip Hp) in Hrun. discriminate. }
  exists taskp. split; [reflexivity |]. split; [| split].
  - destruct (is_finished taskp) eqn:Ef; [| reflexivity].
    rewrite (finished_returned _ _ p ip HI HL Hip) in Hrun; [discriminate |].
    intros y Hy. congruence.
  - apply (Hroom taskp Hp).
  - eapply submit_superset; [exact Hsub | exact Hsp | exact Hpar | exact Hp | congruence].
Qed.

Lemma invariant_submit s x t u worker sp w' user' :
  invariant s -> info s !! t = None -> tasks (world s) !! t = None -> spaces (world s) !! x = Some sp -> built u ->
  (forall p, parent sp = Some p ->
     (exists ip, info s !! p = Some ip /\ i_status ip = Running) /\ room p 1 (world s)) ->
  submit x t (put_task t (with_user u (new_task worker (depth sp))) (world s)) = Ok w' ->
  user <$> tasks w' !! t = Some user' ->
  invariant (mkState w' (<[t := mkInfo (next_seq s) user' x Emplaced]> (info s)) (S (next_seq s))).
Proof.
  intros Hinv Hn Hnt Hsp Hu Hp Hsub Huser. pose proof Hinv as [HI HS HL HO].
  destruct (submit_spec _ _ _ x sp t u worker HI Hnt Hsp) as (l' & w2 & E2 & HI2 & Hd).
  { unfold bpre_of. rewrite Hn. reflexivity. }
  { unfold bpost_of. rewrite Hn. reflexivity. }
  { intros p Hpar. destruct (Hp p Hpar) as [(ip & Hip & Hrun) Hroom]. eapply submit_parent; eassumption. }
  assert (w2 = w') as -> by congruence.
  destruct (sb_task _ _ _ _ _ _ Hd) as (task & Htask & Eu & _). rewrite Htask in Huser.
  injection Huser as <-. rewrite Eu.
  constructor; cbn [world info next_seq].
  - eapply Inv_pointwise; [| | exact HI2]; intros a; unfold bpre_of, bpost_of;
      (destruct (decide (t = a)) as [<- | Hne];
        [rewrite lookup_insert_eq, Hn; reflexivity | rewrite lookup_insert_ne by exact Hne; reflexivity]).
  - eapply static_submit; eassumption.
  - eapply linked_submit; eauto.
  - eapply ordered_submit; [exact HS | exact HO | exact Hn | reflexivity | reflexivity | exact Hd].
Qed.

(** ** All steps *)

Lemma invariant_step s s' : invariant s -> step s s' -> invariant s'.
Proof.
  intros Hinv Hstep.
  destruct Hstep as [p q ip task sp s Hip Hrun Hp Hc Hq Hsub | x t u wk sp w' user' s Hn Hnt Hsp Hu Hp Hsub Huser
    | t i c b w' s Hi Hst Hroom Hini | t i w' s Hi Hst Hstart | t i task b w' s Hi Hst Ht Hs Hn
    | t i b w' s Hi Hst Hn | t task b w' s Ht Hs Hn | t i x p w' s Hi Hst Hx Hroom Hev
    | t i x e c wk b w' s Hi Hst Hx Hp | x e c b w' s Hx Hs Hn].
  - eapply invariant_space; eassumption.
  - eapply invariant_submit; eassumption.
  - eapply invariant_init_step; eassumption.
  - eapply invariant_start; eassumption.
  - eapply invariant_result; [exact Hinv | | exact Hn].
    exact (notify_result_set_spec _ _ _ _ t task (iv_inv _ Hinv) Ht Hs).
  - eapply invariant_return; eassumption.
  - eapply invariant_result; [exact Hinv | | exact Hn].
    exact (notify_result_get_spec _ _ _ _ t task (iv_inv _ Hinv) Ht Hs).
  - eapply invariant_create_event; eassumption.
  - eapply invariant_pause; eassumption.
  - eapply invariant_notify_event; eassumption.
Qed.

Lemma reachable_safe s : reachable init step s -> invariant s.
Proof. apply reachable_invariant; [exact invariant_init | exact invariant_step]. Qed.
End Safe.
End SystemSafe.
