(* ===== verification/SystemLive.v ===== *)
(** Who waits for whom: a task is followed by its parent and by younger tasks of
    its own space only.  So a parent finishes after its children, and a runtime
    in which nothing runs and some task is not finished has a task ready to run. *)

From Stdlib Require Import ZArith Lia Bool.
From stdpp Require Import base gmap list strings.
From S2P Require Import Prelude Resource ResourceUser Entries Graph GraphNotify GraphInv GraphInit.
From S2P Require Import GraphSubmit GraphEvents System SystemSafe.

Open Scope Z_scope.
Open Scope word_scope.

Module SystemLive.
Import Resource ResourceUser Graph GraphNotify GraphInv GraphInit GraphSubmit GraphEvents System SystemSafe.

Section Live.
Context {RA : Type} `{AccessOps RA} `{!AccessLaws RA}.
Implicit Types (w : World RA) (task : Task RA) (m : gmap nat (Info (RA := RA))) (s : State (RA := RA)).

(** ** What a step does to the waiting relation *)

Inductive effect : State (RA := RA) -> State (RA := RA) -> Prop :=
  | effect_deliver s w' m' bpost :
      same_info (info s) m' -> SFrame bpost (world s) w' ->
      effect s (mkState w' m' (next_seq s))
  | effect_space s p q task sp :
      tasks (world s) !! p = Some task -> spaces (world s) !! q = None -> sub_space p (world s) = Ok sp ->
      (exists ip, info s !! p = Some ip /\ i_status ip = Running) ->
      effect s (mkState (put_task p (with_children (Some q) task) (put_space q sp (world s)))
                  (info s) (next_seq s))
  | effect_submit s t i u l' w' :
      info s !! t = None -> i_seq i = next_seq s ->
      submitted (i_space i) t u (world s) l' w' ->
      effect s (mkState w' (<[t := i]> (info s)) (S (next_seq s)))
  | effect_init s t i w2 w' m' bpost :
      info s !! t = Some i -> i_status i = Emplaced -> same_info (info s) m' ->
      Grow t (world s) w2 ->
      added t (fun a => (exists e, e ∈ unique_resources (i_user i) /\ a ∈ older_users e (world s)) /\
        same_space a t (world s)) (world s) w2 ->
      SFrame bpost w2 w' ->
      effect s (mkState w' m' (next_seq s))
  | effect_grow s t i w2 w' m' bpost :
      info s !! t = Some i -> i_status i = Running -> same_info (info s) m' -> Grow t (world s) w2 -> added t (fun _ => False) (world s) w2 ->
      SFrame bpost w2 w' ->
      effect s (mkState w' m' (next_seq s))
  | effect_reach s x e w' bpost :
      events (world s) !! x = Some e -> state e = 1 -> SFrame bpost (put_external x (dn e) (world s)) w' ->
      effect s (mkState w' (info s) (next_seq s)).

Lemma effect_of_start t i w' s :
  invariant s -> info s !! t = Some i -> i_status i = Initialized -> start_task t (world s) = Ok w' ->
  effect s (mkState w' (<[t := set_status Running i]> (info s)) (next_seq s)).
Proof.
  intros [HI HS HL HO] Hi Hst Hstart. unfold start_task, get_task in Hstart.
  destruct (tasks (world s) !! t) as [task |] eqn:Ht; [| discriminate]. cbn [deref mbind res_bind] in Hstart.
  destruct (task_is_ready task); [| discriminate]. cbn [cpp_assert mbind res_bind] in Hstart.
  pose proof (Inv_start _ _ _ _ HI Hi Hst ltac:(eauto)) as HI1.
  destruct (notify_spec _ _ (notify_fuel (world s)) _ (world s) [] false (Nat.lt_succ_diag_r _) HI1)
    as (b & w2 & E2 & HI2 & HF2).
  rewrite E2 in Hstart. cbn [mbind res_bind] in Hstart. injection Hstart as <-.
  eapply effect_deliver; [apply same_info_set_status, Hi | apply Frame_SFrame in HF2; exact HF2].
Qed.

Lemma effect_of_return t i b w' s :
  invariant s -> info s !! t = Some i -> i_status i = Running ->
  notify (notify_fuel (world s)) (get_post_event t) false (world s) = Ok (b, w') ->
  effect s (mkState w' (<[t := set_status Returned i]> (info s)) (next_seq s)).
Proof.
  intros [HI HS HL HO] Hi Hst Hret.
  destruct (tasks (world s) !! t) as [task |] eqn:Ht.
  2: { rewrite (ln_gone _ _ HL t i Hi Ht) in Hst. discriminate. }
  assert (Hrun : is_running task = true) by (eapply ln_running; eauto; rewrite Hst; reflexivity).
  pose proof (Inv_return _ _ _ _ _ HI Hi Hst Ht Hrun) as HI1.
  destruct (notify_spec _ _ (notify_fuel (world s)) _ (world s) [] false (Nat.lt_succ_diag_r _) HI1)
    as (b' & w2 & E2 & HI2 & HF2).
  assert (w2 = w') as -> by congruence. apply Frame_SFrame in HF2.
  eapply effect_deliver; [apply same_info_set_status, Hi | exact HF2].
Qed.

Lemma effect_of_init t i claimed b w' s :
  invariant s -> info s !! t = Some i -> i_status i = Emplaced ->
  room t (1 + Z.of_nat (scan_length (unique_resources (i_user i)) (world s))) (world s) ->
  init_task t claimed (world s) = Ok (b, w') ->
  effect s (mkState w' (<[t := set_status Initialized i]> (info s)) (next_seq s)).
Proof.
  intros Hinv Hi Hst Hroom Hini.
  destruct (init_graph_covers s t i Hinv Hi Hst Hroom) as (w1 & w2 & E1 & E2 & HI2 & G & A & _).
  unfold init_task in Hini. rewrite E1 in Hini. cbn [mbind res_bind] in Hini. rewrite E2 in Hini.
  cbn [mbind res_bind] in Hini.
  destruct (notify_spec _ _ (notify_fuel w2) _ w2 [] claimed (Nat.lt_succ_diag_r _) HI2)
    as (b' & w3 & E3 & HI3 & HF3).
  assert (w3 = w') as -> by congruence. apply Frame_SFrame in HF3.
  eapply effect_init; [exact Hi | exact Hst | apply same_info_set_status, Hi | exact G | exact A | exact HF3].
Qed.

Lemma submit_submitted s x t u worker sp w' :
  invariant s -> info s !! t = None -> tasks (world s) !! t = None -> spaces (world s) !! x = Some sp ->
  (forall p, parent sp = Some p ->
     (exists ip, info s !! p = Some ip /\ i_status ip = Running) /\ room p 1 (world s)) ->
  submit x t (put_task t (with_user u (new_task worker (depth sp))) (world s)) = Ok w' ->
  exists l', submitted x t u (world s) l' w'.
Proof.
  intros Hinv Hn Hnt Hsp Hp Hsub. pose proof Hinv as [HI HS HL HO].
  destruct (submit_spec _ _ _ x sp t u worker HI Hnt Hsp) as (l' & w2 & E2 & HI2 & Hd).
  { unfold bpre_of. rewrite Hn. reflexivity. }
  { unfold bpost_of. rewrite Hn. reflexivity. }
  { intros p Hpar. destruct (Hp p Hpar) as [(ip & Hip & Hrun) Hroom]. eapply submit_parent; eassumption. }
  assert (w2 = w') as -> by congruence. eauto.
Qed.

(** Making and reaching an event, and waiting for one, add no edge between tasks. *)
Lemma added_put t task task' w w' :
  tasks w !! t = Some task -> tasks w' = <[t := task']> (tasks w) -> followers (post_event task') = followers (post_event task) ->
  added t (fun _ => False) w w'.
Proof.
  intros Ht E Ef a x f Hx Hf. left. rewrite E in Hx. apply lookup_insert_Some in Hx as [(<- & <-) | (Hne & Hx)]; [| eauto].
  exists task. rewrite <- Ef. auto.
Qed.

Lemma SFrame_refl bpost w : SFrame bpost w w.
Proof. apply Frame_SFrame, Frame_refl. Qed.

Lemma effect_of_create t i x p w' s :
  invariant s -> info s !! t = Some i -> i_status i = Running -> events (world s) !! x = None -> room t 1 (world s) ->
  make_event x t (world s) = Ok (p, w') -> effect s (mkState w' (info s) (next_seq s)).
Proof.
  intros Hinv Hi Hst Hx Hroom E. destruct (running_task s t i Hinv Hi Hst) as (task & Ht & _ & Hf & _).
  destruct (make_event_spec _ _ _ t task x (iv_inv _ Hinv) Ht Hf (proj2 (Hroom task Ht)) Hx) as (w1 & E1 & _ & G & Et & _).
  assert (w1 = w') as -> by congruence.
  eapply (effect_grow s t i w' w' (info s) (bpost_of (info s)));
    [exact Hi | exact Hst | apply same_info_refl | exact G | eapply added_put; [exact Ht | exact Et | reflexivity] | apply SFrame_refl].
Qed.

Lemma effect_of_pause t i x e c wk b w' s :
  invariant s -> info s !! t = Some i -> i_status i = Running -> events (world s) !! x = Some e ->
  pause_task t wk (external x c) (world s) = Ok (b, w') ->
  effect s (mkState w' (<[t := set_status Initialized i]> (info s)) (next_seq s)).
Proof.
  intros Hinv Hi Hst Hx E. destruct (running_task s t i Hinv Hi Hst) as (task & Ht & _).
  destruct (pause_prepared s t i x e c wk Hinv Hi Hst Hx) as (w2 & task2 & E2 & HI2 & G & Et & Ep & _).
  unfold pause_task in E. rewrite E2 in E. cbn [mbind res_bind] in E.
  destruct (notify_spec _ _ (notify_fuel w2) _ w2 [] false (Nat.lt_succ_diag_r _) HI2) as (b' & w3 & E3 & _ & HF3).
  assert (w3 = w') as -> by congruence. apply Frame_SFrame in HF3.
  eapply effect_grow; [exact Hi | exact Hst | apply same_info_set_status, Hi | exact G | | exact HF3].
  eapply added_put; [exact Ht | exact Et |]. rewrite (Ep task Ht). reflexivity.
Qed.

Lemma effect_of_notify x e c b w' s :
  invariant s -> events (world s) !! x = Some e -> state e = 1 ->
  notify (notify_fuel (world s)) (external x c) false (world s) = Ok (b, w') ->
  effect s (mkState w' (info s) (next_seq s)).
Proof.
  intros [HI HS HL HO] Hx Hs E.
  destruct (notify_external_spec _ _ (total (world s)) _ x e c false HI Hx Hs (Nat.lt_succ_diag_r _)) as (b' & w1 & E1 & _ & HF).
  assert (w1 = w') as -> by (unfold notify_fuel in E; congruence). apply Frame_SFrame in HF.
  eapply effect_reach; eassumption.
Qed.

Lemma step_effect s s' : invariant s -> step s s' -> effect s s'.
Proof.
  intros Hinv Hstep.
  assert (Hres : forall r w' b, result_spec (bpre_of (info s)) (bpost_of (info s)) (world s) r -> r = Ok (b, w') ->
    effect s (mkState w' (info s) (next_seq s))).
  { intros r w' b (b0 & w0 & E & _ & HF) Er. assert (w0 = w') as -> by congruence.
    eapply effect_deliver; [apply same_info_refl | exact HF]. }
  destruct Hstep as [p q ip task sp s Hip Hrun Hp Hc Hq Hsub | x t u wk sp w' user' s Hn Hnt Hsp Hu Hp Hsub Huser
    | t i c b w' s Hi Hst Hroom Hini | t i w' s Hi Hst Hstart | t i task b w' s Hi Hst Ht Hs Hn
    | t i b w' s Hi Hst Hn | t task b w' s Ht Hs Hn | t i x p w' s Hi Hst Hx Hroom Hev
    | t i x e c wk b w' s Hi Hst Hx Hp | x e c b w' s Hx Hs Hn].
  - apply effect_space; eauto.
  - destruct (submit_submitted s x t u wk sp w' Hinv Hn Hnt Hsp Hp Hsub) as [l' Hd].
    eapply effect_submit; [exact Hn | reflexivity | exact Hd].
  - eapply effect_of_init; eassumption.
  - eapply effect_of_start; eassumption.
  - eapply Hres; [exact (notify_result_set_spec _ _ (total (world s)) _ t task (iv_inv _ Hinv) Ht Hs) | exact Hn].
  - eapply effect_of_return; eassumption.
  - eapply Hres; [exact (notify_result_get_spec _ _ (total (world s)) _ t task (iv_inv _ Hinv) Ht Hs) | exact Hn].
  - eapply effect_of_create; eassumption.
  - eapply effect_of_pause; eassumption.
  - eapply effect_of_notify; eassumption.
Qed.

(** ** The waiting relation *)

(** [f] may wait for the post-event of [a]: [f] is the pre-event of a younger
    task of the same space, or the post-event of the parent.  A task that lists a
    resource twice may wait for itself. *)
Definition waits m w (a : nat) (f : EventPtr) : Prop :=
  exists ia, m !! a = Some ia /\
    ((exists b ib, f = get_pre_event b /\ m !! b = Some ib /\ i_space ia = i_space ib /\
        ((i_seq ia < i_seq ib)%nat \/ a = b /\ ~ NoDup (resource_ptrs (i_user ib)))) \/
     (exists sp p, f = get_post_event p /\ spaces w !! i_space ia = Some sp /\ parent sp = Some p)).

Definition owed (p c : nat) w : Prop :=
  finished_in c w \/ exists task, tasks w !! c = Some task /\ get_post_event p ∈ followers (post_event task).

Record family m w : Prop := {
  fm_parent : forall c i sp p, m !! c = Some i -> spaces w !! i_space i = Some sp -> parent sp = Some p ->
    owed p c w;
  fm_edge : forall a task f, tasks w !! a = Some task -> is_finished task = false ->
    f ∈ followers (post_event task) -> waits m w a f
}.

Definition same_parents w w' : Prop :=
  forall q, (fun sp => parent sp) <$> spaces w' !! q = (fun sp => parent sp) <$> spaces w !! q.

Lemma same_parents_of w w' :
  (forall q, (fun sp => (depth sp, parent sp)) <$> spaces w' !! q
           = (fun sp => (depth sp, parent sp)) <$> spaces w !! q) -> same_parents w w'.
Proof.
  intros Hs q. specialize (Hs q).
  destruct (spaces w' !! q), (spaces w !! q); simpl in *; congruence.
Qed.

Lemma same_parents_back w w' q sp : same_parents w w' -> spaces w' !! q = Some sp ->
  exists sp0, spaces w !! q = Some sp0 /\ parent sp0 = parent sp.
Proof.
  intros Hs Hq. specialize (Hs q). rewrite Hq in Hs. destruct (spaces w !! q) as [sp0 |]; [| discriminate].
  injection Hs as E. eauto.
Qed.

Lemma waits_mono m m' w w' a f :
  (forall t i, m !! t = Some i -> exists i', m' !! t = Some i' /\
     i_seq i' = i_seq i /\ i_user i' = i_user i /\ i_space i' = i_space i) ->
  (forall q sp, spaces w !! q = Some sp -> exists sp', spaces w' !! q = Some sp' /\ parent sp' = parent sp) ->
  waits m w a f -> waits m' w' a f.
Proof.
  intros Hm Hs (ia & Ha & Hr). destruct (Hm a ia Ha) as (ia' & Ha' & E1 & E2 & E3). exists ia'.
  split; [exact Ha' |]. destruct Hr as [(b & ib & Ef & Hb & Esp & Hr) | (sp & p & Ef & Hsp & Hp)].
  - left. destruct (Hm b ib Hb) as (ib' & Hb' & F1 & F2 & F3). exists b, ib'.
    rewrite E1, E3, F1, F2, F3. auto.
  - right. destruct (Hs _ _ Hsp) as (sp' & Hsp' & Ep). exists sp', p. rewrite E3, Ep. auto.
Qed.

Lemma same_info_forth m m' : same_info m m' -> forall t i, m !! t = Some i -> exists i', m' !! t = Some i' /\
  i_seq i' = i_seq i /\ i_user i' = i_user i /\ i_space i' = i_space i.
Proof.
  intros Hs t i Ht. destruct (same_info_lookup _ _ _ _ (same_info_sym _ _ Hs) Ht) as (i' & Hi' & E1 & E2 & E3).
  exists i'. auto.
Qed.

Lemma same_parents_forth w w' : same_parents w w' -> forall q sp, spaces w !! q = Some sp ->
  exists sp', spaces w' !! q = Some sp' /\ parent sp' = parent sp.
Proof.
  intros Hs q sp Hq. specialize (Hs q). rewrite Hq in Hs. destruct (spaces w' !! q) as [sp' |]; [| discriminate].
  injection Hs as E. eauto.
Qed.

(** When neither the tasks nor the spaces change but for their status. *)
Lemma family_same m m' w w' :
  same_info m m' -> same_parents w w' ->
  (forall p c, owed p c w -> owed p c w') ->
  (forall a task' f, tasks w' !! a = Some task' -> is_finished task' = false ->
     f ∈ followers (post_event task') ->
     (exists task, tasks w !! a = Some task /\ is_finished task = false /\ f ∈ followers (post_event task)) \/
     waits m w a f) ->
  family m w -> family m' w'.
Proof.
  intros Hs Hp Ho Hf [F1 F2]. constructor.
  - intros c i' sp' p Hc Hsp' Hpar. destruct (same_info_lookup _ _ _ _ Hs Hc) as (i & Hi & _ & _ & E3).
    destruct (same_parents_back _ _ _ _ Hp Hsp') as (sp & Hsp & Ep). rewrite E3 in Hsp.
    apply Ho, (F1 c i sp p Hi Hsp). congruence.
  - intros a task' f Ha Hn Hin.
    apply (waits_mono m m' w w'); [apply same_info_forth, Hs | apply same_parents_forth, Hp |].
    destruct (Hf a task' f Ha Hn Hin) as [(task & Ht & Hn0 & Hin0) | Hw]; [eauto | exact Hw].
Qed.

Lemma family_sframe m m' w w' bpost : same_info m m' -> SFrame bpost w w' -> family m w -> family m' w'.
Proof.
  intros Hs Hf. apply family_same; [exact Hs | apply same_parents_of, Hf | |].
  - intros p c [Hfin | (task & Hc & Hin)]; [left; eapply finished_in_sframe; eassumption |].
    destruct (tasks w' !! c) as [task' |] eqn:E.
    + right. exists task'. split; [exact E |]. destruct (sf_tasks _ _ _ Hf c task' E) as (x & Hx & Hss).
      rewrite (ss_followers _ _ Hss). congruence.
    + left. intros x Hx. congruence.
  - intros a task' f Ha Hn Hin. left. destruct (sf_tasks _ _ _ Hf a task' Ha) as (task & Ht & Hss).
    exists task. split; [exact Ht |]. rewrite <- (ss_followers _ _ Hss). split; [| exact Hin].
    destruct (is_finished task) eqn:E; [| reflexivity]. rewrite (ss_post _ _ Hss E) in Hn. discriminate.
Qed.

(** The users a new task waits for are older, or itself. *)
Lemma older_waits m n w bpre a t it e :
  Inv bpre (bpost_of m) w [] -> bpre = bpre_of m -> static m n -> linked m w ->
  m !! t = Some it -> i_status it = Emplaced -> e ∈ unique_resources (i_user it) ->
  a ∈ older_users e w -> same_space a t w -> waits m w a (get_pre_event t).
Proof.
  intros HI -> HS HL Hit Hst He Ha (x & y & Hx & Hy & Esp).
  destruct (st_key _ _ HS t it e Hit He) as [kt Hkt]. unfold older_users in Ha. rewrite Hkt in Ha.
  apply list_elem_of_fmap in Ha as ([ka a'] & Ea & Ha). simpl in Ea. subst a'.
  apply Entries.elem_of_older in Ha as [Ha Hlt]. set (r := r_ptr (ue_resource e)) in *.
  destruct (ln_entry _ _ HL r ka a Ha) as (_ & ia & ea & Hia & Hea & Era & Eka).
  destruct (ln_task _ _ HL a x Hx) as (ia' & Hia' & _ & Esa). assert (ia' = ia) as -> by congruence.
  destruct (ln_task _ _ HL t y Hy) as (it' & Hit' & _ & Est). assert (it' = it) as -> by congruence.
  exists ia. split; [exact Hia |]. left. exists t, it. split; [reflexivity |]. split; [exact Hit |].
  split; [congruence |].
  destruct (decide (a = t)) as [-> | Hne].
  - right. split; [reflexivity |]. assert (ia = it) as -> by congruence. intros Hnd.
    assert (E : ea = e).
    { apply list_elem_of_lookup in Hea as [j Hj]. apply list_elem_of_lookup in He as [j' Hj'].
      assert (j = j').
      { apply (NoDup_lookup _ j j' r Hnd); unfold resource_ptrs; rewrite list_lookup_fmap, ?Hj, ?Hj'; simpl;
          [rewrite Era; reflexivity | reflexivity]. }
      congruence. }
    subst ea. rewrite Hkt in Eka. injection Eka as <-. lia.
  - left. destruct (ln_present _ _ HL t it e kt Hit He Hkt) as [_ [Hin | Hfin]].
    + destruct (entry_order m n w r ka kt a t ia it HS HL Hia Hit Ha Hin Hlt) as [-> | Hs]; [congruence | exact Hs].
    + rewrite (finished_returned m w t it HI HL Hit Hfin) in Hst. discriminate.
Qed.

(** The tasks grow; every new follower waits. *)
Lemma family_grow m m' w w2 w' t bpost :
  same_info m m' -> Grow t w w2 -> SFrame bpost w2 w' ->
  (forall a task' f, tasks w2 !! a = Some task' -> f ∈ followers (post_event task') ->
     (exists task, tasks w !! a = Some task /\ f ∈ followers (post_event task)) \/ waits m w a f) ->
  family m w -> family m' w'.
Proof.
  intros Hs G Hf A F. eapply family_sframe; [exact Hs | exact Hf |].
  revert F. apply family_same; [apply same_info_refl | | |].
  - intros q. rewrite (gr_spaces _ _ _ G). reflexivity.
  - intros p c [Hfin | (task & Hc & Hin)]; [left; eapply finished_in_grow; eassumption |]. right.
    destruct (Grow_lookup _ _ _ _ _ G Hc) as (task' & Hc' & Gt). exists task'.
    split; [exact Hc' | apply (gt_followers _ _ _ Gt), Hin].
  - intros a task' f Ha Hn Hin. destruct (gr_back _ _ _ G a task' Ha) as (task & Ht & Gt).
    destruct (A a task' f Ha Hin) as [(x & Hx & Hinx) | Hw]; [left | right; exact Hw].
    exists task. split; [exact Ht |]. rewrite <- (gt_finished _ _ _ Gt). split; [exact Hn | congruence].
Qed.

Lemma family_init m m' n w w2 w' t it bpost :
  Inv (bpre_of m) (bpost_of m) w [] -> static m n -> linked m w ->
  m !! t = Some it -> i_status it = Emplaced -> same_info m m' -> Grow t w w2 ->
  added t (fun a => (exists e, e ∈ unique_resources (i_user it) /\ a ∈ older_users e w) /\ same_space a t w) w w2 ->
  SFrame bpost w2 w' -> family m w -> family m' w'.
Proof.
  intros HI HS HL Hit Hst Hs G A Hf. apply (family_grow m m' w w2 w' t bpost Hs G Hf).
  intros a task' f Ha Hin. destruct (A a task' f Ha Hin) as [Hx | [-> [(e & He & Hold) Hsp]]]; [auto |].
  right. eapply older_waits; eauto.
Qed.

Lemma family_submit m n w w' t i u l' :
  static m n -> linked m w -> m !! t = None -> submitted (i_space i) t u w l' w' ->
  family m w -> family (<[t := i]> m) w'.
Proof.
  intros HS HL Hn Hsub [F1 F2]. pose proof (same_parents_of _ _ (sb_spaces _ _ _ _ _ _ Hsub)) as Hp.
  destruct (sb_task _ _ _ _ _ _ Hsub) as (taskt & Htaskt & _). constructor.
  - intros c j sp' p Hc Hsp' Hpar. destruct (same_parents_back _ _ _ _ Hp Hsp') as (sp & Hsp & Ep).
    apply lookup_insert_Some in Hc as [(<- & <-) | (Hne & Hc)].
    + right. exists taskt. split; [exact Htaskt |]. apply (sb_edge _ _ _ _ _ _ Hsub taskt Htaskt).
      exists sp, p. split; [exact Hsp |]. split; [congruence | reflexivity].
    + destruct (F1 c j sp p Hc Hsp ltac:(congruence)) as [Hfin | (task & Ht & Hin)].
      * left. intros y Hy. destruct (sb_back _ _ _ _ _ _ Hsub c y ltac:(congruence) Hy) as (z & Hz & K).
        rewrite (kp_finished _ _ K). apply Hfin, Hz.
      * right. destruct (sb_forth _ _ _ _ _ _ Hsub c task Ht) as (y & Hy & K). exists y.
        rewrite (kp_followers _ _ K). auto.
  - intros a task' f Ha Hnf Hin. destruct (decide (a = t)) as [-> | Hne].
    + assert (task' = taskt) as -> by congruence.
      apply (sb_edge _ _ _ _ _ _ Hsub taskt Htaskt) in Hin as (sp & p & Hsp & Ep & ->).
      destruct (same_parents_forth _ _ Hp _ _ Hsp) as (sp' & Hsp' & Ep').
      exists i. rewrite lookup_insert_eq. split; [reflexivity |]. right. exists sp', p.
      split; [reflexivity |]. split; [exact Hsp' | congruence].
    + destruct (sb_back _ _ _ _ _ _ Hsub a task' Hne Ha) as (task & Ht & K).
      apply (waits_mono m _ w w').
      * intros b ib Hb. exists ib. rewrite lookup_insert_ne by congruence. auto.
      * apply same_parents_forth, Hp.
      * apply (F2 a task f Ht); [rewrite <- (kp_finished _ _ K); exact Hnf | rewrite <- (kp_followers _ _ K); exact Hin].
Qed.

Lemma family_space m w p q task sp :
  linked m w -> tasks w !! p = Some task -> spaces w !! q = None -> family m w ->
  family m (put_task p (with_children (Some q) task) (put_space q sp w)).
Proof.
  intros HL Hp Hq [F1 F2]. set (w' := put_task p _ _).
  assert (Hback : forall a x, tasks w' !! a = Some x -> exists y, tasks w !! a = Some y /\ post_event x = post_event y).
  { intros a x Hx. simpl in Hx. apply lookup_insert_Some in Hx as [(<- & <-) | (Hne & Hx)]; [exists task | exists x]; auto. }
  assert (Hforth : forall a y, tasks w !! a = Some y -> exists x, tasks w' !! a = Some x /\ post_event x = post_event y).
  { intros a y Hy. simpl. destruct (decide (p = a)) as [<- | Hne].
    - rewrite lookup_insert_eq. assert (y = task) as -> by congruence. eexists. split; reflexivity.
    - rewrite lookup_insert_ne by exact Hne. eauto. }
  constructor.
  - intros c i sp' p' Hc Hsp' Hpar. destruct (ln_space _ _ HL c i Hc) as (sp0 & Hsp0 & _).
    simpl in Hsp'. rewrite lookup_insert_ne in Hsp' by congruence.
    destruct (F1 c i sp' p' Hc Hsp' Hpar) as [Hfin | (x & Hx & Hin)].
    + left. intros y Hy. destruct (Hback c y Hy) as (z & Hz & E). unfold is_finished. rewrite E. apply Hfin, Hz.
    + right. destruct (Hforth c x Hx) as (y & Hy & E). exists y. rewrite E. auto.
  - intros a x f Hx Hn Hin. destruct (Hback a x Hx) as (y & Hy & E). unfold is_finished in Hn. rewrite E in Hn, Hin.
    apply (waits_mono m m w w').
    + intros b ib Hb. eauto.
    + intros q' sp0 Hq'. exists sp0. split; [| reflexivity]. simpl. rewrite lookup_insert_ne by congruence. exact Hq'.
    + eauto.
Qed.

Lemma family_effect s s' : invariant s -> effect s s' -> family (info s) (world s) -> family (info s') (world s').
Proof.
  intros [HI HS HL HO] Heff. destruct Heff as [s w' m' bpost Hs Hf | s p q task sp Hp Hq Hsp
    | s t i u l' w' Hn Hseq Hsub | s t i w2 w' m' bpost Hi Hst Hs G A Hf | s t i w2 w' m' bpost Hi Hst Hs G A Hf
    | s x e w' bpost Hx Es Hf]; cbn [world info].
  - apply (family_sframe _ _ _ _ _ Hs Hf).
  - intros F. apply (family_space _ _ _ _ _ _ HL Hp Hq F).
  - apply (family_submit _ _ _ _ _ _ _ _ HS HL Hn Hsub).
  - apply (family_init _ _ _ _ _ _ _ _ _ HI HS HL Hi Hst Hs G A Hf).
  - apply (family_grow _ _ _ _ _ _ _ Hs G Hf). intros a task' f Ha Hin. destruct (A a task' f Ha Hin) as [Hx | [_ []]]. auto.
  - intros F. eapply (family_sframe _ _ (put_external x (dn e) (world s))); [apply same_info_refl | exact Hf |].
    destruct F as [F1 F2]. constructor; assumption.
Qed.

Lemma reachable_family s : reachable init step s -> invariant s /\ family (info s) (world s).
Proof.
  apply (reachable_invariant init step (fun s => invariant s /\ family (info s) (world s))).
  - intros s0 Hs0. split; [apply invariant_init, Hs0 |]. rewrite Hs0. constructor; simpl.
    + intros c i sp p Hc. rewrite lookup_empty in Hc. discriminate.
    + intros a task f Ha. rewrite lookup_empty in Ha. discriminate.
  - intros s0 s1 [Hinv Hfam] Hstep. split; [eapply invariant_step; eassumption |].
    eapply family_effect; [exact Hinv | apply step_effect; assumption | exact Hfam].
Qed.
End Live.
End SystemLive.
