(* ===== verification/SystemRun.v ===== *)
(** The steps of [System] as commands that can be run: a run of commands from the
    initial state reaches the state it computes.  Used to exhibit concrete runs. *)

From Stdlib Require Import ZArith Lia Bool.
From stdpp Require Import base gmap list strings relations.
From S2P Require Import Prelude Resource ResourceUser Entries Graph GraphNotify GraphInv GraphInit.
From S2P Require Import GraphSubmit System.

Open Scope Z_scope.
Open Scope word_scope.

Module SystemRun.
Import Resource ResourceUser Graph GraphNotify GraphInv GraphInit GraphSubmit System.

Section Run.
Context {RA : Type} `{AccessOps RA} `{!AccessLaws RA}.
Implicit Types (w : World RA) (task : Task RA) (m : gmap nat (Info (RA := RA))) (s : State (RA := RA)).

Inductive Command : Type :=
  | CSpace (p q : nat)
  | CSubmit (x t : nat) (u : ResourceUser RA) (worker : Z)
  | CInit (t : nat) (claimed : bool)
  | CStart (t : nat)
  | CResultSet (t : nat)
  | CReturn (t : nat)
  | CResultGet (t : nat)
  | CCreateEvent (t x : nat)
  | CPause (t x : nat) (waker : Z)
  | CNotifyEvent (x : nat) (c : nat).

Definition ok {A} (r : res A) : option A := match r with Ok x => Some x | Err _ => None end.

Definition guard (b : bool) : option unit := if b then Some tt else None.

Definition status_of (t : nat) s : option Status := i_status <$> info s !! t.

Definition is_status (st : Status) (t : nat) s : bool := bool_decide (status_of t s = Some st).

Definition roomb (p : nat) (n : Z) w : bool :=
  match tasks w !! p with
  | Some task => (state (pre_event task) + n <? 2 ^ 16) && (state (post_event task) + n <? 2 ^ 16)
  | None => true
  end.

Definition parent_runs sp s : bool :=
  match parent sp with
  | Some p => is_status Running p s && roomb p 1 (world s)
  | None => true
  end.

Definition is_none {A} (o : option A) : bool := match o with None => true | Some _ => false end.

Definition advance (t : nat) (st : Status) w s : option State :=
  i ← info s !! t; Some (mkState w (<[t := set_status st i]> (info s)) (next_seq s)).

Definition deliver (p : EventPtr) s : option (World RA) :=
  snd <$> ok (notify (notify_fuel (world s)) p false (world s)).

Definition exec (c : Command) s : option State :=
  match c with
  | CSpace p q =>
      _ ← guard (is_status Running p s);
      task ← tasks (world s) !! p;
      _ ← guard (is_none (children task) && is_none (spaces (world s) !! q));
      sp ← ok (sub_space p (world s));
      Some (mkState (put_task p (with_children (Some q) task) (put_space q sp (world s))) (info s) (next_seq s))
  | CSubmit x t u worker =>
      _ ← guard (is_none (info s !! t) && is_none (tasks (world s) !! t));
      sp ← spaces (world s) !! x;
      _ ← guard (parent_runs sp s);
      w' ← ok (submit x t (put_task t (with_user u (new_task worker (depth sp))) (world s)));
      task ← tasks w' !! t;
      Some (mkState w' (<[t := mkInfo (next_seq s) (user task) x Emplaced]> (info s)) (S (next_seq s)))
  | CInit t claimed =>
      _ ← guard (is_status Emplaced t s);
      i ← info s !! t;
      _ ← guard (roomb t (1 + Z.of_nat (scan_length (unique_resources (i_user i)) (world s))) (world s));
      '(_, w') ← ok (init_task t claimed (world s));
      advance t Initialized w' s
  | CStart t =>
      _ ← guard (is_status Initialized t s);
      w' ← ok (start_task t (world s));
      advance t Running w' s
  | CResultSet t =>
      _ ← guard (is_status Running t s);
      task ← tasks (world s) !! t;
      _ ← guard (state (result_set_event task) =? 1);
      w' ← deliver (get_result_set_event t) s;
      Some (mkState w' (info s) (next_seq s))
  | CReturn t =>
      _ ← guard (is_status Running t s);
      w' ← deliver (get_post_event t) s;
      advance t Returned w' s
  | CResultGet t =>
      task ← tasks (world s) !! t;
      _ ← guard (state (result_get_event task) =? 1);
      w' ← deliver (get_result_get_event t) s;
      Some (mkState w' (info s) (next_seq s))
  | CCreateEvent t x =>
      _ ← guard (is_status Running t s);
      _ ← guard (is_none (events (world s) !! x));
      _ ← guard (roomb t 1 (world s));
      '(_, w') ← ok (make_event x t (world s));
      Some (mkState w' (info s) (next_seq s))
  | CPause t x waker =>
      _ ← guard (is_status Running t s);
      e ← events (world s) !! x;
      '(_, w') ← ok (pause_task t waker (external x t) (world s));
      advance t Initialized w' s
  | CNotifyEvent x c =>
      e ← events (world s) !! x;
      _ ← guard (state e =? 1);
      w' ← deliver (external x c) s;
      Some (mkState w' (info s) (next_seq s))
  end.

Fixpoint exec_all (l : list Command) s : option State :=
  match l with
  | [] => Some s
  | c :: l => s ← exec c s; exec_all l s
  end.

(** The submitted tasks are built the way the builder builds them. *)
Definition good (c : Command) : Prop :=
  match c with CSubmit _ _ u _ => built u | _ => True end.

(** ** Commands are steps *)

Lemma guard_some b x : guard b = Some x -> b = true.
Proof. destruct b; [auto | discriminate]. Qed.

Lemma is_none_true {A} (o : option A) : is_none o = true -> o = None.
Proof. destruct o; [discriminate | reflexivity]. Qed.

Lemma ok_some {A} (r : res A) x : ok r = Some x -> r = Ok x.
Proof. destruct r; simpl; congruence. Qed.

Lemma is_status_true st t s : is_status st t s = true -> exists i, info s !! t = Some i /\ i_status i = st.
Proof.
  unfold is_status, status_of. intros E. apply bool_decide_eq_true in E.
  destruct (info s !! t) as [i |]; [| discriminate]. injection E as E. eauto.
Qed.

Lemma roomb_room p n w : roomb p n w = true -> room p n w.
Proof. unfold roomb, room. intros E task Ht. rewrite Ht, andb_true_iff, !Z.ltb_lt in E. exact E. Qed.

Lemma deliver_some p s w' : deliver p s = Some w' -> exists b, notify (notify_fuel (world s)) p false (world s) = Ok (b, w').
Proof.
  unfold deliver. destruct (notify (notify_fuel (world s)) p false (world s)) as [[b w] |]; simpl; [| discriminate].
  intros E. injection E as <-. eauto.
Qed.

Lemma advance_some t st w s s' i :
  info s !! t = Some i -> advance t st w s = Some s' ->
  s' = mkState w (<[t := set_status st i]> (info s)) (next_seq s).
Proof. unfold advance. intros ->. simpl. congruence. Qed.

End Run.

(** Takes the bindings of a command apart. *)
Ltac exec_inv :=
  repeat match goal with
    | E : (_ ≫= _) = Some _ |- _ => apply bind_Some in E as (? & ? & E)
    | E : guard _ = Some _ |- _ => apply guard_some in E
    | E : ok _ = Some _ |- _ => apply ok_some in E
    | E : is_status _ _ _ = true |- _ => apply is_status_true in E as (? & ? & ?)
    | E : deliver _ _ = Some _ |- _ => apply deliver_some in E as [? E]
    | E : (_ && _) = true |- _ => apply andb_true_iff in E as [? ?]
    | E : is_none _ = true |- _ => apply is_none_true in E
    | E : roomb _ _ _ = true |- _ => apply roomb_room in E
    | E : (_ =? _) = true |- _ => apply Z.eqb_eq in E
  end.

Section Steps.
Context {RA : Type} `{AccessOps RA} `{!AccessLaws RA}.
Implicit Types (w : World RA) (task : Task RA) (m : gmap nat (Info (RA := RA))) (s : State (RA := RA)).

Lemma exec_step c s s' : good c -> exec c s = Some s' -> step s s'.
Proof.
  intros Hg E. destruct c as [p q | x t u wk | t cl | t | t | t | t | t x | t x wk | x c]; simpl in E, Hg; exec_inv.
  - injection E as <-. eapply step_space; eassumption.
  - injection E as <-. eapply step_submit; try eassumption.
    + intros p Hp. unfold parent_runs in *. rewrite Hp in *. exec_inv. eauto.
    + match goal with Ht : tasks _ !! t = Some ?y |- _ => rewrite Ht end. reflexivity.
  - match goal with y : (bool * World RA)%type |- _ => destruct y end. exec_inv.
    match goal with Ha : info s !! t = Some ?i, Hb : info s !! t = Some ?j |- _ =>
      assert (j = i) as -> by congruence end.
    eapply advance_some in E; [| eassumption]. subst s'. eapply step_init; eassumption.
  - eapply advance_some in E; [| eassumption]. subst s'. eapply step_start; eassumption.
  - injection E as <-. eapply step_result_set; eassumption.
  - eapply advance_some in E; [| eassumption]. subst s'. eapply step_return; eassumption.
  - injection E as <-. eapply step_result_get; eassumption.
  - match goal with y : (EventPtr * World RA)%type |- _ => destruct y end. injection E as <-. exec_inv.
    eapply step_create_event; eassumption.
  - match goal with y : (bool * World RA)%type |- _ => destruct y end. exec_inv.
    eapply advance_some in E; [| eassumption]. subst s'. eapply step_pause; eassumption.
  - injection E as <-. eapply step_notify_event; eassumption.
Qed.

Lemma exec_all_rtc l : forall s s', Forall good l -> exec_all l s = Some s' -> rtc step s s'.
Proof.
  induction l as [| c l IH]; intros s s' Hg E.
  - injection E as <-. apply rtc_refl.
  - apply Forall_cons in Hg as [Hc Hl]. simpl in E. apply bind_Some in E as (s1 & E1 & E).
    eapply rtc_l; [apply (exec_step c); eassumption | apply IH; assumption].
Qed.

Lemma reachable_rtc s s' : reachable init step s -> rtc step s s' -> reachable init step s'.
Proof. intros (s0 & Hi & Hs) Hs'. exists s0. split; [exact Hi | etransitivity; eassumption]. Qed.

Lemma exec_all_reachable l s s' : Forall good l -> reachable init step s -> exec_all l s = Some s' ->
  reachable init step s'.
Proof. intros Hg Hr E. eapply reachable_rtc; [exact Hr | apply (exec_all_rtc l); assumption]. Qed.

Definition start_state : State (RA := RA) := mkState initial_world ∅ 0.

Lemma run_reachable l s' : Forall good l -> exec_all l start_state = Some s' -> reachable init step s'.
Proof. intros Hg. apply exec_all_reachable; [exact Hg |]. apply reachable_init. reflexivity. Qed.
End Steps.
End SystemRun.
