(* ===== verification/SystemProps.v ===== *)
(** What the runtime guarantees in every reachable state: tasks that must not run
    at the same time run one after the other in the order of their submission,
    parents finish last, the handlers do not fail, and the runtime is never stuck. *)

From Stdlib Require Import ZArith Lia Bool.
From stdpp Require Import base gmap list strings.
From S2P Require Import Prelude Access Resource Guards ResourceUser Entries Graph GraphNotify.
From S2P Require Import GraphInv GraphInit GraphSubmit System SystemSafe SystemLive SystemRun.

Open Scope Z_scope.
Open Scope word_scope.

Module SystemProps.
Import Resource ResourceUser Graph GraphNotify GraphInv GraphInit GraphSubmit System SystemSafe SystemLive SystemRun.

Section Props.
Context {RA : Type} `{AccessOps RA} `{!AccessLaws RA}.
Implicit Types (w : World RA) (task : Task RA) (m : gmap nat (Info (RA := RA))) (s : State (RA := RA)).

(** ** Order *)

(** C1 (order): a task that has started, in any interleaving of the handlers,
    finds every task submitted before it to the same space with a conflicting
    access finished (its post-event reached, children included, or freed). *)
Theorem conflicting_tasks_in_order s a b ib :
  reachable init step s -> before (info s) a b ->
  info s !! b = Some ib -> started (i_status ib) = true -> finished_in a (world s).
Proof.
  intros Hr Hab Hb Hst. apply (od_safe _ _ (iv_ordered _ (reachable_safe s Hr)) a b ib Hab Hb Hst).
Qed.

Lemma running_not_finished s t i :
  reachable init step s -> info s !! t = Some i -> i_status i = Running -> ~ finished_in t (world s).
Proof.
  intros Hr Hi Hst Hf. destruct (reachable_safe s Hr) as [HI HS HL HO].
  rewrite (finished_returned _ _ t i HI HL Hi Hf) in Hst. discriminate.
Qed.

(** C2 (exclusion): two different tasks of one space whose accesses conflict are
    never running at the same time. *)
Theorem conflicting_tasks_exclusive s a b ia ib :
  reachable init step s -> info s !! a = Some ia -> info s !! b = Some ib -> a <> b ->
  i_space ia = i_space ib -> is_serial (i_user ia) (i_user ib) = true ->
  ~ (i_status ia = Running /\ i_status ib = Running).
Proof.
  intros Hr Ha Hb Hne Hsp Hser [Hra Hrb]. pose proof (reachable_safe s Hr) as [HI HS HL HO].
  destruct (Nat.lt_trichotomy (i_seq ia) (i_seq ib)) as [Hlt | [E | Hlt]].
  - apply (running_not_finished s a ia Hr Ha Hra). apply (od_safe _ _ HO a b ib); [| exact Hb |].
    + exists ia, ib. auto.
    + rewrite Hrb. reflexivity.
  - apply Hne, (st_inj _ _ HS a b ia ib Ha Hb E).
  - apply (running_not_finished s b ib Hr Hb Hrb). apply (od_safe _ _ HO b a ia); [| exact Ha |].
    + exists ib, ia. rewrite is_serial_sym. auto.
    + rewrite Hra. reflexivity.
Qed.

(** A running task is in memory and not finished. *)
Lemma running_live s t i :
  reachable init step s -> info s !! t = Some i -> i_status i = Running ->
  exists task, tasks (world s) !! t = Some task /\ is_finished task = false.
Proof.
  intros Hr Hi Hst. destruct (tasks (world s) !! t) as [task |] eqn:Ht.
  - exists task. split; [reflexivity |]. destruct (is_finished task) eqn:Ef; [| reflexivity]. exfalso.
    apply (running_not_finished s t i Hr Hi Hst). intros y Hy. congruence.
  - pose proof (ln_gone _ _ (iv_linked _ (reachable_safe s Hr)) t i Hi Ht). congruence.
Qed.

(** ** Parents and children *)

Lemma owed_finished s p c : invariant s -> owed p c (world s) -> finished_in p (world s) -> finished_in c (world s).
Proof.
  intros [HI HS HL HO] [Hf | (task & Hc & Hin)] Hp; [exact Hf |].
  intros x Hx. assert (x = task) as -> by congruence. destruct (is_finished task) eqn:Ef; [reflexivity |]. exfalso.
  destruct (inv_followers _ _ _ _ HI c task _ Hc Ef Hin) as (t & [taskt Ht] & [E | E]); [discriminate E |].
  injection E as <-. specialize (Hp taskt Ht). unfold is_finished, is_reached in Hp.
  pose proof (inv_post _ _ _ _ HI p taskt Ht) as Est. pose proof (edges_pos _ _ _ _ Hc Ef Hin). lia.
Qed.

(** C7 (parent): when a task is finished its function has returned, and so are
    all the tasks of the space it created, which are finished as well. *)
Theorem parent_finishes_last s p c ip ic sp :
  reachable init step s -> info s !! p = Some ip -> info s !! c = Some ic ->
  spaces (world s) !! i_space ic = Some sp -> parent sp = Some p -> finished_in p (world s) ->
  i_status ip = Returned /\ i_status ic = Returned /\ finished_in c (world s).
Proof.
  intros Hr Hp Hc Hsp Hpar Hf. destruct (reachable_family s Hr) as [Hinv Hfam].
  pose proof Hinv as [HI HS HL HO].
  assert (Hfc : finished_in c (world s)).
  { apply (owed_finished s p c Hinv); [| exact Hf]. apply (fm_parent _ _ Hfam c ic sp p); assumption. }
  split; [| split; [| exact Hfc]]; eapply finished_returned; eassumption.
Qed.

(** ** Progress *)

(** How deep a task sits: the submission number of its parent. *)
Definition level s (i : Info (RA := RA)) : nat :=
  match spaces (world s) !! i_space i with
  | Some sp => match parent sp with
               | Some p => match info s !! p with Some ip => S (i_seq ip) | None => 0 end
               | None => 0
               end
  | None => 0
  end.

Lemma level_child s c i p ip sp :
  info s !! c = Some i -> spaces (world s) !! i_space i = Some sp -> parent sp = Some p -> info s !! p = Some ip ->
  level s i = S (i_seq ip).
Proof. intros Hc Hsp Hp Hip. unfold level. rewrite Hsp, Hp, Hip. reflexivity. Qed.

Lemma level_bound s i : invariant s -> (level s i <= next_seq s)%nat.
Proof.
  intros Hinv. unfold level. destruct (spaces (world s) !! i_space i) as [sp |]; [| lia].
  destruct (parent sp) as [p |]; [| lia]. destruct (info s !! p) as [ip |] eqn:Hp; [| lia].
  pose proof (st_seq _ _ (iv_static _ Hinv) p ip Hp). lia.
Qed.

Definition unfinished s t : Prop := exists task, tasks (world s) !! t = Some task /\ is_finished task = false.

Definition unfinishedb s t : bool :=
  match tasks (world s) !! t with Some task => negb (is_finished task) | None => false end.

Lemma unfinishedb_iff s t : unfinishedb s t = true <-> unfinished s t.
Proof.
  unfold unfinishedb, unfinished. split.
  - destruct (tasks (world s) !! t) as [task |]; [| discriminate]. intros E. apply negb_true_iff in E. eauto.
  - intros (task & -> & ->). reflexivity.
Qed.

(** [a] is not an unfinished older sibling of [i]. *)
Definition not_older s (i : Info (RA := RA)) (a : nat) (ia : Info (RA := RA)) : bool :=
  negb (bool_decide (i_space ia = i_space i)) || negb (unfinishedb s a) || (i_seq i <=? i_seq ia)%nat.

Lemma not_older_false s i a ia : not_older s i a ia = false ->
  i_space ia = i_space i /\ unfinished s a /\ (i_seq ia < i_seq i)%nat.
Proof.
  unfold not_older. rewrite !orb_false_iff, !negb_false_iff, bool_decide_eq_true, unfinishedb_iff, Nat.leb_gt. tauto.
Qed.

Lemma not_older_iff s i a ia : not_older s i a ia = true ->
  i_space ia = i_space i -> unfinished s a -> (i_seq i <= i_seq ia)%nat.
Proof.
  unfold not_older. rewrite !orb_true_iff, !negb_true_iff, bool_decide_eq_false, Nat.leb_le, <- unfinishedb_iff.
  intros [[Hs | Hu] | Hle] Es Hu'; congruence.
Qed.

(** An unfinished task has an oldest unfinished sibling. *)
Lemma oldest_sibling s : invariant s -> forall n t i, (i_seq i < n)%nat -> info s !! t = Some i -> unfinished s t ->
  exists t' i', info s !! t' = Some i' /\ i_space i' = i_space i /\ unfinished s t' /\
    forall a ia, info s !! a = Some ia -> i_space ia = i_space i -> unfinished s a -> (i_seq i' <= i_seq ia)%nat.
Proof.
  intros Hinv. induction n as [| n IH]; intros t i Hn Hi Hu; [lia |].
  destruct (decide (map_Forall (fun a ia => not_older s i a ia = true) (info s))) as [Hall | Hex].
  - exists t, i. split; [exact Hi |]. split; [reflexivity |]. split; [exact Hu |].
    intros a ia Ha Hs Hua. apply (not_older_iff s i a ia); auto.
  - apply map_not_Forall in Hex as (a & ia & Ha & Hn'); [| intros; apply _].
    apply not_true_iff_false, not_older_false in Hn' as (Es & Hua & Hlt).
    destruct (IH a ia ltac:(lia) Ha Hua) as (t' & i' & Ht' & Es' & Hu' & Hmin).
    exists t', i'. rewrite Es in *. auto.
Qed.

(** No external event is awaited. *)
Definition quiescent w : Prop := forall x e, events w !! x = Some e -> is_reached e = true.

Lemma edges_no_event w f : quiescent w -> edges w f = map_sum (out_edges f) (tasks w).
Proof.
  intros Hq. unfold edges. rewrite (map_sum_zero (ext_edges f)); [lia |].
  intros x e Hx. unfold ext_edges. rewrite (Hq x e Hx). reflexivity.
Qed.

(** The oldest unfinished task of a space is ready, or waits for a child. *)
Lemma oldest_ready s t i task :
  invariant s -> family (info s) (world s) -> quiescent (world s) -> info s !! t = Some i -> tasks (world s) !! t = Some task ->
  i_status i = Initialized -> NoDup (resource_ptrs (i_user i)) ->
  (forall a ia, info s !! a = Some ia -> i_space ia = i_space i -> unfinished s a -> (i_seq i <= i_seq ia)%nat) ->
  task_is_ready task = true.
Proof.
  intros [HI HS HL HO] Hfam Hev Hi Ht Hst Hnd Hmin.
  assert (He : edges (world s) (get_pre_event t) = 0%nat).
  { rewrite edges_no_event by exact Hev. apply map_sum_zero. intros a x Hx. unfold out_edges. destruct (is_finished x) eqn:Ef; [reflexivity |].
    destruct (decide (get_pre_event t ∈ followers (post_event x))) as [Hin | Hn]; [exfalso | apply occ_notin, Hn].
    destruct (fm_edge _ _ Hfam a x _ Hx Ef Hin) as (ia & Ha & [(b & ib & E & Hb & Hsp & Hr) | (sp & p & E & _)]);
      [| discriminate E].
    injection E as <-. assert (ib = i) as -> by congruence.
    destruct Hr as [Hlt | [_ Hdup]]; [| contradiction].
    pose proof (Hmin a ia Ha Hsp ltac:(exists x; auto)). lia. }
  pose proof (inv_pre _ _ _ _ HI t task Ht) as Epre.
  assert (Eb : bpre_of (info s) t = 1%nat) by (unfold bpre_of; rewrite Hi, Hst; reflexivity).
  unfold task_is_ready, is_ready. rewrite Epre, He, Eb. reflexivity.
Qed.

(** A task that has returned but is not finished has an unfinished child. *)
Lemma returned_waits s t i task :
  invariant s -> family (info s) (world s) -> quiescent (world s) -> info s !! t = Some i -> tasks (world s) !! t = Some task ->
  i_status i = Returned -> is_finished task = false ->
  exists c ic, info s !! c = Some ic /\ unfinished s c /\ level s ic = S (i_seq i).
Proof.
  intros [HI HS HL HO] Hfam Hev Hi Ht Hst Hf.
  destruct (decide (map_Forall (fun a x => out_edges (get_post_event t) a x = 0%nat) (tasks (world s)))) as [Hall | Hex].
  - exfalso. pose proof (inv_post _ _ _ _ HI t task Ht) as Epost.
    assert (Eb : bpost_of (info s) t = 0%nat)
      by (unfold bpost_of; rewrite Hi, Hst, bool_decide_true by reflexivity; reflexivity).
    assert (He : edges (world s) (get_post_event t) = 0%nat)
      by (rewrite edges_no_event by exact Hev; apply map_sum_zero; intros a x Hx; apply (Hall a x Hx)).
    rewrite He, Eb in Epost. unfold is_finished, is_reached in Hf. rewrite Epost in Hf. discriminate Hf.
  - apply map_not_Forall in Hex as (a & x & Hx & Hne); [| intros; apply _]. unfold out_edges in Hne.
    destruct (is_finished x) eqn:Ef; [congruence |].
    destruct (decide (get_post_event t ∈ followers (post_event x))) as [Hin | Hn];
      [| exfalso; apply Hne, occ_notin, Hn].
    destruct (fm_edge _ _ Hfam a x _ Hx Ef Hin) as (ia & Ha & [(b & ib & E & _) | (sp & p & E & Hsp & Hp)]);
      [discriminate E |]. injection E as <-.
    exists a, ia. split; [exact Ha |]. split; [exists x; auto |]. eapply level_child; eassumption.
Qed.

(** In a state that waits for no event, some task is ready while one is unfinished. *)
Lemma some_task_ready s :
  invariant s -> family (info s) (world s) ->
  (forall t i, info s !! t = Some i -> i_status i = Initialized \/ i_status i = Returned) ->
  (forall t i, info s !! t = Some i -> NoDup (resource_ptrs (i_user i))) ->
  quiescent (world s) ->
  (exists t, unfinished s t) ->
  exists t i task, info s !! t = Some i /\ i_status i = Initialized /\
    tasks (world s) !! t = Some task /\ task_is_ready task = true.
Proof.
  intros Hinv Hfam Hst Hnd Hev [t0 Ht0]. pose proof Hinv as [HI HS HL HO].
  assert (Hinfo : forall t, unfinished s t -> exists i, info s !! t = Some i).
  { intros t (x & Hx & _). destruct (ln_task _ _ HL t x Hx) as (i & Hi & _). eauto. }
  assert (Hdown : forall k t i, info s !! t = Some i -> unfinished s t -> (next_seq s < level s i + k)%nat ->
    exists t i task, info s !! t = Some i /\ i_status i = Initialized /\
      tasks (world s) !! t = Some task /\ task_is_ready task = true).
  { induction k as [| k IH]; intros t i Hi Hu Hk; [pose proof (level_bound s i Hinv); lia |].
    destruct (oldest_sibling s Hinv (S (i_seq i)) t i ltac:(lia) Hi Hu) as (t' & i' & Hi' & Esp & Hu' & Hmin).
    destruct Hu' as (x & Hx & Hf). destruct (Hst t' i' Hi') as [Hs | Hs].
    - exists t', i', x. split; [exact Hi' |]. split; [exact Hs |]. split; [exact Hx |].
      rewrite <- Esp in Hmin. eapply oldest_ready; eauto.
    - destruct (returned_waits s t' i' x Hinv Hfam Hev Hi' Hx Hs Hf) as (c & ic & Hc & Huc & El).
      apply (IH c ic Hc Huc). rewrite El.
      assert (level s i <= i_seq i')%nat; [| lia].
      unfold level. rewrite <- Esp. destruct (ln_space _ _ HL t' i' Hi') as (sp & Hsp & Hpar). rewrite Hsp.
      destruct (parent sp) as [p |]; [| lia]. destruct (Hpar p eq_refl) as (ip & Hip & Hlt). rewrite Hip. lia. }
  destruct (Hinfo t0 Ht0) as [i0 Hi0]. apply (Hdown (S (next_seq s)) t0 i0 Hi0 Ht0). lia.
Qed.

(** C5 (stuck): if no task lists a resource twice, in a state in which the dependencies of
    all tasks are initialized and no function is running, either every task is finished, or
    some task is ready to run, or some external event has not been reached yet.  (Each
    handler is one step; a task that lists a resource twice waits for itself,
    [waits_for_itself].) *)
Theorem never_stuck s :
  reachable init step s ->
  (forall t i, info s !! t = Some i -> i_status i = Initialized \/ i_status i = Returned) ->
  (forall t i, info s !! t = Some i -> NoDup (resource_ptrs (i_user i))) ->
  (forall x e, events (world s) !! x = Some e -> is_reached e = true) ->
  (exists t, unfinished s t) ->
  exists t i task, info s !! t = Some i /\ i_status i = Initialized /\
    tasks (world s) !! t = Some task /\ task_is_ready task = true.
Proof.
  intros Hr. destruct (reachable_family s Hr) as [Hinv Hfam]. exact (some_task_ready s Hinv Hfam).
Qed.

(** ** No handler fails *)

Lemma start_runs s t i task :
  invariant s -> info s !! t = Some i -> i_status i = Initialized -> tasks (world s) !! t = Some task ->
  task_is_ready task = true -> exists w', start_task t (world s) = Ok w'.
Proof.
  intros [HI HS HL HO] Hi Hst Ht Er. unfold start_task, get_task. rewrite Ht. cbn [deref mbind res_bind].
  rewrite Er. cbn [cpp_assert mbind res_bind].
  pose proof (Inv_start _ _ _ _ HI Hi Hst ltac:(eauto)) as HI1.
  destruct (notify_spec _ _ (notify_fuel (world s)) _ (world s) [] false (Nat.lt_succ_diag_r _) HI1)
    as (b & w2 & E2 & _). rewrite E2. eexists. reflexivity.
Qed.

(** C8 (handlers): in a reachable state the handlers of a task run to their end
    without a failed assertion, a null pointer or a lost notification: its
    initialization while its edge counter has room, its start when it is ready,
    and its return. *)
Theorem handlers_succeed s t i :
  reachable init step s -> info s !! t = Some i ->
  (i_status i = Emplaced ->
     room t (1 + Z.of_nat (scan_length (unique_resources (i_user i)) (world s))) (world s) ->
     forall claimed, exists b w', init_task t claimed (world s) = Ok (b, w')) /\
  (i_status i = Initialized -> forall task, tasks (world s) !! t = Some task -> task_is_ready task = true ->
     exists w', start_task t (world s) = Ok w') /\
  (i_status i = Running ->
     exists b w', notify (notify_fuel (world s)) (get_post_event t) false (world s) = Ok (b, w')).
Proof.
  intros Hr Hi. pose proof (reachable_safe s Hr) as Hinv. split; [| split].
  - intros Hst Hroom claimed. destruct (init_graph_covers s t i Hinv Hi Hst Hroom) as (w1 & w2 & E1 & E2 & HI2 & _).
    unfold init_task. rewrite E1. cbn [mbind res_bind]. rewrite E2. cbn [mbind res_bind].
    destruct (notify_spec _ _ (notify_fuel w2) _ w2 [] claimed (Nat.lt_succ_diag_r _) HI2) as (b & w3 & E3 & _).
    eauto.
  - intros Hst task Ht Er. eapply start_runs; eassumption.
  - intros Hst. destruct Hinv as [HI HS HL HO].
    destruct (tasks (world s) !! t) as [task |] eqn:Ht.
    2: { rewrite (ln_gone _ _ HL t i Hi Ht) in Hst. discriminate. }
    assert (Hrun : is_running task = true) by (eapply ln_running; eauto; rewrite Hst; reflexivity).
    pose proof (Inv_return _ _ _ _ _ HI Hi Hst Ht Hrun) as HI1.
    destruct (notify_spec _ _ (notify_fuel (world s)) _ (world s) [] false (Nat.lt_succ_diag_r _) HI1)
      as (b' & w2 & E2 & _). eauto.
Qed.

(** (submit): a child of a running task can be submitted exactly when the
    accesses of the parent cover those of the child; otherwise the assertion fails. *)
Theorem submit_iff_superset s x t u worker sp p ip taskp :
  reachable init step s -> info s !! t = None -> tasks (world s) !! t = None ->
  spaces (world s) !! x = Some sp -> parent sp = Some p -> info s !! p = Some ip -> i_status ip = Running ->
  tasks (world s) !! p = Some taskp -> room p 1 (world s) ->
  let w := put_task t (with_user u (new_task worker (depth sp))) (world s) in
  (is_superset_of (user taskp) u = true -> exists w', submit x t w = Ok w') /\
  (is_superset_of (user taskp) u = false -> submit x t w = Err AssertFailed).
Proof.
  intros Hr Hn Hnt Hsp Hpar Hip Hrun Hp Hroom w. destruct (reachable_safe s Hr) as [HI HS HL HO].
  assert (Hpt : p <> t) by congruence.
  split; intros Esup.
  - destruct (submit_spec _ _ _ x sp t u worker HI Hnt Hsp) as (l' & w2 & E2 & _); [..| eauto].
    + unfold bpre_of. rewrite Hn. reflexivity.
    + unfold bpost_of. rewrite Hn. reflexivity.
    + intros p' Hp'. assert (p' = p) as -> by congruence. exists taskp. split; [exact Hp |].
      split; [| split; [apply (Hroom taskp Hp) | exact Esup]].
      destruct (is_finished taskp) eqn:Ef; [| reflexivity]. exfalso.
      apply (running_not_finished s p ip Hr Hip Hrun). intros y Hy. congruence.
  - unfold w, submit, get_task. simpl (tasks (put_task _ _ _) !! t). rewrite lookup_insert_eq.
    simpl (spaces (put_task _ _ _) !! x). rewrite Hsp. cbn [deref mbind res_bind]. rewrite Hpar.
    simpl (tasks _ !! p). rewrite !lookup_insert_ne by congruence. rewrite Hp. cbn [deref mbind res_bind].
    change (user (with_user u (new_task worker (depth sp)))) with u. rewrite Esup. reflexivity.
Qed.
End Props.

(** ** Concrete runs *)

Import Guards.
#[local] Instance run_ops : AccessOps Guards.RA := erased_ops Guards.policy (fun _ => Guards.IO_policy).
#[local] Instance run_laws : AccessLaws Guards.RA := erased_laws Guards.policy (fun _ => Guards.IO_policy).

Definition writes (p : nat) : ResourceUser Guards.RA := make_user [io_access Access.write p] 0.

Lemma built_writes p : built (writes p).
Proof.
  split; intros ra Hra; apply list_elem_of_singleton in Hra as ->.
  - split; [reflexivity | exact I].
  - exists (mkUsage (mkResource p (Z.of_nat p) 0) None). split; [left | reflexivity].
Qed.

(** Two writers of one resource; a child of the second one writes it too. *)
Definition two_writers : list Command :=
  [CSubmit 0 0 (writes 7) 0; CSubmit 0 1 (writes 7) 0; CInit 0 false; CInit 1 false; CStart 0].

Definition second_runs : list Command := two_writers ++ [CReturn 0; CStart 1].

Definition child_runs : list Command :=
  second_runs ++ [CSpace 1 1; CSubmit 1 2 (writes 7) 0; CInit 2 false].

Definition all_done : list Command := child_runs ++ [CStart 2; CReturn 2; CReturn 1].

Definition state_after (l : list Command) : State :=
  match exec_all l start_state with Some s => s | None => start_state end.

Lemma state_reachable l : Forall good l -> is_none (exec_all l start_state) = false -> reachable init step (state_after l).
Proof.
  intros Hg Hn. unfold state_after. destruct (exec_all l start_state) as [s |] eqn:E; [| discriminate].
  apply (run_reachable l s Hg E).
Qed.

Ltac good_run := repeat first [apply Forall_nil; exact I | apply Forall_cons; split; [first [exact I | apply built_writes] |]].
Ltac run_state := apply state_reachable; [good_run | vm_compute; reflexivity].

(** The record kept of task [t]. *)
Definition info_of (s : State) (t : nat) : Info := default (mkInfo 0 (writes 0) 0 Emplaced) (info s !! t).

Lemma conflicting_tasks_in_order_witness : finished_in 0 (world (state_after second_runs)).
Proof.
  apply (conflicting_tasks_in_order (state_after second_runs) 0 1 (info_of (state_after second_runs) 1)).
  - run_state.
  - exists (info_of (state_after second_runs) 0), (info_of (state_after second_runs) 1).
    split; [vm_compute; reflexivity |]. split; [vm_compute; reflexivity |].
    split; [vm_compute; lia |]. split; vm_compute; reflexivity.
  - vm_compute; reflexivity.
  - vm_compute; reflexivity.
Defined.

Lemma conflicting_tasks_exclusive_witness :
  ~ (i_status (info_of (state_after second_runs) 0) = Running /\
     i_status (info_of (state_after second_runs) 1) = Running).
Proof.
  apply (conflicting_tasks_exclusive (state_after second_runs) 0 1);
    [run_state | vm_compute; reflexivity | vm_compute; reflexivity | lia | vm_compute; reflexivity | vm_compute; reflexivity].
Defined.

Lemma parent_finishes_last_witness : finished_in 2 (world (state_after all_done)).
Proof.
  apply (parent_finishes_last (state_after all_done) 1 2 (info_of (state_after all_done) 1)
    (info_of (state_after all_done) 2) (default top_space (spaces (world (state_after all_done)) !! 1%nat)));
    [run_state | vm_compute; reflexivity | vm_compute; reflexivity | vm_compute; reflexivity | vm_compute; reflexivity |].
  intros task Ht. vm_compute in Ht. injection Ht as <-. reflexivity.
Defined.

(** Both writers are initialized, none runs. *)
Definition both_wait : list Command :=
  [CSubmit 0 0 (writes 7) 0; CSubmit 0 1 (writes 7) 0; CInit 0 false; CInit 1 false].

Lemma never_stuck_witness : exists t i task, info (state_after both_wait) !! t = Some i /\ i_status i = Initialized /\
  tasks (world (state_after both_wait)) !! t = Some task /\ task_is_ready task = true.
Proof.
  apply (never_stuck (state_after both_wait)).
  - run_state.
  - intros t i Hi. left. revert t i Hi. apply map_Forall_to_list. vm_compute.
    repeat constructor.
  - intros t i Hi. revert t i Hi. apply map_Forall_to_list. vm_compute.
    repeat constructor; inversion 1.
  - intros x e Hx. vm_compute in Hx. discriminate.
  - exists 0%nat. eexists. split; vm_compute; reflexivity.
Defined.

(** A task with two accesses to one resource is entered twice into its list of users, finds
    itself there as a predecessor, and waits for its own end: the only task of the
    program is initialized and will never be ready. *)
Definition writes_twice (p : nat) : ResourceUser Guards.RA := make_user [io_access Access.write p; io_access Access.write p] 0.

Definition alone : State := state_after [CSubmit 0 0 (writes_twice 7) 0; CInit 0 false].

Example waits_for_itself :
  reachable init step alone /\ i_status <$> info alone !! 0%nat = Some Initialized /\ size (info alone) = 1%nat /\
  task_is_ready <$> tasks (world alone) !! 0%nat = Some false /\
  (fun task => bool_decide (get_pre_event 0 ∈ followers (post_event task))) <$> tasks (world alone) !! 0%nat = Some true.
Proof.
  split; [| vm_compute; auto]. apply state_reachable; [| vm_compute; reflexivity].
  apply Forall_cons. split; [| good_run].
  split; intros ra Hra.
  - apply elem_of_cons in Hra as [-> | Hra]; [| apply list_elem_of_singleton in Hra as ->]; (split; [reflexivity | exact I]).
  - exists (mkUsage (mkResource 7 7 0) None). split; [left |].
    apply elem_of_cons in Hra as [-> | Hra]; [| apply list_elem_of_singleton in Hra as ->]; reflexivity.
Qed.

Lemma handlers_succeed_witness :
  exists w', start_task 0 (world (state_after both_wait)) = Ok w'.
Proof.
  destruct (handlers_succeed (state_after both_wait) 0 (info_of (state_after both_wait) 0)) as (_ & Hs & _);
    [run_state | vm_compute; reflexivity |].
  eapply Hs; [vm_compute; reflexivity | vm_compute; reflexivity | vm_compute; reflexivity].
Defined.

(** The second writer runs and has a space for its children. *)
Definition with_space_run : list Command := second_runs ++ [CSpace 1 1].

(** A child of the writer of resource 7 must not write resource 8. *)
Lemma submit_iff_superset_witness :
  let s := state_after with_space_run in
  submit 1 2 (put_task 2 (with_user (writes 8) (new_task 0 1)) (world s)) = Err AssertFailed.
Proof.
  intros s.
  apply (submit_iff_superset s 1 2 (writes 8) 0 (mkSpace 0 1 (Some 1%nat)) 1 (info_of s 1)
    (default (new_task 0 0) (tasks (world s) !! 1%nat)));
    [run_state | vm_compute; reflexivity | vm_compute; reflexivity | vm_compute; reflexivity | vm_compute; reflexivity
    | vm_compute; reflexivity | vm_compute; reflexivity | vm_compute; reflexivity | | vm_compute; reflexivity].
  intros task Ht. vm_compute in Ht. injection Ht as <-. vm_compute. split; reflexivity.
Defined.
End SystemProps.
