(* ===== verification/SystemEvents.v ===== *)
(** External events in the running system: a task that makes one is not finished
    before it is reached, a task that yields for one does not run before, and is
    ready again once it is. *)

From Stdlib Require Import ZArith Lia Bool.
From stdpp Require Import base gmap list strings relations.
From S2P Require Import Prelude Access Resource Guards ResourceUser Entries Graph GraphNotify.
From S2P Require Import GraphInv GraphInit GraphSubmit GraphEvents System SystemSafe SystemLive SystemRun SystemProps.

Open Scope Z_scope.
Open Scope word_scope.

Module SystemEvents.
Import Resource ResourceUser Graph GraphNotify GraphInv GraphInit GraphSubmit GraphEvents System SystemSafe SystemLive.
Import SystemRun SystemProps.

Section Events.
Context {RA : Type} `{AccessOps RA} `{!AccessLaws RA}.
Implicit Types (w : World RA) (task : Task RA) (s : State (RA := RA)).

Definition follows (f : EventPtr) (x : nat) w : Prop := exists e, events w !! x = Some e /\ f ∈ followers e.
Definition unreached (x : nat) w : Prop := exists e, events w !! x = Some e /\ is_reached e = false.
Definition reached (x : nat) w : Prop := exists e, events w !! x = Some e /\ is_reached e = true.

(** The notifications the event at [x] still owes to each of its followers. *)
Definition owes (x : nat) w : nat :=
  match events w !! x with Some e => if is_reached e then 0 else 1 | None => 0 end.

Lemma owes_same x w w' : events w' = events w -> owes x w' = owes x w.
Proof. intros E. unfold owes. rewrite E. reflexivity. Qed.

Lemma owes_grow x t w w' : Grow t w w' -> (owes x w <= owes x w')%nat.
Proof.
  intros G. unfold owes. destruct (events w !! x) as [e |] eqn:Ex; [| lia].
  destruct (gr_events _ _ _ G x e Ex) as (e' & -> & Es & _). unfold is_reached. rewrite Es. lia.
Qed.

(** ** Followers stay *)

Lemma follows_effect s s' f x : effect s s' -> follows f x (world s) -> follows f x (world s').
Proof.
  intros Heff (e & Hx & Hin). destruct Heff as [s w' m' bpost Hs Hf | s p q task sp Hp Hq Hsp
    | s t i u l' w' Hn Hseq Hsub | s t i w2 w' m' bpost Hi Hst Hs G A Hf | s t i w2 w' m' bpost Hi Hst Hs G A Hf
    | s y z w' bpost Hy Es Hf]; unfold follows; cbn [world].
  - exists e. rewrite (sf_events _ _ _ Hf). auto.
  - exists e. auto.
  - exists e. rewrite (sb_events _ _ _ _ _ _ Hsub). auto.
  - destruct (gr_events _ _ _ G x e Hx) as (e2 & Hx2 & _ & Hin2). exists e2. rewrite (sf_events _ _ _ Hf). auto.
  - destruct (gr_events _ _ _ G x e Hx) as (e2 & Hx2 & _ & Hin2). exists e2. rewrite (sf_events _ _ _ Hf). auto.
  - rewrite (sf_events _ _ _ Hf). simpl. destruct (decide (y = x)) as [-> | Hne].
    + exists (dn z). rewrite lookup_insert_eq. assert (z = e) as -> by congruence. auto.
    + exists e. rewrite lookup_insert_ne by exact Hne. auto.
Qed.

Lemma follows_steps s s' f x : reachable init step s -> rtc step s s' -> follows f x (world s) -> follows f x (world s').
Proof.
  intros Hr Hs. induction Hs as [s | s s1 s' Hstep Hs IH]; [auto |]. intros Hf.
  apply IH; [eapply reachable_step; eassumption |].
  eapply follows_effect; [apply step_effect; [apply reachable_safe, Hr | exact Hstep] | exact Hf].
Qed.

(** What an event that is not reached owes is counted at the follower. *)
Lemma follows_owed s f x : invariant s -> follows f x (world s) -> unreached x (world s) ->
  target (world s) f /\ (0 < edges (world s) f)%nat.
Proof.
  intros [HI HS HL HO] (e & Hx & Hin) (e' & Hx' & Hr). assert (e' = e) as -> by congruence.
  split; [| eapply edges_pos_event; eassumption].
  destruct (inv_events _ _ _ _ HI x e Hx) as [Hz | [_ Ht]]; [unfold is_reached in Hr; lia | apply Ht, Hin].
Qed.

(** ** A task and the events it makes *)

(** A task whose post-event follows an event is not finished before that is reached. *)
Lemma followed_unfinished s s' t x :
  reachable init step s -> rtc step s s' -> follows (get_post_event t) x (world s) -> unreached x (world s') -> unfinished s' t.
Proof.
  intros Hr Hs Hfol Hun. pose proof (follows_steps _ _ _ _ Hr Hs Hfol) as Hfol'.
  pose proof (reachable_safe s' (reachable_rtc _ _ Hr Hs)) as Hinv'.
  destruct (follows_owed s' _ x Hinv' Hfol' Hun) as [(y & [tasky Hy] & [Ey | Ey]) Hpos]; [discriminate Ey |].
  injection Ey as <-. exists tasky. split; [exact Hy |]. unfold is_finished, is_reached.
  rewrite (inv_post _ _ _ _ (iv_inv _ Hinv') t tasky Hy). apply Z.eqb_neq. lia.
Qed.

(** C9 (hold): a task that has made an event is not finished as long as the event
    is not reached, even when its function has returned, whatever else happens. *)
Theorem event_holds_task s s' t i x p w' :
  reachable init step s -> info s !! t = Some i -> i_status i = Running -> events (world s) !! x = None ->
  room t 1 (world s) -> make_event x t (world s) = Ok (p, w') -> rtc step (mkState w' (info s) (next_seq s)) s' ->
  unreached x (world s') -> unfinished s' t.
Proof.
  intros Hr Hi Hst Hx Hroom E Hs Hun. pose proof (reachable_safe s Hr) as Hinv.
  destruct (running_task s t i Hinv Hi Hst) as (task & Ht & _ & Hf & _).
  destruct (make_event_spec _ _ _ t task x (iv_inv _ Hinv) Ht Hf (proj2 (Hroom task Ht)) Hx) as (w1 & E1 & _ & _ & _ & Ee & _).
  assert (w1 = w') as -> by congruence.
  assert (Hr1 : reachable init step (mkState w' (info s) (next_seq s)))
    by (eapply reachable_step; [exact Hr | eapply step_create_event; eassumption]).
  assert (Hfol : follows (get_post_event t) x w').
  { exists (mkEvent [get_post_event t] 1 (-1)). rewrite Ee, lookup_insert_eq. split; [reflexivity | left]. }
  exact (followed_unfinished _ _ t x Hr1 Hs Hfol Hun).
Qed.

(** ** A task that waits *)

Definition initialized (t : nat) s : Prop := i_status <$> info s !! t = Some Initialized.

Lemma initialized_edges s t : invariant s -> initialized t s ->
  exists task, tasks (world s) !! t = Some task /\ state (pre_event task) = Z.of_nat (edges (world s) (get_pre_event t)) + 1.
Proof.
  intros [HI HS HL HO] Hst. unfold initialized in Hst. destruct (info s !! t) as [i |] eqn:Hi; [| discriminate].
  injection Hst as Hst. destruct (tasks (world s) !! t) as [task |] eqn:Ht.
  - exists task. split; [reflexivity |]. rewrite (inv_pre _ _ _ _ HI t task Ht). unfold bpre_of. rewrite Hi, Hst.
    change (occ ?f []) with 0%nat. cbn [started]. lia.
  - rewrite (ln_gone _ _ HL t i Hi Ht) in Hst. discriminate.
Qed.

Lemma edges_sframe bpost w w' f : SFrame bpost w w' -> (edges w' f <= edges w f)%nat.
Proof.
  intros Hf. unfold edges. rewrite (sf_events _ _ _ Hf). apply Nat.add_le_mono_r, map_sum_mono.
  intros t task' Ht. destruct (sf_tasks _ _ _ Hf t task' Ht) as (task & Ht0 & Hss). exists task. split; [exact Ht0 |].
  unfold out_edges. rewrite (ss_followers _ _ Hss). destruct (is_finished task) eqn:E.
  - rewrite (ss_post _ _ Hss E). lia.
  - destruct (is_finished task'); lia.
Qed.

(** Nothing but the event at [x] keeps task [t] from running. *)
Definition waits_for (t x : nat) s : Prop :=
  follows (get_pre_event t) x (world s) /\ (edges (world s) (get_pre_event t) <= owes x (world s))%nat.

Lemma waits_calm s s' t x :
  invariant s -> invariant s' -> initialized t s -> initialized t s' ->
  (forall task', tasks (world s') !! t = Some task' -> exists task, tasks (world s) !! t = Some task /\
     state (pre_event task') <= state (pre_event task)) ->
  (owes x (world s) <= owes x (world s'))%nat -> (edges (world s) (get_pre_event t) <= owes x (world s))%nat ->
  (edges (world s') (get_pre_event t) <= owes x (world s'))%nat.
Proof.
  intros Hinv Hinv' Hi Hi' Hlow Ho He. destruct (initialized_edges s' t Hinv' Hi') as (task' & Ht' & Es').
  destruct (initialized_edges s t Hinv Hi) as (task & Ht & Es). destruct (Hlow task' Ht') as (y & Hy & Hle).
  assert (y = task) as -> by congruence. lia.
Qed.

Lemma waits_effect s s' t x :
  invariant s -> invariant s' -> effect s s' -> initialized t s -> initialized t s' -> waits_for t x s -> waits_for t x s'.
Proof.
  intros Hinv Hinv' Heff Hi Hi' [Hfol He]. split; [eapply follows_effect; eassumption |].
  assert (Hsub : forall a i, info s !! a = Some i -> i_status i <> Initialized -> t <> a).
  { intros a i Ha Hne ->. unfold initialized in Hi. rewrite Ha in Hi. injection Hi as Hi. contradiction. }
  assert (Hgrow : forall a w2 w' bpost, t <> a -> Grow a (world s) w2 -> SFrame bpost w2 w' ->
    (forall task', tasks w' !! t = Some task' -> exists task, tasks (world s) !! t = Some task /\
       state (pre_event task') <= state (pre_event task)) /\ (owes x (world s) <= owes x w')%nat).
  { intros a w2 w' bpost Hne G Hf. split.
    - intros task' Ht. destruct (sf_tasks _ _ _ Hf t task' Ht) as (y & Hy & Hss).
      destruct (gr_back _ _ _ G t y Hy) as (z & Hz & Gz). exists z. split; [exact Hz |].
      rewrite <- (gt_pre _ _ _ Gz) by exact Hne. apply Hss.
    - rewrite (owes_same x w2 w') by apply Hf. eapply owes_grow, G. }
  destruct Heff as [s w' m' bpost Hs Hf | s p q task sp Hp Hq Hsp
    | s a i u l' w' Hn Hseq Hsb | s a i w2 w' m' bpost Ha Hst Hs G A Hf | s a i w2 w' m' bpost Ha Hst Hs G A Hf
    | s y e w' bpost Hy Es Hf].
  - apply (waits_calm s (mkState w' m' (next_seq s))); auto; cbn [world].
    + intros task' Ht. destruct (sf_tasks _ _ _ Hf t task' Ht) as (y & Hy & Hss). exists y. split; [exact Hy | apply Hss].
    + rewrite (owes_same x (world s) w') by apply Hf. lia.
  - eapply (waits_calm s); [exact Hinv | exact Hinv' | exact Hi | exact Hi' | | reflexivity | exact He].
    intros task' Ht. cbn [world put_task tasks] in Ht. apply lookup_insert_Some in Ht as [(<- & <-) | (_ & Ht)].
    + exists task. split; [exact Hp | reflexivity].
    + exists task'. split; [exact Ht | reflexivity].
  - eapply (waits_calm s); [exact Hinv | exact Hinv' | exact Hi | exact Hi' | | | exact He]; cbn [world].
    + intros task' Ht. destruct (sb_back _ _ _ _ _ _ Hsb t task') as (y & Hy & Hk); [| exact Ht |].
      { intros ->. unfold initialized in Hi. rewrite Hn in Hi. discriminate. }
      exists y. split; [exact Hy |]. rewrite (kp_pre _ _ Hk). reflexivity.
    + rewrite (owes_same x (world s) w') by apply Hsb. lia.
  - destruct (Hgrow a w2 w' bpost) as [Hlow Ho]; [eapply Hsub; [exact Ha | congruence] | exact G | exact Hf |].
    eapply (waits_calm s); eassumption.
  - destruct (Hgrow a w2 w' bpost) as [Hlow Ho]; [eapply Hsub; [exact Ha | congruence] | exact G | exact Hf |].
    eapply (waits_calm s); eassumption.
  - destruct (decide (y = x)) as [-> | Hne].
    + cbn [world]. pose proof (edges_sframe _ _ _ (get_pre_event t) Hf) as Hle.
      pose proof (edges_put_external (world s) x e (dn e) (get_pre_event t) Hy) as Hsum.
      destruct Hfol as (z & Hz & Hin). assert (z = e) as -> by congruence.
      assert (E1 : ext_edges (get_pre_event t) x (dn e) = 0%nat).
      { unfold ext_edges, is_reached. rewrite dn_state by (rewrite Es; lia). rewrite Es. reflexivity. }
      assert (E2 : (1 <= ext_edges (get_pre_event t) x e)%nat).
      { unfold ext_edges, is_reached. rewrite Es. apply (occ_pos _ _ Hin). }
      unfold owes in He at 1. rewrite Hy in He. unfold is_reached in He. rewrite Es in He. simpl in He. lia.
    + eapply (waits_calm s); [exact Hinv | exact Hinv' | exact Hi | exact Hi' | | | exact He]; cbn [world].
      * intros task' Ht. destruct (sf_tasks _ _ _ Hf t task' Ht) as (z & Hz & Hss). exists z. split; [exact Hz | apply Hss].
      * rewrite (owes_same x (put_external y (dn e) (world s)) w') by apply Hf. unfold owes. simpl.
        rewrite lookup_insert_ne by exact Hne. reflexivity.
Qed.

(** Once its dependencies are initialized a task never goes back to the queues of new tasks. *)
Lemma dispatched_step s s' t : step s s' ->
  (exists i, info s !! t = Some i /\ i_status i <> Emplaced) -> exists i, info s' !! t = Some i /\ i_status i <> Emplaced.
Proof.
  intros Hstep (j & Hj & Hne).
  destruct Hstep as [p q ip task sp s Hip Hrun Hp Hc Hq Hsub | x t0 u wk sp w' user' s Hn Hnt Hsp Hu Hp Hsub Huser
    | t0 i c b w' s Hi Hst Hroom Hini | t0 i w' s Hi Hst Hstart | t0 i task b w' s Hi Hst Ht Hs Hn
    | t0 i b w' s Hi Hst Hn | t0 task b w' s Ht Hs Hn | t0 i x p w' s Hi Hst Hx Hroom Hev
    | t0 i x e c wk b w' s Hi Hst Hx Hp | x e c b w' s Hx Hs Hn]; cbn [info]; try (exists j; auto; fail);
    (destruct (decide (t0 = t)) as [-> | Hnt0];
      [try congruence; rewrite lookup_insert_eq; eexists; (split; [reflexivity | discriminate])
      | rewrite lookup_insert_ne by exact Hnt0; eauto]).
Qed.

Lemma dispatched_steps s s' t : rtc step s s' ->
  (exists i, info s !! t = Some i /\ i_status i <> Emplaced) -> exists i, info s' !! t = Some i /\ i_status i <> Emplaced.
Proof. induction 1 as [s | s s1 s' Hstep Hs IH]; [auto |]. intros Hd. apply IH. eapply dispatched_step; eassumption. Qed.

(** A task an unreached event notifies has not started. *)
Lemma followed_initialized s t x :
  invariant s -> follows (get_pre_event t) x (world s) -> unreached x (world s) ->
  (exists i, info s !! t = Some i /\ i_status i <> Emplaced) -> initialized t s.
Proof.
  intros Hinv Hfol Hun (i & Hi & Hne). pose proof Hinv as [HI HS HL HO].
  destruct (follows_owed s _ x Hinv Hfol Hun) as [(y & [task Hy] & [Ey | Ey]) Hpos]; [| discriminate Ey].
  injection Ey as <-. unfold initialized. rewrite Hi. simpl. f_equal.
  destruct (started (i_status i)) eqn:Est; [| destruct (i_status i); [contradiction | reflexivity | discriminate | discriminate]].
  pose proof (ln_running _ _ HL t i task Hi Hy Est) as Hrun. pose proof (inv_pre _ _ _ _ HI t task Hy) as Epre.
  unfold is_running, is_reached in Hrun. lia.
Qed.

(** What is true of a task when it has just yielded. *)
Lemma paused_waits s t i x e c wk b w' :
  invariant s -> info s !! t = Some i -> i_status i = Running -> events (world s) !! x = Some e -> is_reached e = false ->
  pause_task t wk (external x c) (world s) = Ok (b, w') ->
  waits_for t x (mkState w' (<[t := set_status Initialized i]> (info s)) (next_seq s)).
Proof.
  intros Hinv Hi Hst Hx Hr E.
  destruct (pause_prepared s t i x e c wk Hinv Hi Hst Hx) as (w2 & task2 & E2 & HI2 & _ & Et & _ & Est & _ & Hfol & _).
  unfold pause_task in E. rewrite E2 in E. cbn [mbind res_bind] in E.
  destruct (notify_spec _ _ (notify_fuel w2) _ w2 [] false (Nat.lt_succ_diag_r _) HI2) as (b' & w3 & E3 & _ & HF3).
  assert (w3 = w') as -> by congruence. apply Frame_SFrame in HF3.
  destruct (Hfol Hr) as (e' & Hx' & Es' & Hin).
  split; cbn [world].
  - exists e'. rewrite (sf_events _ _ _ HF3). auto.
  - rewrite (owes_same x w2 w') by apply HF3. unfold owes. rewrite Hx'. unfold is_reached. rewrite Es'.
    pose proof (edges_sframe _ _ _ (get_pre_event t) HF3) as Hle. rewrite Hr in Est.
    assert (Ht2 : tasks w2 !! t = Some task2) by (rewrite Et; apply lookup_insert_eq).
    pose proof (inv_pre _ _ _ _ HI2 t task2 Ht2) as Epre. rewrite occ_cons, bool_decide_true in Epre by reflexivity.
    change (occ ?f []) with 0%nat in Epre.
    assert (Eb : bpre_of (<[t := set_status Initialized i]> (info s)) t = 1%nat)
      by (unfold bpre_of; rewrite lookup_insert_eq; reflexivity).
    rewrite Eb in Epre. simpl. lia.
Qed.

(** [t] has not been started again. *)
Definition still (t : nat) s s' : Prop := step s s' /\ initialized t s'.

Lemma waits_still s s' t x :
  reachable init step s -> initialized t s -> rtc (still t) s s' -> waits_for t x s ->
  reachable init step s' /\ initialized t s' /\ waits_for t x s'.
Proof.
  intros Hr Hi Hs. revert Hr Hi. induction Hs as [s | s s1 s' [Hstep Hi1] Hs IH]; intros Hr Hi Hw; [auto |].
  assert (Hr1 : reachable init step s1) by (eapply reachable_step; eassumption).
  apply IH; [exact Hr1 | exact Hi1 |]. pose proof (reachable_safe s Hr) as Hinv.
  eapply waits_effect; [exact Hinv | apply reachable_safe, Hr1 | apply step_effect; assumption | exact Hi | exact Hi1 | exact Hw].
Qed.

(** C10 (pause): a task that has yielded for an event, which was not notified in the middle
    of the pause, is not started while the event is not reached, whatever else happens; and
    until it is started again it is ready to run exactly when the event is reached: nothing
    else holds it back.  (The pause is one step here; [FollowerRace.pause_wakes] shows what
    a notification in the middle of it does.) *)
Theorem paused_until_reached s s' t i x e c wk b w' :
  reachable init step s -> info s !! t = Some i -> i_status i = Running -> events (world s) !! x = Some e ->
  is_reached e = false -> pause_task t wk (external x c) (world s) = Ok (b, w') ->
  let s1 := mkState w' (<[t := set_status Initialized i]> (info s)) (next_seq s) in
  (rtc step s1 s' -> unreached x (world s') -> initialized t s') /\
  (rtc (still t) s1 s' -> exists task, tasks (world s') !! t = Some task /\
     (task_is_ready task = true <-> reached x (world s'))).
Proof.
  intros Hr Hi Hst Hx Hun E s1. pose proof (reachable_safe s Hr) as Hinv.
  assert (Hr1 : reachable init step s1) by (eapply reachable_step; [exact Hr | eapply step_pause; eassumption]).
  pose proof (paused_waits s t i x e c wk b w' Hinv Hi Hst Hx Hun E) as Hw. fold s1 in Hw.
  assert (Hi1 : info s1 !! t = Some (set_status Initialized i)) by apply lookup_insert_eq.
  split; intros Hs.
  - intros Hun'. apply (followed_initialized s' t x).
    + apply reachable_safe, (reachable_rtc _ _ Hr1 Hs).
    + eapply follows_steps; [exact Hr1 | exact Hs | apply Hw].
    + exact Hun'.
    + eapply dispatched_steps; [exact Hs |]. exists (set_status Initialized i). split; [exact Hi1 | discriminate].
  - destruct (waits_still s1 s' t x Hr1) as (Hr' & Hi' & (e' & Hx' & Hin') & He'); [| exact Hs | exact Hw |].
    { unfold initialized. rewrite Hi1. reflexivity. }
    pose proof (reachable_safe s' Hr') as Hinv'. destruct (initialized_edges s' t Hinv' Hi') as (task & Ht & Es).
    exists task. split; [exact Ht |]. unfold task_is_ready, is_ready. rewrite Es. unfold reached, owes in *. rewrite Hx' in He'.
    destruct (is_reached e') eqn:Er; split.
    + intros _. eauto.
    + intros _. apply Z.eqb_eq. lia.
    + intros E1. apply Z.eqb_eq in E1. exfalso.
      destruct (follows_owed s' (get_pre_event t) x Hinv') as [_ Hpos]; [exists e'; auto | exists e'; auto | lia].
    + intros (z & Hz & Hzr). congruence.
Qed.

(** C13 (serve): in a reachable state a running task can make an event or yield for
    one, and an event that is not reached can be reached: no assertion fails. *)
Theorem event_handlers_succeed s t i :
  reachable init step s -> info s !! t = Some i -> i_status i = Running ->
  (forall x, events (world s) !! x = None -> room t 1 (world s) -> is_ok (make_event x t (world s)) = true) /\
  (forall x e c wk, events (world s) !! x = Some e -> is_ok (pause_task t wk (external x c) (world s)) = true) /\
  (forall x e c, events (world s) !! x = Some e -> is_reached e = false ->
     is_ok (notify (notify_fuel (world s)) (external x c) false (world s)) = true).
Proof.
  intros Hr Hi Hst. pose proof (reachable_safe s Hr) as Hinv.
  destruct (running_task s t i Hinv Hi Hst) as (task & Ht & _ & Hf & _). split; [| split].
  - intros x Hx Hroom.
    destruct (make_event_spec _ _ _ t task x (iv_inv _ Hinv) Ht Hf (proj2 (Hroom task Ht)) Hx) as (w1 & -> & _). reflexivity.
  - intros x e c wk Hx. destruct (pause_prepared s t i x e c wk Hinv Hi Hst Hx) as (w2 & task2 & E2 & HI2 & _).
    unfold pause_task. rewrite E2. cbn [mbind res_bind].
    destruct (notify_spec _ _ (notify_fuel w2) _ w2 [] false (Nat.lt_succ_diag_r _) HI2) as (b' & w3 & -> & _). reflexivity.
  - intros x e c Hx Hr0. destruct (inv_events _ _ _ _ (iv_inv _ Hinv) x e Hx) as [Hz | [Hs _]];
      [unfold is_reached in Hr0; lia |].
    destruct (notify_external_spec _ _ (total (world s)) _ x e c false (iv_inv _ Hinv) Hx Hs (Nat.lt_succ_diag_r _)) as (b & w' & E & _).
    unfold notify_fuel. rewrite E. reflexivity.
Qed.
End Events.

(** ** A concrete run *)

#[local] Existing Instances run_ops run_laws.

Definition one_runs : list Command := [CSubmit 0 0 (writes 7) 0; CInit 0 true; CStart 0].
Definition event_made : list Command := one_runs ++ [CCreateEvent 0 5].

Definition world_after (l : list Command) : World Guards.RA := world (state_after l).

Lemma run_rtc l l' : Forall good l' -> exec_all l' (state_after l) = Some (state_after (l ++ l')) ->
  rtc step (state_after l) (state_after (l ++ l')).
Proof. apply exec_all_rtc. Qed.

(** The function of the task returns, the event is not reached. *)
Lemma event_holds_task_witness : unfinished (state_after (event_made ++ [CReturn 0])) 0.
Proof.
  apply (event_holds_task (state_after one_runs) (state_after (event_made ++ [CReturn 0])) 0
    (info_of (state_after one_runs) 0) 5 (external 5 0) (world_after event_made));
    [run_state | vm_compute; reflexivity .. | | | |].
  - intros task E. vm_compute in E. injection E as <-. vm_compute. split; reflexivity.
  - vm_compute. reflexivity.
  - apply (run_rtc event_made [CReturn 0]); [good_run | vm_compute; reflexivity].
  - eexists. split; vm_compute; reflexivity.
Defined.

Definition paused : list Command := event_made ++ [CPause 0 5 3].
Definition resumed : list Command := event_made ++ [CPause 0 5 3; CNotifyEvent 5 0].

Lemma after_pause :
  mkState (world_after paused) (<[0%nat := set_status Initialized (info_of (state_after event_made) 0)]>
    (info (state_after event_made))) (next_seq (state_after event_made)) = state_after paused.
Proof. vm_compute. reflexivity. Qed.

Lemma resumes : still 0 (state_after paused) (state_after resumed).
Proof.
  split; [| vm_compute; reflexivity]. apply (exec_step (CNotifyEvent 5 0)); [exact I | vm_compute; reflexivity].
Qed.

Lemma paused_until_reached_witness :
  initialized 0 (state_after paused) /\
  exists task, tasks (world_after resumed) !! 0%nat = Some task /\ task_is_ready task = true.
Proof.
  assert (Hp : forall s', _) by exact (fun s' => paused_until_reached (state_after event_made) s' 0
    (info_of (state_after event_made) 0) 5 (mkEvent [get_post_event 0] 1 (-1)) 0 3 false (world_after paused)
    ltac:(run_state) ltac:(vm_compute; reflexivity) ltac:(vm_compute; reflexivity) ltac:(vm_compute; reflexivity)
    ltac:(vm_compute; reflexivity) ltac:(vm_compute; reflexivity)).
  cbv zeta in Hp. rewrite after_pause in Hp. split.
  - apply (proj1 (Hp _)); [apply rtc_refl |]. eexists. split; vm_compute; reflexivity.
  - destruct (proj2 (Hp (state_after resumed)) (rtc_once _ _ resumes)) as (task & Ht & Hiff).
    exists task. split; [exact Ht |]. apply Hiff. eexists. split; vm_compute; reflexivity.
Defined.

Lemma event_handlers_succeed_witness :
  is_ok (pause_task 0 3 (external 5 0) (world_after event_made)) = true.
Proof.
  destruct (event_handlers_succeed (state_after event_made) 0 (info_of (state_after event_made) 0)) as (_ & Hp & _);
    [run_state | vm_compute; reflexivity .. |].
  apply (Hp 5%nat (mkEvent [get_post_event 0] 1 (-1)) 0%nat 3). vm_compute. reflexivity.
Defined.
End SystemEvents.
