(* ===== verification/SystemDemote.v ===== *)
(** A running task gives up accesses ([RedGrapes::update_properties]): what the
    graph of a reachable state looks like afterwards, and two ways in which it is
    not what it should be. *)

From Stdlib Require Import ZArith Lia Bool.
From stdpp Require Import base gmap list strings relations.
From S2P Require Import Prelude Access Resource Guards ResourceUser Entries Graph GraphNotify.
From S2P Require Import GraphInv GraphInit GraphSubmit GraphDemote System SystemSafe SystemLive SystemRun SystemProps.

Open Scope Z_scope.
Open Scope word_scope.

Module SystemDemote.
Import Resource ResourceUser Graph GraphNotify GraphInv GraphInit GraphSubmit GraphDemote System SystemSafe SystemLive.
Import SystemRun SystemProps.

Section Demote.
Context {RA : Type} `{AccessOps RA} `{!AccessLaws RA}.
Implicit Types (w : World RA) (task : Task RA) (s : State (RA := RA)).

(** The counters do not depend on the accesses of a task. *)
Lemma Inv_with_user bpre bpost w pend t task u :
  Inv bpre bpost w pend -> tasks w !! t = Some task -> Inv bpre bpost (put_task t (with_user u task) w) pend.
Proof. intros HI Ht. apply (Inv_put_same _ _ w _ t task); auto. Qed.

(** (demote_task): in a reachable state a running task, none of whose followers
    is entered twice, gives up accesses as follows: if what is left is not
    contained in what [apply_patch] compares it with the call throws; else it
    returns, the counters of the graph stay exact, and exactly the followers that
    conflict with what is left are kept. *)
Theorem update_properties_correct s t i task patch :
  reachable init step s -> info s !! t = Some i -> i_status i = Running -> tasks (world s) !! t = Some task ->
  NoDup (followers (post_event task)) ->
  let '(u, failed) := apply_patch patch (user task) in
  match failed with
  | Some e => update_properties (notify_fuel (world s)) (Some t) patch (world s) = Err e
  | None => exists w' task', update_properties (notify_fuel (world s)) (Some t) patch (world s) = Ok w' /\
      Inv (bpre_of (info s)) (bpost_of (info s)) w' [] /\ tasks w' !! t = Some task' /\ user task' = u /\
      followers (post_event task') =
        List.filter (fun f => negb (released (put_task t (with_user u task) (world s)) u f)) (followers (post_event task))
  end.
Proof.
  intros Hr Hi Hst Ht Hnd. destruct (apply_patch patch (user task)) as [u failed] eqn:Ep.
  assert (E : forall r, update_properties (notify_fuel (world s)) (Some t) patch (world s) = r <->
    match failed with Some e => Err e | None => update_graph (notify_fuel (world s)) t (put_task t (with_user u task) (world s)) end = r).
  { intros r. unfold update_properties, get_task. rewrite Ht. cbn [deref mbind res_bind]. rewrite Ep. reflexivity. }
  destruct failed as [e |]; [apply E; reflexivity |].
  pose proof (reachable_safe s Hr) as Hinv. destruct (running_task s t i Hinv Hi Hst) as (x & _ & _ & _ & _ & Hb).
  destruct (update_graph_correct _ _ (notify_fuel (world s)) (put_task t (with_user u task) (world s)) t (with_user u task)
    (Inv_with_user _ _ _ _ t task u (iv_inv _ Hinv) Ht)) as (w' & task' & E' & HI' & Ht' & Hu & El).
  - apply lookup_insert_eq.
  - lia.
  - pose proof (total_put_task t task (with_user u task) (world s) Ht) as Et.
    change (task_weight t (with_user u task)) with (task_weight t task) in Et. unfold notify_fuel. lia.
  - exact Hnd.
  - exists w', task'. split; [apply E, E' |]. split; [exact HI' |]. split; [exact Ht' |]. split; [exact Hu |]. exact El.
Qed.
End Demote.

(** ** Concrete runs *)

#[local] Existing Instances run_ops run_laws.

Definition reads (p : nat) : ResourceUser Guards.RA := make_user [io_access Access.read p] 0.
Definition writes_two (p q : nat) : ResourceUser Guards.RA := make_user [io_access Access.write p; io_access Access.write q] 0.

Lemma built_reads p : built (reads p).
Proof.
  split; intros ra Hra; apply list_elem_of_singleton in Hra as ->.
  - split; [reflexivity | exact I].
  - exists (mkUsage (mkResource p (Z.of_nat p) 0) None). split; [left | reflexivity].
Qed.

Definition no_task : Task Guards.RA := with_user (new_user 0) (new_task 0 0).
Definition task_of (s : State) (t : nat) : Task Guards.RA := default no_task (tasks (world s) !! t).

(** The first of two writers runs and gives up its access; the second is released. *)
Lemma update_properties_correct_witness :
  exists w' task', update_properties (notify_fuel (world (state_after two_writers))) (Some 0%nat)
      (remove_resources [io_access Access.write 7] []) (world (state_after two_writers)) = Ok w' /\
    tasks w' !! 0%nat = Some task' /\ followers (post_event task') = [].
Proof.
  pose proof (update_properties_correct (state_after two_writers) 0 (info_of (state_after two_writers) 0)
    (task_of (state_after two_writers) 0) (remove_resources [io_access Access.write 7] [])
    ltac:(run_state) ltac:(vm_compute; reflexivity) ltac:(vm_compute; reflexivity) ltac:(vm_compute; reflexivity)
    ltac:(apply (bool_decide_unpack _); vm_compute; exact I)) as Hu.
  destruct (apply_patch _ _) as [u failed] eqn:E. vm_compute in E. injection E as <- <-.
  destruct Hu as (w' & task' & Hw & _ & Ht & _ & Hf). exists w', task'. split; [exact Hw |]. split; [exact Ht |].
  rewrite Hf. vm_compute. reflexivity.
Defined.

(** The world after a patch, [None] if the call fails. *)
Definition patched (t : nat) (l : list Guards.RA) (s : State) : option (World Guards.RA) :=
  ok (update_properties (notify_fuel (world s)) (Some t) (remove_resources l []) (world s)).

(** A reader runs, and so does its child, which reads the same resource. *)
Definition reading_child : list Command :=
  [CSubmit 0 0 (reads 7) 0; CInit 0 true; CStart 0; CSpace 0 1; CSubmit 1 1 (reads 7) 0; CInit 1 true; CStart 1].

(** The child gives up its access, and with it the edge to its parent: the parent
    finishes while the child runs. *)
Example parent_edge_lost :
  is_none (exec_all reading_child start_state) = false /\
  exists w w', patched 1 [io_access Access.read 7] (state_after reading_child) = Some w /\
    notify (notify_fuel w) (get_post_event 0) false w = Ok (false, w') /\
    (is_finished <$> tasks w' !! 0%nat) = Some true /\ (is_finished <$> tasks w' !! 1%nat) = Some false.
Proof.
  split; [vm_compute; reflexivity |]. eexists _, _. split; [vm_compute; reflexivity |].
  split; [vm_compute; reflexivity |]. split; vm_compute; reflexivity.
Qed.

(** Two tasks that write the same two resources: the second is entered twice. *)
Definition two_edges : list Command :=
  [CSubmit 0 0 (writes_two 7 8) 0; CSubmit 0 1 (writes_two 7 8) 0; CInit 0 true; CInit 1 true; CStart 0].

(** When the first gives up both accesses, both edges are removed but the second
    task is notified once: it waits for ever, nothing will notify it again. *)
Example double_edge_lost :
  is_none (exec_all two_edges start_state) = false /\
  exists w, patched 0 [io_access Access.write 7; io_access Access.write 8] (state_after two_edges) = Some w /\
    (followers ∘ post_event <$> tasks w !! 0%nat) = Some [] /\
    edges w (get_pre_event 1) = 0%nat /\ (state ∘ pre_event <$> tasks w !! 1%nat) = Some 2.
Proof.
  split; [vm_compute; reflexivity |]. eexists. split; [vm_compute; reflexivity |].
  split; [vm_compute; reflexivity |]. split; vm_compute; reflexivity.
Qed.
End SystemDemote.
