(* ===== verification/GraphActivate.v ===== *)
(** Which tasks a notification hands to the scheduler: exactly those whose
    pre-event it brings down to one, each once. *)

From Stdlib Require Import ZArith Lia Bool.
From stdpp Require Import base gmap list strings.
From S2P Require Import Prelude Resource ResourceUser Entries Graph GraphNotify.

Open Scope Z_scope.
Open Scope word_scope.

Module GraphActivate.
Import Resource ResourceUser Graph GraphNotify.

Section Activate.
Context {RA : Type} `{AccessOps RA}.
Implicit Types (w : World RA) (task : Task RA).

Definition pre_of task : Z := state (pre_event task).
Definition post_of task : Z := state (post_event task).

(** The edge counters are words. *)
Definition small w : Prop := forall t task, tasks w !! t = Some task -> pre_of task < 2 ^ 16 /\ post_of task < 2 ^ 16.

(** No counter grows; [l] are the tasks whose pre-event comes down to one. *)
Record lowered w w' (l : list nat) : Prop := {
  lo_nodup : NoDup l;
  lo_mono : forall t task', tasks w' !! t = Some task' -> exists task, tasks w !! t = Some task /\
    pre_of task' <= pre_of task /\ post_of task' <= post_of task;
  lo_sound : forall t, t ∈ l -> (exists task, tasks w !! t = Some task /\ 1 < pre_of task) /\
    forall task', tasks w' !! t = Some task' -> pre_of task' <= 1;
  lo_complete : forall t task task', tasks w !! t = Some task -> tasks w' !! t = Some task' ->
    1 < pre_of task -> pre_of task' <= 1 -> t ∈ l
}.

(** [lowered], and exactly the tasks of [l] are activated. *)
Definition acts w w' (l : list nat) : Prop :=
  activations (calls w') = activations (calls w) ++ l /\ lowered w w' l.

Lemma lowered_same w w' :
  (forall t task', tasks w' !! t = Some task' -> exists task, tasks w !! t = Some task /\
     pre_event task' = pre_event task /\ post_event task' = post_event task) ->
  lowered w w' [].
Proof.
  intros Hs. constructor.
  - constructor.
  - intros t task' Ht. destruct (Hs t task' Ht) as (task & E & E1 & E2). exists task.
    unfold pre_of, post_of. rewrite E1, E2. split; [exact E | lia].
  - intros t Hin. inversion Hin.
  - intros t task task' E Ht. destruct (Hs t task' Ht) as (x & E' & E1 & _).
    assert (x = task) as -> by congruence. unfold pre_of. rewrite E1. lia.
Qed.

Lemma lowered_trans w w1 w2 l1 l2 : lowered w w1 l1 -> lowered w1 w2 l2 -> lowered w w2 (l1 ++ l2).
Proof.
  intros [N1 M1 S1 C1] [N2 M2 S2 C2]. constructor.
  - apply NoDup_app. split; [exact N1 |]. split; [| exact N2]. intros t H1 H2.
    destruct (S2 t H2) as [(task & Ht & Hgt) _]. destruct (S1 t H1) as [_ Hle]. specialize (Hle task Ht). lia.
  - intros t task' Ht. destruct (M2 t task' Ht) as (x & Hx & ?). destruct (M1 t x Hx) as (y & Hy & ?).
    exists y. split; [exact Hy | lia].
  - intros t Hin. apply elem_of_app in Hin as [Hin | Hin].
    + destruct (S1 t Hin) as [Hex Hle]. split; [exact Hex |]. intros task' Ht.
      destruct (M2 t task' Ht) as (x & Hx & ?). specialize (Hle x Hx). lia.
    + destruct (S2 t Hin) as [(x & Hx & Hgt) Hle]. split; [| exact Hle].
      destruct (M1 t x Hx) as (y & Hy & ?). exists y. split; [exact Hy | lia].
  - intros t task task' Ht Ht' Hgt Hle. apply elem_of_app.
    destruct (M2 t task' Ht') as (x & Hx & ?). destruct (Z.le_gt_cases (pre_of x) 1).
    + left. eapply C1; eassumption.
    + right. eapply C2; eassumption.
Qed.

Lemma acts_trans w w1 w2 l1 l2 : acts w w1 l1 -> acts w1 w2 l2 -> acts w w2 (l1 ++ l2).
Proof.
  intros [E1 L1] [E2 L2]. split; [rewrite E2, E1, app_assoc; reflexivity | eapply lowered_trans; eassumption].
Qed.

Lemma small_lowered w w' l : small w -> lowered w w' l -> small w'.
Proof. intros Hs L t task' Ht. destruct (lo_mono _ _ _ L t task' Ht) as (x & Hx & ?). specialize (Hs t x Hx). lia. Qed.

Lemma activations_app a b : activations (a ++ b) = activations a ++ activations b.
Proof. apply omap_app. Qed.

Lemma acts_call w c : activated_by c = None -> acts w (call c w) [].
Proof.
  intros Hc. split.
  - unfold call. simpl. rewrite activations_app. f_equal. unfold activations. simpl. rewrite Hc. reflexivity.
  - apply lowered_same. intros t task' Ht. exists task'. auto.
Qed.

Lemma acts_refl w : acts w w [].
Proof. split; [rewrite app_nil_r; reflexivity |]. apply lowered_same. intros t task' Ht. exists task'. auto. Qed.

(** ** The parts of a notification *)

Lemma acts_tasks w w' :
  calls w' = calls w -> (forall t task', tasks w' !! t = Some task' -> exists task, tasks w !! t = Some task /\
     pre_event task' = pre_event task /\ post_event task' = post_event task) ->
  acts w w' [].
Proof. intros Ec Ht. split; [rewrite Ec, app_nil_r; reflexivity | apply lowered_same, Ht]. Qed.

Lemma dn_pos e : 0 < state e < 2 ^ 16 -> state (dn e) = state e - 1.
Proof. intros He. unfold dn. cbn [state]. apply wrap_small. lia. Qed.

(** Taking an event down by one. *)
Lemma put_dn_lowered p e w w1 :
  small w -> get_event p w = Ok e -> put_event p (dn e) w = Ok w1 -> 0 < state e ->
  calls w1 = calls w /\
  lowered w w1 (if bool_decide (tag p = T_EVT_PRE) && (state e =? 2) then option_list (ep_task p) else []).
Proof.
  intros Hsm Hg Hp Hpos. unfold get_event, put_event, get_task in Hg, Hp.
  destruct (tag p) eqn:Etag; [discriminate Hg | | | | |];
    [destruct (ep_task p) as [t |]; [| discriminate Hg]; cbn [deref mbind res_bind] in Hg, Hp;
     destruct (tasks w !! t) as [task |] eqn:Ht; [| discriminate Hg]; cbn [deref mbind res_bind task_event] in Hg, Hp;
     injection Hg as <-; injection Hp as <- .. |].
  - destruct (Hsm t task Ht) as [Hpre _]. unfold pre_of in Hpre. split; [reflexivity |].
    set (task1 := with_event T_EVT_PRE (dn (pre_event task)) task).
    assert (Epre : pre_of task1 = pre_of task - 1) by (apply dn_pos; lia).
    assert (Epost : post_of task1 = post_of task) by reflexivity.
    assert (Hback : forall u x, tasks (put_task t task1 w) !! u = Some x ->
      u = t /\ x = task1 \/ u <> t /\ tasks w !! u = Some x).
    { intros u x Hx. simpl in Hx. apply lookup_insert_Some in Hx as [(<- & <-) | (Hne & Hx)]; auto. }
    unfold pre_of in Epre. rewrite bool_decide_true by reflexivity. constructor.
    + destruct (_ && _); [apply NoDup_singleton | constructor].
    + intros u x Hx. apply Hback in Hx as [(-> & ->) | (Hne & Hx)].
      * exists task. split; [exact Ht |]. unfold pre_of. lia.
      * exists x. split; [exact Hx | lia].
    + intros u Hu. destruct (Z.eqb_spec (state (pre_event task)) 2) as [E2 |]; [| inversion Hu].
      apply list_elem_of_singleton in Hu as ->. split; [exists task; split; [exact Ht | unfold pre_of; lia] |].
      intros x Hx. apply Hback in Hx as [(_ & ->) | (Hne & _)]; [unfold pre_of; lia | contradiction].
    + intros u x y Hx Hy Hgt Hle. apply Hback in Hy as [(-> & ->) | (Hne & Hy)].
      * assert (x = task) as -> by congruence. unfold pre_of in *.
        replace (state (pre_event task) =? 2) with true by lia. left.
      * assert (x = y) as -> by congruence. lia.
  - split; [reflexivity |]. rewrite bool_decide_false by discriminate.
    destruct (Hsm t task Ht) as [_ Hpost]. unfold post_of in Hpost.
    assert (Hback : forall u x, tasks (put_task t (with_event T_EVT_POST (dn (post_event task)) task) w) !! u = Some x ->
      exists y, tasks w !! u = Some y /\ pre_of x = pre_of y /\ post_of x <= post_of y).
    { intros u x Hx. simpl in Hx. apply lookup_insert_Some in Hx as [(<- & <-) | (Hne & Hx)].
      - exists task. split; [exact Ht |]. split; [reflexivity |]. unfold post_of. cbn [post_event with_event].
        rewrite bool_decide_true, dn_pos by (reflexivity || lia). lia.
      - exists x. split; [exact Hx | lia]. }
    constructor.
    + constructor.
    + intros u x Hx. destruct (Hback u x Hx) as (y & Hy & E1 & E2). exists y. split; [exact Hy | lia].
    + intros u Hu. inversion Hu.
    + intros u x y Hx Hy Hgt Hle. destruct (Hback u y Hy) as (z & Hz & E1 & _). assert (z = x) as -> by congruence. lia.
  - split; [reflexivity |]. rewrite bool_decide_false by discriminate. apply lowered_same. intros u x Hx. simpl in Hx.
    apply lookup_insert_Some in Hx as [(<- & <-) | (Hne & Hx)]; eauto.
  - split; [reflexivity |]. rewrite bool_decide_false by discriminate. apply lowered_same. intros u x Hx. simpl in Hx.
    apply lookup_insert_Some in Hx as [(<- & <-) | (Hne & Hx)]; eauto.
  - destruct (external_event p) as [x |]; [| discriminate Hg]. cbn [deref mbind res_bind] in Hp. injection Hp as <-.
    split; [reflexivity |]. rewrite bool_decide_false by discriminate. apply lowered_same. eauto.
Qed.

Lemma acts_remove_users l : forall w, acts w (remove_users l w) [].
Proof.
  induction l as [| r l IH]; intros w; [apply acts_refl |]. simpl.
  apply (acts_trans _ (match user_entry r with
    | Some k => put_users (r_ptr (ue_resource r)) (Entries.remove k (get_users (r_ptr (ue_resource r)) w)) w
    | None => w end) _ [] []); [| apply IH].
  destruct (user_entry r); [apply acts_tasks; [reflexivity | eauto] | apply acts_refl].
Qed.

Lemma acts_reached_before p t wk w w' : reached_before p t wk w = Ok w' -> acts w w' [].
Proof.
  unfold reached_before. intros E. apply bind_Ok in E as (w1 & E1 & E). injection E as <-.
  apply (acts_trans _ w1 _ [] []).
  - destruct (bool_decide (tag p = T_EVT_POST)); [| injection E1 as <-; apply acts_refl].
    unfold delete_from_resources in E1. apply bind_Ok in E1 as (task & _ & E1). injection E1 as <-. apply acts_remove_users.
  - destruct (_ && _); [apply acts_call; reflexivity | apply acts_refl].
Qed.

Lemma acts_free_task s t w w' : free_task s t w = Ok w' -> acts w w' [].
Proof.
  unfold free_task. intros E. apply bind_Ok in E as (sp & _ & E). injection E as <-.
  set (w1 := mkWorld (delete t (tasks w)) (events w)
    (<[s := mkSpace (u32 (task_count sp - 1)) (depth sp) (parent sp)]> (spaces w)) (users w) (calls w)).
  apply (acts_trans _ w1 _ [] []).
  - apply acts_tasks; [reflexivity |]. intros u x Hx. simpl in Hx. apply lookup_delete_Some in Hx as [_ Hx]. eauto.
  - apply (acts_trans _ (call (Free t) w1) _ [] []); [apply acts_call; reflexivity |].
    destruct (_ && _); [apply acts_call; reflexivity | apply acts_refl].
Qed.

Lemma acts_reached_after p t w w' : reached_after p t w = Ok w' -> acts w w' [].
Proof.
  unfold reached_after. intros E. destruct (_ || _); [| injection E as <-; apply acts_refl].
  apply bind_Ok in E as (task & Ht & E). unfold get_task in Ht. apply deref_Ok in Ht.
  set (w1 := put_task t (with_countdown (u8 (removal_countdown task - 1)) task) w) in *.
  assert (A1 : acts w w1 []).
  { apply acts_tasks; [reflexivity |]. intros u x Hx. simpl in Hx.
    apply lookup_insert_Some in Hx as [(<- & <-) | (_ & Hx)]; eauto. }
  destruct (removal_countdown task =? 1); [| injection E as <-; exact A1].
  apply bind_Ok in E as (s & _ & E). apply (acts_trans _ w1 _ [] []); [exact A1 | eapply acts_free_task, E].
Qed.

(** ** Notifications *)

(** The task a claiming call of [notify] keeps for itself. *)
Definition retained (p : EventPtr) (claimed b : bool) : list nat :=
  if bool_decide (tag p = T_EVT_PRE) && claimed && b then option_list (ep_task p) else [].

(** The tasks of [l] are those activated by the call and the one it keeps. *)
Definition notified p claimed w b w' (l : list nat) : Prop :=
  activations (calls w') ++ retained p claimed b = activations (calls w) ++ l /\ lowered w w' l /\ small w'.

Lemma notify_all_acts fuel l :
  (forall p w b w', small w -> notify fuel p false w = Ok (b, w') -> exists l, notified p false w b w' l) ->
  forall w w', small w -> notify_all fuel l w = Ok w' -> exists l', acts w w' l' /\ small w'.
Proof.
  intros IH. induction l as [| f l IHl]; intros w w' Hs E; simpl in E.
  - injection E as <-. exists []. split; [apply acts_refl | exact Hs].
  - apply bind_Ok in E as ([b w1] & E1 & E). destruct (IH f w b w1 Hs E1) as (l1 & Ea & L1 & Hs1).
    unfold retained in Ea. rewrite andb_false_r, app_nil_r in Ea.
    destruct (IHl w1 w' Hs1 E) as (l2 & A2 & Hs2). exists (l1 ++ l2). split; [| exact Hs2].
    eapply acts_trans; [split; [exact Ea | exact L1] | exact A2].
Qed.

Lemma notify_acts fuel : forall p claimed w b w',
  small w -> notify fuel p claimed w = Ok (b, w') -> exists l, notified p claimed w b w' l.
Proof.
  induction fuel as [| fuel IH]; intros p claimed w b w' Hs E; [discriminate |]. rewrite notify_S in E.
  apply bind_Ok in E as (e & Eg & E). apply bind_Ok in E as (w1 & Ep & E). apply bind_Ok in E as (u & Ea & E).
  apply cpp_assert_Ok, Z.ltb_lt in Ea. destruct (put_dn_lowered p e w w1 Hs Eg Ep Ea) as [Ec L1].
  pose proof (small_lowered _ _ _ Hs L1) as Hs1.
  destruct (Z.ltb_spec 1 (state e - 1)) as [Hbig | Hle].
  { injection E as <- <-. exists []. replace (state e =? 2) with false in L1 by lia. rewrite andb_false_r in L1.
    unfold notified, retained. rewrite andb_false_r, Ec. auto. }
  apply bind_Ok in E as (t & Et & E). apply deref_Ok in Et. cbv zeta in E.
  set (w2 := if 0 <=? waker_id e then call (Wake t (waker_id e)) w1 else w1) in E.
  assert (A2 : acts w1 w2 []) by (unfold w2; destruct (0 <=? waker_id e); [apply acts_call; reflexivity | apply acts_refl]).
  replace (state e =? 2) with (state e - 1 =? 1) in L1 by (destruct (Z.eqb_spec (state e) 2); lia).
  set (turned := bool_decide (tag p = T_EVT_PRE) && (state e - 1 =? 1)) in *.
  set (w3 := if turned && negb claimed then call (Activate t) w2 else w2) in E.
  assert (E2 : activations (calls w2) = activations (calls w)).
  { destruct A2 as [E2 _]. rewrite E2, Ec, app_nil_r. reflexivity. }
  assert (L3 : lowered w w3 (if turned then [t] else [])).
  { assert (Hw : lowered w2 w3 []).
    { apply lowered_same. unfold w3. destruct (turned && negb claimed); simpl; eauto. }
    rewrite Et in L1. simpl in L1. pose proof (lowered_trans _ _ _ _ _ L1 (lowered_trans _ _ _ _ _ (proj2 A2) Hw)) as L3.
    rewrite !app_nil_r in L3. exact L3. }
  pose proof (small_lowered _ _ _ Hs L3) as Hs3.
  destruct (Z.eqb_spec (state e - 1) 0) as [E0 | N0].
  - (* reached: the pre-event was not turned *)
    assert (Eturn : turned = false) by (unfold turned; rewrite E0; apply andb_false_r).
    rewrite Eturn in L3. assert (E3 : w3 = w2) by (unfold w3; rewrite Eturn; reflexivity). rewrite E3 in E, L3, Hs3.
    apply bind_Ok in E as (w4 & E4 & E). apply bind_Ok in E as (w5 & E5 & E). apply bind_Ok in E as (w6 & E6 & E).
    injection E as <- <-. pose proof (acts_reached_before _ _ _ _ _ E4) as A4.
    destruct (notify_all_acts fuel (followers e) (fun p0 w0 b0 w0' => IH p0 false w0 b0 w0') w4 w5
      (small_lowered _ _ _ Hs3 (proj2 A4)) E5) as (l & A5 & Hs5).
    pose proof (acts_reached_after _ _ _ _ E6) as A6. exists l.
    assert (A : acts w w6 l).
    { rewrite <- (app_nil_l l), <- (app_nil_r l). apply (acts_trans _ w2).
      - split; [rewrite E2, app_nil_r; reflexivity | exact L3].
      - apply (acts_trans _ w4 _ [] (l ++ [])); [exact A4 | exact (acts_trans _ _ _ _ _ A5 A6)]. }
    split; [| split; [exact (proj2 A) | exact (small_lowered _ _ _ Hs (proj2 A))]].
    unfold retained. rewrite E0, andb_false_r, app_nil_r. apply A.
  - injection E as <- <-. exists (if turned then [t] else []). split; [| split; [exact L3 | exact Hs3]].
    unfold retained. rewrite Et. unfold w3, turned in *. fold turned.
    destruct (bool_decide (tag p = T_EVT_PRE)), (state e - 1 =? 1), claimed; simpl;
      rewrite ?activations_app, E2, ?app_nil_r; reflexivity.
Qed.
End Activate.
End GraphActivate.
