(* ===== verification/SystemActivate.v ===== *)
(** A task is handed to a worker exactly once, when its last dependency is gone,
    and once more for every time its function has yielded: either the worker that
    initializes it keeps it, or the graph activates it. *)

From Stdlib Require Import ZArith Lia Bool.
From stdpp Require Import base gmap list strings relations.
From S2P Require Import Prelude Access Resource Guards ResourceUser Entries Graph GraphNotify.
From S2P Require Import GraphInv GraphInit GraphSubmit GraphEvents System SystemSafe SystemLive SystemRun.
From S2P Require Import SystemProps GraphActivate.

Open Scope Z_scope.
Open Scope word_scope.

Module SystemActivate.
Import Resource ResourceUser Graph GraphNotify GraphInv GraphInit GraphSubmit GraphEvents System SystemSafe SystemLive SystemRun
  GraphActivate.

Section Handed.
Context {RA : Type} `{AccessOps RA} `{!AccessLaws RA}.
Implicit Types (w : World RA) (task : Task RA) (m : gmap nat (Info (RA := RA))) (s : State (RA := RA)).

(** ** Entering the graph makes no calls *)

Lemma calls_put_event p e w w' : put_event p e w = Ok w' -> calls w' = calls w.
Proof. unfold put_event. intros E. destruct (tag p); try discriminate E; res_inv; reflexivity. Qed.

Lemma calls_modify p f w w' : modify_event p f w = Ok w' -> calls w' = calls w.
Proof. unfold modify_event. intros E. apply bind_Ok in E as (e & _ & E). eapply calls_put_event, E. Qed.

Lemma calls_add_follower p f w w' : add_follower p f w = Ok w' -> calls w' = calls w.
Proof.
  unfold add_follower. intros E. apply bind_Ok in E as (e & _ & E). destruct (is_reached e); [congruence |].
  apply bind_Ok in E as (w1 & E1 & E). apply calls_modify in E1, E. congruence.
Qed.

(** Events of tasks are no external events. *)
Lemma events_modify p f w w' : tag p <> T_EVT_EXT -> modify_event p f w = Ok w' -> events w' = events w.
Proof.
  unfold modify_event, put_event. intros Hp E. apply bind_Ok in E as (e & _ & E).
  destruct (tag p); try discriminate E; try contradiction; res_inv; reflexivity.
Qed.

Lemma events_add_follower p f w w' :
  tag p <> T_EVT_EXT -> tag f <> T_EVT_EXT -> add_follower p f w = Ok w' -> events w' = events w.
Proof.
  unfold add_follower. intros Hp Hf E. apply bind_Ok in E as (e & _ & E). destruct (is_reached e); [congruence |].
  apply bind_Ok in E as (w1 & E1 & E). apply events_modify in E1, E; congruence.
Qed.

(** Only tasks change. *)
Definition entered w w' : Prop := calls w' = calls w /\ events w' = events w.

Lemma entered_trans w1 w2 w3 : entered w1 w2 -> entered w2 w3 -> entered w1 w3.
Proof. intros [C1 E1] [C2 E2]. split; congruence. Qed.

Lemma entered_check t par r l : forall w w', check_predecessors t par r l w = Ok w' -> entered w w'.
Proof.
  induction l as [| a l IH]; intros w w' E; cbn [check_predecessors] in E; [injection E as <-; split; reflexivity |].
  destruct (bool_decide (Some a = par)); [injection E as <-; split; reflexivity |].
  apply bind_Ok in E as (ta & _ & E). apply bind_Ok in E as (tb & _ & E).
  destruct (_ && _); [| eapply IH, E].
  apply bind_Ok in E as (w1 & E1 & E). apply bind_Ok in E as (ta' & _ & E).
  assert (Ec : entered w w1).
  { unfold add_dependency in E1. apply bind_Ok in E1 as (x & _ & E1). apply bind_Ok in E1 as (y & _ & E1).
    cbv zeta in E1. apply bind_Ok in E1 as (e & _ & E1).
    destruct (negb (is_reached e)); [| injection E1 as <-; split; reflexivity].
    split; [eapply calls_add_follower, E1 | eapply events_add_follower; [| | exact E1]; discriminate]. }
  destruct (has_sync_access r (user ta')); [congruence | apply (entered_trans _ w1); [exact Ec | apply IH, E]].
Qed.

Lemma entered_init_resources t par l : forall w w', init_resources t par l w = Ok w' -> entered w w'.
Proof.
  induction l as [| r l IH]; intros w w' E; cbn [init_resources] in E; [injection E as <-; split; reflexivity |].
  destruct (user_entry r); [| eapply IH, E].
  apply bind_Ok in E as (w1 & E1 & E). eapply entered_trans; [eapply entered_check, E1 | apply IH, E].
Qed.

Lemma entered_init_graph t w w' : init_graph t w = Ok w' -> entered w w'.
Proof.
  unfold init_graph. intros E. apply bind_Ok in E as (task & _ & E). apply bind_Ok in E as (sx & _ & E).
  apply bind_Ok in E as (sp & _ & E). eapply entered_init_resources, E.
Qed.

Lemma calls_init_graph t w w' : init_graph t w = Ok w' -> calls w' = calls w.
Proof. intros E. apply (entered_init_graph t w w' E). Qed.

Lemma calls_make_event x t p w w' : make_event x t w = Ok (p, w') -> calls w' = calls w.
Proof.
  unfold make_event. intros E. cbv zeta in E. apply bind_Ok in E as (w1 & E1 & E). injection E as _ <-.
  apply calls_add_follower in E1. exact E1.
Qed.

Lemma calls_prepare_pause t wk p w w' : prepare_pause t wk p w = Ok w' -> calls w' = calls w.
Proof.
  unfold prepare_pause, sg_pause. intros E. apply bind_Ok in E as (w1 & E1 & E). apply bind_Ok in E as (w3 & E2 & E).
  apply bind_Ok in E2 as (w2 & E2 & E3). apply calls_modify in E1, E2, E. apply calls_add_follower in E3. congruence.
Qed.

Lemma calls_push_users t l : forall w, calls (snd (push_users t l w)) = calls w.
Proof.
  induction l as [| r l IH]; intros w; [reflexivity |]. cbn [push_users].
  destruct (Entries.push t (get_users (r_ptr (ue_resource r)) w)) as [k us].
  specialize (IH (put_users (r_ptr (ue_resource r)) us w)).
  destruct (push_users t l (put_users (r_ptr (ue_resource r)) us w)) as [l' w']. exact IH.
Qed.

Lemma calls_submit x t w w' : submit x t w = Ok w' -> calls w' = calls w.
Proof.
  unfold submit. intros E. apply bind_Ok in E as (task & _ & E). apply bind_Ok in E as (sp & _ & E).
  cbv zeta in E. apply bind_Ok in E as (w1 & E1 & E). apply bind_Ok in E as (task1 & _ & E).
  assert (Ec : calls w1 = calls w).
  { destruct (parent sp) as [p |]; [| injection E1 as <-; reflexivity].
    apply bind_Ok in E1 as (pt & _ & E1). apply bind_Ok in E1 as (u & _ & E1).
    apply calls_add_follower in E1. exact E1. }
  pose proof (calls_push_users t (unique_resources (user task1)) w1) as Ep.
  destruct (push_users t (unique_resources (user task1)) w1) as [en w2]. injection E as <-. simpl in *. congruence.
Qed.

(** ** Who has been handed out *)

(** The steps of [System] with the tasks that initializing workers kept, and the
    tasks given back by yielding, once for each time. *)
Definition HState : Type := State (RA := RA) * list nat * list nat.

Inductive hstep : HState -> HState -> Prop :=
  | h_init t i claimed b w' s c d :
      info s !! t = Some i -> i_status i = Emplaced ->
      room t (1 + Z.of_nat (scan_length (unique_resources (i_user i)) (world s))) (world s) ->
      init_task t claimed (world s) = Ok (b, w') ->
      hstep (s, c, d) (mkState w' (<[t := set_status Initialized i]> (info s)) (next_seq s),
                       if claimed && b then t :: c else c, d)
  | h_pause t i x e a waker b w' s c d :
      info s !! t = Some i -> i_status i = Running -> events (world s) !! x = Some e ->
      pause_task t waker (external x a) (world s) = Ok (b, w') ->
      hstep (s, c, d) (mkState w' (<[t := set_status Initialized i]> (info s)) (next_seq s), c, t :: d)
  | h_other s s' c d :
      step s s' ->
      (forall t i, info s !! t = Some i -> i_status i = Emplaced \/ i_status i = Running ->
         exists i', info s' !! t = Some i' /\ i_status i' <> Initialized) ->
      hstep (s, c, d) (s', c, d).

Definition hinit (x : HState) : Prop := init (fst (fst x)) /\ snd (fst x) = [] /\ snd x = [].

Definition handed (s : State (RA := RA)) (c : list nat) : list nat := activations (calls (world s)) ++ c.

(** Initialized, with no dependency left, or started since. *)
Definition got m w (t : nat) : Prop :=
  exists i, m !! t = Some i /\ (started (i_status i) = true \/
    i_status i = Initialized /\ exists task, tasks w !! t = Some task /\ pre_of task = 1).

(** The tasks in [h] are with the workers now. *)
Record handed_inv (s : State (RA := RA)) (c d : list nat) : Prop := {
  hi_inv : invariant s;
  hi_hand : exists h, handed s c ≡ₚ h ++ d /\ NoDup h /\ forall t, t ∈ h <-> got (info s) (world s) t;
  hi_fresh : forall t i task, info s !! t = Some i -> i_status i = Emplaced -> tasks (world s) !! t = Some task ->
    pre_of task = 1
}.

Lemma invariant_small s : invariant s -> small (world s).
Proof. intros [HI _ _ _] t task Ht. apply (inv_small _ _ _ _ HI t task Ht). Qed.

(** A started task has no use for a notification any more. *)
Definition settled_pre m w : Prop :=
  forall t i task, m !! t = Some i -> i_status i <> Initialized -> tasks w !! t = Some task -> pre_of task <= 1.

(** Delivering notifications: the tasks brought down to one are the new ones. *)
Lemma got_lowered m w w' l h :
  NoDup h -> (forall t, t ∈ h <-> got m w t) -> lowered w w' l -> settled_pre m w ->
  (forall t task, tasks w !! t = Some task -> is_Some (m !! t)) ->
  (forall t i, m !! t = Some i -> i_status i = Initialized -> exists task', tasks w' !! t = Some task' /\ 1 <= pre_of task') ->
  NoDup (h ++ l) /\ forall t, t ∈ h ++ l <-> got m w' t.
Proof.
  intros Hnd Hh L Hset Hdom Hlive.
  assert (Hl : forall t, t ∈ l -> exists i, m !! t = Some i /\ i_status i = Initialized /\
     exists task, tasks w !! t = Some task /\ 1 < pre_of task).
  { intros t Hin. destruct (lo_sound _ _ _ L t Hin) as [(task & Ht & Hgt) _].
    destruct (Hdom t task Ht) as [i Hi]. exists i. split; [exact Hi |]. split; [| eauto].
    destruct (decide (i_status i = Initialized)) as [E | N]; [exact E |].
    specialize (Hset t i task Hi N Ht). lia. }
  split.
  - apply NoDup_app. split; [exact Hnd |]. split; [| apply L]. intros t H1 H2.
    apply Hh in H1 as (i & Hi & Hg). destruct (Hl t H2) as (i' & Hi' & Est & task & Ht & Hgt).
    assert (i' = i) as -> by congruence. destruct Hg as [Hg | (_ & x & Hx & E)].
    + rewrite Est in Hg. discriminate.
    + assert (x = task) as -> by congruence. lia.
  - intros t. rewrite elem_of_app. split.
    + intros [Hin | Hin].
      * apply Hh in Hin as (i & Hi & Hg). exists i. split; [exact Hi |]. destruct Hg as [Hg | (Est & x & Hx & E)]; [left; exact Hg |].
        right. split; [exact Est |]. destruct (Hlive t i Hi Est) as (y & Hy & Hge). exists y. split; [exact Hy |].
        destruct (lo_mono _ _ _ L t y Hy) as (z & Hz & Hle & _). assert (z = x) as -> by congruence. lia.
      * destruct (Hl t Hin) as (i & Hi & Est & _). exists i. split; [exact Hi |]. right. split; [exact Est |].
        destruct (Hlive t i Hi Est) as (y & Hy & Hge). exists y. split; [exact Hy |].
        destruct (lo_sound _ _ _ L t Hin) as [_ Hle]. specialize (Hle y Hy). lia.
    + intros (i & Hi & Hg). destruct Hg as [Hg | (Est & y & Hy & E)].
      * left. apply Hh. exists i. auto.
      * destruct (lo_mono _ _ _ L t y Hy) as (x & Hx & Hle & _). destruct (Z.le_gt_cases (pre_of x) 1).
        -- left. apply Hh. exists i. split; [exact Hi |]. right. split; [exact Est |]. exists x. split; [exact Hx | lia].
        -- right. eapply (lo_complete _ _ _ L); [exact Hx | exact Hy | lia | lia].
Qed.

(** ** Every step *)

Lemma pre_positive s t i task :
  invariant s -> info s !! t = Some i -> started (i_status i) = false -> tasks (world s) !! t = Some task -> 1 <= pre_of task.
Proof.
  intros [HI _ _ _] Hi Hst Ht. unfold pre_of. rewrite (inv_pre _ _ _ _ HI t task Ht).
  unfold bpre_of. rewrite Hi, Hst. lia.
Qed.

Lemma initialized_live s t i :
  invariant s -> info s !! t = Some i -> i_status i = Initialized ->
  exists task, tasks (world s) !! t = Some task /\ 1 <= pre_of task.
Proof.
  intros Hinv Hi Est. destruct (tasks (world s) !! t) as [task |] eqn:Ht.
  - exists task. split; [reflexivity |]. eapply pre_positive; try eassumption. rewrite Est. reflexivity.
  - rewrite (ln_gone _ _ (iv_linked _ Hinv) t i Hi Ht) in Est. discriminate.
Qed.

Lemma handed_settled s c d : handed_inv s c d -> settled_pre (info s) (world s).
Proof.
  intros [Hinv _ Hf] t i task Hi Hne Ht. destruct (i_status i) eqn:Est; [| contradiction | |].
  - rewrite (Hf t i task Hi Est Ht). lia.
  - pose proof (ln_running _ _ (iv_linked _ Hinv) t i task Hi Ht) as Hr. rewrite Est in Hr. specialize (Hr eq_refl).
    unfold is_running, is_reached in Hr. unfold pre_of. lia.
  - pose proof (ln_running _ _ (iv_linked _ Hinv) t i task Hi Ht) as Hr. rewrite Est in Hr. specialize (Hr eq_refl).
    unfold is_running, is_reached in Hr. unfold pre_of. lia.
Qed.

(** A handler that ends with a notification, from a store [w0] in which the
    tasks in hand are known. *)
Lemma handed_notify s c d h s' c' w0 p claimed b l :
  invariant s' -> handed s c ≡ₚ h ++ d -> NoDup h -> (forall t, t ∈ h <-> got (info s') w0 t) ->
  calls w0 = calls (world s) -> notified p claimed w0 b (world s') l -> settled_pre (info s') w0 ->
  (forall t task, tasks w0 !! t = Some task -> is_Some (info s' !! t)) ->
  c' ≡ₚ retained p claimed b ++ c -> handed_inv s' c' d.
Proof.
  intros Hinv Eh Hnd Hh Ec (Ea & L & _) Hset Hdom Hc.
  destruct (got_lowered (info s') w0 (world s') l h Hnd Hh L Hset Hdom) as [Hnd' Hh'].
  { intros t i Hi Est. eapply initialized_live; eassumption. }
  assert (Ep : handed s' c' ≡ₚ handed s c ++ l).
  { unfold handed. rewrite Hc, app_assoc, Ea, Ec, <- !app_assoc. f_equiv. apply Permutation_app_comm. }
  constructor; [exact Hinv | exists (h ++ l); split; [| split; [exact Hnd' | exact Hh']] |].
  { rewrite Ep, Eh, <- !app_assoc. f_equiv. apply Permutation_app_comm. }
  intros t i task Hi Est Ht. destruct (lo_mono _ _ _ L t task Ht) as (x & Hx & Hle & _).
  pose proof (Hset t i x Hi ltac:(congruence) Hx).
  pose proof (pre_positive s' t i task Hinv Hi ltac:(rewrite Est; reflexivity) Ht). lia.
Qed.

Lemma notified_deliver s p b w' :
  invariant s -> notify (notify_fuel (world s)) p false (world s) = Ok (b, w') ->
  exists l, notified p false (world s) b w' l /\ retained p false b = [].
Proof.
  intros Hinv E. destruct (notify_acts _ p false (world s) b w' (invariant_small _ Hinv) E) as [l Hn].
  exists l. split; [exact Hn |]. unfold retained. rewrite andb_false_r. reflexivity.
Qed.

(** The store and the statuses of the tasks in hand are as they were. *)
Lemma handed_same s c d s' :
  handed_inv s c d -> invariant s' -> calls (world s') = calls (world s) ->
  (forall t i', info s' !! t = Some i' -> i_status i' <> Emplaced -> info s !! t = Some i') ->
  (forall t i, info s !! t = Some i -> info s' !! t = Some i) ->
  (forall t task', tasks (world s') !! t = Some task' -> is_Some (info s !! t) ->
     exists task, tasks (world s) !! t = Some task /\ pre_of task' = pre_of task) ->
  (forall t task, tasks (world s) !! t = Some task ->
     exists task', tasks (world s') !! t = Some task' /\ pre_of task' = pre_of task) ->
  (forall t task', tasks (world s') !! t = Some task' -> info s !! t = None -> pre_of task' = 1) ->
  handed_inv s' c d.
Proof.
  intros [Hinv (h & Ep & Hnd & Hh) Hf] Hinv' Ec Hback Hforth Htb Htf Hnew.
  assert (Eh : handed s' c = handed s c) by (unfold handed; rewrite Ec; reflexivity).
  constructor; [exact Hinv' | exists h; rewrite Eh; split; [exact Ep | split; [exact Hnd |]] |].
  - intros t. rewrite Hh. split.
    + intros (i & Hi & Hg). exists i. split; [apply Hforth, Hi |]. destruct Hg as [Hg | (Est & x & Hx & E)]; [left; exact Hg |].
      right. split; [exact Est |]. destruct (Htf t x Hx) as (y & Hy & Ey). exists y. split; [exact Hy | congruence].
    + intros (i & Hi & Hg). assert (Hi0 : info s !! t = Some i).
      { apply Hback; [exact Hi |]. intros Est. destruct Hg as [Hg | [Hg _]]; rewrite Est in Hg; discriminate. }
      exists i. split; [exact Hi0 |]. destruct Hg as [Hg | (Est & y & Hy & E)]; [left; exact Hg |].
      right. split; [exact Est |]. destruct (Htb t y Hy ltac:(eauto)) as (x & Hx & Ex). exists x. split; [exact Hx | congruence].
  - intros t i' task' Hi' Est Ht. destruct (info s !! t) as [i |] eqn:Hi; [| eauto].
    assert (i' = i) as -> by (specialize (Hforth t i Hi); congruence).
    destruct (Htb t task' Ht ltac:(eauto)) as (x & Hx & ->). eauto.
Qed.

Lemma handed_space s c d p q ip task sp :
  handed_inv s c d -> info s !! p = Some ip -> i_status ip = Running ->
  tasks (world s) !! p = Some task -> children task = None -> spaces (world s) !! q = None ->
  sub_space p (world s) = Ok sp ->
  handed_inv (mkState (put_task p (with_children (Some q) task) (put_space q sp (world s))) (info s) (next_seq s)) c d.
Proof.
  intros Hh Hip Hrun Hp Hc Hq Hsub. apply (handed_same s c d); cbn [info world]; auto.
  - eapply invariant_space; try eassumption. apply Hh.
  - intros t x Hx _. simpl in Hx. apply lookup_insert_Some in Hx as [(<- & <-) | (Hne & Hx)]; eauto.
  - intros t x Hx. simpl. destruct (decide (p = t)) as [<- | Hne].
    + rewrite lookup_insert_eq. eexists. split; [reflexivity |]. assert (x = task) as -> by congruence. reflexivity.
    + rewrite lookup_insert_ne by exact Hne. eauto.
  - intros t x Hx Hn. simpl in Hx. apply lookup_insert_Some in Hx as [(<- & <-) | (Hne & Hx)]; [congruence |].
    destruct (ln_task _ _ (iv_linked _ (hi_inv _ _ _ Hh)) t x Hx) as (i & Hi & _). congruence.
Qed.

Lemma handed_submit s c d x t u worker sp w' user' :
  handed_inv s c d -> info s !! t = None -> tasks (world s) !! t = None -> spaces (world s) !! x = Some sp -> built u ->
  (forall p, parent sp = Some p -> (exists ip, info s !! p = Some ip /\ i_status ip = Running) /\ room p 1 (world s)) ->
  submit x t (put_task t (with_user u (new_task worker (depth sp))) (world s)) = Ok w' ->
  user <$> tasks w' !! t = Some user' ->
  handed_inv (mkState w' (<[t := mkInfo (next_seq s) user' x Emplaced]> (info s)) (S (next_seq s))) c d.
Proof.
  intros Hh Hn Hnt Hsp Hu Hp Hsub Huser. pose proof Hh as [Hinv _ _].
  pose proof (invariant_submit s x t u worker sp w' user' Hinv Hn Hnt Hsp Hu Hp Hsub Huser) as Hinv'.
  pose proof (iv_inv _ Hinv) as HI. pose proof (iv_linked _ Hinv) as HL.
  destruct (submit_spec _ _ _ x sp t u worker HI Hnt Hsp) as (l' & w2 & E2 & _ & Hd).
  { unfold bpre_of. rewrite Hn. reflexivity. }
  { unfold bpost_of. rewrite Hn. reflexivity. }
  { intros p Hpar. destruct (Hp p Hpar) as [(ip & Hip & Hrun) Hroom]. eapply submit_parent; eassumption. }
  assert (w2 = w') as -> by congruence. apply (handed_same s c d); cbn [info world]; auto.
  - apply calls_submit in Hsub. exact Hsub.
  - intros a i Ha Hne. apply lookup_insert_Some in Ha as [(<- & <-) | (_ & Ha)]; [exfalso; apply Hne; reflexivity | exact Ha].
  - intros a i Ha. rewrite lookup_insert_ne; [exact Ha | congruence].
  - intros a y Hy [i Hi]. assert (a <> t) by congruence.
    destruct (sb_back _ _ _ _ _ _ Hd a y ltac:(assumption) Hy) as (z & Hz & Hk). exists z. split; [exact Hz |].
    unfold pre_of. rewrite (kp_pre _ _ Hk). reflexivity.
  - intros a y Hy. destruct (sb_forth _ _ _ _ _ _ Hd a y Hy) as (z & Hz & Hk). exists z. split; [exact Hz |].
    unfold pre_of. rewrite (kp_pre _ _ Hk). reflexivity.
  - intros a y Hy Ha. destruct (decide (a = t)) as [-> | Hne].
    + destruct (sb_task _ _ _ _ _ _ Hd) as (z & Hz & _ & _ & Epre & _). assert (y = z) as -> by congruence.
      unfold pre_of. rewrite Epre. reflexivity.
    + destruct (sb_back _ _ _ _ _ _ Hd a y Hne Hy) as (z & Hz & _).
      destruct (ln_task _ _ HL a z Hz) as (i & Hi & _). congruence.
Qed.

(** A step that delivers a notification and changes the status of at most one
    task, from one that is in hand to another. *)
Lemma handed_deliver s c d m' w' p b :
  handed_inv s c d -> invariant (mkState w' m' (next_seq s)) ->
  notify (notify_fuel (world s)) p false (world s) = Ok (b, w') ->
  (forall t, got m' (world s) t <-> got (info s) (world s) t) ->
  settled_pre m' (world s) -> (forall t, is_Some (info s !! t) -> is_Some (m' !! t)) ->
  handed_inv (mkState w' m' (next_seq s)) c d.
Proof.
  intros Hh Hinv' E Hgot Hset Hdom. pose proof Hh as [Hinv (h & Eh & Hnd & Hiff) _].
  destruct (notified_deliver s p b w' Hinv E) as (l & Hl & Er).
  apply (handed_notify s c d h _ c (world s) p false b l); cbn [info world]; auto.
  - intros t. rewrite Hiff. symmetry. apply Hgot.
  - intros t task Ht. apply Hdom. destruct (ln_task _ _ (iv_linked _ Hinv) t task Ht) as (i & Hi & _). eauto.
  - rewrite Er. reflexivity.
Qed.

Lemma is_Some_set m t i x : is_Some (m !! x) -> is_Some (<[t := i]> m !! x).
Proof.
  intros Hx. destruct (decide (t = x)) as [<- | Hne]; [rewrite lookup_insert_eq; eauto |].
  rewrite lookup_insert_ne by exact Hne. exact Hx.
Qed.

Lemma handed_start s c d t i w' :
  handed_inv s c d -> info s !! t = Some i -> i_status i = Initialized -> start_task t (world s) = Ok w' ->
  handed_inv (mkState w' (<[t := set_status Running i]> (info s)) (next_seq s)) c d.
Proof.
  intros Hh Hi Hst Hs. pose proof (invariant_start t i w' s (hi_inv _ _ _ Hh) Hi Hst Hs) as Hinv'.
  pose proof (handed_settled s c d Hh) as Hset. pose proof Hh as [Hinv _ _].
  unfold start_task, get_task in Hs. apply bind_Ok in Hs as (task & Ht & Hs). apply deref_Ok in Ht.
  apply bind_Ok in Hs as (u & Hr & Hs). apply cpp_assert_Ok in Hr. apply bind_Ok in Hs as ([b w2] & E & Hs).
  injection Hs as ->. unfold task_is_ready, is_ready in Hr. apply Z.eqb_eq in Hr.
  apply (handed_deliver s c d _ w' (get_pre_event t) b); auto.
  - intros x. unfold got. destruct (decide (t = x)) as [<- | Hne].
    + rewrite lookup_insert_eq. split.
      * intros _. exists i. split; [exact Hi |]. right. split; [exact Hst |]. exists task. split; [exact Ht | exact Hr].
      * intros _. eexists. split; [reflexivity | left; reflexivity].
    + rewrite lookup_insert_ne by exact Hne. reflexivity.
  - intros x j y Hj Hne Hy. apply lookup_insert_Some in Hj as [(<- & <-) | (Hnx & Hj)].
    + assert (y = task) as -> by congruence. unfold pre_of. lia.
    + eauto.
  - intros x Hx. apply is_Some_set, Hx.
Qed.

Lemma handed_return s c d t i b w' :
  handed_inv s c d -> info s !! t = Some i -> i_status i = Running ->
  notify (notify_fuel (world s)) (get_post_event t) false (world s) = Ok (b, w') ->
  handed_inv (mkState w' (<[t := set_status Returned i]> (info s)) (next_seq s)) c d.
Proof.
  intros Hh Hi Hst E. pose proof (invariant_return t i b w' s (hi_inv _ _ _ Hh) Hi Hst E) as Hinv'.
  pose proof (handed_settled s c d Hh) as Hset.
  apply (handed_deliver s c d _ w' (get_post_event t) b); auto.
  - intros x. unfold got. destruct (decide (t = x)) as [<- | Hne].
    + rewrite lookup_insert_eq. split.
      * intros _. exists i. split; [exact Hi |]. left. rewrite Hst. reflexivity.
      * intros _. eexists. split; [reflexivity | left; reflexivity].
    + rewrite lookup_insert_ne by exact Hne. reflexivity.
  - intros x j y Hj Hne Hy. apply lookup_insert_Some in Hj as [(<- & <-) | (Hnx & Hj)].
    + apply (Hset t i y Hi); [congruence | exact Hy].
    + eauto.
  - intros x Hx. apply is_Some_set, Hx.
Qed.

Lemma handed_result s c d p b w' :
  handed_inv s c d -> invariant (mkState w' (info s) (next_seq s)) ->
  notify (notify_fuel (world s)) p false (world s) = Ok (b, w') -> handed_inv (mkState w' (info s) (next_seq s)) c d.
Proof.
  intros Hh Hinv' E. apply (handed_deliver s c d _ w' p b); auto. eapply handed_settled, Hh.
Qed.

Lemma handed_init s c d t i claimed b w' :
  handed_inv s c d -> info s !! t = Some i -> i_status i = Emplaced ->
  room t (1 + Z.of_nat (scan_length (unique_resources (i_user i)) (world s))) (world s) ->
  init_task t claimed (world s) = Ok (b, w') ->
  handed_inv (mkState w' (<[t := set_status Initialized i]> (info s)) (next_seq s)) (if claimed && b then t :: c else c) d.
Proof.
  intros Hh Hi Hst Hroom Hini. pose proof Hh as [Hinv (h & Eh & Hnd & Hiff) Hf].
  pose proof (invariant_init_step t i claimed b w' s Hinv Hi Hst Hroom Hini) as Hinv'.
  destruct (init_graph_covers s t i Hinv Hi Hst Hroom) as (w1 & w2 & E1 & E2 & HI2 & G & _).
  pose proof (calls_modify _ _ _ _ E1) as Ec1. pose proof (calls_init_graph _ _ _ E2) as Ec2.
  unfold init_task in Hini. rewrite E1 in Hini. cbn [mbind res_bind] in Hini. rewrite E2 in Hini.
  cbn [mbind res_bind] in Hini.
  assert (Hsm : small w2) by (intros x task Hx; apply (inv_small _ _ _ _ HI2 x task Hx)).
  destruct (notify_acts _ (get_pre_event t) claimed w2 b w' Hsm Hini) as [l Hl].
  assert (Hsame : forall x task, x <> t -> tasks w2 !! x = Some task ->
    exists task0, tasks (world s) !! x = Some task0 /\ pre_of task = pre_of task0).
  { intros x task Hx Hw. destruct (gr_back _ _ _ G x task Hw) as (y & Hy & Hg). exists y. split; [exact Hy |].
    unfold pre_of. rewrite (gt_pre _ _ _ Hg) by exact Hx. reflexivity. }
  assert (Htwo : forall task, tasks w2 !! t = Some task -> 2 <= pre_of task).
  { intros task Ht. unfold pre_of. rewrite (inv_pre _ _ _ _ HI2 t task Ht). unfold bpre_of. rewrite Hi, Hst.
    cbn [started]. rewrite occ_cons, bool_decide_true by reflexivity. lia. }
  apply (handed_notify s c d h _ _ w2 (get_pre_event t) claimed b l); cbn [info world]; auto.
  - intros x. rewrite Hiff. unfold got. destruct (decide (t = x)) as [<- | Hne].
    + rewrite lookup_insert_eq. split.
      * intros (j & Hj & Hg). assert (j = i) as -> by congruence. rewrite Hst in Hg.
        destruct Hg as [Hg | [Hg _]]; discriminate.
      * intros (j & Hj & Hg). injection Hj as <-. destruct Hg as [Hg | (_ & task & Ht & E)]; [discriminate |].
        specialize (Htwo task Ht). lia.
    + rewrite lookup_insert_ne by exact Hne. split; intros (j & Hj & Hg); exists j; (split; [exact Hj |]);
        destruct Hg as [Hg | (Est & task & Ht & E)]; auto; right; (split; [exact Est |]).
      * destruct (gr_forth _ _ _ G x ltac:(eauto)) as [y Hy]. exists y. split; [exact Hy |].
        destruct (Hsame x y ltac:(congruence) Hy) as (z & Hz & ->). assert (z = task) as -> by congruence. exact E.
      * destruct (Hsame x task ltac:(congruence) Ht) as (z & Hz & Ez). exists z. split; [exact Hz | congruence].
  - congruence.
  - intros x j task Hj Hne Ht. apply lookup_insert_Some in Hj as [(<- & <-) | (Hnx & Hj)]; [exfalso; apply Hne; reflexivity |].
    destruct (Hsame x task ltac:(congruence) Ht) as (z & Hz & ->). eapply handed_settled; eassumption.
  - intros x task Ht. apply is_Some_set. destruct (gr_back _ _ _ G x task Ht) as (y & Hy & _).
    destruct (ln_task _ _ (iv_linked _ Hinv) x y Hy) as (j & Hj & _). eauto.
  - unfold retained. rewrite bool_decide_true by reflexivity. destruct claimed, b; reflexivity.
Qed.

(** Making an event changes no pre-event. *)
Lemma handed_create s c d t i x p w' :
  handed_inv s c d -> info s !! t = Some i -> i_status i = Running -> events (world s) !! x = None -> room t 1 (world s) ->
  make_event x t (world s) = Ok (p, w') -> handed_inv (mkState w' (info s) (next_seq s)) c d.
Proof.
  intros Hh Hi Hst Hx Hroom E. pose proof (hi_inv _ _ _ Hh) as Hinv.
  destruct (running_task s t i Hinv Hi Hst) as (task & Ht & _ & Hf & _).
  destruct (make_event_spec _ _ _ t task x (iv_inv _ Hinv) Ht Hf (proj2 (Hroom task Ht)) Hx) as (w1 & E1 & _ & _ & Et & _ & Ec).
  assert (w1 = w') as -> by congruence.
  apply (handed_same s c d); cbn [info world]; auto.
  - eapply invariant_create_event; eassumption.
  - intros a y Hy _. rewrite Et in Hy. apply lookup_insert_Some in Hy as [(<- & <-) | (_ & Hy)]; eauto.
  - intros a y Hy. rewrite Et. destruct (decide (t = a)) as [<- | Hne].
    + rewrite lookup_insert_eq. eexists. split; [reflexivity |]. assert (y = task) as -> by congruence. reflexivity.
    + rewrite lookup_insert_ne by exact Hne. eauto.
  - intros a y Hy Hn. rewrite Et in Hy. apply lookup_insert_Some in Hy as [(<- & _) | (_ & Hy)]; [congruence |].
    destruct (ln_task _ _ (iv_linked _ Hinv) a y Hy) as (j & Hj & _). congruence.
Qed.

(** A task that yields leaves the workers, and may be back at once. *)
Lemma handed_pause s c d t i x e a wk b w' :
  handed_inv s c d -> info s !! t = Some i -> i_status i = Running -> events (world s) !! x = Some e ->
  pause_task t wk (external x a) (world s) = Ok (b, w') ->
  handed_inv (mkState w' (<[t := set_status Initialized i]> (info s)) (next_seq s)) c (t :: d).
Proof.
  intros Hh Hi Hst Hx E. pose proof (handed_settled s c d Hh) as Hset. pose proof Hh as [Hinv (h & Eh & Hnd & Hiff) _].
  pose proof (invariant_pause t i x e a wk b w' s Hinv Hi Hst Hx E) as Hinv'.
  destruct (pause_prepared s t i x e a wk Hinv Hi Hst Hx) as (w2 & task2 & E2 & HI2 & _ & Et & _ & Hge & Ec & _).
  unfold pause_task in E. rewrite E2 in E. cbn [mbind res_bind] in E.
  assert (Hsm : small w2) by (intros y task Hy; apply (inv_small _ _ _ _ HI2 y task Hy)).
  destruct (notify_acts _ (get_pre_event t) false w2 b w' Hsm E) as [l Hl].
  assert (Hin : t ∈ h) by (apply Hiff; exists i; split; [exact Hi | left; rewrite Hst; reflexivity]).
  apply elem_of_Permutation in Hin as [h' Eh']. rewrite Eh' in Hnd. apply NoDup_cons in Hnd as [Hnt Hnd].
  assert (Hother : forall y, y <> t -> tasks w2 !! y = tasks (world s) !! y)
    by (intros y Hy; rewrite Et; apply lookup_insert_ne; congruence).
  apply (handed_notify s c (t :: d) h' _ _ w2 (get_pre_event t) false b l); cbn [info world]; auto.
  - rewrite Eh, Eh'. simpl. apply Permutation_middle.
  - intros y. destruct (decide (y = t)) as [-> | Hne].
    + split; [intros Hy; contradiction |]. intros (j & Hj & Hg). rewrite lookup_insert_eq in Hj. injection Hj as <-.
      destruct Hg as [Hg | (_ & task & Htask & E1)]; [discriminate |].
      rewrite Et, lookup_insert_eq in Htask. injection Htask as <-. unfold pre_of in E1. destruct (is_reached e); lia.
    + transitivity (y ∈ h); [rewrite Eh', elem_of_cons; tauto |]. rewrite Hiff. unfold got.
      rewrite lookup_insert_ne by congruence. rewrite (Hother y Hne). reflexivity.
  - intros y j task Hj Hne Htask. apply lookup_insert_Some in Hj as [(_ & <-) | (Hny & Hj)]; [exfalso; apply Hne; reflexivity |].
    rewrite Hother in Htask by congruence. eapply Hset; eassumption.
  - intros y task Hy. destruct (decide (y = t)) as [-> | Hne]; [rewrite lookup_insert_eq; eauto |].
    rewrite Hother in Hy by exact Hne. apply is_Some_set.
    destruct (ln_task _ _ (iv_linked _ Hinv) y task Hy) as (j & Hj & _). eauto.
Qed.

Definition hgood (x : HState) : Prop := handed_inv (fst (fst x)) (snd (fst x)) (snd x).

Lemma handed_step x x' : hgood x -> hstep x x' -> hgood x'.
Proof.
  unfold hgood. intros Hh Hstep.
  destruct Hstep as [t i claimed b w' s c d Hi Hst Hroom Hini | t i x e a wk b w' s c d Hi Hst Hx Hp | s s' c d Hstep Hem]; simpl in *.
  { eapply handed_init; eassumption. }
  { eapply handed_pause; eassumption. }
  pose proof (invariant_step s s' (hi_inv _ _ _ Hh) Hstep) as Hinv'.
  assert (Hno : forall t i j, info s !! t = Some i -> i_status i = Emplaced \/ i_status i = Running ->
    info s' = <[t := set_status Initialized j]> (info s) -> False).
  { intros t i j Hi Hst E. destruct (Hem t i Hi Hst) as (i' & Hi' & N). rewrite E, lookup_insert_eq in Hi'.
    injection Hi' as <-. apply N. reflexivity. }
  destruct Hstep as [p q ip task sp s Hip Hrun Hp Hc Hq Hsub | x t u wk sp w' user' s Hn Hnt Hsp Hu Hp Hsub Huser
    | t i cl b w' s Hi Hst Hroom Hini | t i w' s Hi Hst Hstart | t i task b w' s Hi Hst Ht Hs Hn
    | t i b w' s Hi Hst Hn | t task b w' s Ht Hs Hn | t i x p w' s Hi Hst Hx Hroom Hev
    | t i x e a wk b w' s Hi Hst Hx Hp | x e a b w' s Hx Hs Hn].
  - eapply handed_space; eassumption.
  - eapply handed_submit; eassumption.
  - exfalso. apply (Hno t i i Hi); [auto | reflexivity].
  - eapply handed_start; eassumption.
  - eapply handed_result; eassumption.
  - eapply handed_return; eassumption.
  - eapply handed_result; eassumption.
  - eapply handed_create; eassumption.
  - exfalso. apply (Hno t i i Hi); [auto | reflexivity].
  - eapply handed_result; eassumption.
Qed.

Lemma handed_start_state x : hinit x -> hgood x.
Proof.
  destruct x as [[s c] d]. intros (Hi & Hc & Hd). simpl in *. subst c d. pose proof (invariant_init s Hi) as Hinv.
  unfold init in Hi. subst s. constructor; [exact Hinv | exists []; split; [reflexivity | split; [constructor |]] |].
  - intros t. split; [intros Hin; inversion Hin |]. intros (i & E & _). simpl in E. rewrite lookup_empty in E. discriminate.
  - intros t i task E. simpl in E. rewrite lookup_empty in E. discriminate.
Qed.

(** C4 (once): in every interleaving of the handlers, a task is handed to a worker
    once for each time it becomes ready, never twice: the tasks handed out so far
    are those given back by yielding, and, each exactly once, those that have
    started and those whose last dependency or awaited event is gone. Whoever
    removes it, at once when the task is initialized or later, a worker is told.
    (A handler is one step; [FollowerRace.pause_wakes] goes into a pause.) *)
Theorem handed_exactly_once s c d :
  reachable hinit hstep (s, c, d) ->
  exists h, handed s c ≡ₚ h ++ d /\ NoDup h /\
  forall t i, info s !! t = Some i ->
    (t ∈ h <-> started (i_status i) = true \/
       (i_status i = Initialized /\ exists task, tasks (world s) !! t = Some task /\ task_is_ready task = true)).
Proof.
  intros Hr. apply (reachable_invariant hinit hstep hgood handed_start_state handed_step) in Hr.
  destruct Hr as [_ (h & Eh & Hnd & Hiff) _]. exists h. split; [exact Eh |]. split; [exact Hnd |].
  intros t i Hi. rewrite Hiff. unfold got. split.
  - intros (j & Hj & Hg). assert (j = i) as -> by (simpl in Hj; congruence).
    destruct Hg as [Hg | (Est & task & Ht & E)]; [left; exact Hg |].
    right. split; [exact Est |]. exists task. split; [exact Ht |]. apply Z.eqb_eq, E.
  - intros Hg. exists i. split; [exact Hi |]. destruct Hg as [Hg | (Est & task & Ht & E)]; [left; exact Hg |].
    right. split; [exact Est |]. exists task. split; [exact Ht |]. apply Z.eqb_eq, E.
Qed.

(** ** Runs *)

Lemma exec_keeps_waiting cm s s' :
  exec cm s = Some s' -> (forall t claimed, cm <> CInit t claimed) -> (forall t x wk, cm <> CPause t x wk) ->
  forall t i, info s !! t = Some i -> i_status i = Emplaced \/ i_status i = Running ->
    exists i', info s' !! t = Some i' /\ i_status i' <> Initialized.
Proof.
  intros E Hno Hnp t i Hi Est.
  assert (Hsame : exists i', info s !! t = Some i' /\ i_status i' <> Initialized)
    by (exists i; split; [exact Hi | destruct Est; congruence]).
  assert (Hset : forall u st w, st <> Initialized -> advance u st w s = Some s' ->
    exists i', info s' !! t = Some i' /\ i_status i' <> Initialized).
  { intros u st w Hne Ea. unfold advance in Ea. apply bind_Some in Ea as (j & Hj & Ea). injection Ea as <-. cbn [info].
    destruct (decide (u = t)) as [-> | N]; [rewrite lookup_insert_eq; eauto |]. rewrite lookup_insert_ne by exact N. exact Hsame. }
  destruct cm as [p q | x u us wk | u cl | u | u | u | u | u x | u x wk | x a];
    try (destruct (Hno u cl eq_refl)); try (destruct (Hnp u x wk eq_refl)); cbn [exec] in E; exec_inv;
    try (injection E as <-; exact Hsame); try (eapply Hset; [| exact E]; discriminate).
  - injection E as <-. cbn [info]. rewrite lookup_insert_ne by congruence. exact Hsame.
  - match goal with y : (EventPtr * World RA)%type |- _ => destruct y end. injection E as <-. exact Hsame.
Qed.

Definition hexec (cm : Command) (x : HState) : option HState :=
  let '(s, c, d) := x in
  s' ← exec cm s;
  match cm with
  | CInit t claimed => '(b, _) ← ok (init_task t claimed (world s)); Some (s', if claimed && b then t :: c else c, d)
  | CPause t _ _ => Some (s', c, t :: d)
  | _ => Some (s', c, d)
  end.

Fixpoint hexec_all (l : list Command) (x : HState) : option HState :=
  match l with [] => Some x | cm :: l => x ← hexec cm x; hexec_all l x end.

Lemma hexec_step cm x x' : good cm -> hexec cm x = Some x' -> hstep x x'.
Proof.
  destruct x as [[s c] d]. unfold hexec. intros Hg E. apply bind_Some in E as (s' & Es & E).
  assert (Hother : (forall t claimed, cm <> CInit t claimed) -> (forall t x wk, cm <> CPause t x wk) -> hstep (s, c, d) (s', c, d)).
  { intros H1 H2. apply h_other; [apply (exec_step cm); assumption | eapply exec_keeps_waiting; eassumption]. }
  destruct cm as [p q | y u us wk | u cl | u | u | u | u | u y | u y wk | y a];
    try (injection E as <-; apply Hother; intros; discriminate); clear Hother; simpl in Es; exec_inv.
  - repeat match goal with y : (bool * World RA)%type |- _ => destruct y end. injection E as <-.
    match goal with Ha : init_task _ _ _ = Ok ?r, Hb : init_task _ _ _ = Ok ?r' |- _ => tryif constr_eq r r' then fail else (assert (Er : r = r') by congruence; injection Er as -> ->) end.
    match goal with Ha : info s !! u = Some ?i, Hb : info s !! u = Some ?j |- _ => assert (j = i) as -> by congruence end.
    eapply advance_some in Es; [| eassumption]. subst s'. eapply h_init; eassumption.
  - match goal with y : (bool * World RA)%type |- _ => destruct y as [b w'] end. exec_inv. injection E as <-.
    eapply advance_some in Es; [| eassumption]. subst s'. eapply h_pause; eassumption.
Qed.

Lemma hexec_all_reachable l : forall x x', Forall good l -> reachable hinit hstep x -> hexec_all l x = Some x' ->
  reachable hinit hstep x'.
Proof.
  induction l as [| cm l IH]; intros x x' Hg Hr E.
  - injection E as <-. exact Hr.
  - apply Forall_cons in Hg as [Hc Hl]. simpl in E. apply bind_Some in E as (x1 & E1 & E).
    apply (IH x1 x' Hl); [| exact E]. eapply reachable_step; [exact Hr | apply (hexec_step cm); assumption].
Qed.
End Handed.

Section Runs.
Import SystemRun SystemProps Guards.
#[local] Existing Instances run_ops run_laws.

(** Two writers, the first claimed by the worker that initializes it: it waits for
    an event, which is then reached, runs on and returns; the second is then
    activated by the graph. *)
Definition claimed_run : list Command :=
  [CSubmit 0 0 (writes 7) 0; CSubmit 0 1 (writes 7) 0; CInit 0 true; CInit 1 true; CStart 0; CCreateEvent 0 5;
   CPause 0 5 3; CNotifyEvent 5 0; CStart 0; CReturn 0].

Definition after_claimed_run : HState := default (start_state, [], []) (hexec_all claimed_run (start_state, [], [])).

Lemma handed_exactly_once_witness :
  exists h, handed (fst (fst after_claimed_run)) (snd (fst after_claimed_run)) ≡ₚ h ++ [0]%nat /\ NoDup h /\
    handed (fst (fst after_claimed_run)) (snd (fst after_claimed_run)) = [0; 1; 0]%nat.
Proof.
  destruct (handed_exactly_once (fst (fst after_claimed_run)) (snd (fst after_claimed_run)) (snd after_claimed_run)) as (h & Eh & Hnd & _).
  - assert (Hr : reachable hinit hstep after_claimed_run).
    { apply (hexec_all_reachable claimed_run (start_state, [], [])).
      + good_run.
      + apply reachable_init. repeat split.
      + vm_compute. reflexivity. }
    destruct after_claimed_run as [[s c] d]. exact Hr.
  - exists h. split; [exact Eh |]. split; [exact Hnd | vm_compute; reflexivity].
Defined.
End Runs.
End SystemActivate.
