(* ===== verification/Nesting.v ===== *)
(** What a running task sees of the tree of task spaces: the space for its
    children, the depth, the backtrace to the root ([redGrapes/globalSpace.hpp],
    [RedGrapes::backtrace] of [redGrapes/redGrapes.tpp]). *)

From Stdlib Require Import ZArith Lia Bool.
From stdpp Require Import base gmap list strings.
From S2P Require Import Prelude Access Resource Guards ResourceUser Entries Graph GraphNotify.
From S2P Require Import GraphInv GraphInit GraphSubmit System SystemSafe SystemLive SystemRun SystemProps.

Open Scope Z_scope.
Open Scope word_scope.

Module Nesting.
Import Resource ResourceUser Graph GraphNotify GraphInv GraphInit GraphSubmit System SystemSafe SystemLive.
Import SystemRun SystemProps.

Section Nesting.
Context {RA : Type} `{AccessOps RA}.
Implicit Types (w : World RA) (task : Task RA) (s : State (RA := RA)).

(** The space made by the constructor of [RedGrapes]. *)
Definition root_space : nat := 0.

(** [current_task_space]: [current] is the thread's current task, [q] the address
    of the space should one be made. *)
Definition current_task_space (current : option nat) (q : nat) w : res (nat * World RA) :=
  match current with
  | Some p =>
      task ← get_task p w;
      match children task with
      | Some x => Ok (x, w)
      | None =>
          sp ← sub_space p w;
          Ok (q, put_task p (with_children (Some q) task) (put_space q sp w))
      end
  | None => Ok (root_space, w)
  end.

Definition scope_depth_impl (current : option nat) (q : nat) w : res (Z * World RA) :=
  '(x, w) ← current_task_space current q w;
  match spaces w !! x with Some sp => Ok (depth sp, w) | None => Ok (0, w) end.

(** The tasks from the current one to the root, [task->space->parent] by
    [task->space->parent]. *)
Fixpoint backtrace (fuel : nat) (current : option nat) w : res (list nat) :=
  match fuel, current with
  | _, None => Ok []
  | O, _ => Err OutOfFuel
  | S fuel, Some t =>
      task ← get_task t w;
      x ← deref (space task);
      sp ← deref (spaces w !! x);
      bt ← backtrace fuel (parent sp) w;
      Ok (t :: bt)
  end.

(** The tasks from [t] up to a task of the root space. *)
Inductive lineage s : nat -> list nat -> Prop :=
  | lineage_root t i :
      info s !! t = Some i -> i_space i = root_space -> lineage s t [t]
  | lineage_child t i sp p l :
      info s !! t = Some i -> spaces (world s) !! i_space i = Some sp -> parent sp = Some p ->
      lineage s p l -> lineage s t (t :: l).

(** ** The shape of the tree *)

Record nested s : Prop := {
  ns_root : exists sp, spaces (world s) !! root_space = Some sp /\ depth sp = 0 /\ parent sp = None;
  ns_only : forall q sp, spaces (world s) !! q = Some sp -> parent sp = None -> q = root_space;
  ns_depth : forall q sp p ip, spaces (world s) !! q = Some sp -> parent sp = Some p -> info s !! p = Some ip ->
    exists spx, spaces (world s) !! i_space ip = Some spx /\ depth sp = u32 (depth spx + 1);
  ns_children : forall t task q, tasks (world s) !! t = Some task -> children task = Some q ->
    exists sp, spaces (world s) !! q = Some sp /\ parent sp = Some t
}.

(** A step that makes no space, as far as the tree is concerned. *)
Record keeps s s' : Prop := {
  kp_spaces : forall q, (fun sp => (depth sp, parent sp)) <$> spaces (world s') !! q
                      = (fun sp => (depth sp, parent sp)) <$> spaces (world s) !! q;
  kp_old : forall t i, info s !! t = Some i -> exists i', info s' !! t = Some i' /\ i_space i' = i_space i;
  kp_child : forall t task' q, tasks (world s') !! t = Some task' -> children task' = Some q ->
    exists task, tasks (world s) !! t = Some task /\ children task = Some q
}.
End Nesting.

Section Tree.
Context {RA : Type} `{AccessOps RA} `{!AccessLaws RA}.
Implicit Types (w : World RA) (task : Task RA) (s : State (RA := RA)).

Lemma space_back s s' q sp' : keeps s s' -> spaces (world s') !! q = Some sp' ->
  exists sp, spaces (world s) !! q = Some sp /\ depth sp = depth sp' /\ parent sp = parent sp'.
Proof.
  intros K Hq. pose proof (kp_spaces _ _ K q) as E. rewrite Hq in E.
  destruct (spaces (world s) !! q) as [sp |]; [| discriminate]. injection E as E1 E2. eauto.
Qed.

Lemma space_forth s s' q sp : keeps s s' -> spaces (world s) !! q = Some sp ->
  exists sp', spaces (world s') !! q = Some sp' /\ depth sp' = depth sp /\ parent sp' = parent sp.
Proof.
  intros K Hq. pose proof (kp_spaces _ _ K q) as E. rewrite Hq in E.
  destruct (spaces (world s') !! q) as [sp' |]; [| discriminate]. injection E as E1 E2. eauto.
Qed.

Lemma nested_keeps s s' : linked (info s) (world s) -> keeps s s' -> nested s -> nested s'.
Proof.
  intros HL K [N1 N2 N3 N4]. constructor.
  - destruct N1 as (sp & Hsp & Ed & Ep). destruct (space_forth _ _ _ _ K Hsp) as (sp' & Hsp' & E1 & E2).
    exists sp'. split; [exact Hsp' |]. split; congruence.
  - intros q sp' Hq Hp. destruct (space_back _ _ _ _ K Hq) as (sp & Hsp & _ & E). apply (N2 q sp Hsp). congruence.
  - intros q sp' p ip' Hq Hp Hip'. destruct (space_back _ _ _ _ K Hq) as (sp & Hsp & Ed & Ep). rewrite Hp in Ep.
    destruct (ln_parent _ _ HL q sp p Hsp Ep) as [ip Hip]. destruct (kp_old _ _ K p ip Hip) as (i & Hi & Es).
    assert (i = ip') as -> by congruence.
    destruct (N3 q sp p ip Hsp Ep Hip) as (spx & Hspx & Edx). destruct (space_forth _ _ _ _ K Hspx) as (spx' & Hx & E1 & _).
    exists spx'. rewrite Es. split; [exact Hx | congruence].
  - intros t task' q Ht Hc. destruct (kp_child _ _ K t task' q Ht Hc) as (task & Ht0 & Hc0).
    destruct (N4 t task q Ht0 Hc0) as (sp & Hsp & Ep). destruct (space_forth _ _ _ _ K Hsp) as (sp' & Hsp' & _ & E).
    exists sp'. split; [exact Hsp' | congruence].
Qed.

Lemma same_info_keeps_old s w' m' : same_info (info s) m' ->
  forall t i, info s !! t = Some i -> exists i', info (mkState w' m' (next_seq s)) !! t = Some i' /\ i_space i' = i_space i.
Proof.
  intros Hs t i Hi. destruct (same_info_forth _ _ Hs t i Hi) as (i' & Hi' & _ & _ & E). eauto.
Qed.

Lemma nested_space s p q task sp :
  linked (info s) (world s) -> tasks (world s) !! p = Some task -> spaces (world s) !! q = None ->
  sub_space p (world s) = Ok sp -> nested s ->
  nested (mkState (put_task p (with_children (Some q) task) (put_space q sp (world s))) (info s) (next_seq s)).
Proof.
  intros HL Hp Hq Hsub [N1 N2 N3 N4]. unfold sub_space, get_task in Hsub. rewrite Hp in Hsub.
  cbn [deref mbind res_bind] in Hsub. apply bind_Ok in Hsub as (x & Hx & Hsub). apply bind_Ok in Hsub as (spx & Hspx & Hsub).
  apply deref_Ok in Hx, Hspx. injection Hsub as <-.
  assert (Hold : forall y spy, spaces (world s) !! y = Some spy ->
    <[q := mkSpace 0 (u32 (depth spx + 1)) (Some p)]> (spaces (world s)) !! y = Some spy)
    by (intros y spy Hy; rewrite lookup_insert_ne by congruence; exact Hy).
  constructor; cbn [world info put_task put_space spaces tasks].
  - destruct N1 as (sp & Hsp & E). exists sp. split; [apply Hold, Hsp | exact E].
  - intros y spy Hy Ep. apply lookup_insert_Some in Hy as [(<- & <-) | (_ & Hy)]; [discriminate | eauto].
  - intros y spy p' ip Hy Ep Hip. apply lookup_insert_Some in Hy as [(<- & <-) | (_ & Hy)].
    + injection Ep as <-. destruct (ln_task _ _ HL p task Hp) as (i & Hi & _ & Es). assert (i = ip) as -> by congruence.
      exists spx. split; [apply Hold; congruence | reflexivity].
    + destruct (N3 y spy p' ip Hy Ep Hip) as (spz & Hz & E). exists spz. split; [apply Hold, Hz | exact E].
  - intros t taskt y Ht Hc. apply lookup_insert_Some in Ht as [(<- & <-) | (_ & Ht)].
    + injection Hc as <-. eexists. split; [apply lookup_insert_eq | reflexivity].
    + destruct (N4 t taskt y Ht Hc) as (spy & Hy & E). exists spy. split; [apply Hold, Hy | exact E].
Qed.

(** Notifications. *)
Lemma sframe_keeps s w w' m' bpost :
  tasks w = tasks (world s) -> spaces w = spaces (world s) -> same_info (info s) m' -> SFrame bpost w w' ->
  keeps s (mkState w' m' (next_seq s)).
Proof.
  intros Et Es Hs Hf. constructor; cbn [world info].
  - rewrite <- Es. apply Hf.
  - apply (same_info_keeps_old s w'), Hs.
  - intros t task' q Ht Hc. destruct (sf_tasks _ _ _ Hf t task' Ht) as (task & Ht0 & Hss).
    exists task. rewrite <- Et, <- (ss_children _ _ Hss). auto.
Qed.

(** New edges in the graph, and then notifications. *)
Lemma grow_keeps s t w2 w' m' bpost :
  same_info (info s) m' -> Grow t (world s) w2 -> SFrame bpost w2 w' -> keeps s (mkState w' m' (next_seq s)).
Proof.
  intros Hs G Hf. constructor; cbn [world info].
  - intros q. rewrite (sf_spaces _ _ _ Hf q), (gr_spaces _ _ _ G). reflexivity.
  - apply (same_info_keeps_old s w'), Hs.
  - intros t0 task' q Ht Hc. destruct (sf_tasks _ _ _ Hf t0 task' Ht) as (task2 & Ht2 & Hss).
    destruct (gr_back _ _ _ G t0 task2 Ht2) as (task & Ht0 & Gt). exists task.
    rewrite <- (gt_children _ _ _ Gt), <- (ss_children _ _ Hss). auto.
Qed.

Lemma nested_effect s s' : invariant s -> effect s s' -> nested s -> nested s'.
Proof.
  intros [HI HS HL HO] Heff.
  destruct Heff as [s w' m' bpost Hs Hf | s p q task sp Hp Hq Hsp | s t i u l' w' Hn Hseq Hsub
    | s t i w2 w' m' bpost Hi Hst Hs G A Hf | s t i w2 w' m' bpost Hi Hst Hs G A Hf
    | s x e w' bpost Hx Es Hf].
  2: { apply nested_space; assumption. }
  all: apply nested_keeps; [exact HL |].
  2: constructor; cbn [world info].
  - eapply sframe_keeps; [reflexivity | reflexivity | eassumption | exact Hf].
  - apply (sb_spaces _ _ _ _ _ _ Hsub).
  - intros t0 i0 Hi0. exists i0. rewrite lookup_insert_ne by congruence. auto.
  - intros t0 task' q Ht Hc. destruct (decide (t0 = t)) as [-> | Hne].
    + destruct (sb_new _ _ _ _ _ _ Hsub task' Ht). congruence.
    + destruct (sb_back _ _ _ _ _ _ Hsub t0 task' Hne Ht) as (task & Ht0 & Kp). exists task.
      rewrite <- (GraphSubmit.kp_children _ _ Kp). auto.
  - eapply grow_keeps; eassumption.
  - eapply grow_keeps; eassumption.
  - eapply (sframe_keeps _ (put_external x (dn e) (world s))); [reflexivity | reflexivity | apply same_info_refl | exact Hf].
Qed.

(** Spaces stay, at their depth and under their parent. *)
Lemma effect_space_forth s s' y sp : effect s s' -> spaces (world s) !! y = Some sp ->
  exists sp', spaces (world s') !! y = Some sp' /\ depth sp' = depth sp /\ parent sp' = parent sp.
Proof.
  assert (Hf : forall w w', (forall q, (fun sp => (depth sp, parent sp)) <$> spaces w' !! q
      = (fun sp => (depth sp, parent sp)) <$> spaces w !! q) -> spaces w !! y = Some sp ->
    exists sp', spaces w' !! y = Some sp' /\ depth sp' = depth sp /\ parent sp' = parent sp).
  { intros w w' Hs Hy. specialize (Hs y). rewrite Hy in Hs. destruct (spaces w' !! y) as [sp' |]; [| discriminate].
    injection Hs as E1 E2. eauto. }
  intros Heff Hy. destruct Heff as [s w' m' bpost Hs HF | s p q task sq Hp Hq Hsq | s t i u l' w' Hn Hseq Hsub
    | s t i w2 w' m' bpost Hi Hst Hs G A HF | s t i w2 w' m' bpost Hi Hst Hs G A HF | s x e w' bpost Hx Es HF]; cbn [world].
  - eapply Hf; [apply HF | exact Hy].
  - exists sp. simpl. rewrite lookup_insert_ne by congruence. auto.
  - eapply Hf; [apply Hsub | exact Hy].
  - eapply (Hf w2); [apply HF | rewrite (gr_spaces _ _ _ G); exact Hy].
  - eapply (Hf w2); [apply HF | rewrite (gr_spaces _ _ _ G); exact Hy].
  - eapply Hf; [apply HF | exact Hy].
Qed.

Lemma reachable_nested s : reachable init step s ->
  invariant s /\ family (info s) (world s) /\ nested s.
Proof.
  intros Hr. apply (reachable_invariant init step (fun s => (invariant s /\ family (info s) (world s)) /\ nested s)) in Hr;
    [tauto | |].
  - intros s0 Hs0. split; [apply reachable_family, reachable_init, Hs0 |]. rewrite Hs0. constructor; cbn [world info initial_world spaces tasks].
    + exists top_space. auto.
    + intros q sp Hq _. apply lookup_singleton_Some in Hq as [<- _]. reflexivity.
    + intros q sp p ip _ _ Hip. rewrite lookup_empty in Hip. discriminate.
    + intros t task q Ht. rewrite lookup_empty in Ht. discriminate.
  - intros s0 s1 [[Hinv Hfam] Hns] Hstep. pose proof (step_effect _ _ Hinv Hstep) as Heff.
    split; [split; [eapply invariant_step; eassumption | eapply family_effect; eassumption] |].
    eapply nested_effect; eassumption.
Qed.

(** ** Going up *)

(** The task that made the space of an unfinished task is not finished either. *)
Lemma parent_unfinished s t i sp p :
  invariant s -> family (info s) (world s) -> info s !! t = Some i ->
  spaces (world s) !! i_space i = Some sp -> parent sp = Some p -> unfinished s t -> unfinished s p.
Proof.
  intros [HI HS HL HO] Hfam Hi Hsp Hp (task & Ht & Hf).
  destruct (fm_parent _ _ Hfam t i sp p Hi Hsp Hp) as [Hfin | (task' & Ht' & Hin)]; [specialize (Hfin task Ht); congruence |].
  assert (task' = task) as -> by congruence.
  destruct (inv_followers _ _ _ _ HI t task _ Ht Hf Hin) as (y & [tasky Hy] & [E | E]); [discriminate E |].
  injection E as <-. exists tasky. split; [exact Hy |]. unfold is_finished, is_reached.
  rewrite (inv_post _ _ _ _ HI p tasky Hy). pose proof (edges_pos _ _ _ _ Ht Hf Hin). apply Z.eqb_neq. lia.
Qed.

Lemma u32_succ n : u32 (u32 (Z.of_nat n) + 1) = u32 (Z.of_nat (S n)).
Proof. unfold wrap. rewrite Zplus_mod_idemp_l. replace (Z.of_nat (S n)) with (Z.of_nat n + 1) by lia. reflexivity. Qed.

Lemma backtrace_up s : invariant s -> family (info s) (world s) -> nested s ->
  forall fuel t i, info s !! t = Some i -> unfinished s t -> (i_seq i < fuel)%nat ->
  exists bt sp, backtrace fuel (Some t) (world s) = Ok (t :: bt) /\ lineage s t (t :: bt) /\
    Forall (unfinished s) bt /\ spaces (world s) !! i_space i = Some sp /\ depth sp = u32 (Z.of_nat (length bt)).
Proof.
  intros Hinv Hfam Hns. pose proof Hinv as [HI HS HL HO].
  induction fuel as [| fuel IH]; intros t i Hi Hu Hfuel; [lia |]. pose proof Hu as (task & Ht & Hf).
  destruct (ln_task _ _ HL t task Ht) as (i0 & Hi0 & _ & Es). assert (i0 = i) as -> by congruence.
  destruct (ln_space _ _ HL t i Hi) as (sp & Hsp & Hpar).
  cbn [backtrace]. unfold get_task. rewrite Ht. cbn [deref mbind res_bind]. rewrite Es. cbn [deref mbind res_bind].
  rewrite Hsp. cbn [deref mbind res_bind]. destruct (parent sp) as [p |] eqn:Ep.
  - destruct (Hpar p eq_refl) as (ip & Hip & Hlt).
    destruct (IH p ip Hip (parent_unfinished _ _ _ _ _ Hinv Hfam Hi Hsp Ep Hu) ltac:(lia)) as (bt & spp & E & Hl & Hall & Hspp & Ed).
    rewrite E. cbn [mbind res_bind]. exists (p :: bt), sp. split; [reflexivity |].
    split; [eapply lineage_child; eassumption |].
    split; [constructor; [exact (parent_unfinished _ _ _ _ _ Hinv Hfam Hi Hsp Ep Hu) | exact Hall] |]. split; [reflexivity |].
    destruct (ns_depth _ Hns _ sp p ip Hsp Ep Hip) as (spx & Hspx & ->).
    assert (spx = spp) as -> by congruence. rewrite Ed. apply u32_succ.
  - pose proof (ns_only _ Hns _ sp Hsp Ep) as Eq. destruct (ns_root _ Hns) as (sp0 & Hsp0 & Ed & _).
    exists [], sp. destruct fuel; (split; [reflexivity |]; split; [eapply lineage_root; eassumption |]).
    all: split; [exact (List.Forall_nil _) |]; split; [reflexivity |]; rewrite Eq, Hsp0 in Hsp; injection Hsp as <-; exact Ed.
Qed.

(** (backtrace): from a running task the loop of [backtrace] ends at a task of
    the root space; it lists the task and all its ancestors, each once made the
    space the one before runs in and none of them is finished.  [scope_depth]
    tells their number (modulo 2^32). *)
Theorem backtrace_correct s t i q :
  reachable init step s -> info s !! t = Some i -> i_status i = Running ->
  exists bt w', backtrace (S (next_seq s)) (Some t) (world s) = Ok bt /\ lineage s t bt /\
    Forall (unfinished s) bt /\
    (spaces (world s) !! q = None -> scope_depth_impl (Some t) q (world s) = Ok (u32 (Z.of_nat (length bt)), w')).
Proof.
  intros Hr Hi Hst. destruct (reachable_nested s Hr) as (Hinv & Hfam & Hns). pose proof Hinv as [HI HS HL HO].
  destruct (running_live s t i Hr Hi Hst) as (task & Ht & Hf).
  destruct (backtrace_up s Hinv Hfam Hns (S (next_seq s)) t i Hi) as (bt & sp & E & Hl & Hall & Hsp & Ed).
  { exists task. auto. }
  { pose proof (st_seq _ _ HS t i Hi). lia. }
  destruct (ln_task _ _ HL t task Ht) as (i0 & Hi0 & _ & Es). assert (i0 = i) as -> by congruence.
  destruct (children task) as [x |] eqn:Hc.
  - exists (t :: bt), (world s). split; [exact E |]. split; [exact Hl |].
    split; [constructor; [exists task; auto | exact Hall] |]. intros Hq.
    destruct (ns_children _ Hns t task x Ht Hc) as (spx & Hx & Ep).
    destruct (ns_depth _ Hns x spx t i Hx Ep Hi) as (spt & Hspt & Edx). assert (spt = sp) as -> by congruence.
    unfold scope_depth_impl, current_task_space, get_task. rewrite Ht. cbn [deref mbind res_bind]. rewrite Hc.
    cbn [mbind res_bind]. rewrite Hx, Edx, Ed, u32_succ. reflexivity.
  - eexists (t :: bt), _. split; [exact E |]. split; [exact Hl |].
    split; [constructor; [exists task; auto | exact Hall] |]. intros Hq.
    unfold scope_depth_impl, current_task_space, sub_space, get_task. rewrite Ht. cbn [deref mbind res_bind]. rewrite Hc, Es.
    cbn [deref mbind res_bind]. rewrite Hsp. cbn [deref mbind res_bind]. simpl spaces. rewrite lookup_insert_eq. simpl depth.
    rewrite Ed, u32_succ. reflexivity.
Qed.
End Tree.

#[local] Existing Instances run_ops run_laws.

(** A child of the second writer runs. *)
Definition child_started : list Command := child_runs ++ [CStart 2].

Lemma backtrace_correct_witness :
  exists bt w', backtrace (S (next_seq (state_after child_started))) (Some 2%nat) (world (state_after child_started)) = Ok bt /\
    lineage (state_after child_started) 2 bt /\ Forall (unfinished (state_after child_started)) bt /\
    (spaces (world (state_after child_started)) !! 2%nat = None ->
     scope_depth_impl (Some 2%nat) 2 (world (state_after child_started)) = Ok (u32 (Z.of_nat (length bt)), w')).
Proof.
  apply (backtrace_correct (state_after child_started) 2 (info_of (state_after child_started) 2));
    [run_state | vm_compute; reflexivity | vm_compute; reflexivity].
Defined.

Example backtrace_of_child : backtrace 4 (Some 2%nat) (world (state_after child_started)) = Ok [2; 1]%nat.
Proof. vm_compute. reflexivity. Qed.
End Nesting.
