(* ===== verification/Serial.v ===== *)
(** What the program sees: the memory after any interleaving of its tasks is the one
    that results from running the tasks of a space one after the other, in the order
    in which they were submitted ([redGrapes/task/task_space.hpp],
    [task/property/graph.tpp], [resource/access/io.hpp]).  To the steps of [System]
    are added those of the functions of the tasks, which work on a memory within the
    accesses of their task. *)

From Stdlib Require Import ZArith Lia Bool Sorted.
From stdpp Require Import base gmap list strings relations sorting.
From S2P Require Import Prelude Access Resource Guards ResourceUser Entries Graph GraphNotify.
From S2P Require Import GraphInv GraphInit GraphSubmit System SystemSafe SystemLive SystemRun SystemProps Nesting.

Open Scope Z_scope.
Open Scope word_scope.

Module Serial.
Import Resource ResourceUser Graph GraphNotify GraphInv GraphInit GraphSubmit System SystemSafe SystemLive.
Import SystemRun SystemProps Nesting.

(** ** Ordered lists *)

Lemma sorted_filter {A} (R : A -> A -> Prop) (P : A -> bool) (l : list A) : StronglySorted R l -> StronglySorted R (List.filter P l).
Proof.
  induction 1 as [| a l Hl IH Ha]; simpl; [constructor |]. destruct (P a); [| exact IH]. constructor; [exact IH |].
  rewrite Forall_forall in Ha |- *. intros b Hb. rewrite list_elem_of_In, filter_In in Hb. apply Ha. rewrite list_elem_of_In. apply Hb.
Qed.

Lemma sorted_weaken {A} (R R' : A -> A -> Prop) (l : list A) :
  (forall a b, a ∈ l -> b ∈ l -> R a b -> R' a b) -> StronglySorted R l -> StronglySorted R' l.
Proof.
  intros Hr. induction 1 as [| a l Hl IH Ha]; [constructor |]. constructor.
  - apply IH. intros x y Hx Hy. apply Hr; right; assumption.
  - rewrite Forall_forall in Ha |- *. intros b Hb. apply Hr; [left | right; exact Hb | apply Ha, Hb].
Qed.

Lemma sorted_snoc {A} (R : A -> A -> Prop) (l : list A) b :
  StronglySorted R l -> (forall a, a ∈ l -> R a b) -> StronglySorted R (l ++ [b]).
Proof.
  induction 1 as [| a l Hl IH Ha]; intros Hb; simpl; [repeat constructor |]. constructor.
  - apply IH. intros x Hx. apply Hb. right. exact Hx.
  - apply Forall_app. split; [exact Ha |]. apply Forall_singleton, Hb. left.
Qed.

(** ** Sequences of actions *)

Section Actions.
Context {M : Type}.

(** What one task does to the memory at once. *)
Definition Action : Type := nat * (M -> M).
Implicit Types (a b : Action) (l : list Action) (m : M).

Definition apply_all l m : M := fold_left (fun m a => snd a m) l m.

Definition independent a b : Prop := forall m, snd a (snd b m) = snd b (snd a m).

(** Two sequences are the same to the memory. *)
Definition same_effect l l' : Prop := forall m, apply_all l m = apply_all l' m.

#[export] Instance same_effect_equivalence : Equivalence same_effect.
Proof. split; [intros l m | intros l l' E m | intros l l' l'' E E' m; rewrite (E m)]; auto. Qed.

Lemma apply_all_app l l' m : apply_all (l ++ l') m = apply_all l' (apply_all l m).
Proof. apply fold_left_app. Qed.

#[export] Instance app_same_effect : Proper (same_effect ==> same_effect ==> same_effect) app.
Proof. intros l1 l2 E l1' l2' E' m. rewrite !apply_all_app, (E m). apply E'. Qed.

#[export] Instance cons_same_effect a : Proper (same_effect ==> same_effect) (cons a).
Proof. intros l l' E m. apply (E (snd a m)). Qed.

Lemma apply_all_move a l : Forall (independent a) l -> same_effect (a :: l) (l ++ [a]).
Proof.
  induction l as [| b l IH]; intros Hl; [reflexivity |]. apply Forall_cons in Hl as [Hb Hl].
  simpl. rewrite <- (IH Hl). intros m. simpl. rewrite (Hb m). reflexivity.
Qed.

(** Actions that come too early are moved behind those they are independent of. *)
Lemma apply_all_partition (P : Action -> bool) l :
  StronglySorted (fun a b => P a = false -> P b = true -> independent a b) l ->
  same_effect l (List.filter P l ++ List.filter (fun a => negb (P a)) l).
Proof.
  induction 1 as [| a l Hl IH Ha]; [reflexivity |]. simpl. destruct (P a) eqn:E; simpl; rewrite IH at 1; [reflexivity |].
  change (a :: List.filter P l ++ ?r) with ((a :: List.filter P l) ++ r). rewrite apply_all_move; [rewrite <- app_assoc; reflexivity |].
  rewrite Forall_forall in Ha |- *. intros b Hb. rewrite list_elem_of_In, filter_In in Hb. destruct Hb as [Hb Hp].
  apply Ha; [rewrite list_elem_of_In; exact Hb | reflexivity | exact Hp].
Qed.

(** The actions with key [k]. *)
Definition with_key (key : Action -> option nat) (k : nat) l : list Action :=
  List.filter (fun a => bool_decide (key a = Some k)) l.

(** A sequence in which an action is independent of the later ones with smaller keys
    is the same as the sequence sorted by keys. *)
Lemma apply_all_sort (key : Action -> option nat) n : forall l,
  (forall a, a ∈ l -> exists k, key a = Some k /\ (k < n)%nat) ->
  StronglySorted (fun a b => forall j k, key a = Some j -> key b = Some k -> (k < j)%nat -> independent a b) l ->
  same_effect l (flat_map (fun k => with_key key k l) (seq 0 n)).
Proof.
  induction n as [| n IH]; intros l Hk Hs.
  - destruct l as [| a l]; [reflexivity |]. destruct (Hk a ltac:(left)) as (k & _ & Hlt). lia.
  - set (P := fun a => match key a with Some k => (k <? n)%nat | None => false end).
    assert (Hsmall : forall k, (k < n)%nat -> with_key key k (List.filter P l) = with_key key k l).
    { intros k Hlt. unfold with_key. rewrite bfilter_filter. apply filter_ext. intros a. unfold P.
      case_bool_decide as E; [rewrite E |]; [| apply andb_false_r || apply andb_false_l].
      destruct (Nat.ltb_spec k n); [reflexivity | lia]. }
    rewrite (apply_all_partition P l), seq_S, flat_map_app.
    + rewrite (IH (List.filter P l)).
      * cbn [flat_map Nat.add]. rewrite app_nil_r.
        replace (List.filter (fun a => negb (P a)) l) with (with_key key n l).
        2: { apply filter_ext_in. intros a Ha. rewrite <- list_elem_of_In in Ha. destruct (Hk a Ha) as (k & Ek & Hlt). unfold P.
             rewrite Ek. destruct (Nat.ltb_spec k n); case_bool_decide as E; try reflexivity; [injection E as ->; lia |].
             exfalso. apply E. f_equal. lia. }
        rewrite !flat_map_concat_map. erewrite map_ext_in; [reflexivity |]. intros k Hin. apply in_seq in Hin. apply Hsmall. lia.
      * intros a Ha. rewrite list_elem_of_In, filter_In in Ha. destruct Ha as [Ha Hp]. rewrite <- list_elem_of_In in Ha.
        destruct (Hk a Ha) as (k & Ek & _). exists k. unfold P in Hp. rewrite Ek in Hp. apply Nat.ltb_lt in Hp. auto.
      * apply sorted_filter, Hs.
    + eapply sorted_weaken; [| exact Hs]. intros a b Ha Hb Hr Pa Pb. unfold P in Pa, Pb.
      destruct (Hk a Ha) as (j & Ej & _), (Hk b Hb) as (k & Ek & _). rewrite Ej in Pa. rewrite Ek in Pb.
      apply Nat.ltb_ge in Pa. apply Nat.ltb_lt in Pb. apply (Hr j k Ej Ek). lia.
Qed.
End Actions.

Arguments Action M : clear implicits.

(** ** The family of a task *)

Section Family.
Context {RA : Type} `{AccessOps RA}.
Implicit Types s : State (RA := RA).

(** [c] runs in the space that [p] made. *)
Definition child s (p c : nat) : Prop :=
  exists i sp, info s !! c = Some i /\ spaces (world s) !! i_space i = Some sp /\ parent sp = Some p.

(** [p] is [t], its parent, the parent of its parent, and so on. *)
Inductive descends s (p : nat) : nat -> Prop :=
  | descends_self : is_Some (info s !! p) -> descends s p p
  | descends_child q c : child s q c -> descends s p q -> descends s p c.

(** The task of space [x] that [t] descends from. *)
Fixpoint root_in (fuel : nat) s (x t : nat) : option nat :=
  match fuel with
  | O => None
  | S fuel =>
      i ← info s !! t;
      if (i_space i =? x)%nat then Some t
      else sp ← spaces (world s) !! i_space i; p ← parent sp; root_in fuel s x p
  end.

(** What of [s] stays in [s']. *)
Record extends s s' : Prop := {
  ex_info : forall t i, info s !! t = Some i -> exists i', info s' !! t = Some i' /\
    i_seq i' = i_seq i /\ i_user i' = i_user i /\ i_space i' = i_space i;
  ex_new : forall t i', info s' !! t = Some i' -> info s !! t = None -> (next_seq s <= i_seq i')%nat;
  ex_space : forall q sp, spaces (world s) !! q = Some sp -> exists sp', spaces (world s') !! q = Some sp' /\ parent sp' = parent sp;
  ex_finished : forall t, is_Some (info s !! t) -> finished_in t (world s) -> finished_in t (world s')
}.

(** All that conflicts with [t] and was submitted before it, to its space, is finished. *)
Definition guarded s (t : nat) : Prop := forall a, before (info s) a t -> finished_in a (world s).

(** The accesses of a parent cover those of its children. *)
Definition covered s : Prop := forall p c ip ic, child s p c -> info s !! p = Some ip -> info s !! c = Some ic ->
  is_superset_of (i_user ip) (i_user ic) = true.
End Family.

Section Tree.
Context {RA : Type} `{AccessOps RA} `{!AccessLaws RA}.
Implicit Types s : State (RA := RA).

Lemma child_parent s p p' c : child s p c -> child s p' c -> p = p'.
Proof. intros (i & sp & Hi & Hsp & Hp) (i' & sp' & Hi' & Hsp' & Hp'). congruence. Qed.

Lemma child_older s p c : invariant s -> child s p c ->
  exists ip ic, info s !! p = Some ip /\ info s !! c = Some ic /\ (i_seq ip < i_seq ic)%nat.
Proof.
  intros Hinv (i & sp & Hi & Hsp & Hp). destruct (ln_space _ _ (iv_linked _ Hinv) c i Hi) as (sp' & Hsp' & Hpar).
  assert (sp' = sp) as -> by congruence. destruct (Hpar p Hp) as (ip & Hip & Hlt). eauto.
Qed.

Lemma descends_older s p t : invariant s -> descends s p t ->
  exists ip it, info s !! p = Some ip /\ info s !! t = Some it /\ (i_seq ip <= i_seq it)%nat.
Proof.
  intros Hinv. induction 1 as [[i Hi] | q c Hc Hd IH]; [eauto |].
  destruct IH as (ip & iq & Hp & Hq & Hle), (child_older s q c Hinv Hc) as (iq' & ic & Hq' & Hic & Hlt).
  exists ip, ic. split; [exact Hp |]. split; [exact Hic |]. assert (iq' = iq) as -> by congruence. lia.
Qed.

Lemma descends_trans s p q t : descends s p q -> descends s q t -> descends s p t.
Proof. intros Hp. induction 1 as [Hq | r c Hc Hd IH]; [exact Hp | exact (descends_child _ _ r c Hc IH)]. Qed.

Lemma descends_linear s r r' t : descends s r t -> descends s r' t -> descends s r r' \/ descends s r' r.
Proof.
  intros Hr. induction Hr as [Hi | q c Hc Hd IH]; [auto |].
  inversion 1 as [Hc' Ec | q' c' Hc' Hd']; subst; [left; exact (descends_child _ _ q c Hc Hd) |].
  assert (q' = q) as -> by (eapply child_parent; eassumption). auto.
Qed.

(** A task descends from one task of a space only. *)
Lemma descends_sibling s r r' t ir ir' : invariant s -> descends s r t -> descends s r' t ->
  info s !! r = Some ir -> info s !! r' = Some ir' -> i_space ir = i_space ir' -> r = r'.
Proof.
  intros Hinv.
  assert (Hone : forall r r' ir ir', descends s r r' -> info s !! r = Some ir -> info s !! r' = Some ir' ->
    i_space ir = i_space ir' -> r = r').
  { intros a b ia ib Hd Ha Hb Esp. destruct Hd as [_ | q c (ic & sp & Hic & Hsp & Hp) Hd]; [reflexivity | exfalso].
    assert (ic = ib) as -> by congruence. destruct (descends_older s a q Hinv Hd) as (ia' & iq & Ha' & Hq & Hle).
    assert (ia' = ia) as -> by congruence.
    destruct (child_older s q a Hinv) as (iq' & ia' & Hq' & Ha2 & Hlt); [exists ia, sp; rewrite Esp; auto |].
    assert (iq' = iq) as -> by congruence. assert (ia' = ia) as -> by congruence. lia. }
  intros Hr Hr' Hir Hir' Esp. destruct (descends_linear _ _ _ _ Hr Hr'); [eauto | symmetry; eauto].
Qed.

Lemma root_in_sound s x : forall fuel t r, root_in fuel s x t = Some r ->
  descends s r t /\ exists ir, info s !! r = Some ir /\ i_space ir = x.
Proof.
  induction fuel as [| fuel IH]; intros t r Hr; [discriminate |]. cbn [root_in] in Hr.
  destruct (info s !! t) as [i |] eqn:Hi; [| discriminate]. cbn [mbind option_bind] in Hr.
  destruct (Nat.eqb_spec (i_space i) x) as [E | _].
  - injection Hr as <-. split; [constructor; eauto | eauto].
  - destruct (spaces (world s) !! i_space i) as [sp |] eqn:Hsp; [| discriminate]. cbn [mbind option_bind] in Hr.
    destruct (parent sp) as [p |] eqn:Hp; [| discriminate]. cbn [mbind option_bind] in Hr.
    destruct (IH p r Hr) as [Hd Hir]. split; [| exact Hir]. refine (descends_child _ _ p t _ Hd). exists i, sp. auto.
Qed.

Lemma root_in_complete s x r t ir it : invariant s -> descends s r t -> info s !! r = Some ir -> i_space ir = x ->
  info s !! t = Some it -> forall fuel, (i_seq it < fuel)%nat -> root_in fuel s x t = Some r.
Proof.
  intros Hinv Hd Hir Ex. revert it. induction Hd as [_ | q c Hc Hd IH]; intros it Hit fuel Hlt;
    (destruct fuel as [| fuel]; [lia |]); cbn [root_in]; rewrite Hit; cbn [mbind option_bind].
  - assert (it = ir) as -> by congruence. rewrite Ex, Nat.eqb_refl. reflexivity.
  - destruct (Nat.eqb_spec (i_space it) x) as [E | Hne].
    + f_equal. symmetry. apply (descends_sibling s r c c ir it Hinv); [| constructor; eauto | assumption | assumption | congruence].
      exact (descends_child _ _ q c Hc Hd).
    + pose proof Hc as (i & sp & Hi & Hsp & Hp). assert (i = it) as -> by congruence. rewrite Hsp. cbn [mbind option_bind].
      rewrite Hp. cbn [mbind option_bind]. destruct (child_older s q c Hinv Hc) as (iq & ic & Hq & Hic & Hle).
      apply (IH iq Hq). assert (ic = it) as -> by congruence. lia.
Qed.

(** ** What a step leaves as it was *)

Lemma same_info_extends s w' m' :
  same_info (info s) m' -> (forall q sp, spaces (world s) !! q = Some sp -> exists sp', spaces w' !! q = Some sp' /\ parent sp' = parent sp) ->
  (forall t, finished_in t (world s) -> finished_in t w') -> extends s (mkState w' m' (next_seq s)).
Proof.
  intros Hs Hsp Hf. constructor; cbn [info world next_seq]; [apply same_info_forth, Hs | | exact Hsp | auto].
  intros t i' Hi' Hn. destruct (same_info_lookup _ _ _ _ Hs Hi') as (i & Hi & _). congruence.
Qed.

Lemma effect_extends s s' : invariant s -> effect s s' -> extends s s'.
Proof.
  intros Hinv Heff.
  assert (Hspace : forall q sp, spaces (world s) !! q = Some sp -> exists sp', spaces (world s') !! q = Some sp' /\ parent sp' = parent sp).
  { intros q sp Hq. destruct (effect_space_forth _ _ q sp Heff Hq) as (sp' & Hq' & _ & E). eauto. }
  destruct Heff as [s w' m' bpost Hs Hf | s p q task sp Hp Hq Hsp | s t i u l' w' Hn Hseq Hsub
    | s t i w2 w' m' bpost Hi Hst Hs G A Hf | s t i w2 w' m' bpost Hi Hst Hs G A Hf | s x e w' bpost Hx Es Hf].
  - apply same_info_extends; [exact Hs | exact Hspace |]. intros a. apply (finished_in_sframe _ _ _ _ Hf).
  - apply same_info_extends; [apply same_info_refl | exact Hspace |]. intros a Ha y Hy.
    cbn [tasks put_task put_space] in Hy. apply lookup_insert_Some in Hy as [(<- & <-) | (_ & Hy)]; [exact (Ha task Hp) | exact (Ha y Hy)].
  - constructor; cbn [info world next_seq].
    + intros a ia Ha. exists ia. rewrite lookup_insert_ne by congruence. auto.
    + intros a ia Ha Hna. apply lookup_insert_Some in Ha as [(<- & <-) | (_ & Ha)]; [lia | congruence].
    + exact Hspace.
    + intros a [ia Ha] Hf y Hy. destruct (sb_back _ _ _ _ _ _ Hsub a y ltac:(congruence) Hy) as (z & Hz & K).
      rewrite (kp_finished _ _ K). apply Hf, Hz.
  - apply same_info_extends; [exact Hs | exact Hspace |]. intros a Ha. apply (finished_in_sframe _ _ _ _ Hf), (finished_in_grow _ _ _ _ G), Ha.
  - apply same_info_extends; [exact Hs | exact Hspace |]. intros a Ha. apply (finished_in_sframe _ _ _ _ Hf), (finished_in_grow _ _ _ _ G), Ha.
  - apply same_info_extends; [apply same_info_refl | exact Hspace |]. intros a Ha. apply (finished_in_sframe _ _ _ _ Hf), Ha.
Qed.

Lemma child_forth s s' p c : extends s s' -> child s p c -> child s' p c.
Proof.
  intros Hx (i & sp & Hi & Hsp & Hp). destruct (ex_info _ _ Hx c i Hi) as (i' & Hi' & _ & _ & E).
  destruct (ex_space _ _ Hx _ sp Hsp) as (sp' & Hsp' & E'). exists i', sp'. rewrite E. split; [exact Hi' |]. split; congruence.
Qed.

Lemma child_back s s' p c : invariant s -> extends s s' -> is_Some (info s !! c) -> child s' p c -> child s p c.
Proof.
  intros Hinv Hx [i Hi] (i' & sp' & Hi' & Hsp' & Hp). destruct (ex_info _ _ Hx c i Hi) as (i0 & Hi0 & _ & _ & E).
  assert (i0 = i') as -> by congruence. destruct (ln_space _ _ (iv_linked _ Hinv) c i Hi) as (sp & Hsp & _).
  destruct (ex_space _ _ Hx _ sp Hsp) as (sp0 & Hsp0 & E0). exists i, sp. split; [exact Hi |]. split; [exact Hsp |].
  rewrite E in Hsp'. congruence.
Qed.

Lemma descends_back s s' p t : invariant s -> extends s s' -> is_Some (info s !! t) -> descends s' p t -> descends s p t.
Proof.
  intros Hinv Hx Ht Hd. induction Hd as [_ | q c Hc Hd IH]; [constructor; exact Ht |].
  pose proof (child_back _ _ _ _ Hinv Hx Ht Hc) as Hc'. refine (descends_child _ _ q c Hc' (IH _)).
  destruct (child_older s q c Hinv Hc') as (iq & _ & Hq & _). eauto.
Qed.

(** The record of a task that was there before. *)
Lemma info_back s s' t i' : extends s s' -> is_Some (info s !! t) -> info s' !! t = Some i' ->
  exists i, info s !! t = Some i /\ i_seq i' = i_seq i /\ i_user i' = i_user i /\ i_space i' = i_space i.
Proof.
  intros Hx [i Hi] Hi'. destruct (ex_info _ _ Hx t i Hi) as (j & Hj & E). assert (j = i') as -> by congruence. eauto.
Qed.

Lemma guarded_forth s s' t : invariant s -> extends s s' -> is_Some (info s !! t) -> guarded s t -> guarded s' t.
Proof.
  intros Hinv Hx Ht Hg a (ia' & it' & Ha' & Ht' & Hlt & Hsp & Hser).
  destruct (info_back _ _ _ _ Hx Ht Ht') as (it & Hit & E1 & E2 & E3).
  assert (Ha : is_Some (info s !! a)).
  { destruct (info s !! a) as [ia |] eqn:Ha; [eauto | exfalso]. pose proof (ex_new _ _ Hx a ia' Ha' Ha).
    pose proof (st_seq _ _ (iv_static _ Hinv) t it Hit). lia. }
  destruct (info_back _ _ _ _ Hx Ha Ha') as (ia & Hia & F1 & F2 & F3).
  apply (ex_finished _ _ Hx a Ha), Hg. exists ia, it. rewrite <- E1, <- E2, <- E3, <- F1, <- F2, <- F3. auto.
Qed.

(** A new task is covered by its parent. *)
Lemma new_covered s s' p c ip ic : invariant s -> step s s' -> info s !! c = None ->
  child s' p c -> info s' !! p = Some ip -> info s' !! c = Some ic -> is_superset_of (i_user ip) (i_user ic) = true.
Proof.
  intros Hinv Hstep Hn (ic' & sp' & Hc' & Hsp' & Hpar) Hip Hic. assert (ic' = ic) as -> by congruence. clear Hc'.
  assert (Hset : forall t i st, info s !! t = Some i -> <[t := set_status st i]> (info s) !! c = None).
  { intros t i st Ht. rewrite lookup_insert_ne by congruence. exact Hn. }
  destruct Hstep as [p0 q ip0 task sp s Hip0 Hrun Hp Hc Hq Hsub | x t u wk sp w' user' s Hnt Hntt Hsp Hu Hp Hsub Huser
    | t i c0 b w' s Hi Hst Hroom Hini | t i w' s Hi Hst Hstart | t i task b w' s Hi Hst Ht Hs Hnt
    | t i b w' s Hi Hst Hnt | t task b w' s Ht Hs Hnt | t i x p0 w' s Hi Hst Hx Hroom Hev
    | t i x e c0 wk b w' s Hi Hst Hx Hp | x e c0 b w' s Hx Hs Hnt]; cbn [info world] in *;
    try (erewrite Hset in Hic by eassumption; discriminate); try congruence.
  apply lookup_insert_Some in Hic as [(<- & <-) | (_ & Hic)]; [| congruence]. cbn [i_space i_user] in *.
  destruct (submit_submitted s x t u wk sp w' Hinv Hnt Hntt Hsp Hp Hsub) as [l' Hd].
  pose proof (sb_spaces _ _ _ _ _ _ Hd x) as E. rewrite Hsp, Hsp' in E. injection E as _ E. rewrite Hpar in E. symmetry in E.
  destruct (Hp p E) as [(ip1 & Hip1 & Hrun) Hroom].
  assert (ip1 = ip) as -> by (rewrite lookup_insert_ne in Hip by congruence; congruence).
  destruct (submit_parent s x t u wk sp p ip w' Hinv Hnt Hsp E Hip1 Hrun Hroom Hsub) as (taskp & Htp & _ & _ & Hsup).
  destruct (ln_task _ _ (iv_linked _ Hinv) p taskp Htp) as (i & Hi & Eu & _). assert (i = ip) as -> by congruence.
  destruct (sb_task _ _ _ _ _ _ Hd) as (task & Htask & Et & _). rewrite Htask in Huser. injection Huser as <-.
  rewrite Et, <- Eu. exact Hsup.
Qed.

Lemma covered_step s s' : invariant s -> step s s' -> covered s -> covered s'.
Proof.
  intros Hinv Hstep Hcov p c ip' ic' Hc Hp' Hc'. pose proof (effect_extends _ _ Hinv (step_effect _ _ Hinv Hstep)) as Hx.
  destruct (info s !! c) as [ic |] eqn:Eic; [| eapply new_covered; eassumption].
  pose proof (child_back _ _ _ _ Hinv Hx ltac:(eauto) Hc) as Hc0. destruct (child_older s p c Hinv Hc0) as (ip & _ & Hp & _).
  destruct (info_back s s' p ip' Hx ltac:(eauto) Hp') as (ip1 & Hp1 & _ & -> & _).
  destruct (info_back s s' c ic' Hx ltac:(eauto) Hc') as (ic1 & Hc1 & _ & -> & _).
  exact (Hcov p c ip1 ic1 Hc0 Hp1 Hc1).
Qed.

(** When a task is finished, so is its family. *)
Lemma finished_descends s p t : invariant s -> family (info s) (world s) -> descends s p t ->
  finished_in p (world s) -> finished_in t (world s).
Proof.
  intros Hinv Hfam Hd Hp. induction Hd as [_ | q c Hc Hd IH]; [exact Hp |].
  destruct Hc as (i & sp & Hi & Hsp & Hpar). apply (owed_finished s q c Hinv); [| exact IH].
  exact (fm_parent _ _ Hfam c i sp q Hi Hsp Hpar).
Qed.

(** A resource that a task uses although it lies deeper than its parent reaches was
    made in the parent: it is used in the family of the parent only. *)
Definition private s : Prop := forall p c ip ic ra, child s p c -> info s !! p = Some ip -> info s !! c = Some ic ->
  ra ∈ access_list (i_user ic) -> ResourceUser.scope_level (i_user ip) < ra_scope ra ->
  forall d id rd, info s !! d = Some id -> rd ∈ access_list (i_user id) -> ra_serial ra rd = true -> descends s p d.

(** A conflict of a task is one of all above it, up to those both descend from. *)
Lemma conflict_up s r c d ic id : invariant s -> covered s -> private s -> descends s r c -> info s !! c = Some ic ->
  info s !! d = Some id -> is_serial (i_user ic) (i_user id) = true -> ~ descends s r d ->
  exists ir, info s !! r = Some ir /\ is_serial (i_user ir) (i_user id) = true.
Proof.
  intros Hinv Hcov Hpriv Hd. revert ic. induction Hd as [_ | q c Hc Hd IH]; intros ic Hic Hid Hser Hnd; [eauto |].
  destruct (child_older s q c Hinv Hc) as (iq & _ & Hq & _). apply (IH iq Hq Hid); [| exact Hnd].
  apply is_serial_iff in Hser as (rc & rd & Hrc & Hrd & Hser). apply is_serial_iff.
  destruct (Z.le_gt_cases (ra_scope rc) (ResourceUser.scope_level (i_user iq))) as [Hle | Hgt].
  - pose proof (Hcov q c iq ic Hc Hq Hic) as Hsup. rewrite is_superset_of_iff in Hsup.
    destruct (Hsup rc Hrc Hle) as (rq & Hrq & Hs). exists rq, rd. split; [exact Hrq |]. split; [exact Hrd |].
    eapply ra_superset_serial; eassumption.
  - exfalso. apply Hnd. exact (descends_trans _ _ _ _ Hd (Hpriv q c iq ic rc Hc Hq Hic Hrc ltac:(lia) d id rd Hid Hrd Hser)).
Qed.

(** The families of two tasks of a space that do not conflict do not conflict. *)
Lemma families_apart s r r' c d ir ir' ic id : invariant s -> covered s -> private s ->
  descends s r c -> descends s r' d -> info s !! r = Some ir -> info s !! r' = Some ir' -> i_space ir = i_space ir' -> r <> r' ->
  is_serial (i_user ir') (i_user ir) = false -> info s !! c = Some ic -> info s !! d = Some id ->
  is_serial (i_user ic) (i_user id) = false.
Proof.
  intros Hinv Hcov Hpriv Hc Hd Hr Hr' Esp Hne Hser Hic Hid. apply not_true_is_false. intros Ht.
  destruct (conflict_up s r c d ic id Hinv Hcov Hpriv Hc Hic Hid Ht) as (ir0 & Hr0 & Ht1).
  { intros Hrd. apply Hne. exact (descends_sibling s r r' d ir ir' Hinv Hrd Hd Hr Hr' Esp). }
  assert (ir0 = ir) as -> by congruence. rewrite is_serial_sym in Ht1.
  destruct (conflict_up s r' d r id ir Hinv Hcov Hpriv Hd Hid Hr Ht1) as (ir0 & Hr1 & Ht2); [| congruence].
  intros Hrr. apply Hne. symmetry. refine (descends_sibling s r' r r ir' ir Hinv Hrr _ Hr' Hr (eq_sym Esp)). constructor. eauto.
Qed.
End Tree.

(** ** Executions *)

(** What a task with given accesses may do to a memory of type [M], such that
    accesses that do not conflict are to independent parts of it. *)
Class Actions (RA M : Type) `{AccessOps RA} : Type := {
  permits : nat -> ResourceUser RA -> (M -> M) -> Prop;
  permits_commute : forall a b u v f g, a <> b -> is_serial u v = false -> permits a u f -> permits b v g ->
    forall m, f (g m) = g (f m)
}.

Section Executions.
Context {RA : Type} `{AccessOps RA} {M : Type} `{!Actions RA M}.

Record Execution : Type := mkExecution {
  runtime : State (RA := RA);
  memory : M;
  trace : list (Action M)
}.
Implicit Types (e : Execution) (s : State (RA := RA)).

(** A handler of the runtime, or a step of the function of a running task. *)
Inductive xstep : Execution -> Execution -> Prop :=
  | x_handler s s' m tr : step s s' -> xstep (mkExecution s m tr) (mkExecution s' m tr)
  | x_action t i f s m tr :
      info s !! t = Some i -> i_status i = Running -> permits t (i_user i) f ->
      xstep (mkExecution s m tr) (mkExecution s (f m) (tr ++ [(t, f)])).

Definition xinit (m0 : M) e : Prop := init (runtime e) /\ memory e = m0 /\ trace e = [].

(** When the task of space [x] was submitted that [t] descends from. *)
Definition submission (s : State (RA := RA)) (x t : nat) : option nat := r ← root_in (next_seq s) s x t; i_seq <$> info s !! r.

(** What the tasks of space [x] and those below them have done. *)
Definition under (x : nat) e : list (Action M) :=
  List.filter (fun a => match submission (runtime e) x (fst a) with Some _ => true | None => false end) (trace e).

(** The same for one task of the space, the [k]-th that was submitted. *)
Definition block (x k : nat) e : list (Action M) := with_key (fun a => submission (runtime e) x (fst a)) k (trace e).

(** One task after the other. *)
Definition serial (x : nat) e : list (Action M) := flat_map (fun k => block x k e) (seq 0 (next_seq (runtime e))).

(** ** Its invariant *)

(** If [b] is later than [a] and belongs to a task that was submitted before that of
    [a], to the same space, those do not conflict. *)
Definition in_order s (a b : Action M) : Prop := forall ra rb ira irb,
  descends s ra (fst a) -> descends s rb (fst b) -> info s !! ra = Some ira -> info s !! rb = Some irb ->
  i_space ira = i_space irb -> (i_seq irb < i_seq ira)%nat -> is_serial (i_user irb) (i_user ira) = false.

Record good_execution (m0 : M) e : Prop := {
  xi_reachable : reachable init step (runtime e);
  xi_covered : covered (runtime e);
  xi_spaces : forall q sp p, spaces (world (runtime e)) !! q = Some sp -> parent sp = Some p -> guarded (runtime e) p;
  xi_trace : forall a, a ∈ trace e -> guarded (runtime e) (fst a) /\
    exists i, info (runtime e) !! fst a = Some i /\ permits (fst a) (i_user i) (snd a);
  xi_order : StronglySorted (in_order (runtime e)) (trace e);
  xi_memory : memory e = apply_all (trace e) m0
}.
End Executions.

Arguments Execution RA M : clear implicits.

Section Proofs.
Context {RA : Type} `{AccessOps RA} `{!AccessLaws RA} {M : Type} `{!Actions RA M}.
Implicit Types (e : Execution RA M) (s : State (RA := RA)).

Lemma guarded_up s r t : (forall q sp p, spaces (world s) !! q = Some sp -> parent sp = Some p -> guarded s p) ->
  descends s r t -> guarded s t -> guarded s r.
Proof. intros Hsp. induction 1 as [_ | q c (i & sp & _ & Hq & Hp) Hd IH]; eauto. Qed.

Lemma spaces_guarded s s' : invariant s -> step s s' ->
  (forall q sp p, spaces (world s) !! q = Some sp -> parent sp = Some p -> guarded s p) ->
  forall q sp p, spaces (world s') !! q = Some sp -> parent sp = Some p -> guarded s' p.
Proof.
  intros Hinv Hstep Hsp q sp' p Hq' Hp. pose proof (step_effect _ _ Hinv Hstep) as Heff. pose proof (effect_extends _ _ Hinv Heff) as Hx.
  destruct (spaces (world s) !! q) as [sp |] eqn:Hq.
  - destruct (ex_space _ _ Hx q sp Hq) as (sp0 & Hq0 & E). assert (sp0 = sp') as -> by congruence. rewrite Hp in E.
    apply (guarded_forth _ _ _ Hinv Hx); [| eapply Hsp; eauto].
    destruct (ln_parent _ _ (iv_linked _ Hinv) q sp p Hq (eq_sym E)) as [i Hi]. eauto.
  - assert (Hback : forall w w' : World RA, (forall y, (fun sp => (depth sp, parent sp)) <$> spaces w' !! y = (fun sp => (depth sp, parent sp)) <$> spaces w !! y) ->
      spaces w !! q = None -> spaces w' !! q = None).
    { intros w w' E Hn. specialize (E q). rewrite Hn in E. destruct (spaces w' !! q); [discriminate | reflexivity]. }
    destruct Heff as [s w' m' bpost Hs HF | s p0 q0 task sp Hp0 Hq0 Hsub [ip [Hip Hrun]] | s t i u l' w' Hn Hseq Hsub
      | s t i w2 w' m' bpost Hi Hst Hs G A HF | s t i w2 w' m' bpost Hi Hst Hs G A HF | s x e w' bpost Hx0 Es HF]; cbn [world] in *.
    + rewrite (Hback (world s) w' (sf_spaces _ _ _ HF) Hq) in Hq'. discriminate.
    + cbn [spaces put_task put_space] in Hq'. apply lookup_insert_Some in Hq' as [(<- & <-) | (_ & Hq')]; [| congruence].
      assert (p0 = p) as <- by (unfold sub_space in Hsub; repeat (apply bind_Ok in Hsub as (? & _ & Hsub)); injection Hsub as <-; cbn [parent] in Hp; congruence).
      apply (guarded_forth s _ _ Hinv Hx); [eauto |]. intros a Ha.
      apply (od_safe _ _ (iv_ordered _ Hinv) a p0 ip Ha Hip). rewrite Hrun. reflexivity.
    + rewrite (Hback (world s) w' (sb_spaces _ _ _ _ _ _ Hsub) Hq) in Hq'. discriminate.
    + rewrite (Hback w2 w' (sf_spaces _ _ _ HF)) in Hq'; [discriminate |]. rewrite (gr_spaces _ _ _ G). exact Hq.
    + rewrite (Hback w2 w' (sf_spaces _ _ _ HF)) in Hq'; [discriminate |]. rewrite (gr_spaces _ _ _ G). exact Hq.
    + rewrite (Hback _ w' (sf_spaces _ _ _ HF)) in Hq'; [discriminate |]. exact Hq.
Qed.

Lemma in_order_forth s s' a b : invariant s -> extends s s' -> is_Some (info s !! fst a) -> is_Some (info s !! fst b) ->
  in_order (M := M) s a b -> in_order s' a b.
Proof.
  intros Hinv Hx Ha Hb Ho ra rb ira' irb' Hra Hrb Hia Hib Esp Hlt.
  pose proof (descends_back _ _ _ _ Hinv Hx Ha Hra) as Hra0. pose proof (descends_back _ _ _ _ Hinv Hx Hb Hrb) as Hrb0.
  destruct (descends_older s ra (fst a) Hinv Hra0) as (ira & _ & Hira & _), (descends_older s rb (fst b) Hinv Hrb0) as (irb & _ & Hirb & _).
  destruct (info_back s s' ra ira' Hx ltac:(eauto) Hia) as (i1 & H1 & E1 & E2 & E3).
  destruct (info_back s s' rb irb' Hx ltac:(eauto) Hib) as (i2 & H2 & F1 & F2 & F3).
  rewrite E2, F2. apply (Ho ra rb i1 i2 Hra0 Hrb0 H1 H2); congruence.
Qed.

Lemma good_handler m0 s s' m tr : step s s' -> good_execution m0 (mkExecution s m tr) -> good_execution m0 (mkExecution s' m tr).
Proof.
  intros Hstep [Hr Hcov Hsp Htr Ho Hm]. cbn [runtime memory trace] in *. pose proof (reachable_safe s Hr) as Hinv.
  pose proof (effect_extends _ _ Hinv (step_effect _ _ Hinv Hstep)) as Hx.
  assert (Hin : forall a, a ∈ tr -> is_Some (info s !! fst a)) by (intros a Ha; destruct (Htr a Ha) as (_ & i & Hi & _); eauto).
  constructor; cbn [runtime memory trace].
  - eapply reachable_step; eassumption.
  - eapply covered_step; eassumption.
  - eapply spaces_guarded; eassumption.
  - intros a Ha. destruct (Htr a Ha) as (Hg & i & Hi & Hp). split; [eapply guarded_forth; eauto |].
    destruct (ex_info _ _ Hx _ i Hi) as (i' & Hi' & _ & E & _). exists i'. rewrite E. auto.
  - eapply sorted_weaken; [| exact Ho]. intros a b Ha Hb. apply in_order_forth; auto.
  - exact Hm.
Qed.

Lemma good_action m0 s m tr t i f : info s !! t = Some i -> i_status i = Running -> permits t (i_user i) f ->
  good_execution m0 (mkExecution s m tr) -> good_execution m0 (mkExecution s (f m) (tr ++ [(t, f)])).
Proof.
  intros Hi Hrun Hper [Hr Hcov Hsp Htr Ho Hm]. cbn [runtime memory trace] in *.
  destruct (reachable_family s Hr) as [Hinv Hfam].
  constructor; cbn [runtime memory trace]; [exact Hr | exact Hcov | exact Hsp | | |].
  - intros a Ha. apply elem_of_app in Ha as [Ha | Ha]; [apply Htr, Ha |]. apply list_elem_of_singleton in Ha as ->. cbn [fst snd].
    split; [| eauto]. intros a Ha. apply (od_safe _ _ (iv_ordered _ Hinv) a t i Ha Hi). rewrite Hrun. reflexivity.
  - apply sorted_snoc; [exact Ho |]. intros a Ha ra rb ira irb Hra Hrb Hira Hirb Esp Hlt. cbn [fst] in Hrb.
    apply not_true_is_false. intros Hser. destruct (Htr a Ha) as (Hg & _).
    apply (running_not_finished s t i Hr Hi Hrun), (finished_descends s rb t Hinv Hfam Hrb), (guarded_up s ra (fst a) Hsp Hra Hg).
    exists irb, ira. auto.
  - rewrite apply_all_app, <- Hm. reflexivity.
Qed.

Lemma good_reachable m0 e : reachable (xinit m0) xstep e -> good_execution m0 e.
Proof.
  apply reachable_invariant.
  - intros [s m tr] (Hi & Em & Et). cbn [runtime memory trace] in *. subst m tr. assert (Ei : info s = ∅) by (rewrite Hi; reflexivity).
    constructor; cbn [runtime memory trace]; [apply reachable_init, Hi | | | | constructor | reflexivity].
    + intros p c ip ic (i & sp & Hc & _). rewrite Ei, lookup_empty in Hc. discriminate.
    + intros q sp p Hq. rewrite Hi in Hq. cbn [world initial_world spaces] in Hq. apply lookup_singleton_Some in Hq as [_ <-]. discriminate.
    + intros a Ha. inversion Ha.
  - intros e1 e2 Hg Hstep. destruct Hstep as [s s' m tr Hs | t i f s m tr Hi Hrun Hp];
      [eapply good_handler | eapply good_action]; eassumption.
Qed.

(** ** The theorem *)

Lemma submission_spec s x t k : invariant s -> submission s x t = Some k ->
  exists r ir, descends s r t /\ info s !! r = Some ir /\ i_space ir = x /\ i_seq ir = k.
Proof.
  intros Hinv Hk. apply bind_Some in Hk as (r & Hr & Hk). destruct (root_in_sound _ _ _ _ _ Hr) as (Hd & ir & Hir & Ex).
  rewrite Hir in Hk. injection Hk as <-. eauto 10.
Qed.

(** Every task is in the family of a task of the root space. *)
Lemma submission_root s t i : invariant s -> nested s -> info s !! t = Some i -> is_Some (submission s root_space t).
Proof.
  intros Hinv Hns Hi.
  assert (Hr : exists r ir, descends s r t /\ info s !! r = Some ir /\ i_space ir = root_space).
  { assert (Hle : (i_seq i < S (i_seq i))%nat) by lia. revert Hle. generalize (S (i_seq i)) as n. intros n. revert t i Hi.
    induction n as [| n IH]; intros t i Hi Hn; [lia |]. destruct (ln_space _ _ (iv_linked _ Hinv) t i Hi) as (sp & Hsp & Hpar).
    destruct (parent sp) as [p |] eqn:Hp.
    - destruct (Hpar p eq_refl) as (ip & Hip & Hlt). destruct (IH p ip Hip ltac:(lia)) as (r & ir & Hd & Hir & Ex).
      exists r, ir. split; [| auto]. refine (descends_child _ _ p t _ Hd). exists i, sp. auto.
    - exists t, i. split; [constructor; eauto |]. split; [exact Hi |]. exact (ns_only _ Hns _ sp Hsp Hp). }
  destruct Hr as (r & ir & Hd & Hir & Ex). unfold submission.
  rewrite (root_in_complete s root_space r t ir i Hinv Hd Hir Ex Hi); [cbn [mbind option_bind]; rewrite Hir; eauto |].
  exact (st_seq _ _ (iv_static _ Hinv) t i Hi).
Qed.

(** Two actions out of order are independent. *)
Lemma out_of_order m0 e x : good_execution m0 e -> private (runtime e) ->
  forall a b, a ∈ trace e -> b ∈ trace e -> in_order (runtime e) a b ->
  forall j k, submission (runtime e) x (fst a) = Some j -> submission (runtime e) x (fst b) = Some k -> (k < j)%nat -> independent a b.
Proof.
  intros HG Hpriv a b Ha Hb Ho j k Hj Hk Hlt. pose proof (reachable_safe _ (xi_reachable _ _ HG)) as Hinv.
  destruct (submission_spec _ _ _ _ Hinv Hj) as (ra & ira & Hra & Hira & Exa & <-).
  destruct (submission_spec _ _ _ _ Hinv Hk) as (rb & irb & Hrb & Hirb & Exb & <-).
  destruct (xi_trace _ _ HG a Ha) as (_ & ia & Hia & Hpa), (xi_trace _ _ HG b Hb) as (_ & ib & Hib & Hpb).
  assert (Hne : ra <> rb) by (intros ->; assert (ira = irb) as -> by congruence; lia).
  intros m. apply (permits_commute (fst a) (fst b) (i_user ia) (i_user ib)); [| | exact Hpa | exact Hpb].
  - intros E. rewrite E in Hra. apply Hne. apply (descends_sibling _ ra rb (fst b) ira irb Hinv); congruence.
  - apply (families_apart (runtime e) ra rb (fst a) (fst b) ira irb ia ib Hinv (xi_covered _ _ HG) Hpriv Hra Hrb Hira Hirb); try assumption; [congruence |].
    apply (Ho ra rb ira irb Hra Hrb Hira Hirb); [congruence | exact Hlt].
Qed.

(** C3 (serial): as the README promises, the memory is at any time as if the tasks of
    the root space had been run one after the other, each together with all tasks
    below it, in the order of their submission; and for any space, what its tasks and
    those below them have done is to every memory the same as these families of tasks
    one after the other in the order in which its tasks were submitted.  The functions
    of tasks may do whatever their accesses permit, where what accesses that do not
    conflict permit commutes, and a resource made inside a task is used only there. *)
Theorem serializable m0 e : reachable (xinit m0) xstep e -> private (runtime e) ->
  memory e = apply_all (serial root_space e) m0 /\ forall x, same_effect (under x e) (serial x e).
Proof.
  intros Hr Hpriv. pose proof (good_reachable m0 e Hr) as HG. pose proof (xi_reachable _ _ HG) as Hrs.
  destruct (reachable_nested _ Hrs) as (Hinv & _ & Hns).
  assert (Hx : forall x, same_effect (under x e) (serial x e)).
  { intros x. rewrite (apply_all_sort (fun a => submission (runtime e) x (fst a)) (next_seq (runtime e)) (under x e)).
    - unfold serial, block, under, with_key. erewrite flat_map_ext; [reflexivity |]. intros k.
      rewrite bfilter_filter. apply filter_ext. intros a. case_bool_decide as E; [rewrite E; reflexivity | apply andb_false_r].
    - intros a Ha. unfold under in Ha. rewrite list_elem_of_In, filter_In in Ha. destruct Ha as [_ Ha].
      destruct (submission (runtime e) x (fst a)) as [k |] eqn:Ek; [| discriminate]. exists k. split; [reflexivity |].
      destruct (submission_spec _ _ _ _ Hinv Ek) as (r & ir & _ & Hir & _ & <-). exact (st_seq _ _ (iv_static _ Hinv) r ir Hir).
    - apply sorted_filter. eapply sorted_weaken; [| exact (xi_order _ _ HG)]. exact (out_of_order m0 e x HG Hpriv). }
  split; [| exact Hx]. rewrite <- (Hx root_space m0), (xi_memory _ _ HG). f_equal. symmetry. apply forallb_filter_id, forallb_forall.
  intros a Ha. rewrite <- list_elem_of_In in Ha. destruct (xi_trace _ _ HG a Ha) as (_ & i & Hi & _).
  destruct (submission_root _ _ i Hinv Hns Hi) as [k Ek]. rewrite Ek. reflexivity.
Qed.
End Proofs.

(** ** The objects behind the accesses [io] *)

Section IOMemory.
#[local] Existing Instances run_ops run_laws.
Import Access Guards ResourceUser.
Implicit Types (u v : ResourceUser Guards.RA) (m : gmap nat Z).

Definition io_mode (ra : Guards.RA) : option IOAccess :=
  match access_type ra as t return policy t -> option IOAccess with
  | IO_policy => Some
  | Field_policy _ => fun _ => None
  end (access_policy ra).

Definition join (a b : option IOAccess) : option IOAccess :=
  match a, b with
  | Some a, Some b => if decide (a = b) then Some a else Some write
  | None, b => b
  | a, None => a
  end.

Definition uses (r : nat) (ra : Guards.RA) : option IOAccess :=
  if (r_ptr (resource ra) =? r)%nat then io_mode ra else None.

(** What a task may do to the object of a resource. *)
Definition right u (r : nat) : option IOAccess := foldr (fun ra a => join (uses r ra) a) None (access_list u).

(** The task sets the objects it writes, adds to or multiplies those it adds to or
    multiplies, and the amounts depend only on the objects it reads or writes. *)
Definition io_permits (t : nat) u (f : gmap nat Z -> gmap nat Z) : Prop :=
  exists amount : gmap nat Z -> nat -> Z,
    (forall m m', (forall r, right u r = Some read \/ right u r = Some write -> m !! r = m' !! r) ->
       forall r, amount m r = amount m' r) /\
    forall m r, f m !! r = match right u r with
      | Some write => Some (amount m r)
      | Some aadd => Z.add (amount m r) <$> m !! r
      | Some amul => Z.mul (amount m r) <$> m !! r
      | Some read | None => m !! r
      end.

Lemma uses_serial r ra rb a b : uses r ra = Some a -> uses r rb = Some b -> ra_serial ra rb = io_is_serial a b.
Proof.
  unfold uses, io_mode. destruct ra as [[| d] res a'], rb as [[| d'] res' b']; simpl;
    destruct (Nat.eqb_spec (r_ptr res) r) as [E |], (Nat.eqb_spec (r_ptr res') r) as [E' |]; try discriminate.
  intros [= ->] [= ->]. unfold erased_is_serial, same_object. simpl. rewrite E, E', Nat.eqb_refl. reflexivity.
Qed.

Lemma right_some u r a : right u r = Some a -> exists ra b, ra ∈ access_list u /\ uses r ra = Some b.
Proof.
  unfold right. revert a. induction (access_list u) as [| ra l IH]; intros a Ha; [discriminate |]. simpl in Ha.
  destruct (uses r ra) as [b |] eqn:E; [exists ra, b; split; [left | exact E] |].
  destruct (IH a Ha) as (rb & b & Hin & Eb). exists rb, b. split; [right; exact Hin | exact Eb].
Qed.

Lemma right_all u r c : (forall ra b, ra ∈ access_list u -> uses r ra = Some b -> b = c) -> right u r = None \/ right u r = Some c.
Proof.
  unfold right. induction (access_list u) as [| ra l IH]; intros Hall; [auto |]. simpl.
  assert (Hl : forall ra b, ra ∈ l -> uses r ra = Some b -> b = c) by (intros x b Hx; apply Hall; right; exact Hx).
  destruct (uses r ra) as [b |] eqn:E; [| exact (IH Hl)]. rewrite (Hall ra b ltac:(left) E). right.
  destruct (IH Hl) as [-> | ->]; simpl; [reflexivity |]. rewrite decide_True by reflexivity. reflexivity.
Qed.

(** Tasks that do not conflict share an object only to read it, to add to it or to
    multiply it. *)
Lemma right_shared u v r a b : is_serial u v = false -> right u r = Some a -> right v r = Some b -> a = b /\ a <> write.
Proof.
  intros Hser Ha Hb.
  assert (Hpair : forall ra rb c d, ra ∈ access_list u -> rb ∈ access_list v -> uses r ra = Some c -> uses r rb = Some d -> c = d /\ c <> write).
  { intros ra rb c d Hra Hrb Ec Ed.
    assert (Hn : io_is_serial c d = false).
    { rewrite <- (uses_serial r ra rb c d Ec Ed). apply not_true_is_false. intros Ht. apply not_true_iff_false in Hser. apply Hser, is_serial_iff. eauto. }
    destruct c, d; (discriminate Hn || (split; [reflexivity | discriminate])). }
  destruct (right_some u r a Ha) as (ra & c & Hra & Ec), (right_some v r b Hb) as (rb & d & Hrb & Ed).
  destruct (Hpair ra rb c d Hra Hrb Ec Ed) as [<- Hw].
  destruct (right_all u r c) as [E | E]; [| congruence |].
  { intros x y Hx Ey. exact (proj1 (Hpair x rb y c Hx Hrb Ey Ed)). }
  destruct (right_all v r c) as [E' | E']; [| congruence |].
  { intros x y Hx Ey. symmetry. exact (proj1 (Hpair ra x c y Hra Hx Ec Ey)). }
  rewrite E in Ha. rewrite E' in Hb. injection Ha as <-. injection Hb as <-. auto.
Qed.

(** What one of two such tasks does leaves the amounts of the other as they are. *)
Lemma amounts_kept t u v g (amount : gmap nat Z -> nat -> Z) m : is_serial u v = false -> io_permits t v g ->
  (forall m m', (forall r, right u r = Some read \/ right u r = Some write -> m !! r = m' !! r) -> forall r, amount m r = amount m' r) ->
  forall r, amount (g m) r = amount m r.
Proof.
  intros Hser (am & _ & Hg) Hdep. apply Hdep. intros r Hr. rewrite Hg.
  destruct (right v r) as [b |] eqn:Eb; [| reflexivity].
  destruct Hr as [Hr | Hr]; destruct (right_shared u v r _ b Hser Hr Eb) as [<- Hw]; congruence.
Qed.

Lemma io_commute a b u v f g : a <> b -> is_serial u v = false -> io_permits a u f -> io_permits b v g -> forall m, f (g m) = g (f m).
Proof.
  intros _ Hser Hf Hg m. pose proof Hser as Hser'. rewrite is_serial_sym in Hser'.
  pose proof Hf as (af & Df & Ef). pose proof Hg as (ag & Dg & Eg).
  pose proof (amounts_kept b u v g af m Hser Hg Df) as Kf. pose proof (amounts_kept a v u f ag m Hser' Hf Dg) as Kg.
  apply map_eq. intros r. rewrite Ef, Eg, Eg, Ef, Kf, Kg.
  destruct (right u r) as [x |] eqn:Ex, (right v r) as [y |] eqn:Ey; [| destruct x; reflexivity | destruct y; reflexivity | reflexivity].
  destruct (right_shared u v r x y Hser Ex Ey) as [<- Hw].
  destruct x; [congruence | reflexivity | |]; destruct (m !! r); simpl; try reflexivity; f_equal; lia.
Qed.

#[export] Instance io_actions : Actions Guards.RA (gmap nat Z) := {
  permits := io_permits;
  permits_commute := io_commute
}.

(** A task that writes one object sets it to what it makes of its old value. *)
Definition update (r : nat) (g : option Z -> Z) (m : gmap nat Z) : gmap nat Z := <[r := g (m !! r)]> m.

Lemma update_permitted t u r g : access_list u = access_list (writes r) -> permits t u (update r g).
Proof.
  intros E. exists (fun m _ => g (m !! r)).
  assert (Er : forall r', right u r' = if (r =? r')%nat then Some write else None).
  { intros r'. unfold right. rewrite E. simpl. unfold uses, io_mode. simpl. destruct (r =? r')%nat; reflexivity. }
  split; [intros m m' Hm _; rewrite (Hm r); [reflexivity |]; rewrite Er, Nat.eqb_refl; auto |].
  intros m r'. rewrite Er. unfold update. destruct (Nat.eqb_spec r r') as [<- | Hne]; [apply lookup_insert_eq | apply lookup_insert_ne, Hne].
Qed.

(** ** A run *)

Lemma handlers_run l l' m tr : Forall good l' -> exec_all l' (state_after l) = Some (state_after (l ++ l')) ->
  rtc xstep (mkExecution (state_after l) m tr) (mkExecution (M := gmap nat Z) (state_after (l ++ l')) m tr).
Proof.
  intros Hg E. pose proof (exec_all_rtc _ _ _ Hg E) as R. clear E. induction R as [s | s1 s2 s3 Hs _ IH]; [apply rtc_refl |].
  eapply rtc_l; [apply x_handler, Hs | exact IH].
Qed.

Definition started_out_of_order : list Command :=
  [CSubmit 0 0 (writes 7) 0; CSubmit 0 1 (writes 8) 0; CSubmit 0 2 (writes 7) 0;
   CInit 1 false; CInit 2 false; CInit 0 false; CStart 1; CStart 0].
Definition with_child : list Command :=
  [CReturn 0; CSpace 1 1; CSubmit 1 3 (writes 8) 0; CStart 2; CInit 3 false; CStart 3].

(** Task 1 sets object 8, task 0 sets object 7 and returns, task 2 adds to object 7,
    and a child of task 1 adds to object 8. *)
Definition actions : list (Action (gmap nat Z)) :=
  [(1%nat, update 8 (fun _ => 10)); (0%nat, update 7 (fun _ => 20));
   (2%nat, update 7 (fun o => default 0 o + 1)); (3%nat, update 8 (fun o => default 0 o + 2))].

Definition interleaved : Execution Guards.RA (gmap nat Z) :=
  mkExecution (state_after (started_out_of_order ++ with_child)) (apply_all actions ∅) actions.

(** One more action of a running task. *)
Lemma action_run e0 l r k g m tr t i :
  rtc xstep e0 (mkExecution (state_after l) m tr) -> info (state_after l) !! t = Some i -> i_status i = Running ->
  access_list (i_user i) = access_list (writes r) -> k = update r g ->
  rtc xstep e0 (mkExecution (state_after l) (k m) (tr ++ [(t, k)])).
Proof. intros Hr Hi Hrun Ea ->. eapply rtc_r; [exact Hr |]. eapply x_action; [exact Hi | exact Hrun | apply update_permitted, Ea]. Qed.

Lemma interleaved_reachable : reachable (xinit ∅) xstep interleaved.
Proof.
  exists (mkExecution start_state ∅ []). split; [split; [reflexivity | split; reflexivity] |].
  pose proof (handlers_run [] started_out_of_order ∅ [] ltac:(good_run) ltac:(vm_compute; reflexivity)) as R.
  eapply (action_run _ _ 8 _ _ _ _ 1 (info_of (state_after started_out_of_order) 1)) in R;
    [| vm_compute; reflexivity | vm_compute; reflexivity | vm_compute; reflexivity | reflexivity].
  eapply (action_run _ _ 7 _ _ _ _ 0 (info_of (state_after started_out_of_order) 0)) in R;
    [| vm_compute; reflexivity | vm_compute; reflexivity | vm_compute; reflexivity | reflexivity].
  pose proof (transitivity R (handlers_run started_out_of_order with_child _ _ ltac:(good_run) ltac:(vm_compute; reflexivity))) as R'.
  eapply (action_run _ _ 7 _ _ _ _ 2 (info_of (state_after (started_out_of_order ++ with_child)) 2)) in R';
    [| vm_compute; reflexivity | vm_compute; reflexivity | vm_compute; reflexivity | reflexivity].
  eapply (action_run _ _ 8 _ _ _ _ 3 (info_of (state_after (started_out_of_order ++ with_child)) 3)) in R';
    [| vm_compute; reflexivity | vm_compute; reflexivity | vm_compute; reflexivity | reflexivity].
  exact R'.
Qed.

(** All resources of the run were made outside of all tasks. *)
Definition shallow (x : nat * Info (RA := Guards.RA)) : bool :=
  (0 <=? ResourceUser.scope_level (i_user (snd x))) && forallb (fun ra => ra_scope ra =? 0) (access_list (i_user (snd x))).

Lemma shallow_private s : forallb shallow (map_to_list (info s)) = true -> private s.
Proof.
  intros Hall p c ip ic ra _ Hp Hic Hra Hlt. exfalso. rewrite forallb_forall in Hall.
  assert (Hin : forall t i, info s !! t = Some i -> shallow (t, i) = true)
    by (intros t i Hi; apply Hall; rewrite <- list_elem_of_In; apply elem_of_map_to_list, Hi).
  pose proof (Hin p ip Hp) as Sp. pose proof (Hin c ic Hic) as Sc. apply andb_true_iff in Sp as [Sp _], Sc as [_ Sc].
  rewrite forallb_forall in Sc. rewrite list_elem_of_In in Hra. specialize (Sc ra Hra). cbn [snd] in Sp. lia.
Qed.

Example serial_order : fst <$> serial root_space interleaved = [0; 1; 3; 2]%nat.
Proof. vm_compute. reflexivity. Qed.

Lemma serializable_witness : memory interleaved = apply_all (serial root_space interleaved) ∅.
Proof. apply (serializable ∅ interleaved interleaved_reachable). apply shallow_private. vm_compute. reflexivity. Defined.
End IOMemory.
End Serial.
