(* ===== verification/SpaceCount.v ===== *)
(** The task counter of a space counts the tasks in it; so [barrier], which waits
    for the counter of the root space, waits for exactly the tasks submitted to
    the root space ([redGrapes/task/task_space.hpp], [redGrapes/redGrapes.tpp]). *)

From Stdlib Require Import ZArith Lia Bool.
From stdpp Require Import base gmap list strings relations.
From S2P Require Import Prelude Access Resource Guards ResourceUser Entries Graph GraphNotify.
From S2P Require Import GraphInv GraphInit GraphSubmit GraphEvents System SystemSafe SystemRun SystemProps.

Open Scope Z_scope.
Open Scope word_scope.

Module SpaceCount.
Import Resource ResourceUser Graph GraphNotify GraphInv GraphSubmit System SystemSafe.

Section Count.
Context {RA : Type} `{AccessOps RA} `{!AccessLaws RA}.
Implicit Types (w : World RA) (task : Task RA) (s : State (RA := RA)).

Definition in_space (x : nat) (_ : nat) (o : option nat) : nat := if decide (o = Some x) then 1 else 0.

(** The number of tasks in space [x]. *)
Definition members (x : nat) w : nat := map_sum (in_space x) (space <$> tasks w).

Definition counted w : Prop := forall x sp, spaces w !! x = Some sp -> task_count sp = u32 (Z.of_nat (members x w)).

(** Same spaces, same tasks, each in the space it was in. *)
Definition same_members w w' : Prop := spaces w' = spaces w /\ forall t, space <$> tasks w' !! t = space <$> tasks w !! t.

Lemma counted_same w w' : same_members w w' -> counted w -> counted w'.
Proof.
  intros [Es Et] Hc x sp Hx. rewrite Es in Hx. rewrite (Hc x sp Hx). unfold members.
  assert (E : space <$> tasks w' = space <$> tasks w) by (apply map_eq; intros t; rewrite !lookup_fmap; apply Et).
  rewrite E. reflexivity.
Qed.

Lemma same_members_refl w : same_members w w.
Proof. split; reflexivity. Qed.

Lemma same_members_trans w1 w2 w3 : same_members w1 w2 -> same_members w2 w3 -> same_members w1 w3.
Proof. intros [A1 B1] [A2 B2]. split; [congruence |]. intros t. rewrite B2. apply B1. Qed.

Lemma same_put_task t task task' w :
  tasks w !! t = Some task -> space task' = space task -> same_members w (put_task t task' w).
Proof.
  intros Ht E. split; [reflexivity |]. intros u. simpl. destruct (decide (t = u)) as [<- | Hne].
  - rewrite lookup_insert_eq, Ht. simpl. rewrite E. reflexivity.
  - rewrite lookup_insert_ne by exact Hne. reflexivity.
Qed.

Lemma same_put_event p e w w' : put_event p e w = Ok w' -> same_members w w'.
Proof.
  unfold put_event, get_task. intros E. destruct (tag p); try discriminate E; res_inv;
    try (eapply same_put_task; [eassumption | reflexivity]). split; reflexivity.
Qed.

Lemma same_modify p f w w' : modify_event p f w = Ok w' -> same_members w w'.
Proof. unfold modify_event. intros E. apply bind_Ok in E as (e & _ & E). eapply same_put_event, E. Qed.

Lemma same_add_follower p f w w' : add_follower p f w = Ok w' -> same_members w w'.
Proof.
  unfold add_follower. intros E. apply bind_Ok in E as (e & _ & E).
  destruct (is_reached e); [injection E as <-; apply same_members_refl |].
  apply bind_Ok in E as (w1 & E1 & E). apply same_modify in E1, E. eapply same_members_trans; eassumption.
Qed.

Lemma same_remove_users l : forall w, same_members w (remove_users l w).
Proof.
  induction l as [| r l IH]; intros w; [apply same_members_refl |]. simpl. destruct (user_entry r); [| apply IH].
  eapply same_members_trans; [| apply IH]. split; reflexivity.
Qed.

Lemma members_same x w w' : same_members w w' -> members x w' = members x w.
Proof.
  intros [_ Et]. unfold members. f_equal. apply map_eq. intros t. rewrite !lookup_fmap. apply Et.
Qed.

Lemma members_delete x q t task w w' :
  tasks w !! t = Some task -> space task = Some q -> tasks w' = delete t (tasks w) ->
  members x w = (in_space x t (Some q) + members x w')%nat.
Proof.
  intros Ht Es E. unfold members. rewrite E, (map_sum_delete (in_space x) (space <$> tasks w) t (Some q)).
  - rewrite fmap_delete. reflexivity.
  - rewrite lookup_fmap, Ht. simpl. congruence.
Qed.

(** Removing a task from the space it is in. *)
Lemma counted_free q t task w w' :
  tasks w !! t = Some task -> space task = Some q -> counted w -> free_task q t w = Ok w' -> counted w'.
Proof.
  intros Ht Es Hc E. unfold free_task in E. apply bind_Ok in E as (sp & Hsp & E). apply deref_Ok in Hsp.
  set (w1 := mkWorld (delete t (tasks w)) (events w)
    (<[q := mkSpace (u32 (task_count sp - 1)) (depth sp) (parent sp)]> (spaces w)) (users w) (calls w)).
  assert (Hm : forall x, members x w = (in_space x t (Some q) + members x w1)%nat) by (intros x; eapply members_delete; eauto).
  assert (Hc1 : counted w1).
  { intros x spx Hx. simpl in Hx. specialize (Hm x). unfold in_space in Hm.
    apply lookup_insert_Some in Hx as [(<- & <-) | (Hne & Hx)].
    - cbn [task_count]. rewrite (Hc q sp Hsp). rewrite decide_True in Hm by reflexivity. rewrite Hm.
      unfold wrap. rewrite Zminus_mod_idemp_l. f_equal. lia.
    - rewrite decide_False in Hm by congruence. rewrite (Hc x spx Hx), Hm. reflexivity. }
  injection E as <-. destruct (_ && _); (eapply counted_same; [| exact Hc1]); split; reflexivity.
Qed.

Lemma counted_reached_after p t w w' : reached_after p t w = Ok w' -> counted w -> counted w'.
Proof.
  unfold reached_after. intros E Hc. destruct (_ || _); [| injection E as <-; exact Hc].
  apply bind_Ok in E as (task & Ht & E). unfold get_task in Ht. apply deref_Ok in Ht.
  set (task1 := with_countdown (u8 (removal_countdown task - 1)) task) in *.
  assert (Hc1 : counted (put_task t task1 w)) by (eapply counted_same; [eapply same_put_task; [exact Ht | reflexivity] | exact Hc]).
  destruct (removal_countdown task =? 1); [| injection E as <-; exact Hc1].
  apply bind_Ok in E as (x & Hx & E). apply deref_Ok in Hx.
  apply (counted_free x t task1 (put_task t task1 w) w'); [apply lookup_insert_eq | exact Hx | exact Hc1 | exact E].
Qed.

Lemma counted_notify fuel p claimed w b w' : notify fuel p claimed w = Ok (b, w') -> counted w -> counted w'.
Proof.
  revert fuel p claimed w b w'. apply (notify_rel (fun w w' => counted w -> counted w')); auto.
  - intros p e w w' _ E. eapply counted_same, same_put_event, E.
  - intros l w. apply counted_same, same_remove_users.
  - intros p t w w' E. eapply counted_reached_after, E.
Qed.

(** ** Entering a space *)

Lemma same_add_dependency a t w w' : add_dependency a t w = Ok w' -> same_members w w'.
Proof.
  unfold add_dependency. intros E. apply bind_Ok in E as (x & _ & E). apply bind_Ok in E as (y & _ & E).
  cbv zeta in E. apply bind_Ok in E as (e & _ & E).
  destruct (negb (is_reached e)); [eapply same_add_follower, E | injection E as <-; apply same_members_refl].
Qed.

Lemma same_check t par r l : forall w w', check_predecessors t par r l w = Ok w' -> same_members w w'.
Proof.
  induction l as [| a l IH]; intros w w' E; cbn [check_predecessors] in E; [injection E as <-; apply same_members_refl |].
  destruct (bool_decide (Some a = par)); [injection E as <-; apply same_members_refl |].
  apply bind_Ok in E as (ta & _ & E). apply bind_Ok in E as (tb & _ & E). destruct (_ && _); [| eapply IH, E].
  apply bind_Ok in E as (w1 & E1 & E). apply bind_Ok in E as (ta' & _ & E). apply same_add_dependency in E1.
  destruct (has_sync_access r (user ta')); [injection E as <-; exact E1 |].
  eapply same_members_trans; [exact E1 | eapply IH, E].
Qed.

Lemma same_init_graph t w w' : init_graph t w = Ok w' -> same_members w w'.
Proof.
  unfold init_graph. intros E. apply bind_Ok in E as (task & _ & E). apply bind_Ok in E as (sx & _ & E).
  apply bind_Ok in E as (sp & _ & E). revert w w' E. generalize (unique_resources (user task)).
  intros l. induction l as [| r l IH]; intros w w' E; cbn [init_resources] in E; [injection E as <-; apply same_members_refl |].
  destruct (user_entry r); [| eapply IH, E].
  apply bind_Ok in E as (w1 & E1 & E). eapply same_members_trans; [eapply same_check, E1 | eapply IH, E].
Qed.

Lemma same_push_users t l : forall w, same_members w (snd (push_users t l w)).
Proof.
  induction l as [| r l IH]; intros w; [apply same_members_refl |]. cbn [push_users].
  destruct (Entries.push t (get_users (r_ptr (ue_resource r)) w)) as [k us].
  specialize (IH (put_users (r_ptr (ue_resource r)) us w)).
  destruct (push_users t l (put_users (r_ptr (ue_resource r)) us w)) as [l' w']. exact IH.
Qed.

Lemma same_make_event x t p w w' : make_event x t w = Ok (p, w') -> same_members w w'.
Proof.
  unfold make_event. intros E. cbv zeta in E. apply bind_Ok in E as (w1 & E1 & E). injection E as _ <-.
  apply same_add_follower in E1. eapply same_members_trans; [| exact E1]. split; reflexivity.
Qed.

Lemma same_prepare_pause t wk p w w' : prepare_pause t wk p w = Ok w' -> same_members w w'.
Proof.
  unfold prepare_pause, sg_pause. intros E. apply bind_Ok in E as (w1 & E1 & E). apply bind_Ok in E as (w3 & E2 & E).
  apply bind_Ok in E2 as (w2 & E2 & E3). apply same_modify in E1, E2, E. apply same_add_follower in E3.
  eauto using same_members_trans.
Qed.

(** [submit] counts the new task, which is in no space yet. *)
Lemma counted_submit x t task w w' :
  tasks w !! t = None -> counted w -> submit x t (put_task t task w) = Ok w' -> counted w'.
Proof.
  intros Hn Hc E. unfold submit in E. apply bind_Ok in E as (task0 & Ht & E). unfold get_task in Ht. simpl in Ht.
  rewrite lookup_insert_eq in Ht. injection Ht as <-. apply bind_Ok in E as (sp & Hsp & E). apply deref_Ok in Hsp.
  simpl in Hsp. cbv zeta in E.
  set (w1 := put_space x (mkSpace (u32 (task_count sp + 1)) (depth sp) (parent sp))
    (put_task t (with_space (Some x) task) (put_task t task w))) in E.
  assert (Hm : forall y, members y w1 = (in_space y t (Some x) + members y w)%nat).
  { intros y. unfold members, w1. simpl. rewrite insert_insert_eq, fmap_insert. simpl.
    apply map_sum_insert_new. rewrite lookup_fmap, Hn. reflexivity. }
  assert (Hc1 : counted w1).
  { intros y spy Hy. simpl in Hy. specialize (Hm y). unfold in_space in Hm.
    apply lookup_insert_Some in Hy as [(<- & <-) | (Hne & Hy)].
    - cbn [task_count]. rewrite (Hc x sp Hsp), Hm, decide_True by reflexivity.
      unfold wrap. rewrite Zplus_mod_idemp_l. f_equal. lia.
    - rewrite decide_False in Hm by congruence. rewrite (Hc y spy Hy), Hm. reflexivity. }
  apply bind_Ok in E as (w2 & E2 & E). apply bind_Ok in E as (task2 & Ht2 & E).
  unfold get_task in Ht2. apply deref_Ok in Ht2.
  assert (S2 : same_members w1 w2).
  { destruct (parent sp) as [p |]; [| injection E2 as <-; apply same_members_refl].
    apply bind_Ok in E2 as (pt & _ & E2). apply bind_Ok in E2 as (u & _ & E2). eapply same_add_follower, E2. }
  pose proof (same_push_users t (unique_resources (user task2)) w2) as S3.
  destruct (push_users t (unique_resources (user task2)) w2) as [en w3] eqn:Ep. simpl in S3. injection E as <-.
  eapply counted_same; [| exact (counted_same _ _ (same_members_trans _ _ _ S2 S3) Hc1)].
  destruct S3 as [_ S3]. specialize (S3 t). rewrite Ht2 in S3.
  destruct (tasks w3 !! t) as [task3 |] eqn:Ht3; [| discriminate]. injection S3 as S3.
  apply (same_put_task t task3); [exact Ht3 | simpl; congruence].
Qed.

(** ** Every step *)

Lemma counted_step s s' : invariant s -> counted (world s) -> step s s' -> counted (world s').
Proof.
  intros Hinv Hc Hstep.
  destruct Hstep as [p q ip task sp s Hip Hrun Hp Hch Hq Hsub | x t u wk sp w' user' s Hn Hnt Hsp Hu Hp Hsub Huser
    | t i cl b w' s Hi Hst Hroom Hini | t i w' s Hi Hst Hstart | t i task b w' s Hi Hst Ht Hs Hn
    | t i b w' s Hi Hst Hn | t task b w' s Ht Hs Hn | t i x p w' s Hi Hst Hx Hroom Hev
    | t i x e c wk b w' s Hi Hst Hx Hp | x e c b w' s Hx Hs Hn]; simpl;
    try (eapply counted_notify; eassumption).
  - assert (Hsub' : counted (put_space q sp (world s))).
    { unfold sub_space in Hsub. apply bind_Ok in Hsub as (tp & _ & Hsub). apply bind_Ok in Hsub as (sx & _ & Hsub).
      apply bind_Ok in Hsub as (spx & _ & Hsub). injection Hsub as <-. intros y spy Hy. simpl in Hy.
      apply lookup_insert_Some in Hy as [(<- & <-) | (Hne & Hy)]; [| apply (Hc y spy Hy)].
      cbn [task_count]. unfold members. simpl. rewrite map_sum_zero; [reflexivity |].
      intros a o Ha. rewrite lookup_fmap in Ha. destruct (tasks (world s) !! a) as [ta |] eqn:Eta; [| discriminate].
      injection Ha as <-. unfold in_space. apply decide_False. intros E.
      destruct (ln_task _ _ (iv_linked _ Hinv) a ta Eta) as (ia & Hia & _ & Esp). rewrite E in Esp. injection Esp as ->.
      destruct (ln_space _ _ (iv_linked _ Hinv) a ia Hia) as (spa & Hspa & _). congruence. }
    eapply counted_same; [| exact Hsub']. apply (same_put_task p task); [exact Hp | reflexivity].
  - eapply counted_submit; eassumption.
  - unfold init_task in Hini. apply bind_Ok in Hini as (w1 & E1 & Hini). apply bind_Ok in Hini as (w2 & E2 & Hini).
    eapply counted_notify; [exact Hini |]. eapply counted_same; [| exact Hc].
    eapply same_members_trans; [eapply same_modify, E1 | eapply same_init_graph, E2].
  - unfold start_task in Hstart. apply bind_Ok in Hstart as (task & _ & Hstart).
    apply bind_Ok in Hstart as (u & _ & Hstart). apply bind_Ok in Hstart as ([b w2] & En & Hstart).
    injection Hstart as <-. eapply counted_notify; eassumption.
  - eapply counted_same; [eapply same_make_event, Hev | exact Hc].
  - unfold pause_task in Hp. apply bind_Ok in Hp as (w2 & Ep & Hp).
    eapply counted_notify; [exact Hp |]. eapply counted_same; [eapply same_prepare_pause, Ep | exact Hc].
Qed.

Lemma reachable_counted s : reachable init step s -> invariant s /\ counted (world s).
Proof.
  intros Hr. apply (reachable_invariant init step (fun s => invariant s /\ counted (world s))) in Hr; [exact Hr | |].
  - intros s0 Hi. split; [apply invariant_init, Hi |]. rewrite Hi. intros x sp Hx. simpl in Hx.
    apply lookup_singleton_Some in Hx as [<- <-]. unfold members. simpl. rewrite fmap_empty. reflexivity.
  - intros s1 s2 [Hinv Hc] Hstep. split; [eapply invariant_step; eassumption | eapply counted_step; eassumption].
Qed.
End Count.
End SpaceCount.
