(* ===== verification/Shutdown.v ===== *)
(** The life of the worker threads: started by the constructor of [RedGrapes],
    stopped and joined by its destructor ([redGrapes/redGrapes.hpp],
    [scheduler/pool_scheduler.tpp], [dispatch/thread/worker_pool.tpp],
    [WorkerThread.hpp], [DefaultWorker.tpp]).  Each worker has a condition variable
    of [CondVar]; one atomic operation is one step. *)

From Stdlib Require Import ZArith Lia Bool.
From stdpp Require Import base list relations.
From S2P Require Import Prelude CondVar.

Open Scope Z_scope.
Open Scope word_scope.

Module Shutdown.
Import CondVar.

#[local] Instance pc_eq_dec : EqDecision pc.
Proof. solve_decision. Defined.

(** Where a worker thread is: not started; before it looks at [m_stop]; in
    [cv.wait]; in the inner loop that gathers and executes tasks; at its end. *)
Inductive WorkerPc : Type := NotStarted | Test | Waiting | Gather | Finished.

(** [found]: the tasks [gather_task] will still give.  In the condition variable
    the worker is thread 0, the main thread, when it stops the worker, is thread 1,
    and whoever else calls [wake] are the other threads. *)
Record WorkerThread : Type := mkThread {
  m_stop : bool;
  cv : CondVar;
  worker_pc : WorkerPc;
  found : nat
}.

(** The main thread starts the workers in their order, runs the program up to the
    end of the barrier, and then stops the workers in their order: it sets
    [m_stop], notifies and joins. *)
Inductive MainPc : Type :=
  | Starting (i : nat)
  | Running
  | Stopping (i : nat)
  | Notifying (i : nat)
  | Joining (i : nat)
  | Ended.

Record State : Type := mkState { main : MainPc; workers : list WorkerThread }.

Definition with_cv (c : CondVar) (w : WorkerThread) : WorkerThread := mkThread (m_stop w) c (worker_pc w) (found w).
Definition with_pc (p : WorkerPc) (w : WorkerThread) : WorkerThread := mkThread (m_stop w) (cv w) p (found w).
Definition with_found (n : nat) (w : WorkerThread) : WorkerThread := mkThread (m_stop w) (cv w) (worker_pc w) n.

(** [WorkerThread::start] *)
Definition start (w : WorkerThread) : WorkerThread := with_pc Test w.

(** [DefaultWorker::stop], up to the call of [notify]. *)
Definition stop (w : WorkerThread) : WorkerThread := mkThread true (go 1 Exchange (cv w)) (worker_pc w) (found w).

(** The worker calls [cv.wait]. *)
Definition wait (w : WorkerThread) : WorkerThread := mkThread (m_stop w) (go 0 (Loop 0) (cv w)) Waiting (found w).

Definition update (i : nat) (w : WorkerThread) (s : State) : State := mkState (main s) (<[i := w]> (workers s)).
Definition with_main (p : MainPc) (s : State) : State := mkState p (workers s).

Section Steps.
Context (timeout : Z).

(** The steps a thread takes in [work_loop]. *)
Inductive worker_step : WorkerThread -> WorkerThread -> Prop :=
  | worker_waits w : worker_pc w = Test -> m_stop w = false -> worker_step w (wait w)
  | worker_ends w : worker_pc w = Test -> m_stop w = true -> worker_step w (with_pc Finished w)
  | worker_returns w : worker_pc w = Waiting -> threads (cv w) 0%nat = Outside -> worker_step w (with_pc Gather w)
  | worker_executes w n : worker_pc w = Gather -> found w = S n -> worker_step w (with_found n w)
  | worker_idle w : worker_pc w = Gather -> found w = 0%nat -> worker_step w (with_pc Test w)
  | worker_cv w t c : threads (cv w) t <> Outside -> moves timeout t (cv w) c -> worker_step w (with_cv c w).

(** What the destructor does, and what the workers do meanwhile. *)
Inductive prompt : State -> State -> Prop :=
  | main_stop s i w : main s = Stopping i -> workers s !! i = Some w ->
      prompt s (with_main (Notifying i) (update i (stop w) s))
  | main_notified s i w : main s = Notifying i -> workers s !! i = Some w -> threads (cv w) 1%nat = Outside ->
      prompt s (with_main (Joining i) s)
  | main_joined s i w : main s = Joining i -> workers s !! i = Some w -> worker_pc w = Finished ->
      prompt s (with_main (Stopping (S i)) s)
  | main_ended s i : main s = Stopping i -> i = length (workers s) -> prompt s (with_main Ended s)
  | worker_moves s i w w' : workers s !! i = Some w -> worker_step w w' -> prompt s (update i w' s).

(** Before the destructor the program may give work to the workers; at any time
    some thread may wake a worker, and a sleeping worker may wake up. *)
Inductive step : State -> State -> Prop :=
  | step_prompt s s' : prompt s s' -> step s s'
  | main_start s i w : main s = Starting i -> workers s !! i = Some w ->
      step s (with_main (Starting (S i)) (update i (start w) s))
  | main_started s i : main s = Starting i -> i = length (workers s) -> step s (with_main Running s)
  | main_barrier s : main s = Running -> step s (with_main (Stopping 0) s)
  | more_work s i w n : main s = Running -> workers s !! i = Some w -> step s (update i (with_found n w) s)
  | others_notify s i w t : workers s !! i = Some w -> (1 < t)%nat -> threads (cv w) t = Outside ->
      step s (update i (with_cv (go t Exchange (cv w)) w) s)
  | spurious_wakeup s i w c : workers s !! i = Some w -> threads (cv w) 0%nat = Sleep c ->
      step s (update i (with_cv (go 0 (Woken c) (cv w)) w) s).

Definition new_thread (w : WorkerThread) : Prop :=
  m_stop w = false /\ CondVar.init (cv w) /\ worker_pc w = NotStarted.

Definition init (s : State) : Prop := main s = Starting 0 /\ Forall new_thread (workers s).

(** ** The condition variable of a worker *)

(** What the worker does with it, and what the others do. *)
Definition waits_pc (p : pc) : bool := match p with Exchange | LockN | NotifyAll | UnlockN => false | _ => true end.
Definition notifies_pc (p : pc) : bool := match p with Outside | Exchange | LockN | NotifyAll | UnlockN => true | _ => false end.

Record cv_ok (c : CondVar) : Prop := {
  co_inv : CondVar.inv c;
  co_self : waits_pc (threads c 0%nat) = true;
  co_others : forall t, t <> 0%nat -> notifies_pc (threads c t) = true
}.

(** A step of a thread in the middle of [wait] or [notify]. *)
Definition inner (c c' : CondVar) : Prop := exists t, threads c t <> Outside /\ moves timeout t c c'.

Lemma moves_other t c c' u : moves timeout t c c' -> u <> t ->
  threads c' u = threads c u \/ threads c' u = CondVar.wake (threads c u).
Proof. intros Hm Hu. destruct Hm; simpl; rewrite set_pc_ne by congruence; auto. Qed.

Lemma wake_waits p : waits_pc p = true -> waits_pc (CondVar.wake p) = true.
Proof. destruct p; auto. Qed.

Lemma wake_notifies p : notifies_pc p = true -> notifies_pc (CondVar.wake p) = true.
Proof. destruct p; auto. Qed.

Lemma next_spin_waits c : waits_pc (next_spin timeout c) = true.
Proof. unfold next_spin. destruct (_ <? _); reflexivity. Qed.

(** A thread that waits keeps waiting, one that notifies keeps notifying. *)
Lemma moves_kind t c c' : moves timeout t c c' -> threads c t <> Outside ->
  (waits_pc (threads c t) = true -> waits_pc (threads c' t) = true) /\
  (notifies_pc (threads c t) = true -> notifies_pc (threads c' t) = true).
Proof.
  intros Hm Hn. destruct Hm; simpl; rewrite set_pc_eq; split; intros Hp;
    match goal with Ht : threads _ _ = _ |- _ => rewrite Ht in Hp, Hn end;
    first [reflexivity | discriminate Hp | apply next_spin_waits | contradiction].
Qed.

Lemma cv_ok_inner c c' : cv_ok c -> inner c c' -> cv_ok c'.
Proof.
  intros [HI H0 Ho] (t & Hn & Hm). destruct (moves_kind t c c' Hm Hn) as [Kw Kn]. constructor.
  - eapply cv_inv_moves; eassumption.
  - destruct (decide (0%nat = t)) as [<- | Hne]; [auto |].
    destruct (moves_other t c c' 0 Hm Hne) as [-> | ->]; auto using wake_waits.
  - intros u Hu. destruct (decide (u = t)) as [-> | Hne]; [auto |].
    destruct (moves_other t c c' u Hm Hne) as [-> | ->]; auto using wake_notifies.
Qed.

Lemma inner_go c t p c' : threads c t = p -> p <> Outside -> moves timeout t c c' -> inner c c'.
Proof. intros Ht Hp Hm. exists t. split; [congruence | exact Hm]. Qed.

Lemma wake_wake p : CondVar.wake (CondVar.wake p) = CondVar.wake p.
Proof. destruct p; reflexivity. Qed.

(** The thread that holds the mutex can give it up, whatever the others do. *)
Lemma free_mutex c u : cv_ok c -> mutex c = Some u ->
  exists c', rtc inner c c' /\ mutex c' = None /\ should_wait c' = should_wait c /\
    forall v, v <> u -> threads c' v = threads c v \/ threads c' v = CondVar.wake (threads c v).
Proof.
  intros [[Hm _] _ _] Hu. apply Hm in Hu as Hh.
  assert (Hset : forall p v, v <> u -> set_pc u p (threads c) v = threads c v) by (intros; apply set_pc_ne; congruence).
  destruct (threads c u) as [| k | k | k | k | k | k | k | k | | | | |] eqn:E; try discriminate Hh.
  - destruct (should_wait c) eqn:Es.
    + exists (release u (Sleep k) (go u (Block k) c)). split.
      { eapply rtc_l; [eapply inner_go; [exact E | discriminate | apply (pred_false _ _ _ _ E Es)] |].
        apply rtc_once. eapply inner_go; [apply set_pc_eq | discriminate | apply fall_asleep, set_pc_eq]. }
      split; [reflexivity |]. split; [exact Es |]. intros v Hv. left. simpl. rewrite set_pc_ne by congruence. auto.
    + exists (release u (Loop k) (go u (UnlockW k) c)). split.
      { eapply rtc_l; [eapply inner_go; [exact E | discriminate | apply (pred_true _ _ _ _ E Es)] |].
        apply rtc_once. eapply inner_go; [apply set_pc_eq | discriminate | apply unlock_wait, set_pc_eq]. }
      split; [reflexivity |]. split; [exact Es |]. intros v Hv. left. simpl. rewrite set_pc_ne by congruence. auto.
  - exists (release u (Sleep k) c). split; [apply rtc_once; eapply inner_go; [exact E | discriminate | apply fall_asleep, E] |].
    split; [reflexivity |]. split; [reflexivity |]. simpl. auto.
  - exists (release u (Loop k) c). split; [apply rtc_once; eapply inner_go; [exact E | discriminate | apply unlock_wait, E] |].
    split; [reflexivity |]. split; [reflexivity |]. simpl. auto.
  - exists (release u Outside (mkCV (should_wait c) (mutex c) (set_pc u UnlockN (fun v => CondVar.wake (threads c v))))). split.
    { eapply rtc_l; [eapply inner_go; [exact E | discriminate | apply notify_all, E] |].
      apply rtc_once. eapply inner_go; [apply set_pc_eq | discriminate | apply unlock_notify, set_pc_eq]. }
    split; [reflexivity |]. split; [reflexivity |]. intros v Hv. right. simpl. rewrite !set_pc_ne by congruence. reflexivity.
  - exists (release u Outside c). split; [apply rtc_once; eapply inner_go; [exact E | discriminate | apply unlock_notify, E] |].
    split; [reflexivity |]. split; [reflexivity |]. simpl. auto.
Qed.

Lemma rtc_inner_ok c c' : rtc inner c c' -> cv_ok c -> cv_ok c'.
Proof. intros Hr. induction Hr as [c | c1 c2 c3 H1 H2 IH]; [auto |]. intros Hc. apply IH. eapply cv_ok_inner; eassumption. Qed.

(** A thread that waits for the mutex gets it. *)
Lemma take_mutex c t : cv_ok c -> holds (threads c t) = false ->
  exists c', rtc inner c c' /\ mutex c' = None /\ should_wait c' = should_wait c /\
    (threads c' t = threads c t \/ threads c' t = CondVar.wake (threads c t)) /\
    (mutex c = None -> c' = c) /\
    forall v, mutex c <> Some v -> threads c' v = threads c v \/ threads c' v = CondVar.wake (threads c v).
Proof.
  intros Hc Hn. destruct (mutex c) as [u |] eqn:Eu.
  - destruct (free_mutex c u Hc Eu) as (c' & Hr & Hm & Hs & Ho). exists c'. split; [exact Hr |]. split; [exact Hm |].
    split; [exact Hs |]. split; [| split; [discriminate |]].
    + apply Ho. intros ->. apply (inv_mutex _ (co_inv _ Hc)) in Eu. congruence.
    + intros v Hv. apply Ho. congruence.
  - exists c. split; [apply rtc_refl |]. split; [exact Eu |]. split; [reflexivity |]. auto.
Qed.

(** How far a thread is from leaving [wait] once it was notified. *)
Definition distance (p : pc) : nat :=
  match p with
  | Reset => 1 | Loop _ => 2 | UnlockW _ | Recheck _ => 3 | Pred _ => 4 | LockW _ | Woken _ => 5
  | Sleep _ => 6 | Block _ => 7 | _ => 0
  end.

(** What is needed of one step towards the end of [wait]. *)
Definition nearer (c : CondVar) : Prop :=
  exists c', rtc inner c c' /\ (distance (threads c' 0%nat) < distance (threads c 0%nat))%nat /\
    (should_wait c' = false \/ threads c' 0%nat = Outside).

Lemma nearer_once c p c' : threads c 0%nat = p -> p <> Outside -> moves timeout 0 c c' ->
  (distance (threads c' 0%nat) < distance p)%nat -> should_wait c' = false \/ threads c' 0%nat = Outside -> nearer c.
Proof.
  intros Hp Hn Hm Hd Hs. exists c'. split; [apply rtc_once; eapply inner_go; eassumption |].
  split; [rewrite Hp; exact Hd | exact Hs].
Qed.

(** A thread that locks the mutex to look again. *)
Lemma nearer_lock c p k : cv_ok c -> should_wait c = false -> threads c 0%nat = p -> p = LockW k \/ p = Woken k -> nearer c.
Proof.
  intros Hc Hs Hp Hk. assert (Hh : holds (threads c 0%nat) = false) by (rewrite Hp; destruct Hk as [-> | ->]; reflexivity).
  destruct (take_mutex c 0 Hc Hh) as (c1 & Hr & Hm & Hs1 & E0 & _).
  assert (E1 : threads c1 0%nat = p) by (rewrite Hp in E0; destruct Hk as [-> | ->], E0; assumption).
  exists (acquire 0 (Pred k) c1). split; [| split; [rewrite Hp; cbn [acquire threads]; rewrite set_pc_eq; destruct Hk as [-> | ->]; simpl; lia |]].
  - eapply rtc_r; [exact Hr |]. eapply inner_go; [exact E1 | destruct Hk as [-> | ->]; discriminate |].
    destruct Hk as [-> | ->]; [eapply lock_wait | eapply relock]; eassumption.
  - left. simpl. congruence.
Qed.

(** A sleeping thread is woken by the notifier that is on its way. *)
Lemma nearer_sleep c k : cv_ok c -> should_wait c = false -> threads c 0%nat = Sleep k -> nearer c.
Proof.
  intros Hc Hs Hp. destruct (inv_wake _ (co_inv _ Hc) Hs 0%nat) as [u Hu]; [rewrite Hp; reflexivity |].
  assert (Hu0 : u <> 0%nat) by (intros ->; rewrite Hp in Hu; discriminate).
  assert (Hall : forall c1, threads c1 u = NotifyAll -> rtc inner c c1 -> threads c1 0%nat = Sleep k -> should_wait c1 = false -> nearer c).
  { intros c1 E1 Hr E0 Hs1. exists (mkCV (should_wait c1) (mutex c1) (set_pc u UnlockN (fun v => CondVar.wake (threads c1 v)))).
    split; [eapply rtc_r; [exact Hr |]; eapply inner_go; [exact E1 | discriminate | apply notify_all, E1] |].
    cbn [threads]. rewrite set_pc_ne by congruence. rewrite E0, Hp. simpl. split; [lia | left; exact Hs1]. }
  destruct (threads c u) eqn:Eu; try discriminate Hu; [| eapply Hall; [exact Eu | apply rtc_refl | exact Hp | exact Hs]].
  destruct (take_mutex c u Hc ltac:(rewrite Eu; reflexivity)) as (c1 & Hr & Hm & Hs1 & E1 & _ & Hv).
  assert (Eu1 : threads c1 u = LockN) by (rewrite Eu in E1; destruct E1; assumption).
  assert (Hnm : mutex c <> Some 0%nat).
  { intros E. apply (inv_mutex _ (co_inv _ Hc)) in E. rewrite Hp in E. discriminate. }
  destruct (Hv 0%nat Hnm) as [E0 | E0]; rewrite Hp in E0.
  - apply (Hall (acquire u NotifyAll c1)); simpl.
    + apply set_pc_eq.
    + eapply rtc_r; [exact Hr |]. eapply inner_go; [exact Eu1 | discriminate | apply lock_notify; assumption].
    + rewrite set_pc_ne by congruence. exact E0.
    + congruence.
  - exists c1. split; [exact Hr |]. rewrite E0, Hp. simpl. split; [lia | left; congruence].
Qed.

(** A notified worker gets out of [cv.wait] in every state of the condition variable. *)
Lemma wait_ends c : cv_ok c -> should_wait c = false \/ threads c 0%nat = Outside ->
  exists c', rtc inner c c' /\ threads c' 0%nat = Outside.
Proof.
  remember (distance (threads c 0%nat)) as n eqn:En. revert c En.
  induction n as [n IH] using lt_wf_ind. intros c En Hc Hs.
  destruct (decide (threads c 0%nat = Outside)) as [Ho | Hn]; [exists c; split; [apply rtc_refl | exact Ho] |].
  destruct Hs as [Hs |]; [| contradiction].
  assert (Hnear : nearer c).
  { pose proof (co_self _ Hc) as H0. destruct (threads c 0%nat) as [| k | k | k | k | k | k | k | k | | | | |] eqn:E;
      try discriminate H0; [contradiction | | | | | | | | |].
    - eapply nearer_once; [exact E | discriminate | eapply loop_false; eassumption | cbn [go acquire release threads]; rewrite set_pc_eq; simpl; lia | left; exact Hs].
    - eapply nearer_once; [exact E | discriminate | eapply recheck_false; eassumption | cbn [go acquire release threads]; rewrite set_pc_eq; simpl; lia | left; exact Hs].
    - eapply nearer_lock; eauto.
    - eapply nearer_once; [exact E | discriminate | eapply pred_true; eassumption | cbn [go acquire release threads]; rewrite set_pc_eq; simpl; lia | left; exact Hs].
    - eapply nearer_once; [exact E | discriminate | eapply fall_asleep; eassumption | cbn [go acquire release threads]; rewrite set_pc_eq; simpl; lia | left; exact Hs].
    - eapply nearer_sleep; eassumption.
    - eapply nearer_lock; eauto.
    - eapply nearer_once; [exact E | discriminate | eapply unlock_wait; eassumption | cbn [go acquire release threads]; rewrite set_pc_eq; simpl; lia | left; exact Hs].
    - eapply nearer_once; [exact E | discriminate | eapply reset; eassumption | cbn [go acquire release threads]; rewrite set_pc_eq; simpl; lia | right; cbn [go acquire release threads]; apply set_pc_eq]. }
  destruct Hnear as (c1 & Hr1 & Hd & Hs1). rewrite <- En in Hd.
  destruct (IH _ Hd c1 eq_refl (rtc_inner_ok _ _ Hr1 Hc) Hs1) as (c2 & Hr2 & Ho).
  exists c2. split; [etransitivity; eassumption | exact Ho].
Qed.

(** A thread that called [notify] gets out of it. *)
Lemma notify_ends c t : cv_ok c -> t <> 0%nat -> exists c', rtc inner c c' /\ threads c' t = Outside.
Proof.
  intros Hc Ht.
  assert (Hu : forall c1, threads c1 t = UnlockN -> exists c', rtc inner c1 c' /\ threads c' t = Outside).
  { intros c1 E. exists (release t Outside c1). split; [| cbn [go acquire release threads]; apply set_pc_eq].
    apply rtc_once. eapply inner_go; [exact E | discriminate | apply unlock_notify, E]. }
  assert (Ha : forall c1, threads c1 t = NotifyAll -> exists c', rtc inner c1 c' /\ threads c' t = Outside).
  { intros c1 E. destruct (Hu (mkCV (should_wait c1) (mutex c1) (set_pc t UnlockN (fun v => CondVar.wake (threads c1 v)))))
      as (c' & Hr & Ho); [cbn [go acquire release threads]; apply set_pc_eq |].
    exists c'. split; [| exact Ho]. eapply rtc_l; [eapply inner_go; [exact E | discriminate | apply notify_all, E] | exact Hr]. }
  assert (Hl : forall c1, cv_ok c1 -> threads c1 t = LockN -> exists c', rtc inner c1 c' /\ threads c' t = Outside).
  { intros c1 Hc1 E. destruct (take_mutex c1 t Hc1 ltac:(rewrite E; reflexivity)) as (c2 & Hr & Hm & _ & E2 & _).
    assert (Et : threads c2 t = LockN) by (rewrite E in E2; destruct E2; assumption).
    destruct (Ha (acquire t NotifyAll c2)) as (c' & Hr' & Ho); [cbn [go acquire release threads]; apply set_pc_eq |].
    exists c'. split; [| exact Ho]. etransitivity; [exact Hr |].
    eapply rtc_l; [eapply inner_go; [exact Et | discriminate | apply lock_notify; assumption] | exact Hr']. }
  pose proof (co_others _ Hc t Ht) as Hk. destruct (threads c t) eqn:E; try discriminate Hk.
  - exists c. split; [apply rtc_refl | exact E].
  - destruct (should_wait c) eqn:Es.
    + set (c1 := mkCV false (mutex c) (set_pc t LockN (threads c))).
      assert (H1 : inner c c1) by (eapply inner_go; [exact E | discriminate | apply exchange_true; assumption]).
      destruct (Hl c1 (cv_ok_inner _ _ Hc H1)) as (c' & Hr & Ho); [cbn [go acquire release threads]; apply set_pc_eq |].
      exists c'. split; [eapply rtc_l; eassumption | exact Ho].
    + exists (go t Outside c). split; [| cbn [go acquire release threads]; apply set_pc_eq].
      apply rtc_once. eapply inner_go; [exact E | discriminate | apply exchange_false; assumption].
  - apply Hl; assumption.
  - apply Ha; assumption.
  - apply Hu; assumption.
Qed.

(** ** The invariant *)

(** Worker [i] was told to stop; it was joined; it is not started yet. *)
Definition stopped (p : MainPc) (i : nat) : bool :=
  match p with Stopping j => (i <? j)%nat | Notifying j | Joining j => (i <=? j)%nat | Ended => true | _ => false end.
Definition joined (p : MainPc) (i : nat) : bool :=
  match p with Stopping j | Notifying j | Joining j => (i <? j)%nat | Ended => true | _ => false end.
Definition unstarted (p : MainPc) (i : nat) : bool := match p with Starting j => (j <=? i)%nat | _ => false end.

(** A worker that was told to stop does not wait any more: the notification is to
    come, was given, or is not needed because the worker is not in [wait]. *)
Definition told (c : CondVar) : Prop :=
  threads c 1%nat = Exchange \/ should_wait c = false \/ threads c 0%nat = Outside.

Record winv (p : MainPc) (i : nat) (w : WorkerThread) : Prop := {
  wi_cv : cv_ok (cv w);
  wi_in : threads (cv w) 0%nat <> Outside -> worker_pc w = Waiting;
  wi_main : threads (cv w) 1%nat <> Outside -> p = Notifying i;
  wi_start : worker_pc w = NotStarted <-> unstarted p i = true;
  wi_stop : m_stop w = stopped p i;
  wi_told : stopped p i = true -> told (cv w);
  wi_joined : joined p i = true -> worker_pc w = Finished
}.

Definition inv (s : State) : Prop := forall i w, workers s !! i = Some w -> winv (main s) i w.

Lemma told_inner c c' : cv_ok c -> inner c c' -> told c -> told c'.
Proof.
  intros Hc (t & Hn & Hm) [E | [E | E]].
  - destruct (decide (t = 1%nat)) as [-> | Ht].
    + right. left. destruct Hm; simpl in *; congruence.
    + left. destruct (moves_other t c c' 1 Hm ltac:(congruence)) as [-> | ->]; rewrite E; reflexivity.
  - destruct (decide (t = 0%nat)) as [-> | Ht].
    + destruct Hm; unfold told; simpl in *; rewrite ?set_pc_eq; auto.
    + right. left. pose proof (co_others _ Hc t Ht) as Ho. destruct Hm; simpl in *; try assumption; try reflexivity.
      match goal with Hr : threads _ t = Reset |- _ => rewrite Hr in Ho; discriminate end.
  - destruct (decide (t = 0%nat)) as [-> | Ht]; [congruence |]. right. right.
    destruct (moves_other t c c' 0 Hm ltac:(congruence)) as [-> | ->]; rewrite E; reflexivity.
Qed.

Lemma cv_ok_wait c : cv_ok c -> threads c 0%nat = Outside -> cv_ok (go 0 (Loop 0) c).
Proof.
  intros [HI H0 Ho] E. constructor.
  - eapply cv_inv_moves; [exact HI | eapply (wait_call timeout), E].
  - cbn [go threads]. rewrite set_pc_eq. reflexivity.
  - intros t Ht. cbn [go threads]. rewrite set_pc_ne by congruence. auto.
Qed.

Lemma cv_ok_notify c t : cv_ok c -> t <> 0%nat -> threads c t = Outside -> cv_ok (go t Exchange c).
Proof.
  intros [HI H0 Ho] Ht E. constructor.
  - eapply cv_inv_moves; [exact HI | eapply (notify_call timeout), E].
  - cbn [go threads]. rewrite set_pc_ne by congruence. exact H0.
  - intros u Hu. cbn [go threads]. unfold set_pc. destruct (decide (t = u)); auto.
Qed.

Lemma winv_worker p i w w' : winv p i w -> worker_step w w' -> winv p i w'.
Proof.
  intros [W1 W2 W3 W4 W5 W6 W7] Hs.
  destruct Hs as [w Hp Hm | w Hp Hm | w Hp H0 | w n Hp Hf | w Hp Hf | w t c Ht Hm].
  - assert (E0 : threads (cv w) 0%nat = Outside) by (destruct (decide (threads (cv w) 0%nat = Outside)) as [E |]; [exact E | rewrite W2 in Hp by assumption; discriminate]).
    constructor; cbn [wait cv worker_pc m_stop]; auto.
    + apply cv_ok_wait; assumption.
    + rewrite <- W4, Hp. split; discriminate.
    + intros Hst. congruence.
    + intros Hj. specialize (W7 Hj). congruence.
  - constructor; cbn [with_pc cv worker_pc m_stop]; auto; [intros Hn; specialize (W2 Hn); congruence |].
    rewrite <- W4, Hp. split; discriminate.
  - constructor; cbn [with_pc cv worker_pc m_stop]; auto; [contradiction | rewrite <- W4, Hp; split; discriminate |].
    intros Hj. specialize (W7 Hj). congruence.
  - constructor; cbn [with_found cv worker_pc m_stop]; auto.
  - constructor; cbn [with_pc cv worker_pc m_stop]; auto; [| rewrite <- W4, Hp; split; discriminate |].
    + intros Hn. specialize (W2 Hn). congruence.
    + intros Hj. specialize (W7 Hj). congruence.
  - assert (Hi : inner (cv w) c) by (exists t; auto).
    constructor; cbn [with_cv cv worker_pc m_stop]; auto.
    + eapply cv_ok_inner; eassumption.
    + intros Hn. apply W2. intros E. destruct (decide (t = 0%nat)) as [-> | Hne]; [contradiction |].
      destruct (moves_other _ _ _ 0 Hm ltac:(congruence)) as [E' | E']; rewrite E in E'; contradiction.
    + intros Hn. apply W3. intros E. destruct (decide (t = 1%nat)) as [-> | Hne]; [contradiction |].
      destruct (moves_other _ _ _ 1 Hm ltac:(congruence)) as [E' | E']; rewrite E in E'; contradiction.
    + intros Hst. eapply told_inner; eauto.
Qed.

(** The main thread goes on; what worker [i] sees of it stays the same. *)
Lemma winv_main p p' i w : winv p i w -> stopped p' i = stopped p i -> joined p' i = joined p i ->
  unstarted p' i = unstarted p i -> (threads (cv w) 1%nat <> Outside -> p' = Notifying i) -> winv p' i w.
Proof. intros [W1 W2 W3 W4 W5 W6 W7] Es Ej Hu Hn. constructor; rewrite ?Es, ?Ej, ?Hu; auto. Qed.

Lemma lookup_update (l : list WorkerThread) i w j x : <[i := w]> l !! j = Some x ->
  (j = i /\ x = w) \/ (j <> i /\ l !! j = Some x).
Proof. intros E. apply list_lookup_insert_Some in E as [(<- & <- & _) | (Hne & E)]; auto. Qed.

Ltac same_main HW :=
  eapply winv_main; [exact HW | cbn [stopped joined unstarted] | cbn [stopped joined unstarted] |
    cbn [unstarted] | intros Hout; pose proof (wi_main _ _ _ HW Hout) as Hn];
  try reflexivity; try discriminate.

Lemma inv_prompt s s' : inv s -> prompt s s' -> inv s'.
Proof.
  intros HI Hs. destruct Hs as [s i w Hm Hi | s i w Hm Hi Ho | s i w Hm Hi Hf | s i Hm Hl | s i w w' Hi Hw];
    intros j x Hx; cbn [with_main update main workers] in *.
  - apply lookup_update in Hx as [[-> ->] | [Hne Hx]].
    + pose proof (HI i w Hi) as [W1 W2 W3 W4 W5 W6 W7]. rewrite Hm in *.
      assert (E1 : threads (cv w) 1%nat = Outside) by (destruct (decide (threads (cv w) 1%nat = Outside)) as [E |]; [exact E | discriminate W3; assumption]).
      constructor; cbn [stop cv worker_pc m_stop]; auto.
      * apply cv_ok_notify; auto.
      * simpl. symmetry. apply Nat.leb_refl.
      * intros _. left. cbn [go threads]. apply set_pc_eq.
    + pose proof (HI j x Hx) as HW. rewrite Hm in HW. same_main HW.
      destruct (Nat.leb_spec j i), (Nat.ltb_spec j i); try reflexivity; lia.
  - pose proof (HI j x Hx) as HW. rewrite Hm in HW. same_main HW.
    injection Hn as ->. congruence.
  - pose proof (HI j x Hx) as HW. rewrite Hm in HW. destruct (decide (j = i)) as [-> | Hne].
    + assert (x = w) as -> by congruence. destruct HW as [W1 W2 W3 W4 W5 W6 W7].
      cbn [stopped joined unstarted] in *. rewrite Nat.leb_refl in *.
      constructor; cbn [stopped joined unstarted]; rewrite ?(proj2 (Nat.ltb_lt i (S i)) (Nat.lt_succ_diag_r i)); auto.
      intros Hn. specialize (W3 Hn). discriminate.
    + same_main HW. destruct (Nat.ltb_spec j i), (Nat.ltb_spec j (S i)); try reflexivity; lia.
  - pose proof (HI j x Hx) as HW. rewrite Hm in HW. apply lookup_lt_Some in Hx. same_main HW;
      symmetry; apply Nat.ltb_lt; lia.
  - apply lookup_update in Hx as [[-> ->] | [Hne Hx]]; [eapply winv_worker; eauto | auto].
Qed.

Lemma inv_step s s' : inv s -> step s s' -> inv s'.
Proof.
  intros HI Hs. destruct Hs as [s s' Hp | s i w Hm Hi | s i Hm Hl | s Hm | s i w n Hm Hi | s i w t Hi Ht Ho | s i w c Hi Hc];
    [eapply inv_prompt; eassumption | ..]; intros j x Hx; cbn [with_main update main workers] in *.
  - apply lookup_update in Hx as [[-> ->] | [Hne Hx]].
    + pose proof (HI i w Hi) as [W1 W2 W3 W4 W5 W6 W7]. rewrite Hm in *.
      constructor; cbn [start with_pc cv worker_pc m_stop]; auto; try discriminate.
      * intros Hn. specialize (W2 Hn). assert (Hst : worker_pc w = NotStarted) by (apply W4; cbn [unstarted]; apply Nat.leb_refl).
        congruence.
      * intros Hn. specialize (W3 Hn). discriminate.
      * cbn [unstarted]. split; [discriminate |]. intros Hle. apply Nat.leb_le in Hle. lia.
    + pose proof (HI j x Hx) as HW. rewrite Hm in HW. same_main HW.
      destruct (Nat.leb_spec i j), (Nat.leb_spec (S i) j); try reflexivity; lia.
  - pose proof (HI j x Hx) as HW. rewrite Hm in HW. apply lookup_lt_Some in Hx. same_main HW.
    symmetry. apply Nat.leb_gt. lia.
  - pose proof (HI j x Hx) as HW. rewrite Hm in HW. same_main HW.
  - apply lookup_update in Hx as [[-> ->] | [Hne Hx]]; [| auto]. destruct (HI i w Hi). constructor; auto.
  - apply lookup_update in Hx as [[-> ->] | [Hne Hx]]; [| auto]. destruct (HI i w Hi) as [W1 W2 W3 W4 W5 W6 W7].
    constructor; cbn [with_cv cv worker_pc m_stop]; auto.
    + apply cv_ok_notify; [exact W1 | lia | exact Ho].
    + cbn [go threads]. rewrite set_pc_ne by lia. exact W2.
    + cbn [go threads]. rewrite set_pc_ne by lia. exact W3.
    + intros Hst. unfold told. cbn [go threads should_wait]. rewrite !set_pc_ne by lia. apply W6, Hst.
  - apply lookup_update in Hx as [[-> ->] | [Hne Hx]]; [| auto]. destruct (HI i w Hi) as [W1 W2 W3 W4 W5 W6 W7].
    constructor; cbn [with_cv cv worker_pc m_stop]; auto.
    + constructor.
      * eapply (cv_inv_step timeout); [apply W1 | eapply spurious, Hc].
      * cbn [go threads]. rewrite set_pc_eq. reflexivity.
      * intros t Ht. cbn [go threads]. rewrite set_pc_ne by congruence. apply (co_others _ W1 t Ht).
    + intros _. apply W2. rewrite Hc. discriminate.
    + intros Hst. destruct (W6 Hst) as [E | [E | E]]; [left | right; left; exact E | congruence].
      exact E.
Qed.

Lemma threads_inv_init s : init s -> inv s.
Proof.
  intros [Hm Hall] i w Hi. rewrite Forall_lookup in Hall. destruct (Hall i w Hi) as (Hs & Hc & Hp).
  pose proof Hc as (_ & _ & Ht). rewrite Hm. constructor; cbn [stopped joined unstarted]; try discriminate.
  - constructor; [apply cv_inv_init, Hc | rewrite Ht; reflexivity |]. intros t _. rewrite Ht. reflexivity.
  - rewrite Ht. contradiction.
  - rewrite Ht. contradiction.
  - rewrite Hp. split; reflexivity.
  - exact Hs.
Qed.

Lemma threads_reachable_inv s : reachable init step s -> inv s.
Proof. apply reachable_invariant; [exact threads_inv_init | exact inv_step]. Qed.

(** ** The workers end *)

Lemma with_cv_eta w : with_cv (cv w) w = w.
Proof. destruct w. reflexivity. Qed.

Lemma worker_inner w c c' : rtc inner c c' -> cv w = c -> rtc worker_step w (with_cv c' w).
Proof.
  intros Hr. revert w. induction Hr as [c | c1 c2 c3 (t & Hn & Hm) H2 IH]; intros w E.
  - rewrite <- E, with_cv_eta. apply rtc_refl.
  - subst c1. eapply rtc_l; [eapply worker_cv; eassumption |]. exact (IH (with_cv c2 w) eq_refl).
Qed.

Lemma test_finishes w : worker_pc w = Test -> m_stop w = true -> exists w', rtc worker_step w w' /\ worker_pc w' = Finished.
Proof. intros Hp Hm. eexists. split; [apply rtc_once, worker_ends; assumption | reflexivity]. Qed.

Lemma gather_finishes n : forall w, found w = n -> worker_pc w = Gather -> m_stop w = true ->
  exists w', rtc worker_step w w' /\ worker_pc w' = Finished.
Proof.
  induction n as [| n IH]; intros w Hf Hp Hm.
  - destruct (test_finishes (with_pc Test w) eq_refl Hm) as (w' & Hr & He). exists w'. split; [| exact He].
    eapply rtc_l; [apply worker_idle; assumption | exact Hr].
  - destruct (IH (with_found n w) eq_refl Hp Hm) as (w' & Hr & He). exists w'. split; [| exact He].
    eapply rtc_l; [apply worker_executes; eassumption | exact Hr].
Qed.

Lemma worker_finishes p i w : winv p i w -> stopped p i = true -> threads (cv w) 1%nat <> Exchange ->
  exists w', rtc worker_step w w' /\ worker_pc w' = Finished.
Proof.
  intros [W1 W2 W3 W4 W5 W6 W7] Hst Hx. rewrite Hst in W5. destruct (worker_pc w) eqn:Hp.
  - exfalso. assert (E : unstarted p i = true) by (apply W4; reflexivity). destruct p; discriminate.
  - apply test_finishes; assumption.
  - destruct (W6 Hst) as [E | Hw]; [contradiction |].
    destruct (wait_ends (cv w) W1 Hw) as (c & Hr & Ho).
    destruct (gather_finishes (found w) (with_pc Gather (with_cv c w)) eq_refl eq_refl W5) as (w' & Hr' & He).
    exists w'. split; [| exact He]. etransitivity; [apply (worker_inner w _ c Hr eq_refl) |].
    eapply rtc_l; [apply (worker_returns (with_cv c w)); assumption | exact Hr'].
  - apply (gather_finishes (found w)); auto.
  - exists w. split; [apply rtc_refl | exact Hp].
Qed.

Lemma prompt_workers i w w' : rtc worker_step w w' -> forall s, workers s !! i = Some w ->
  rtc prompt s (update i w' s).
Proof.
  induction 1 as [w | w1 w2 w3 H1 H2 IH]; intros s Hi.
  - replace (update i w s) with s; [apply rtc_refl |]. destruct s as [m l]. unfold update. cbn [main workers] in *.
    rewrite list_insert_id by exact Hi. reflexivity.
  - eapply rtc_l; [eapply worker_moves; eassumption |].
    assert (E : update i w3 s = update i w3 (update i w2 s)) by (unfold update; cbn [main workers]; rewrite list_insert_insert_eq; reflexivity).
    rewrite E. apply IH. cbn [update workers]. apply list_lookup_insert_eq. eapply lookup_lt_Some, Hi.
Qed.

(** ** The destructor ends *)

Definition shutting_down (p : MainPc) : Prop := match p with Starting _ | Running => False | _ => True end.

(** How much of the destructor is still to come, with [n] workers. *)
Definition to_do (n : nat) (p : MainPc) : nat :=
  match p with
  | Stopping i => 3 * (n - i) + 1
  | Notifying i => 3 * (n - i)
  | Joining i => 3 * (n - i) - 1
  | _ => 0
  end.

(** The worker the main thread is concerned with exists. *)
Definition in_range (s : State) : Prop :=
  match main s with Stopping i => (i <= length (workers s))%nat | Notifying i | Joining i => (i < length (workers s))%nat | _ => True end.

Lemma in_range_step s s' : in_range s -> step s s' -> in_range s' /\ (shutting_down (main s) -> shutting_down (main s')).
Proof.
  intros Hin Hs. destruct Hs as [s s' Hp | s i w Hm Hi | s i Hm Hl | s Hm | s i w n Hm Hi | s i w t Hi Ht Ho | s i w c Hi Hc];
    [destruct Hp as [s i w Hm Hi | s i w Hm Hi Ho | s i w Hm Hi Hf | s i Hm Hl | s i w w' Hi Hw] | ..];
    unfold in_range in *; cbn [with_main update main workers]; rewrite ?length_insert; rewrite ?Hm in *;
    cbn [shutting_down]; try tauto; try (apply lookup_lt_Some in Hi; split; [lia | tauto]).
  split; [lia | tauto].
Qed.

Lemma in_range_reachable s : reachable init step s -> in_range s.
Proof.
  apply reachable_invariant; [intros s0 [Hm _]; unfold in_range; rewrite Hm; exact I |].
  intros s0 s1 H0 Hs. apply (in_range_step s0 s1 H0 Hs).
Qed.

Lemma main_moves s : inv s -> in_range s -> shutting_down (main s) -> main s <> Ended ->
  exists s', rtc prompt s s' /\ (to_do (length (workers s')) (main s') < to_do (length (workers s)) (main s))%nat /\
    length (workers s') = length (workers s).
Proof.
  intros HI Hin Hsd Hne. unfold in_range in Hin. destruct (main s) as [| | i | i | i |] eqn:Hm; try contradiction.
  - destruct (decide (i = length (workers s))) as [E | E].
    + exists (with_main Ended s). split; [apply rtc_once; eapply main_ended; eassumption |]. simpl. split; lia.
    + destruct (lookup_lt_is_Some_2 (workers s) i) as [w Hi]; [lia |].
      eexists. split; [apply rtc_once; eapply main_stop; eassumption |]. simpl. rewrite length_insert. split; lia.
  - destruct (lookup_lt_is_Some_2 (workers s) i Hin) as [w Hi]. pose proof (HI i w Hi) as HW.
    destruct (notify_ends (cv w) 1 (wi_cv _ _ _ HW) ltac:(lia)) as (c & Hr & Ho).
    exists (with_main (Joining i) (update i (with_cv c w) s)). split; [| simpl; rewrite length_insert; split; lia].
    eapply rtc_r; [apply (prompt_workers i w (with_cv c w) (worker_inner w _ c Hr eq_refl) s Hi) |].
    eapply main_notified; [exact Hm | cbn [update workers]; apply list_lookup_insert_eq, Hin | exact Ho].
  - destruct (lookup_lt_is_Some_2 (workers s) i Hin) as [w Hi]. pose proof (HI i w Hi) as HW. rewrite Hm in HW.
    destruct (worker_finishes _ _ w HW) as (w' & Hr & Hf); [simpl; apply Nat.leb_refl | |].
    { intros E. pose proof (wi_main _ _ _ HW ltac:(rewrite E; discriminate)). discriminate. }
    exists (with_main (Stopping (S i)) (update i w' s)). split; [| simpl; rewrite length_insert; split; lia].
    eapply rtc_r; [apply (prompt_workers i w w' Hr s Hi) |].
    eapply main_joined; [exact Hm | cbn [update workers]; apply list_lookup_insert_eq, Hin | exact Hf].
Qed.

(** C21 (stop): once the destructor has begun to stop the workers it can always go
    on, however the workers, the other threads that wake them and spurious wake-ups
    were interleaved before: the threads that are under way, without any further
    wake-up, bring it to its end, where every worker thread was joined.  No worker
    sleeps through its stop. *)
Theorem shutdown_completes s :
  reachable init step s -> shutting_down (main s) ->
  (exists s', rtc prompt s s' /\ main s' = Ended) /\
  (main s = Ended -> Forall (fun w => worker_pc w = Finished) (workers s)).
Proof.
  intros Hr Hsd. split.
  - pose proof (threads_reachable_inv s Hr) as HI. pose proof (in_range_reachable s Hr) as Hin. clear Hr.
    remember (to_do (length (workers s)) (main s)) as n eqn:En. revert s En HI Hin Hsd.
    induction n as [n IH] using lt_wf_ind. intros s -> HI Hin Hsd.
    assert (Hd : main s = Ended \/ main s <> Ended) by (destruct (main s); auto; right; discriminate).
    destruct Hd as [E | Hne]; [exists s; split; [apply rtc_refl | exact E] |].
    destruct (main_moves s HI Hin Hsd Hne) as (s1 & Hr1 & Hlt & _).
    assert (H1 : inv s1 /\ in_range s1 /\ shutting_down (main s1)).
    { clear - Hr1 HI Hin Hsd. induction Hr1 as [| s s1 s2 H1 H2 IH]; [auto |].
      pose proof (in_range_step _ _ Hin (step_prompt _ _ H1)) as [Hin' Hsd']. apply IH; auto. eapply inv_prompt; eassumption. }
    destruct H1 as (HI1 & Hin1 & Hsd1). destruct (IH _ Hlt s1 eq_refl HI1 Hin1 Hsd1) as (s' & Hr' & He).
    exists s'. split; [etransitivity; eassumption | exact He].
  - intros E. apply Forall_lookup. intros i w Hi. apply (wi_joined _ _ _ (threads_reachable_inv s Hr i w Hi)). rewrite E. reflexivity.
Qed.
End Steps.

(** ** A worker that is asleep when it is stopped *)

Definition new_worker : WorkerThread := mkThread false (mkCV true None (fun _ => Outside)) NotStarted 0.
Definition one_worker : State := mkState (Starting 0) [new_worker].

Definition asleep : CondVar :=
  release 0 (Sleep 1) (go 0 (Block 1) (acquire 0 (Pred 1) (go 0 (LockW 1) (go 0 (Recheck 1) (go 0 (Loop 0) (cv new_worker)))))).

Definition stopping : State := mkState (Stopping 0) [mkThread false asleep Waiting 0].

(** A step of the worker in [cv.wait]. *)
Lemma goes_on c c' : reachable init (step 0) (mkState Running [mkThread false c Waiting 0]) -> inner 0 c c' ->
  reachable init (step 0) (mkState Running [mkThread false c' Waiting 0]).
Proof.
  intros Hr (t & Hn & Hm). eapply reachable_step; [exact Hr |]. apply step_prompt.
  exact (worker_moves 0 (mkState Running [mkThread false c Waiting 0]) 0 _ _ eq_refl
    (worker_cv 0 (mkThread false c Waiting 0) t c' Hn Hm)).
Qed.

Lemma stopping_reachable : reachable init (step 0) stopping.
Proof.
  eapply reachable_step; [| apply (main_barrier 0 (mkState Running [mkThread false asleep Waiting 0])); reflexivity].
  assert (R : reachable init (step 0) (mkState Running [wait (start new_worker)])).
  { eapply reachable_step; [| apply step_prompt; exact (worker_moves 0 (mkState Running [start new_worker]) 0 _ _ eq_refl
      (worker_waits 0 (start new_worker) eq_refl eq_refl))].
    eapply reachable_step; [| apply (main_started 0 (mkState (Starting 1) [start new_worker]) 1); reflexivity].
    eapply reachable_step; [| apply (main_start 0 one_worker 0 new_worker); reflexivity].
    apply reachable_init. split; [reflexivity |]. apply Forall_singleton. repeat split. }
  apply (goes_on _ (go 0 (Recheck 1) (go 0 (Loop 0) (cv new_worker)))) in R;
    [| exists 0%nat; split; [discriminate | apply (loop_true 0 0 _ 0); reflexivity]].
  apply (goes_on _ (go 0 (LockW 1) (go 0 (Recheck 1) (go 0 (Loop 0) (cv new_worker))))) in R;
    [| exists 0%nat; split; [discriminate | apply (recheck_true 0 0 _ 1); reflexivity]].
  apply (goes_on _ (acquire 0 (Pred 1) (go 0 (LockW 1) (go 0 (Recheck 1) (go 0 (Loop 0) (cv new_worker)))))) in R;
    [| exists 0%nat; split; [discriminate | apply (lock_wait 0 0 _ 1); reflexivity]].
  apply (goes_on _ (go 0 (Block 1) (acquire 0 (Pred 1) (go 0 (LockW 1) (go 0 (Recheck 1) (go 0 (Loop 0) (cv new_worker))))))) in R;
    [| exists 0%nat; split; [discriminate | apply (pred_false 0 0 _ 1); reflexivity]].
  apply (goes_on _ asleep) in R; [exact R |].
  exists 0%nat; split; [discriminate | apply (fall_asleep 0 0 _ 1); reflexivity].
Qed.

Lemma shutdown_completes_witness : exists s', rtc (prompt 0) stopping s' /\ main s' = Ended.
Proof. apply (shutdown_completes 0 stopping stopping_reachable). exact I. Defined.
End Shutdown.
