(* ===== verification/Barrier.v ===== *)
(** Waiting for everything: [RedGrapes::barrier] ([redGrapes/redGrapes.tpp]) returns
    when the root space is empty, which is when every task ever submitted is
    finished; the step that empties the root space wakes the parser. *)

From Stdlib Require Import ZArith Lia Bool.
From stdpp Require Import base gmap list strings relations.
From S2P Require Import Prelude Access Resource Guards ResourceUser Entries Graph GraphNotify.
From S2P Require Import GraphInv GraphInit GraphSubmit System SystemSafe SystemLive SystemRun SystemProps.
From S2P Require Import SystemActivate Nesting SpaceCount.

Open Scope Z_scope.
Open Scope word_scope.

Module Barrier.
Import Resource ResourceUser Graph GraphNotify GraphInv GraphInit GraphSubmit System SystemSafe SystemLive.
Import SystemRun SystemProps SystemActivate Nesting SpaceCount.

Section Barrier.
Context {RA : Type} `{AccessOps RA}.
Implicit Types (w : World RA) (s : State (RA := RA)).

(** What the workers do while the parser sleeps once in [TaskFreeCtx::idle]. *)
Context (idle : State (RA := RA) -> State (RA := RA)).

Fixpoint barrier (fuel : nat) s : res (State (RA := RA)) :=
  match fuel with
  | O => Err OutOfFuel
  | S fuel =>
      empty ← space_empty root_space (world s);
      if empty : bool then Ok s else barrier fuel (idle s)
  end.

(** No task of the root space is in memory. *)
Definition drained s : Prop :=
  forall t i, info s !! t = Some i -> i_space i = root_space -> tasks (world s) !! t = None.

(** Fewer tasks in memory than the counter of a space can count. *)
Definition few_tasks s : Prop := Z.of_nat (size (tasks (world s))) < 2 ^ 32.
End Barrier.

Section Facts.
Context {RA : Type} `{AccessOps RA} `{!AccessLaws RA}.
Implicit Types (w : World RA) (task : Task RA) (s : State (RA := RA)).

Lemma members_le x w : (members x w <= size (tasks w))%nat.
Proof.
  unfold members. rewrite <- (map_size_fmap space (tasks w)). induction (space <$> tasks w) as [| t o m Hn IH] using map_ind.
  - rewrite map_sum_zero; [lia |]. intros t o E. rewrite lookup_empty in E. discriminate.
  - rewrite map_sum_insert_new, map_size_insert_None by exact Hn. unfold in_space at 1. destruct (decide _); lia.
Qed.

Lemma members_zero x w : members x w = 0%nat <-> forall t task, tasks w !! t = Some task -> space task <> Some x.
Proof.
  unfold members. split.
  - intros E t task Ht Es. assert (Hl : (space <$> tasks w) !! t = Some (Some x)) by (rewrite lookup_fmap, Ht; simpl; congruence).
    pose proof (map_sum_le (in_space x) _ t (Some x) Hl) as Hle. unfold in_space at 1 in Hle.
    rewrite decide_True in Hle by reflexivity. lia.
  - intros Hno. apply map_sum_zero. intros t o Ho. rewrite lookup_fmap in Ho.
    destruct (tasks w !! t) as [task |] eqn:Ht; [| discriminate]. injection Ho as <-.
    unfold in_space. apply decide_False. intros E. apply (Hno t task Ht). exact E.
Qed.

Lemma drained_iff s : invariant s -> drained s <-> members root_space (world s) = 0%nat.
Proof.
  intros [HI HS HL HO]. rewrite members_zero. split.
  - intros Hd t task Ht Es. destruct (ln_task _ _ HL t task Ht) as (i & Hi & _ & E).
    rewrite (Hd t i Hi) in Ht by congruence. discriminate.
  - intros Hno t i Hi E. destruct (tasks (world s) !! t) as [task |] eqn:Ht; [| reflexivity]. exfalso.
    destruct (ln_task _ _ HL t task Ht) as (i' & Hi' & _ & Es). apply (Hno t task Ht). congruence.
Qed.

Lemma space_empty_drained s : reachable init step s -> few_tasks s ->
  exists b, space_empty root_space (world s) = Ok b /\ (b = true <-> drained s).
Proof.
  intros Hr Hfew. destruct (reachable_counted s Hr) as [Hinv Hc]. destruct (reachable_nested s Hr) as (_ & _ & Hns).
  destruct (ns_root _ Hns) as (sp & Hsp & _). unfold space_empty. rewrite Hsp. cbn [deref mbind res_bind].
  eexists. split; [reflexivity |]. rewrite (drained_iff s Hinv), (Hc root_space sp Hsp).
  pose proof (members_le root_space (world s)). unfold few_tasks in Hfew.
  rewrite wrap_small by (change (2 ^ Z.of_nat 32) with (2 ^ 32) in *; lia). rewrite Z.eqb_eq. lia.
Qed.

(** Once the root space is drained nothing is left to do anywhere. *)
Lemma drained_finished s t i : reachable init step s -> drained s -> info s !! t = Some i ->
  finished_in t (world s) /\ i_status i = Returned.
Proof.
  intros Hr Hd Hi. destruct (reachable_nested s Hr) as (Hinv & Hfam & Hns). pose proof Hinv as [HI HS HL HO].
  assert (Hf : finished_in t (world s)); [| split; [exact Hf | eapply finished_returned; eassumption]].
  remember (i_seq i) as n eqn:En. revert t i Hi En. induction n as [n IH] using lt_wf_ind. intros t i Hi ->.
  destruct (ln_space _ _ HL t i Hi) as (sp & Hsp & Hpar). destruct (parent sp) as [p |] eqn:Ep.
  - destruct (Hpar p eq_refl) as (ip & Hip & Hlt). apply (owed_finished s p t Hinv).
    + apply (fm_parent _ _ Hfam t i sp p Hi Hsp Ep).
    + eapply IH; [exact Hlt | exact Hip | reflexivity].
  - pose proof (ns_only _ Hns _ sp Hsp Ep) as E. intros task Ht. rewrite (Hd t i Hi E) in Ht. discriminate.
Qed.

Lemma barrier_turn idle fuel s : reachable init step s -> few_tasks s ->
  (drained s -> barrier idle (S fuel) s = Ok s) /\ (~ drained s -> barrier idle (S fuel) s = barrier idle fuel (idle s)).
Proof.
  intros Hr Hfew. destruct (space_empty_drained s Hr Hfew) as (b & E & Hb).
  cbn [barrier]. rewrite E. cbn [mbind res_bind]. destruct b; split; intros Hd; try reflexivity; exfalso.
  - apply Hd, Hb. reflexivity.
  - apply Hb in Hd. discriminate.
Qed.
(** ** The parser is told *)

Definition rooted w : Prop := exists sp, spaces w !! root_space = Some sp /\ depth sp = 0.

(** If the root space becomes empty, the calls in between tell the parser. *)
Definition told w w' : Prop :=
  rooted w -> counted w -> rooted w' /\ counted w' /\
  exists l, calls w' = calls w ++ l /\
    (members root_space w <> 0%nat -> members root_space w' = 0%nat -> NotifyParser ∈ l).

Lemma told_refl w : told w w.
Proof.
  intros Hroot Hc. split; [exact Hroot |]. split; [exact Hc |].
  exists []. split; [symmetry; apply app_nil_r | congruence].
Qed.

Lemma told_trans w1 w2 w3 : told w1 w2 -> told w2 w3 -> told w1 w3.
Proof.
  intros H1 H2 R1 C1. destruct (H1 R1 C1) as (R2 & C2 & l1 & E1 & T1). destruct (H2 R2 C2) as (R3 & C3 & l2 & E2 & T2).
  split; [exact R3 |]. split; [exact C3 |]. exists (l1 ++ l2). split; [rewrite E2, E1, app_assoc; reflexivity |].
  intros Hn Hz. apply elem_of_app. destruct (Nat.eq_dec (members root_space w2) 0%nat) as [E | E]; auto.
Qed.

(** Steps that remove no task. *)
Lemma told_same w w' l : same_members w w' -> calls w' = calls w ++ l -> told w w'.
Proof.
  intros Hs El Hroot Hc. split; [| split].
  - destruct Hroot as (sp & Hsp & E). exists sp. rewrite (proj1 Hs). auto.
  - eapply counted_same; eassumption.
  - exists l. split; [exact El |]. rewrite (members_same root_space _ _ Hs). congruence.
Qed.

Lemma told_quiet w w' : same_members w w' -> calls w' = calls w -> told w w'.
Proof. intros Hs E. apply (told_same w w' []); [exact Hs | rewrite app_nil_r; exact E]. Qed.

Lemma told_free q t task w w' :
  tasks w !! t = Some task -> space task = Some q -> free_task q t w = Ok w' -> told w w'.
Proof.
  intros Ht Es E Hroot Hc. pose proof (counted_free q t task w w' Ht Es Hc E) as Hc'.
  unfold free_task in E. apply bind_Ok in E as (sp & Hsp & E). apply deref_Ok in Hsp. injection E as E.
  assert (Ed : tasks w' = delete t (tasks w)) by (rewrite <- E; destruct (_ && _); reflexivity).
  assert (Esp : spaces w' = <[q := mkSpace (u32 (task_count sp - 1)) (depth sp) (parent sp)]> (spaces w))
    by (rewrite <- E; destruct (_ && _); reflexivity).
  pose proof (members_delete root_space q t task w w' Ht Es Ed) as Hm. destruct Hroot as (sp0 & Hsp0 & Ed0).
  split; [| split; [exact Hc' |]].
  { unfold rooted. rewrite Esp. destruct (decide (q = root_space)) as [-> | Hne].
    - eexists. split; [apply lookup_insert_eq |]. simpl. congruence.
    - exists sp0. rewrite lookup_insert_ne by exact Hne. auto. }
  eexists (if (u32 (task_count sp - 1) =? 0) && (depth sp =? 0) then [Free t; NotifyParser] else [Free t]).
  split; [rewrite <- E; destruct (_ && _); simpl; [rewrite <- app_assoc; reflexivity | reflexivity] |].
  intros Hn Hz. unfold in_space in Hm. destruct (decide (Some q = Some root_space)) as [Eq | Hne]; [| lia].
  injection Eq as ->. assert (sp0 = sp) as -> by congruence. rewrite (Hc _ sp Hsp), Hm, Hz, Ed0. simpl. right. left.
Qed.

Lemma told_reached_after p t w w' : reached_after p t w = Ok w' -> told w w'.
Proof.
  unfold reached_after. intros E. destruct (_ || _); [| injection E as <-; apply told_refl].
  apply bind_Ok in E as (task & Ht & E). unfold get_task in Ht. apply deref_Ok in Ht.
  set (task1 := with_countdown (u8 (removal_countdown task - 1)) task) in *.
  apply (told_trans _ (put_task t task1 w)).
  { apply told_quiet; [eapply same_put_task; [exact Ht | reflexivity] | reflexivity]. }
  destruct (removal_countdown task =? 1); [| injection E as <-; apply told_refl].
  apply bind_Ok in E as (x & Hx & E). apply deref_Ok in Hx.
  apply (told_free x t task1); [apply lookup_insert_eq | exact Hx | exact E].
Qed.

Lemma told_notify fuel p claimed w b w' : notify fuel p claimed w = Ok (b, w') -> told w w'.
Proof.
  revert fuel p claimed w b w'. apply notify_rel.
  - apply told_refl.
  - apply told_trans.
  - intros p e w w' _ E. apply told_quiet; [eapply same_put_event, E | eapply calls_put_event, E].
  - intros c w. apply (told_same _ _ [c]); [split; reflexivity | reflexivity].
  - intros l w. apply told_quiet; [apply same_remove_users |]. revert w.
    induction l as [| r l IH]; intros w; [reflexivity |]. simpl. destruct (user_entry r); rewrite IH; reflexivity.
  - apply told_reached_after.
Qed.

Lemma drained_told s s' m n w' : invariant s -> s' = mkState w' m n -> invariant s' ->
  rooted (world s) -> counted (world s) -> told (world s) w' -> ~ drained s -> drained s' ->
  exists l, calls w' = calls (world s) ++ l /\ NotifyParser ∈ l.
Proof.
  intros Hinv -> Hinv' Hroot Hc Ht Hn Hd. destruct (Ht Hroot Hc) as (_ & _ & l & E & Hl). exists l. split; [exact E |].
  rewrite (drained_iff _ Hinv) in Hn. rewrite (drained_iff _ Hinv') in Hd. apply Hl; assumption.
Qed.

(** (wakeup): the step after which the root space is drained tells the parser,
    so that the barrier sleeping on its condition variable looks again. *)
Theorem drained_wakes_parser s s' :
  reachable init step s -> step s s' -> ~ drained s -> drained s' ->
  exists l, calls (world s') = calls (world s) ++ l /\ NotifyParser ∈ l.
Proof.
  intros Hr Hstep Hn Hd. destruct (reachable_counted s Hr) as [Hinv Hc]. destruct (reachable_nested s Hr) as (_ & _ & Hns).
  pose proof (invariant_step s s' Hinv Hstep) as Hinv'.
  assert (Hroot : rooted (world s)) by (destruct (ns_root _ Hns) as (sp & Hsp & E & _); exists sp; auto).
  destruct Hstep as [p q ip task sp s Hip Hrun Hp Hch Hq Hsub | x t u wk sp w' user' s Hx Hnt Hsp Hu Hp Hsub Huser
    | t i cl b w' s Hi Hst Hroom Hini | t i w' s Hi Hst Hstart | t i task b w' s Hi Hst Ht Hs Hnt
    | t i b w' s Hi Hst Hnt | t task b w' s Ht Hs Hnt | t i x p w' s Hi Hst Hx Hroom Hev
    | t i x e c wk b w' s Hi Hst Hx Hp | x e c b w' s Hx Hs Hnt]; simpl;
    try (apply (drained_told s _ _ _ w' Hinv eq_refl Hinv' Hroot Hc); [eapply told_notify; eassumption | exact Hn | exact Hd]).
  - exfalso. apply Hn. intros t i Hi E. specialize (Hd t i Hi E). simpl in Hd.
    apply lookup_insert_None in Hd as [Hd _]. exact Hd.
  - exfalso. destruct (submit_submitted s x t u wk sp w' Hinv Hx Hnt Hsp Hp Hsub) as [l' Hsubd].
    apply Hn. intros a i Hi E. destruct (tasks (world s) !! a) as [task |] eqn:Ha; [| reflexivity]. exfalso.
    destruct (sb_forth _ _ _ _ _ _ Hsubd a task Ha) as (task' & Ha' & _).
    specialize (Hd a i). simpl in Hd. rewrite lookup_insert_ne in Hd by congruence. rewrite (Hd Hi E) in Ha'. discriminate.
  - apply (drained_told s _ _ _ w' Hinv eq_refl Hinv' Hroot Hc); [| exact Hn | exact Hd]. unfold init_task in Hini.
    apply bind_Ok in Hini as (w1 & E1 & Hini). apply bind_Ok in Hini as (w2 & E2 & Hini).
    apply (told_trans _ w1); [apply told_quiet; [eapply same_modify, E1 | eapply calls_modify, E1] |].
    apply (told_trans _ w2); [apply told_quiet; [eapply same_init_graph, E2 | eapply calls_init_graph, E2] |].
    eapply told_notify, Hini.
  - unfold start_task in Hstart. apply bind_Ok in Hstart as (task & _ & Hstart).
    apply bind_Ok in Hstart as (u & _ & Hstart). apply bind_Ok in Hstart as ([b w2] & En & Hstart).
    injection Hstart as <-.
    apply (drained_told s _ _ _ w2 Hinv eq_refl Hinv' Hroot Hc); [eapply told_notify, En | exact Hn | exact Hd].
  - apply (drained_told s _ _ _ w' Hinv eq_refl Hinv' Hroot Hc); [| exact Hn | exact Hd].
    apply told_quiet; [eapply same_make_event, Hev | eapply calls_make_event, Hev].
  - apply (drained_told s _ _ _ w' Hinv eq_refl Hinv' Hroot Hc); [| exact Hn | exact Hd].
    unfold pause_task in Hp. apply bind_Ok in Hp as (w2 & Ep & Hp). apply (told_trans _ w2); [| eapply told_notify, Hp].
    apply told_quiet; [eapply same_prepare_pause, Ep | eapply calls_prepare_pause, Ep].
Qed.

(** ** The barrier *)

Lemma iter_idle idle s n : (forall s, rtc step s (idle s)) -> rtc step s (Nat.iter n idle s).
Proof.
  intros Hidle. induction n as [| n IH]; [apply rtc_refl |]. simpl. transitivity (Nat.iter n idle s); [exact IH | apply Hidle].
Qed.

(** C18 (barrier): [barrier] returns exactly when, at one of the times it looks,
    no task of the root space is in memory; then every task ever submitted, to
    whatever space, has returned and is finished. *)
Theorem barrier_waits_for_all (idle : State -> State) s fuel :
  (forall s, rtc step s (idle s)) -> reachable init step s -> (forall n, (n < fuel)%nat -> few_tasks (Nat.iter n idle s)) ->
  (is_ok (barrier idle fuel s) = true <-> exists n, (n < fuel)%nat /\ drained (Nat.iter n idle s)) /\
  forall s', barrier idle fuel s = Ok s' -> rtc step s s' /\ drained s' /\
    forall t i, info s' !! t = Some i -> finished_in t (world s') /\ i_status i = Returned.
Proof.
  intros Hidle. revert s. induction fuel as [| fuel IH]; intros s Hr Hfew.
  - split; [| discriminate]. split; [discriminate |]. intros (n & Hn & _). lia.
  - destruct (barrier_turn idle fuel s Hr (Hfew 0%nat (Nat.lt_0_succ _))) as [Hd Hn].
    destruct (space_empty_drained s Hr (Hfew 0%nat (Nat.lt_0_succ _))) as (b & _ & Hb).
    destruct b.
    + assert (Hdr : drained s) by (apply Hb; reflexivity). rewrite (Hd Hdr). split.
      * split; [| reflexivity]. intros _. exists 0%nat. split; [lia | exact Hdr].
      * intros s' E. injection E as <-. split; [apply rtc_refl |]. split; [exact Hdr |].
        intros t i Hi. apply (drained_finished s t i Hr Hdr Hi).
    + assert (Hdr : ~ drained s) by (intros Hdr; apply Hb in Hdr; discriminate). rewrite (Hn Hdr).
      destruct (IH (idle s)) as [Hiff Hres].
      * eapply reachable_rtc; [exact Hr | apply Hidle].
      * intros n Hlt. rewrite <- Nat.iter_succ_r. apply Hfew. lia.
      * split.
        -- rewrite Hiff. split; intros (n & Hlt & Hdn).
           ++ exists (S n). split; [lia |]. rewrite Nat.iter_succ_r. exact Hdn.
           ++ destruct n as [| n]; [contradiction |]. exists n. split; [lia |]. rewrite Nat.iter_succ_r in Hdn. exact Hdn.
        -- intros s' E. destruct (Hres s' E) as (Hs & Hrest). split; [| exact Hrest].
           transitivity (idle s); [apply Hidle | exact Hs].
Qed.

(** The root space is not drained while any task is unfinished. *)
Lemma unfinished_not_drained s t : reachable init step s -> unfinished s t -> ~ drained s.
Proof.
  intros Hr (task & Ht & Hf) Hd. destruct (ln_task _ _ (iv_linked _ (reachable_safe s Hr)) t task Ht) as (i & Hi & _).
  destruct (drained_finished s t i Hr Hd Hi) as [Hfin _]. specialize (Hfin task Ht). congruence.
Qed.

(** (barrier_in_task): a task that calls [barrier], in whatever space it runs,
    waits for itself: the call does not return while the task is running. *)
Theorem barrier_in_task_never_returns (idle : State -> State) s t fuel :
  (forall s, rtc step s (idle s)) -> reachable init step s -> (forall n, (n < fuel)%nat -> few_tasks (Nat.iter n idle s)) ->
  (forall n, i_status <$> info (Nat.iter n idle s) !! t = Some Running) ->
  barrier idle fuel s = Err OutOfFuel.
Proof.
  intros Hidle. revert s. induction fuel as [| fuel IH]; intros s Hr Hfew Hrun; [reflexivity |].
  destruct (barrier_turn idle fuel s Hr (Hfew 0%nat (Nat.lt_0_succ _))) as [_ Hn]. rewrite Hn.
  - apply IH.
    + eapply reachable_rtc; [exact Hr | apply Hidle].
    + intros n Hlt. rewrite <- Nat.iter_succ_r. apply Hfew. lia.
    + intros n. specialize (Hrun (S n)). rewrite Nat.iter_succ_r in Hrun. exact Hrun.
  - specialize (Hrun 0%nat). simpl in Hrun. destruct (info s !! t) as [i |] eqn:Hi; [| discriminate]. injection Hrun as Est.
    apply (unfinished_not_drained s t Hr). apply (running_live s t i Hr Hi Est).
Qed.
End Facts.

(** ** A concrete run *)

#[local] Existing Instances run_ops run_laws.

(** The workers finish both writers while the parser sleeps, and the futures are
    dropped. *)
Definition rest : list (Command (RA := Guards.RA)) := [CReturn 0; CResultGet 0; CStart 1; CReturn 1; CResultGet 1].

Definition workers_finish (s : State (RA := Guards.RA)) : State := match exec_all rest s with Some s' => s' | None => s end.

Lemma workers_finish_steps s : rtc step s (workers_finish s).
Proof.
  unfold workers_finish. destruct (exec_all rest s) as [s' |] eqn:E; [| apply rtc_refl].
  apply (exec_all_rtc rest s s'); [| exact E]. repeat (apply List.Forall_cons; [exact I |]). apply List.Forall_nil.
Qed.

Lemma barrier_waits_for_all_witness :
  is_ok (barrier workers_finish 2 (state_after two_writers)) = true.
Proof.
  apply (barrier_waits_for_all workers_finish (state_after two_writers) 2 workers_finish_steps).
  - run_state.
  - intros n Hn. destruct n as [| [| n]]; [vm_compute; reflexivity | vm_compute; reflexivity | lia].
  - exists 1%nat. split; [lia |]. intros t i _ _. vm_compute. destruct t; reflexivity.
Defined.

(** The task that calls [barrier] is all there is. *)
Lemma barrier_in_task_never_returns_witness :
  barrier (fun s => s) 1000 (state_after two_writers) = Err OutOfFuel.
Proof.
  assert (Hid : forall n s, Nat.iter n (fun s : State (RA := Guards.RA) => s) s = s)
    by (induction n as [| n IH]; intros s; [reflexivity | exact (IH s)]).
  apply (barrier_in_task_never_returns (fun s => s) (state_after two_writers) 0 1000).
  - intros s. apply rtc_refl.
  - run_state.
  - intros n _. rewrite Hid. vm_compute. reflexivity.
  - intros n. rewrite Hid. vm_compute. reflexivity.
Defined.

(** One task, finished but for its future. *)
Definition one_left : list Command :=
  [CSubmit 0 0 (writes 7) 0; CInit 0 false; CStart 0; CReturn 0].

Lemma drained_wakes_parser_witness :
  exists l, calls (world (state_after (one_left ++ [CResultGet 0]))) = calls (world (state_after one_left)) ++ l /\
    NotifyParser ∈ l.
Proof.
  apply (drained_wakes_parser (state_after one_left) (state_after (one_left ++ [CResultGet 0]))).
  - run_state.
  - apply (exec_step (CResultGet 0)); [exact I | vm_compute; reflexivity].
  - intros Hd. specialize (Hd 0%nat (info_of (state_after one_left) 0) ltac:(vm_compute; reflexivity) eq_refl).
    vm_compute in Hd. discriminate.
  - intros t i _ _. vm_compute. destruct t; reflexivity.
Defined.
End Barrier.
