(* ===== verification/GraphResults.v ===== *)
(** What notifications do to the result events and to the life of a task: the
    result events of a task are left alone by the notifications of the graph, and
    a task is removed only when its result has been taken or given up and its
    post-event is reached ([EventPtr::notify] of [redGrapes/scheduler/event.tpp],
    [Task::removal_countdown]). *)

From Stdlib Require Import ZArith Lia Bool.
From stdpp Require Import base gmap list strings.
From S2P Require Import Prelude Resource ResourceUser Entries Graph GraphNotify GraphInv.

Open Scope Z_scope.
Open Scope word_scope.

Module GraphResults.
Import Resource ResourceUser Graph GraphNotify GraphInv.

(** An event a notification of the graph can reach. *)
Definition plain (p : EventPtr) : Prop := tag p = T_EVT_PRE \/ tag p = T_EVT_POST.

Lemma plain_pre t : plain (get_pre_event t).
Proof. left. reflexivity. Qed.

Lemma plain_post t : plain (get_post_event t).
Proof. right. reflexivity. Qed.

Section Results.
Context {RA : Type} `{AccessOps RA}.
Implicit Types (w : World RA) (task : Task RA) (X : gset nat).

(** The removals still to come: of the post-event, of the result, and of the
    post-event whose followers are just being notified (the tasks [X]). *)
Definition removals X (t : nat) task : Z :=
  Z.b2z (negb (is_finished task)) + Z.b2z (negb (is_reached (result_get_event task))) + Z.b2z (bool_decide (t ∈ X)).

Lemma due_self X t : t ∈ X ∪ {[t]}.
Proof. apply elem_of_union_r, elem_of_singleton_2. reflexivity. Qed.

Lemma due_other X t a : a <> t -> a ∈ X ∪ {[t]} <-> a ∈ X.
Proof. intros Hne. rewrite elem_of_union, elem_of_singleton. tauto. Qed.

Record settled X w : Prop := {
  sl_countdown : forall t task, tasks w !! t = Some task -> removal_countdown task = removals X t task;
  sl_due : forall t task, tasks w !! t = Some task -> t ∈ X -> is_finished task = true;
  sl_small : forall t task, tasks w !! t = Some task -> 0 <= state (post_event task) < 2 ^ 16;
  sl_plain : forall t task f, tasks w !! t = Some task -> is_finished task = false ->
    f ∈ followers (post_event task) -> plain f;
  sl_leaf : forall t task, tasks w !! t = Some task -> followers (pre_event task) = []
}.

(** The tasks that stay keep their result events; a task that goes has none due. *)
Record quiet w w' : Prop := {
  qt_back : forall t task', tasks w' !! t = Some task' -> exists task, tasks w !! t = Some task /\
    result_set_event task' = result_set_event task /\ result_get_event task' = result_get_event task;
  qt_gone : forall t task, tasks w !! t = Some task -> tasks w' !! t = None ->
    is_reached (result_get_event task) = true
}.

Lemma quiet_tasks w w' : tasks w' = tasks w -> quiet w w'.
Proof. intros E. constructor; rewrite E; [eauto | intros; congruence]. Qed.

Lemma quiet_trans w1 w2 w3 : quiet w1 w2 -> quiet w2 w3 -> quiet w1 w3.
Proof.
  intros [B1 G1] [B2 G2]. constructor.
  - intros t task' Ht. destruct (B2 t task' Ht) as (x & Hx & E1 & E2). destruct (B1 t x Hx) as (y & Hy & E3 & E4).
    exists y. split; [exact Hy | split; congruence].
  - intros t task Ht Hn. destruct (tasks w2 !! t) as [x |] eqn:Hx; [| eauto].
    destruct (B1 t x Hx) as (y & Hy & _ & E). assert (y = task) as -> by congruence. rewrite <- E. eauto.
Qed.

Lemma quiet_put w t task task' :
  tasks w !! t = Some task -> result_set_event task' = result_set_event task ->
  result_get_event task' = result_get_event task -> quiet w (put_task t task' w).
Proof.
  intros Ht E1 E2. constructor; simpl.
  - intros a x Hx. apply lookup_insert_Some in Hx as [(<- & <-) | (_ & Hx)]; eauto.
  - intros a x Hx Hn. apply lookup_insert_None in Hn as [Hn _]. congruence.
Qed.

Lemma settled_tasks X w w' : tasks w' = tasks w -> settled X w -> settled X w'.
Proof. intros E [S1 S2 S3 S4 S5]. constructor; rewrite E; assumption. Qed.

(** Changing one task; the others do not notice whether it is in [X]. *)
Lemma settled_put X X' w t task task' :
  settled X w -> tasks w !! t = Some task -> (forall a, a <> t -> a ∈ X' <-> a ∈ X) ->
  removal_countdown task' = removals X' t task' -> (t ∈ X' -> is_finished task' = true) ->
  0 <= state (post_event task') < 2 ^ 16 -> followers (pre_event task') = [] ->
  (is_finished task' = false -> forall f, f ∈ followers (post_event task') -> plain f) ->
  settled X' (put_task t task' w).
Proof.
  intros [S1 S2 S3 S4 S5] Ht HX E1 E2 E3 E4 E5.
  constructor; simpl; intros a x; [intros Hx | intros Hx | intros Hx | intros f Hx | intros Hx];
    apply lookup_insert_Some in Hx as [(<- & <-) | (Hne & Hx)]; auto.
  - rewrite (S1 a x Hx). unfold removals. f_equal. f_equal. apply bool_decide_ext. symmetry. apply HX. congruence.
  - intros Hin. apply (S2 a x Hx), HX; [congruence | exact Hin].
  - eauto.
  - eauto.
  - eauto.
Qed.

Lemma settled_delete X w w' t : tasks w' = delete t (tasks w) -> settled X w -> settled X w'.
Proof.
  intros E [S1 S2 S3 S4 S5]. constructor; rewrite E; intros a x; [intros Hx | intros Hx | intros Hx | intros f Hx | intros Hx];
    apply lookup_delete_Some in Hx as [_ Hx]; eauto.
Qed.

Lemma put_pre_settled X w t task e :
  settled X w -> tasks w !! t = Some task -> followers e = [] ->
  settled X (put_task t (with_event T_EVT_PRE e task) w) /\ quiet w (put_task t (with_event T_EVT_PRE e task) w).
Proof.
  intros HS Ht He. split; [| apply (quiet_put w t task); auto].
  pose proof HS as [S1 S2 S3 S4 S5]. apply (settled_put X X w t task); [exact HS | exact Ht | reflexivity | | | | exact He |].
  - apply (S1 t task Ht).
  - apply (S2 t task Ht).
  - apply (S3 t task Ht).
  - intros Hn f. apply (S4 t task f Ht Hn).
Qed.

(** The post-event is notified: it is reached, and the removal is due, or not yet. *)
Lemma put_post_settled X w t task :
  settled X w -> tasks w !! t = Some task -> 0 < state (post_event task) ->
  let w1 := put_task t (with_event T_EVT_POST (dn (post_event task)) task) w in
  (t ∉ X) /\ quiet w w1 /\ settled (if state (post_event task) - 1 =? 0 then X ∪ {[t]} else X) w1.
Proof.
  intros HS Ht Hpos w1. pose proof HS as [S1 S2 S3 S4 S5].
  assert (Hnf : is_finished task = false) by (unfold is_finished, is_reached; lia).
  assert (HtX : t ∉ X) by (intros Hin; rewrite (S2 t task Ht Hin) in Hnf; discriminate).
  pose proof (S3 t task Ht) as Hsm.
  assert (Est : state (dn (post_event task)) = state (post_event task) - 1) by (apply dn_state; lia).
  set (task1 := with_event T_EVT_POST (dn (post_event task)) task) in *.
  assert (Epost : post_event task1 = dn (post_event task)) by reflexivity.
  assert (Ef : is_finished task1 = (state (post_event task) - 1 =? 0))
    by (unfold is_finished, is_reached; rewrite Epost, Est; reflexivity).
  split; [exact HtX |]. split; [apply (quiet_put w t task); auto |].
  pose proof (S1 t task Ht) as Ecd. unfold removals in Ecd. rewrite Hnf, bool_decide_false in Ecd by exact HtX.
  apply (settled_put X _ w t task); [exact HS | exact Ht | | | | | exact (S5 t task Ht) |].
  - intros a Ha. destruct (_ =? 0); [apply due_other, Ha | reflexivity].
  - unfold removals. rewrite Ef. change (removal_countdown task1) with (removal_countdown task). rewrite Ecd.
    change (result_get_event task1) with (result_get_event task).
    destruct (state (post_event task) - 1 =? 0).
    + rewrite bool_decide_true by apply due_self. simpl negb. cbn [Z.b2z]. lia.
    + rewrite bool_decide_false by exact HtX. reflexivity.
  - rewrite Ef. destruct (_ =? 0); [reflexivity | intros Hin; contradiction].
  - rewrite Epost, Est. lia.
  - intros _ f Hf. apply (S4 t task f Ht Hnf Hf).
Qed.

(** The followers of the post-event are notified: the removal is made. *)
Lemma reached_after_settled X w w' p t :
  settled (X ∪ {[t]}) w -> t ∉ X -> tag p = T_EVT_POST -> reached_after p t w = Ok w' -> settled X w' /\ quiet w w'.
Proof.
  intros HS HtX Htag E. pose proof HS as [S1 S2 S3 S4 S5]. unfold reached_after in E.
  rewrite Htag in E. simpl bool_decide in E. cbn [orb] in E.
  apply bind_Ok in E as (task & Ht & E). unfold get_task in Ht. apply deref_Ok in Ht.
  assert (Hf : is_finished task = true) by (apply (S2 t task Ht), due_self).
  pose proof (S1 t task Ht) as Ecd. unfold removals in Ecd. rewrite Hf, bool_decide_true in Ecd by apply due_self.
  cbn [negb Z.b2z] in Ecd. set (g := Z.b2z (negb (is_reached (result_get_event task)))) in *.
  assert (Hg : 0 <= g <= 1) by (unfold g; destruct (negb _); simpl; lia).
  set (task1 := with_countdown (u8 (removal_countdown task - 1)) task) in *.
  assert (Hs1 : settled X (put_task t task1 w)).
  { apply (settled_put (X ∪ {[t]}) X w t task); [exact HS | exact Ht | | | | | |].
    - intros a Ha. symmetry. apply due_other, Ha.
    - unfold removals. change (is_finished task1) with (is_finished task).
      change (result_get_event task1) with (result_get_event task). fold g. rewrite Hf, bool_decide_false by exact HtX.
      simpl. rewrite wrap_small by lia. lia.
    - intros _. exact Hf.
    - apply (S3 t task Ht).
    - apply (S5 t task Ht).
    - intros Hn f. apply (S4 t task f Ht Hn). }
  assert (Q1 : quiet w (put_task t task1 w)) by (apply (quiet_put w t task); auto).
  destruct (Z.eqb_spec (removal_countdown task) 1) as [E1 | N1]; [| injection E as <-; auto].
  apply bind_Ok in E as (x & _ & E). unfold free_task in E. apply bind_Ok in E as (sp & _ & E). injection E as E.
  assert (Ed : tasks w' = delete t (tasks (put_task t task1 w))) by (rewrite <- E; destruct (_ && _); reflexivity).
  split; [eapply settled_delete; eassumption |]. eapply quiet_trans; [exact Q1 |].
  constructor; rewrite Ed.
  - intros a y Hy. apply lookup_delete_Some in Hy as [_ Hy]. eauto.
  - intros a y Hy Hn. apply lookup_delete_None in Hn as [-> | Hn]; [| congruence].
    simpl in Hy. rewrite lookup_insert_eq in Hy. injection Hy as <-.
    change (result_get_event task1) with (result_get_event task). unfold g in *.
    destruct (is_reached (result_get_event task)); [reflexivity | simpl in Ecd; lia].
Qed.

Lemma reached_before_tasks p t wk w w' : reached_before p t wk w = Ok w' -> tasks w' = tasks w.
Proof.
  unfold reached_before. intros E. apply bind_Ok in E as (x & Ex & E).
  assert (E1 : tasks x = tasks w).
  { destruct (bool_decide _); [| congruence]. unfold delete_from_resources in Ex.
    apply bind_Ok in Ex as (task & _ & Ex). injection Ex as <-. apply remove_users_keeps. }
  injection E as <-. destruct (_ && _); exact E1.
Qed.

(** The event a plain pointer points to, and the store after an update of it. *)
Lemma plain_event p e w w1 :
  plain p -> get_event p w = Ok e -> put_event p (dn e) w = Ok w1 ->
  exists t task, ep_task p = Some t /\ tasks w !! t = Some task /\
    ((tag p = T_EVT_PRE /\ e = pre_event task /\ w1 = put_task t (with_event T_EVT_PRE (dn e) task) w) \/
     (tag p = T_EVT_POST /\ e = post_event task /\ w1 = put_task t (with_event T_EVT_POST (dn e) task) w)).
Proof.
  unfold get_event, put_event, get_task. intros Hp Eg Ep.
  destruct (ep_task p) as [t |]; [| destruct Hp as [Hp | Hp]; rewrite Hp in Eg; discriminate].
  destruct Hp as [Hp | Hp]; rewrite Hp in Eg, Ep; cbn [deref mbind res_bind] in Eg, Ep;
    (destruct (tasks w !! t) as [task |] eqn:Ht; [| discriminate]); exists t, task; rewrite Ht;
    (split; [reflexivity |]; split; [reflexivity |]); [left | right]; injection Eg as <-; injection Ep as <-; auto.
Qed.

Lemma notify_all_settled fuel l :
  (forall X p w b w', plain p -> settled X w -> notify fuel p false w = Ok (b, w') -> settled X w' /\ quiet w w') ->
  forall X w w', (forall f, f ∈ l -> plain f) -> settled X w -> notify_all fuel l w = Ok w' -> settled X w' /\ quiet w w'.
Proof.
  intros IH. induction l as [| f l IHl]; intros X w w' Hl HS E; simpl in E.
  - injection E as <-. split; [exact HS | apply quiet_tasks; reflexivity].
  - apply bind_Ok in E as ([b w1] & E1 & E). destruct (IH X f w b w1 (Hl f ltac:(left)) HS E1) as [HS1 Q1].
    destruct (IHl X w1 w' (fun g Hg => Hl g ltac:(right; exact Hg)) HS1 E) as [HS2 Q2].
    split; [exact HS2 | eapply quiet_trans; eassumption].
Qed.

(** A notification in the graph, while the removals of [X] are under way. *)
Lemma notify_settled fuel : forall X p claimed w b w',
  plain p -> settled X w -> notify fuel p claimed w = Ok (b, w') -> settled X w' /\ quiet w w'.
Proof.
  induction fuel as [| fuel IH]; intros X p claimed w b w' Hp HS E; [discriminate |]. rewrite notify_S in E.
  apply bind_Ok in E as (e & Eg & E). apply bind_Ok in E as (w1 & Ep & E). apply bind_Ok in E as (u & Ea & E).
  apply cpp_assert_Ok, Z.ltb_lt in Ea.
  destruct (plain_event p e w w1 Hp Eg Ep) as (t & task & Et & Ht & [(Htag & -> & ->) | (Htag & -> & ->)]);
    rewrite Et in E; cbn [deref mbind res_bind] in E; cbv zeta in E.
  - (* a pre-event has no followers *)
    destruct (put_pre_settled X w t task (dn (pre_event task)) HS Ht (sl_leaf _ _ HS t task Ht)) as [HS1 Q1].
    assert (Ew : tasks w' = tasks (put_task t (with_event T_EVT_PRE (dn (pre_event task)) task) w)).
    { destruct (1 <? _); [injection E as _ <-; reflexivity |]. rewrite (sl_leaf _ _ HS t task Ht) in E.
      unfold reached_before, reached_after in E. rewrite Htag in E. simpl bool_decide in E.
      cbn [orb andb notify_all mbind res_bind] in E.
      destruct (_ =? 0); injection E as _ <-; repeat destruct (_ && _); destruct (0 <=? _); reflexivity. }
    split; [eapply settled_tasks; eassumption | eapply quiet_trans; [exact Q1 | apply quiet_tasks, Ew]].
  - destruct (put_post_settled X w t task HS Ht Ea) as (HtX & Q1 & HS1).
    set (w1 := put_task t (with_event T_EVT_POST (dn (post_event task)) task) w) in *.
    rewrite Htag in E. simpl bool_decide in E. cbn [andb] in E.
    set (w2 := if 0 <=? waker_id (post_event task) then call (Wake t (waker_id (post_event task))) w1 else w1) in E.
    assert (E2 : tasks w2 = tasks w1) by (unfold w2; destruct (0 <=? _); reflexivity).
    assert (Q2 : quiet w w2) by (eapply quiet_trans; [exact Q1 | apply quiet_tasks, E2]).
    destruct (Z.eqb_spec (state (post_event task) - 1) 0) as [E0 | N0].
    + replace (1 <? state (post_event task) - 1) with false in E by lia.
      apply bind_Ok in E as (w3 & E3 & E). apply bind_Ok in E as (w4 & E4 & E). apply bind_Ok in E as (w5 & E5 & E).
      injection E as _ <-.
      assert (Et3 : tasks w3 = tasks w1) by (rewrite <- E2; eapply reached_before_tasks, E3).
      destruct (notify_all_settled fuel (followers (post_event task)) (fun X p => IH X p false) (X ∪ {[t]}) w3 w4)
        as [HS4 Q4]; [| eapply settled_tasks; eassumption | exact E4 |].
      { intros f. apply (sl_plain _ _ HS t task f Ht). unfold is_finished, is_reached. lia. }
      destruct (reached_after_settled X w4 w5 p t HS4 HtX Htag E5) as [HS5 Q5]. split; [exact HS5 |].
      eapply quiet_trans; [exact Q1 |]. eapply quiet_trans; [apply quiet_tasks, Et3 |].
      eapply quiet_trans; eassumption.
    + destruct (1 <? _); injection E as _ <-; [auto |]. split; [eapply settled_tasks; eassumption | exact Q2].
Qed.

(** An external event is reached. *)
Lemma notify_external_settled fuel X w x e c b w' :
  settled X w -> events w !! x = Some e -> state e = 1 -> (forall f, f ∈ followers e -> plain f) ->
  notify fuel (external x c) false w = Ok (b, w') -> settled X w' /\ quiet w w'.
Proof.
  intros HS Hx Hs Hf E. destruct fuel as [| fuel]; [discriminate |]. rewrite notify_S in E.
  unfold get_event, put_event in E. cbn [tag external external_event deref mbind res_bind] in E. rewrite Hx in E.
  cbn [deref mbind res_bind ep_task] in E. rewrite Hs in E. change (0 <? 1) with true in E.
  change (1 <? 1 - 1) with false in E. change (1 - 1 =? 0) with true in E. cbn [cpp_assert mbind res_bind] in E.
  unfold reached_before, reached_after in E. simpl bool_decide in E. cbn [andb orb mbind res_bind] in E.
  apply bind_Ok in E as (c' & _ & E). apply bind_Ok in E as (w2 & E & Ew). injection Ew as _ <-.
  set (w1 := if 0 <=? waker_id e then _ else _) in E.
  assert (E1 : tasks w1 = tasks w) by (unfold w1; destruct (0 <=? _); reflexivity). clearbody w1.
  destruct (notify_all_settled fuel (followers e) (fun X p => notify_settled fuel X p false) X w1 w2 Hf) as [HS2 Q2];
    [eapply settled_tasks; eassumption | exact E |].
  split; [exact HS2 |]. eapply quiet_trans; [apply quiet_tasks, E1 | exact Q2].
Qed.

(** ** The result is set, and taken *)

Lemma notify_result_set_tasks fuel w t task b w' :
  tasks w !! t = Some task -> followers (result_set_event task) = [] -> state (result_set_event task) = 1 ->
  notify fuel (get_result_set_event t) false w = Ok (b, w') ->
  tasks w' = <[t := with_event T_EVT_RES_SET (dn (result_set_event task)) task]> (tasks w).
Proof.
  intros Ht Hl Hs E. destruct fuel as [| fuel]; [discriminate |]. rewrite notify_S in E.
  unfold get_event, put_event, get_task in E. simpl tag in E. simpl ep_task in E. cbn [deref mbind res_bind] in E.
  rewrite Ht in E. cbn [deref mbind res_bind task_event] in E. rewrite Hs in E. cbn [cpp_assert mbind res_bind] in E.
  change (0 <? 1) with true in E. change (1 <? 1 - 1) with false in E. change (1 - 1 =? 0) with true in E.
  cbn [cpp_assert mbind res_bind] in E. rewrite Hl in E. unfold reached_before, reached_after in E. simpl bool_decide in E.
  cbn [orb andb notify_all mbind res_bind] in E. injection E as _ <-.
  destruct (_ =? parserID), (0 <=? _); reflexivity.
Qed.

Lemma notify_result_get_tasks fuel w t task b w' :
  settled ∅ w -> tasks w !! t = Some task -> followers (result_get_event task) = [] -> state (result_get_event task) = 1 ->
  notify fuel (get_result_get_event t) false w = Ok (b, w') ->
  settled ∅ w' /\ (forall a, a <> t -> tasks w' !! a = tasks w !! a) /\
  (forall task', tasks w' !! t = Some task' -> is_reached (result_get_event task') = true /\
     result_set_event task' = result_set_event task).
Proof.
  intros HS Ht Hl Hs E. pose proof HS as [S1 S2 S3 S4 S5]. destruct fuel as [| fuel]; [discriminate |]. rewrite notify_S in E.
  unfold get_event, put_event, get_task in E. simpl tag in E. simpl ep_task in E. cbn [deref mbind res_bind] in E.
  rewrite Ht in E. cbn [deref mbind res_bind task_event] in E. rewrite Hs in E.
  change (0 <? 1) with true in E. change (1 <? 1 - 1) with false in E. change (1 - 1 =? 0) with true in E.
  cbn [cpp_assert mbind res_bind] in E. rewrite Hl in E. unfold reached_before in E. simpl bool_decide in E.
  cbn [orb andb notify_all mbind res_bind] in E. apply bind_Ok in E as (w2 & E & Ew). injection Ew as _ <-.
  set (task1 := with_event T_EVT_RES_GET (dn (result_get_event task)) task) in *.
  set (w1 := if 0 <=? _ then _ else _) in E.
  assert (Et1 : tasks w1 = <[t := task1]> (tasks w)) by (unfold w1; destruct (0 <=? _); reflexivity). clearbody w1.
  unfold reached_after, get_task in E. simpl bool_decide in E. cbn [orb] in E. rewrite Et1, lookup_insert_eq in E.
  cbn [deref mbind res_bind] in E. change (removal_countdown task1) with (removal_countdown task) in E.
  set (task2 := with_countdown (u8 (removal_countdown task - 1)) task1) in *.
  assert (Er : is_reached (result_get_event task2) = true).
  { change (result_get_event task2) with (dn (result_get_event task)). unfold is_reached.
    rewrite dn_state by (rewrite Hs; lia). rewrite Hs. reflexivity. }
  pose proof (S1 t task Ht) as Ecd. unfold removals in Ecd. rewrite bool_decide_false in Ecd by apply not_elem_of_empty.
  unfold is_reached at 1 in Ecd. rewrite Hs in Ecd. cbn [Z.eqb Pos.eqb negb Z.b2z] in Ecd.
  assert (HS2 : settled ∅ (put_task t task2 w)).
  { apply (settled_put ∅ ∅ w t task); [exact HS | exact Ht | reflexivity | | apply (S2 t task Ht) | apply (S3 t task Ht)
      | apply (S5 t task Ht) | intros Hn f; apply (S4 t task f Ht Hn)].
    unfold removals. rewrite Er, bool_decide_false by apply not_elem_of_empty.
    change (is_finished task2) with (is_finished task). change (removal_countdown task2) with (u8 (removal_countdown task - 1)).
    rewrite Ecd. destruct (is_finished task); reflexivity. }
  destruct (removal_countdown task =? 1).
  - apply bind_Ok in E as (x & _ & E). unfold free_task in E. apply bind_Ok in E as (sp & _ & E). injection E as E.
    assert (Ed : tasks w2 = delete t (tasks w)).
    { rewrite <- E. destruct (_ && _); simpl; rewrite Et1, insert_insert_eq, delete_insert_eq; reflexivity. }
    split; [eapply settled_delete; eassumption |]. rewrite Ed. split.
    + intros a Ha. apply lookup_delete_ne. congruence.
    + intros task'. rewrite lookup_delete_eq. discriminate.
  - injection E as <-. simpl tasks. rewrite Et1, insert_insert_eq. split.
    + eapply settled_tasks; [| exact HS2]. simpl. rewrite Et1, insert_insert_eq. reflexivity.
    + split; [intros a Ha; apply lookup_insert_ne; congruence |].
      intros task'. rewrite lookup_insert_eq. intros Heq. injection Heq as <-. auto.
Qed.
End Results.
End GraphResults.
