(* ===== verification/Futures.v ===== *)
(** Results of tasks: the value a task's function returns is stored in the task,
    the future handed out by [submit] reads it, and a task stays in memory as long
    as its future can be used ([redGrapes/task/task.hpp], [task/future.hpp],
    [task/task_builder.hpp]). *)

From Stdlib Require Import ZArith Lia Bool.
From stdpp Require Import base gmap list strings relations.
From S2P Require Import Prelude Access Resource Guards ResourceUser Entries Graph GraphNotify.
From S2P Require Import GraphInv GraphInit GraphSubmit GraphEvents System SystemSafe SystemLive SystemRun SystemProps.
From S2P Require Import GraphResults.

Open Scope Z_scope.
Open Scope word_scope.

Module Futures.
Import Resource ResourceUser Graph GraphNotify GraphInv GraphInit GraphSubmit GraphEvents System SystemSafe SystemLive.
Import SystemRun GraphResults.

(** [Future]: whether the result is taken or the future moved away, and the task. *)
Record Future : Type := mkFuture { taken : bool; task_of : nat }.

Definition new_future (t : nat) : Future := mkFuture false t.

(** The move constructor: the new future, and what becomes of the old one. *)
Definition move_future (other : Future) : Future * Future :=
  (mkFuture (taken other) (task_of other), mkFuture true (task_of other)).

Section Futures.
Context {RA : Type} `{AccessOps RA}.

(** The type of the results, and what the function of each task returns. *)
Context {V : Type} (run_result : nat -> V).

Implicit Types (w : World RA) (task : Task RA) (s : State (RA := RA)) (f : Future).

(** [result_data] is a member of the task: it goes with the task. *)
Definition live_results w (d : (gmap nat V)) : (gmap nat V) := filter (fun x => is_Some (tasks w !! fst x)) d.

(** [Future::is_ready] *)
Definition future_is_ready f w : res bool :=
  task ← get_task (task_of f) w; Ok (is_reached (result_set_event task)).

(** [Future::get]; [None] while the result is not set and the caller yields. *)
Definition get_future f (d : (gmap nat V)) w : res (option (V * Future * World RA)) :=
  ready ← future_is_ready f w;
  if ready : bool then
    result ← deref (d !! task_of f);
    '(_, w') ← notify (notify_fuel w) (get_result_get_event (task_of f)) false w;
    Ok (Some (result, mkFuture true (task_of f), w'))
  else Ok None.

(** [Future::~Future] *)
Definition destroy_future f w : res (World RA) :=
  if taken f then Ok w
  else '(_, w') ← notify (notify_fuel w) (get_result_get_event (task_of f)) false w; Ok w'.

(** [ResultTask::run] *)
Definition run_task (t : nat) (d : (gmap nat V)) w : res ((gmap nat V) * World RA) :=
  let d := <[t := run_result t]> d in
  '(_, w') ← notify (notify_fuel w) (get_result_set_event t) false w;
  Ok (d, w').

(** ** The runtime with the futures the program holds *)

Record FState : Type := mkF {
  sys : State (RA := RA);
  data : (gmap nat V);
  futures : gmap nat Future
}.

Implicit Types (x : FState).

(** What goes on besides: no task is submitted, no result set or taken. *)
Inductive passive : State (RA := RA) -> State (RA := RA) -> Prop :=
  | passive_space p q ip task sp s :
      info s !! p = Some ip -> i_status ip = Running ->
      tasks (world s) !! p = Some task -> children task = None -> spaces (world s) !! q = None ->
      sub_space p (world s) = Ok sp ->
      passive s (mkState (put_task p (with_children (Some q) task) (put_space q sp (world s))) (info s) (next_seq s))
  | passive_init t i claimed b w' s :
      info s !! t = Some i -> i_status i = Emplaced ->
      room t (1 + Z.of_nat (scan_length (unique_resources (i_user i)) (world s))) (world s) ->
      init_task t claimed (world s) = Ok (b, w') ->
      passive s (mkState w' (<[t := set_status Initialized i]> (info s)) (next_seq s))
  | passive_start t i w' s :
      info s !! t = Some i -> i_status i = Initialized -> start_task t (world s) = Ok w' ->
      passive s (mkState w' (<[t := set_status Running i]> (info s)) (next_seq s))
  | passive_return t i task b w' s :
      (* the function has returned: [run] has set the result *)
      info s !! t = Some i -> i_status i = Running ->
      tasks (world s) !! t = Some task -> is_reached (result_set_event task) = true ->
      notify (notify_fuel (world s)) (get_post_event t) false (world s) = Ok (b, w') ->
      passive s (mkState w' (<[t := set_status Returned i]> (info s)) (next_seq s))
  | passive_create_event t i ev p w' s :
      info s !! t = Some i -> i_status i = Running -> events (world s) !! ev = None -> room t 1 (world s) ->
      make_event ev t (world s) = Ok (p, w') ->
      passive s (mkState w' (info s) (next_seq s))
  | passive_pause t i ev e c waker b w' s :
      info s !! t = Some i -> i_status i = Running -> events (world s) !! ev = Some e ->
      pause_task t waker (external ev c) (world s) = Ok (b, w') ->
      passive s (mkState w' (<[t := set_status Initialized i]> (info s)) (next_seq s))
  | passive_notify_event ev e c b w' s :
      events (world s) !! ev = Some e -> state e = 1 ->
      notify (notify_fuel (world s)) (external ev c) false (world s) = Ok (b, w') ->
      passive s (mkState w' (info s) (next_seq s)).

(** A future is used as its interface says: [get] only while it has the result. *)
Inductive fstep : FState -> FState -> Prop :=
  | f_passive x s' :
      passive (sys x) s' -> fstep x (mkF s' (live_results (world s') (data x)) (futures x))
  | f_submit x sp t u worker y w' user' k :
      (* TaskBuilder::submit *)
      info (sys x) !! t = None -> tasks (world (sys x)) !! t = None -> spaces (world (sys x)) !! y = Some sp -> built u ->
      (forall p, parent sp = Some p ->
         (exists ip, info (sys x) !! p = Some ip /\ i_status ip = Running) /\ room p 1 (world (sys x))) ->
      submit y t (put_task t (with_user u (new_task worker (depth sp))) (world (sys x))) = Ok w' ->
      user <$> tasks w' !! t = Some user' -> futures x !! k = None ->
      fstep x (mkF (mkState w' (<[t := mkInfo (next_seq (sys x)) user' y Emplaced]> (info (sys x))) (S (next_seq (sys x))))
        (data x) (<[k := new_future t]> (futures x)))
  | f_run x t i task d' w' :
      info (sys x) !! t = Some i -> i_status i = Running ->
      tasks (world (sys x)) !! t = Some task -> state (result_set_event task) = 1 ->
      run_task t (data x) (world (sys x)) = Ok (d', w') ->
      fstep x (mkF (mkState w' (info (sys x)) (next_seq (sys x))) (live_results w' d') (futures x))
  | f_move x k k' f :
      futures x !! k = Some f -> futures x !! k' = None ->
      fstep x (mkF (sys x) (data x) (<[k' := fst (move_future f)]> (<[k := snd (move_future f)]> (futures x))))
  | f_get x k f v f' w' :
      futures x !! k = Some f -> taken f = false -> get_future f (data x) (world (sys x)) = Ok (Some (v, f', w')) ->
      fstep x (mkF (mkState w' (info (sys x)) (next_seq (sys x))) (live_results w' (data x)) (<[k := f']> (futures x)))
  | f_destroy x k f w' :
      futures x !! k = Some f -> destroy_future f (world (sys x)) = Ok w' ->
      fstep x (mkF (mkState w' (info (sys x)) (next_seq (sys x))) (live_results w' (data x)) (delete k (futures x))).

Definition finit x : Prop := init (sys x) /\ data x = ∅ /\ futures x = ∅.

(** ** Steps that can be run *)

Inductive FCommand : Type :=
  | FSpace (p q : nat)
  | FSubmit (y t : nat) (u : ResourceUser RA) (worker : Z) (k : nat)
  | FInit (t : nat) (claimed : bool)
  | FStart (t : nat)
  | FRun (t : nat)
  | FReturn (t : nat)
  | FEvent (c : Command (RA := RA))
  | FMove (k k' : nat)
  | FGet (k : nat)
  | FDestroy (k : nat).

(** Commands on external events. *)
Definition is_event (c : Command (RA := RA)) : bool :=
  match c with CCreateEvent _ _ | CPause _ _ _ | CNotifyEvent _ _ => true | _ => false end.

Definition with_sys s' x : FState := mkF s' (live_results (world s') (data x)) (futures x).

Definition with_world w' s : State (RA := RA) := mkState w' (info s) (next_seq s).

Definition fexec (c : FCommand) x : option FState :=
  let s := sys x in
  match c with
  | FSpace p q => s' ← exec (CSpace p q) s; Some (with_sys s' x)
  | FSubmit y t u worker k =>
      _ ← guard (is_none (futures x !! k));
      s' ← exec (CSubmit y t u worker) s;
      Some (mkF s' (data x) (<[k := new_future t]> (futures x)))
  | FInit t claimed => s' ← exec (CInit t claimed) s; Some (with_sys s' x)
  | FStart t => s' ← exec (CStart t) s; Some (with_sys s' x)
  | FRun t =>
      _ ← guard (is_status Running t s);
      task ← tasks (world s) !! t;
      _ ← guard (state (result_set_event task) =? 1);
      '(d', w') ← ok (run_task t (data x) (world s));
      Some (mkF (with_world w' s) (live_results w' d') (futures x))
  | FReturn t =>
      task ← tasks (world s) !! t;
      _ ← guard (is_reached (result_set_event task));
      s' ← exec (CReturn t) s; Some (with_sys s' x)
  | FEvent c =>
      _ ← guard (is_event c);
      s' ← exec c s; Some (with_sys s' x)
  | FMove k k' =>
      f ← futures x !! k;
      _ ← guard (is_none (futures x !! k'));
      Some (mkF s (data x) (<[k' := fst (move_future f)]> (<[k := snd (move_future f)]> (futures x))))
  | FGet k =>
      f ← futures x !! k;
      _ ← guard (negb (taken f));
      r ← ok (get_future f (data x) (world s));
      '(_, f', w') ← r;
      Some (mkF (with_world w' s) (live_results w' (data x)) (<[k := f']> (futures x)))
  | FDestroy k =>
      f ← futures x !! k;
      w' ← ok (destroy_future f (world s));
      Some (mkF (with_world w' s) (live_results w' (data x)) (delete k (futures x)))
  end.

Definition fgood (c : FCommand) : Prop := match c with FSubmit _ _ u _ _ => built u | _ => True end.

Fixpoint fexec_all (l : list FCommand) x : option FState :=
  match l with
  | [] => Some x
  | c :: l => x ← fexec c x; fexec_all l x
  end.

Definition fstart : FState := mkF start_state ∅ ∅.

(** ** The invariant *)

Record finv x : Prop := {
  fi_reachable : reachable init step (sys x);
  fi_settled : settled ∅ (world (sys x));
  fi_future : forall k f, futures x !! k = Some f -> taken f = false ->
    exists task, tasks (world (sys x)) !! task_of f = Some task /\ state (result_get_event task) = 1;
  fi_unique : forall k k' f f', futures x !! k = Some f -> futures x !! k' = Some f' ->
    taken f = false -> taken f' = false -> task_of f = task_of f' -> k = k';
  fi_owner : forall t task, tasks (world (sys x)) !! t = Some task -> is_reached (result_get_event task) = false ->
    exists k, futures x !! k = Some (new_future t);
  fi_data : forall t task, tasks (world (sys x)) !! t = Some task -> is_reached (result_set_event task) = true ->
    data x !! t = Some (run_result t);
  fi_returned : forall t i task, info (sys x) !! t = Some i -> i_status i = Returned ->
    tasks (world (sys x)) !! t = Some task -> is_reached (result_set_event task) = true;
  fi_set : forall t task, tasks (world (sys x)) !! t = Some task -> 0 <= state (result_set_event task) <= 1
}.
End Futures.

Section Facts.
Context {RA : Type} `{AccessOps RA} `{!AccessLaws RA} {V : Type} (run_result : nat -> V).
Implicit Types (w : World RA) (task : Task RA) (s : State (RA := RA)) (f : Future) (x : FState (RA := RA) (V := V)).

Lemma passive_step s s' : passive s s' -> step s s'.
Proof. destruct 1; econstructor; eassumption. Qed.

Lemma settled_of_inv bpre bpost w pend :
  Inv bpre bpost w pend -> (forall t task, tasks w !! t = Some task -> removal_countdown task = removals ∅ t task) ->
  settled ∅ w.
Proof.
  intros HI Hc. constructor; [exact Hc | | | |].
  - intros t task _ Hin. apply not_elem_of_empty in Hin as [].
  - intros t task Ht. split; [rewrite (inv_post _ _ _ _ HI t task Ht); lia | apply (inv_small _ _ _ _ HI t task Ht)].
  - intros t task g Ht Hn Hin. destruct (inv_followers _ _ _ _ HI t task g Ht Hn Hin) as (y & _ & [-> | ->]);
      [left | right]; reflexivity.
  - intros t task Ht. apply (inv_leaf _ _ _ _ HI t task Ht).
Qed.

Lemma live_results_lookup w (d : gmap nat V) t task : tasks w !! t = Some task -> live_results w d !! t = d !! t.
Proof.
  intros Ht. unfold live_results. destruct (d !! t) as [v |] eqn:E.
  - apply map_lookup_filter_Some_2; [exact E | simpl; eauto].
  - apply map_lookup_filter_None_2. left. exact E.
Qed.

(** Entering the graph keeps the countdowns and the results. *)
Lemma grow_settled bpre bpost w w' t pend :
  Inv bpre bpost w' pend -> Grow t w w' -> settled ∅ w -> settled ∅ w' /\ quiet w w'.
Proof.
  intros HI G [S1 S2 S3 S4 S5]. split.
  - apply (settled_of_inv _ _ _ _ HI). intros a task' Ha. destruct (gr_back _ _ _ G a task' Ha) as (task & Ht & Gt).
    rewrite (gt_countdown _ _ _ Gt), (S1 a task Ht). unfold removals. rewrite (gt_finished _ _ _ Gt), (gt_get _ _ _ Gt). reflexivity.
  - constructor.
    + intros a task' Ha. destruct (gr_back _ _ _ G a task' Ha) as (task & Ht & Gt). exists task.
      split; [exact Ht |]. split; apply Gt.
    + intros a task Ha Hn. destruct (gr_forth _ _ _ G a ltac:(eauto)) as [y Hy]. congruence.
Qed.

Lemma passive_quiet s s' : invariant s -> settled ∅ (world s) -> passive s s' ->
  settled ∅ (world s') /\ quiet (world s) (world s').
Proof.
  intros Hinv HS Hp. pose proof Hinv as [HI HSt HL HO].
  destruct Hp as [p q ip task sp s Hip Hrun Hp Hc Hq Hsub | t i cl b w' s Hi Hst Hroom Hini | t i w' s Hi Hst Hstart
    | t i task b w' s Hi Hst Ht Hs Hn | t i ev p w' s Hi Hst Hx Hroom Hev | t i ev e c wk b w' s Hi Hst Hx Hp
    | ev e c b w' s Hx Hs Hn]; cbn [world].
  - split.
    + pose proof HS as [S1 S2 S3 S4 S5]. apply (settled_put ∅ ∅ (put_space q sp (world s)) p task).
      * apply (settled_tasks ∅ (world s)); [reflexivity | exact HS].
      * exact Hp.
      * reflexivity.
      * apply (S1 p task Hp).
      * apply (S2 p task Hp).
      * apply (S3 p task Hp).
      * apply (S5 p task Hp).
      * intros Hn f. apply (S4 p task f Hp Hn).
    + apply (quiet_trans _ (put_space q sp (world s))); [apply quiet_tasks; reflexivity |].
      apply (quiet_put _ p task); [exact Hp | reflexivity | reflexivity].
  - destruct (init_graph_covers s t i Hinv Hi Hst Hroom) as (w1 & w2 & E1 & E2 & HI2 & G & _).
    unfold init_task in Hini. rewrite E1 in Hini. cbn [mbind res_bind] in Hini. rewrite E2 in Hini. cbn [mbind res_bind] in Hini.
    destruct (grow_settled _ _ _ _ _ _ HI2 G HS) as [HS2 Q2].
    destruct (notify_settled _ _ _ _ _ _ _ (plain_pre t) HS2 Hini) as [HS3 Q3].
    split; [exact HS3 | eapply quiet_trans; eassumption].
  - unfold start_task in Hstart. apply bind_Ok in Hstart as (task & _ & Hstart).
    apply bind_Ok in Hstart as (u & _ & Hstart). apply bind_Ok in Hstart as ([b w2] & En & Hstart).
    injection Hstart as <-. eapply notify_settled; [apply plain_pre | exact HS | exact En].
  - eapply notify_settled; [apply plain_post | exact HS | exact Hn].
  - destruct (running_task s t i Hinv Hi Hst) as (task & Ht & _ & Hf & _).
    destruct (make_event_spec _ _ _ t task ev HI Ht Hf (proj2 (Hroom task Ht)) Hx) as (w1 & E1 & HI1 & G & _).
    assert (w1 = w') as -> by congruence. eapply grow_settled; eassumption.
  - destruct (pause_prepared s t i ev e c wk Hinv Hi Hst Hx) as (w2 & task2 & E2 & HI2 & G & _).
    unfold pause_task in Hp. rewrite E2 in Hp. cbn [mbind res_bind] in Hp.
    destruct (grow_settled _ _ _ _ _ _ HI2 G HS) as [HS2 Q2].
    destruct (notify_settled _ _ _ _ _ _ _ (plain_pre t) HS2 Hp) as [HS3 Q3].
    split; [exact HS3 | eapply quiet_trans; eassumption].
  - eapply notify_external_settled; [exact HS | exact Hx | exact Hs | | exact Hn].
    intros f Hf. destruct (inv_events _ _ _ _ HI ev e Hx) as [Hz | [_ Ht]]; [lia |].
    destruct (Ht f Hf) as (y & _ & [-> | ->]); [left | right]; reflexivity.
Qed.

Lemma finv_passive x s' : finv run_result x -> passive (sys x) s' ->
  finv run_result (mkF s' (live_results (world s') (data x)) (futures x)).
Proof.
  intros [Hr HS F1 F2 F3 F4 F5 F6] Hp. pose proof (passive_step _ _ Hp) as Hstep.
  destruct (passive_quiet _ _ (reachable_safe _ Hr) HS Hp) as [HS' [Qb Qg]].
  constructor; cbn [sys data futures]; [eapply reachable_step; eassumption | exact HS' | | exact F2 | | | |].
  - intros k f Hk Hf. destruct (F1 k f Hk Hf) as (task & Ht & Est).
    destruct (tasks (world s') !! task_of f) as [task' |] eqn:Ht'.
    + destruct (Qb _ _ Ht') as (y & Hy & _ & E). exists task'. split; [reflexivity |]. rewrite E. congruence.
    + exfalso. specialize (Qg _ _ Ht Ht'). unfold is_reached in Qg. rewrite Est in Qg. discriminate.
  - intros t task' Ht' Hn. destruct (Qb t task' Ht') as (task & Ht & _ & E). apply (F3 t task Ht). congruence.
  - intros t task' Ht' Hs. rewrite (live_results_lookup _ _ _ _ Ht'). destruct (Qb t task' Ht') as (task & Ht & E & _).
    apply (F4 t task Ht). congruence.
  - intros t i task' Hi Hst Ht'. destruct (Qb t task' Ht') as (task & Ht & -> & _).
    assert (Hold : forall i0, info (sys x) !! t = Some i0 -> i_status i0 = Returned -> is_reached (result_set_event task) = true)
      by (intros i0 Hi0 Hst0; eapply F5; eassumption).
    destruct Hp as [p q ip tp sp s | t0 i0 cl b w' s Hi0 | t0 i0 w' s Hi0 | t0 i0 t0' b w' s Hi0 Hst0 Ht0 Hs0
      | t0 i0 x0 p w' s | t0 i0 x0 e c wk b w' s Hi0 | x0 e c b w' s];
      cbn [info world] in *; [eauto | | | | eauto | | eauto];
      (apply lookup_insert_Some in Hi as [(<- & <-) | (Hne & Hi)]; [try discriminate Hst | eauto]). congruence.
  - intros t task' Ht'. destruct (Qb t task' Ht') as (task & Ht & -> & _). apply (F6 t task Ht).
Qed.

Lemma finv_submit x t u worker y sp w' user' k :
  finv run_result x -> info (sys x) !! t = None -> tasks (world (sys x)) !! t = None ->
  spaces (world (sys x)) !! y = Some sp -> built u ->
  (forall p, parent sp = Some p ->
     (exists ip, info (sys x) !! p = Some ip /\ i_status ip = Running) /\ room p 1 (world (sys x))) ->
  submit y t (put_task t (with_user u (new_task worker (depth sp))) (world (sys x))) = Ok w' ->
  user <$> tasks w' !! t = Some user' -> futures x !! k = None ->
  finv run_result (mkF (mkState w' (<[t := mkInfo (next_seq (sys x)) user' y Emplaced]> (info (sys x))) (S (next_seq (sys x))))
    (data x) (<[k := new_future t]> (futures x))).
Proof.
  intros [Hr HS F1 F2 F3 F4 F5 F6] Hn Hnt Hsp Hu Hp Hsub Huser Hk.
  pose proof (step_submit _ _ _ _ _ _ _ _ Hn Hnt Hsp Hu Hp Hsub Huser) as Hstep.
  destruct (submit_submitted _ _ _ _ _ _ _ (reachable_safe _ Hr) Hn Hnt Hsp Hp Hsub) as [l' Hd].
  assert (Hr' := reachable_step _ _ _ _ Hr Hstep).
  assert (Hne : forall k0 f, futures x !! k0 = Some f -> taken f = false -> task_of f <> t).
  { intros k0 f Hk0 Hf E. destruct (F1 k0 f Hk0 Hf) as (task & Ht & _). congruence. }
  constructor; cbn [sys data futures world info]; [exact Hr' | | | | | | |].
  - apply (settled_of_inv _ _ _ _ (iv_inv _ (reachable_safe _ Hr'))). cbn [world]. intros a task' Ha.
    destruct (decide (a = t)) as [-> | Hat].
    + destruct (sb_new _ _ _ _ _ _ Hd task' Ha) as (_ & _ & Eg & Ec). destruct (sb_task _ _ _ _ _ _ Hd) as (y0 & Hy0 & _ & _ & _ & Ef).
      assert (y0 = task') as -> by congruence. unfold removals. rewrite Ec, Eg, Ef, bool_decide_false by apply not_elem_of_empty. reflexivity.
    + destruct (sb_back _ _ _ _ _ _ Hd a task' Hat Ha) as (task & Ht & K).
      rewrite (kp_countdown _ _ K), (sl_countdown _ _ HS a task Ht). unfold removals.
      rewrite (kp_finished _ _ K), (kp_get _ _ K). reflexivity.
  - intros k0 f Hk0 Hf. apply lookup_insert_Some in Hk0 as [(<- & <-) | (Hk0' & Hk0)].
    + destruct (sb_task _ _ _ _ _ _ Hd) as (task & Ht & _). exists task. split; [exact Ht |].
      destruct (sb_new _ _ _ _ _ _ Hd task Ht) as (_ & _ & -> & _). reflexivity.
    + destruct (F1 k0 f Hk0 Hf) as (task & Ht & Est). destruct (sb_forth _ _ _ _ _ _ Hd _ task Ht) as (task' & Ht' & K).
      exists task'. rewrite (kp_get _ _ K). auto.
  - intros k1 k2 f1 f2 H1 H2 T1 T2 E. apply lookup_insert_Some in H1 as [(<- & <-) | (N1 & H1)];
      apply lookup_insert_Some in H2 as [(<- & <-) | (N2 & H2)]; [reflexivity | | | eapply F2; eassumption].
    + exfalso. apply (Hne k2 f2 H2 T2). symmetry. exact E.
    + exfalso. apply (Hne k1 f1 H1 T1 E).
  - intros a task' Ha Hget. destruct (decide (a = t)) as [-> | Hat]; [exists k; apply lookup_insert_eq |].
    destruct (sb_back _ _ _ _ _ _ Hd a task' Hat Ha) as (task & Ht & K).
    destruct (F3 a task Ht) as [k0 Hk0]; [rewrite <- (kp_get _ _ K); exact Hget |].
    exists k0. rewrite lookup_insert_ne by congruence. exact Hk0.
  - intros a task' Ha Hset. destruct (decide (a = t)) as [-> | Hat].
    + destruct (sb_new _ _ _ _ _ _ Hd task' Ha) as (_ & Es & _). rewrite Es in Hset. discriminate.
    + destruct (sb_back _ _ _ _ _ _ Hd a task' Hat Ha) as (task & Ht & K).
      apply (F4 a task Ht). rewrite <- (kp_set _ _ K). exact Hset.
  - intros a i task' Hi Hst Ha. apply lookup_insert_Some in Hi as [(<- & <-) | (Hat & Hi)]; [discriminate |].
    destruct (sb_back _ _ _ _ _ _ Hd a task' ltac:(congruence) Ha) as (task & Ht & K).
    rewrite (kp_set _ _ K). eapply F5; eassumption.
  - intros a task' Ha. destruct (decide (a = t)) as [-> | Hat].
    + destruct (sb_new _ _ _ _ _ _ Hd task' Ha) as (_ & -> & _). simpl. lia.
    + destruct (sb_back _ _ _ _ _ _ Hd a task' Hat Ha) as (task & Ht & K). rewrite (kp_set _ _ K). apply (F6 a task Ht).
Qed.

Lemma finv_run x t i task d' w' :
  finv run_result x -> info (sys x) !! t = Some i -> i_status i = Running ->
  tasks (world (sys x)) !! t = Some task -> state (result_set_event task) = 1 ->
  run_task run_result t (data x) (world (sys x)) = Ok (d', w') ->
  finv run_result (mkF (mkState w' (info (sys x)) (next_seq (sys x))) (live_results w' d') (futures x)).
Proof.
  intros [Hr HS F1 F2 F3 F4 F5 F6] Hi Hst Ht Hset E. unfold run_task in E. apply bind_Ok in E as ([b w1] & E & Ed).
  injection Ed as <- <-. pose proof (reachable_safe _ Hr) as Hinv.
  destruct (inv_leaf _ _ _ _ (iv_inv _ Hinv) t task Ht) as (_ & Hl & _).
  pose proof (notify_result_set_tasks _ _ _ _ _ _ Ht Hl Hset E) as Et.
  set (task' := with_event T_EVT_RES_SET (dn (result_set_event task)) task) in *.
  assert (Hr' := reachable_step _ _ _ _ Hr (step_result_set _ _ _ _ _ _ Hi Hst Ht Hset E)).
  constructor; cbn [sys data futures world info]; [exact Hr' | | | exact F2 | | | |].
  - apply (settled_of_inv _ _ _ _ (iv_inv _ (reachable_safe _ Hr'))). cbn [world]. intros a x0 Ha. rewrite Et in Ha.
    apply lookup_insert_Some in Ha as [(<- & <-) | (_ & Ha)]; [apply (sl_countdown _ _ HS t task Ht) | apply (sl_countdown _ _ HS a x0 Ha)].
  - intros k f Hk Hf. destruct (F1 k f Hk Hf) as (x0 & Hx0 & Est). rewrite Et.
    destruct (decide (t = task_of f)) as [Eq | Hne].
    + rewrite <- Eq in *. exists task'. rewrite lookup_insert_eq. assert (x0 = task) as -> by congruence. auto.
    + exists x0. rewrite lookup_insert_ne by exact Hne. auto.
  - intros a x0 Ha Hn. rewrite Et in Ha. apply lookup_insert_Some in Ha as [(<- & <-) | (_ & Ha)]; [apply (F3 t task Ht Hn) | eauto].
  - intros a x0 Ha Hs. rewrite (live_results_lookup _ _ _ _ Ha). rewrite Et in Ha.
    apply lookup_insert_Some in Ha as [(<- & <-) | (Hne & Ha)]; [apply lookup_insert_eq |].
    rewrite lookup_insert_ne by exact Hne. eauto.
  - intros a j x0 Hj Hstj Ha. rewrite Et in Ha. apply lookup_insert_Some in Ha as [(<- & <-) | (Hne & Ha)]; [congruence | eauto].
  - intros a x0 Ha. rewrite Et in Ha. apply lookup_insert_Some in Ha as [(<- & <-) | (_ & Ha)]; [| eauto].
    change (result_set_event task') with (dn (result_set_event task)). rewrite dn_state; lia.
Qed.

(** The result of the task of the untaken future [k] is taken or given up. *)
Lemma finv_release x k f b w' fs :
  finv run_result x -> futures x !! k = Some f -> taken f = false ->
  notify (notify_fuel (world (sys x))) (get_result_get_event (task_of f)) false (world (sys x)) = Ok (b, w') ->
  (forall k0 f0, fs !! k0 = Some f0 -> taken f0 = false -> k0 <> k /\ futures x !! k0 = Some f0) ->
  (forall k0, k0 <> k -> fs !! k0 = futures x !! k0) ->
  finv run_result (mkF (mkState w' (info (sys x)) (next_seq (sys x))) (live_results w' (data x)) fs).
Proof.
  intros [Hr HS F1 F2 F3 F4 F5 F6] Hk Hf E Hsub Hkeep. destruct (F1 k f Hk Hf) as (task & Ht & Hget).
  pose proof (reachable_safe _ Hr) as Hinv. destruct (inv_leaf _ _ _ _ (iv_inv _ Hinv) _ task Ht) as (_ & _ & Hl).
  destruct (notify_result_get_tasks _ _ _ _ _ _ HS Ht Hl Hget E) as (HS' & Hother & Hself).
  assert (Hr' := reachable_step _ _ _ _ Hr (step_result_get _ _ _ _ _ Ht Hget E)).
  constructor; cbn [sys data futures world info]; [exact Hr' | exact HS' | | | | | |].
  - intros k0 f0 Hk0 Hf0. destruct (Hsub k0 f0 Hk0 Hf0) as [Hne Hk0']. rewrite Hother; [apply (F1 k0 f0 Hk0' Hf0) |].
    intros Eq. apply Hne. eapply F2; eassumption.
  - intros k1 k2 f1 f2 H1 H2 T1 T2 Eq. eapply F2; [apply (Hsub k1 f1 H1 T1) | apply (Hsub k2 f2 H2 T2) | exact T1 | exact T2 | exact Eq].
  - intros a x0 Ha Hn. destruct (decide (a = task_of f)) as [-> | Hne]; [destruct (Hself x0 Ha); congruence |].
    rewrite Hother in Ha by exact Hne. destruct (F3 a x0 Ha Hn) as [k0 Hk0]. exists k0. rewrite Hkeep; [exact Hk0 |].
    intros ->. rewrite Hk in Hk0. injection Hk0 as ->. apply Hne. reflexivity.
  - intros a x0 Ha Hs. rewrite (live_results_lookup _ _ _ _ Ha). destruct (decide (a = task_of f)) as [-> | Hne].
    + destruct (Hself x0 Ha) as [_ Es]. apply (F4 _ task Ht). congruence.
    + rewrite Hother in Ha by exact Hne. eauto.
  - intros a j x0 Hj Hst Ha. destruct (decide (a = task_of f)) as [-> | Hne].
    + destruct (Hself x0 Ha) as [_ Es]. rewrite Es. eapply F5; eassumption.
    + rewrite Hother in Ha by exact Hne. eauto.
  - intros a x0 Ha. destruct (decide (a = task_of f)) as [-> | Hne].
    + destruct (Hself x0 Ha) as [_ ->]. eauto.
    + rewrite Hother in Ha by exact Hne. eauto.
Qed.

Lemma finv_move x k k' f : finv run_result x -> futures x !! k = Some f -> futures x !! k' = None ->
  finv run_result (mkF (sys x) (data x) (<[k' := fst (move_future f)]> (<[k := snd (move_future f)]> (futures x)))).
Proof.
  intros [Hr HS F1 F2 F3 F4 F5 F6] Hk Hk'. assert (Hne : k' <> k) by congruence.
  assert (Hcase : forall k0 f0, <[k' := fst (move_future f)]> (<[k := snd (move_future f)]> (futures x)) !! k0 = Some f0 ->
    taken f0 = false -> exists k1, futures x !! k1 = Some f0 /\ (k0 = k' /\ k1 = k \/ k0 <> k /\ k0 = k1)).
  { intros k0 f0 H0 T0. apply lookup_insert_Some in H0 as [(<- & <-) | (N0 & H0)].
    - exists k. split; [| auto]. simpl in *. rewrite Hk. destruct f. reflexivity.
    - apply lookup_insert_Some in H0 as [(<- & <-) | (N1 & H0)]; [discriminate | eauto 6]. }
  constructor; cbn [sys data futures]; [exact Hr | exact HS | | | | exact F4 | exact F5 | exact F6].
  - intros k0 f0 H0 T0. destruct (Hcase k0 f0 H0 T0) as (k1 & H1 & _). eauto.
  - intros k1 k2 f1 f2 H1 H2 T1 T2 E. destruct (Hcase k1 f1 H1 T1) as (j1 & J1 & C1).
    destruct (Hcase k2 f2 H2 T2) as (j2 & J2 & C2). pose proof (F2 _ _ _ _ J1 J2 T1 T2 E) as Ej.
    destruct C1 as [[-> ->] | [N1 ->]], C2 as [[-> ->] | [N2 ->]]; congruence.
  - intros t task Ht Hn. destruct (F3 t task Ht Hn) as [k0 Hk0]. destruct (decide (k0 = k)) as [-> | N].
    + exists k'. rewrite lookup_insert_eq. rewrite Hk in Hk0. injection Hk0 as ->. reflexivity.
    + exists k0. rewrite lookup_insert_ne by congruence. rewrite lookup_insert_ne by congruence. exact Hk0.
Qed.

Lemma finv_step x x' : finv run_result x -> fstep run_result x x' -> finv run_result x'.
Proof.
  intros Hx Hstep. destruct Hstep as [x s' Hp | x sp t u wk y w' user' k Hn Hnt Hsp Hu Hp Hsub Huser Hk
    | x t i task d' w' Hi Hst Ht Hset E | x k k' f Hk Hk' | x k f v f' w' Hk Hf E | x k f w' Hk E].
  - apply finv_passive; assumption.
  - eapply finv_submit; eassumption.
  - eapply finv_run; eassumption.
  - apply finv_move; assumption.
  - unfold get_future in E. apply bind_Ok in E as (ready & _ & E). destruct ready; [| discriminate].
    apply bind_Ok in E as (r & _ & E). apply bind_Ok in E as ([b w1] & E1 & E). injection E as _ <- <-.
    apply (finv_release x k f b); [exact Hx | exact Hk | exact Hf | exact E1 | |].
    + intros k0 f0 H0 T0. apply lookup_insert_Some in H0 as [(_ & <-) | (N & H0)]; [discriminate | auto].
    + intros k0 N. apply lookup_insert_ne. congruence.
  - unfold destroy_future in E. destruct (taken f) eqn:Ef.
    + injection E as <-. destruct Hx as [Hr HS F1 F2 F3 F4 F5 F6]. constructor; cbn [sys data futures world info].
      * destruct x as [[] ? ?]. exact Hr.
      * exact HS.
      * intros k0 f0 H0. apply lookup_delete_Some in H0 as [_ H0]. eauto.
      * intros k1 k2 f1 f2 H1 H2. apply lookup_delete_Some in H1 as [_ H1], H2 as [_ H2]. eauto.
      * intros t task Ht Hn. destruct (F3 t task Ht Hn) as [k0 Hk0]. exists k0. rewrite lookup_delete_ne; [exact Hk0 |].
        intros <-. rewrite Hk in Hk0. injection Hk0 as ->. discriminate.
      * intros t task Ht Hs. rewrite (live_results_lookup _ _ _ _ Ht). eauto.
      * exact F5.
      * exact F6.
    + apply bind_Ok in E as ([b w1] & E1 & E). injection E as <-.
      apply (finv_release x k f b); [exact Hx | exact Hk | exact Ef | exact E1 | |].
      * intros k0 f0 H0 _. apply lookup_delete_Some in H0 as [N H0]. auto.
      * intros k0 N. apply lookup_delete_ne. congruence.
Qed.

Lemma reachable_finv x : reachable finit (fstep run_result) x -> finv run_result x.
Proof.
  apply reachable_invariant; [| intros x0 x1; apply finv_step].
  intros x0 (Hi & Hd & Hf). unfold init in Hi. constructor; rewrite ?Hi, ?Hd, ?Hf; cbn [world info initial_world tasks].
  - apply reachable_init. reflexivity.
  - constructor; cbn [initial_world tasks]; intros *; rewrite lookup_empty; discriminate.
  - intros k f. rewrite lookup_empty. discriminate.
  - intros k k' f f'. rewrite lookup_empty. discriminate.
  - intros t task. rewrite lookup_empty. discriminate.
  - intros t task. rewrite lookup_empty. discriminate.
  - intros t i task. rewrite lookup_empty. discriminate.
  - intros t task. rewrite lookup_empty. discriminate.
Qed.

Definition is_passive (c : Command (RA := RA)) : Prop :=
  match c with CSpace _ _ | CInit _ _ | CStart _ | CCreateEvent _ _ | CPause _ _ _ | CNotifyEvent _ _ => True | _ => False end.

Lemma exec_passive c s s' : exec c s = Some s' -> is_passive c -> passive s s'.
Proof.
  intros E Hc. destruct c as [p q | x t u wk | t cl | t | t | t | t | t x | t x wk | x a]; try destruct Hc; cbn [exec] in E; exec_inv.
  - injection E as <-. eapply passive_space; eassumption.
  - match goal with y : (bool * World RA)%type |- _ => destruct y end. exec_inv.
    match goal with Ha : info s !! t = Some ?i, Hb : info s !! t = Some ?j |- _ =>
      assert (j = i) as -> by congruence end.
    eapply advance_some in E; [| eassumption]. subst s'. eapply passive_init; eassumption.
  - eapply advance_some in E; [| eassumption]. subst s'. eapply passive_start; eassumption.
  - match goal with y : (EventPtr * World RA)%type |- _ => destruct y end. injection E as <-.
    exec_inv. eapply passive_create_event; eassumption.
  - match goal with y : (bool * World RA)%type |- _ => destruct y end. exec_inv.
    eapply advance_some in E; [| eassumption]. subst s'. eapply passive_pause; eassumption.
  - injection E as <-. eapply passive_notify_event; eassumption.
Qed.

Lemma event_passive c : is_event c = true -> is_passive c.
Proof. destruct c; try discriminate; intros _; exact I. Qed.

Lemma exec_return t task s s' : tasks (world s) !! t = Some task -> is_reached (result_set_event task) = true ->
  exec (CReturn t) s = Some s' -> passive s s'.
Proof.
  intros Ht Hs E. cbn [exec] in E. exec_inv. eapply advance_some in E; [| eassumption]. subst s'.
  eapply passive_return; eassumption.
Qed.

Lemma exec_submit y t u wk s s' : exec (CSubmit y t u wk) s = Some s' ->
  exists sp w' user', info s !! t = None /\ tasks (world s) !! t = None /\ spaces (world s) !! y = Some sp /\
    (forall p, parent sp = Some p ->
      (exists ip, info s !! p = Some ip /\ i_status ip = Running) /\ room p 1 (world s)) /\
    submit y t (put_task t (with_user u (new_task wk (depth sp))) (world s)) = Ok w' /\
    user <$> tasks w' !! t = Some user' /\
    s' = mkState w' (<[t := mkInfo (next_seq s) user' y Emplaced]> (info s)) (S (next_seq s)).
Proof.
  intros E. cbn [exec] in E. exec_inv. injection E as <-. do 3 eexists. repeat (split; [eassumption |]). split; [| split].
  - intros p Hp. unfold parent_runs in *. rewrite Hp in *. exec_inv. eauto.
  - eassumption.
  - match goal with Ht : tasks _ !! t = Some ?y |- _ => rewrite Ht end. split; reflexivity.
Qed.

Lemma fexec_fstep c x x' : fgood c -> fexec run_result c x = Some x' -> fstep run_result x x'.
Proof.
  intros Hg E. destruct c as [p q | y t u wk k | t cl | t | t | t | c | k k' | k | k];
    cbn [fexec] in E; cbv zeta in E; cbn [fgood] in Hg.
  - apply bind_Some in E as (s' & Es & E). injection E as <-. apply f_passive. apply exec_passive in Es; [exact Es | exact I].
  - apply bind_Some in E as ([] & Ek & E). apply guard_some, is_none_true in Ek. apply bind_Some in E as (s' & Es & E).
    injection E as <-. apply exec_submit in Es as (sp & w' & user' & Hn & Hnt & Hsp & Hp & Hsub & Huser & ->).
    eapply f_submit; eassumption.
  - apply bind_Some in E as (s' & Es & E). injection E as <-. apply f_passive. apply exec_passive in Es; [exact Es | exact I].
  - apply bind_Some in E as (s' & Es & E). injection E as <-. apply f_passive. apply exec_passive in Es; [exact Es | exact I].
  - exec_inv. match goal with y : (gmap nat V * World RA)%type |- _ => destruct y as [d' w'] end. injection E as <-.
    exec_inv. eapply f_run; eassumption.
  - apply bind_Some in E as (task & Ht & E). apply bind_Some in E as ([] & Hs & E). apply guard_some in Hs.
    apply bind_Some in E as (s' & Es & E). injection E as <-. apply f_passive. eapply exec_return; eassumption.
  - apply bind_Some in E as ([] & He & E). apply guard_some in He.
    apply bind_Some in E as (s' & Es & E). injection E as <-. apply f_passive.
    apply exec_passive in Es; [exact Es | apply event_passive, He].
  - exec_inv. injection E as <-. apply f_move; assumption.
  - apply bind_Some in E as (f & Hk & E). apply bind_Some in E as ([] & Hf & E). apply guard_some, negb_true_iff in Hf.
    apply bind_Some in E as (r & Hr & E). apply ok_some in Hr. apply bind_Some in E as ([[v f'] w'] & -> & E). injection E as <-.
    eapply f_get; eassumption.
  - apply bind_Some in E as (f & Hk & E). apply bind_Some in E as (w' & Hw & E). apply ok_some in Hw. injection E as <-.
    eapply f_destroy; eassumption.
Qed.

Lemma fexec_reachable l x x' : Forall fgood l -> reachable finit (fstep run_result) x -> fexec_all run_result l x = Some x' ->
  reachable finit (fstep run_result) x'.
Proof.
  revert x. induction l as [| c l IH]; intros x Hg Hr E.
  - injection E as <-. exact Hr.
  - apply Forall_cons in Hg as [Hc Hl]. simpl in E. apply bind_Some in E as (x1 & E1 & E).
    apply (IH x1 Hl); [| exact E]. eapply reachable_step; [exact Hr | apply (fexec_fstep c); assumption].
Qed.

(** ** What a future can rely on *)

Lemma untaken_releases x k f : finv run_result x -> futures x !! k = Some f -> taken f = false ->
  exists b w', notify (notify_fuel (world (sys x))) (get_result_get_event (task_of f)) false (world (sys x)) = Ok (b, w').
Proof.
  intros [Hr HS F1 F2 F3 F4 F5 F6] Hk Hf. destruct (F1 k f Hk Hf) as (task & Ht & Hget).
  destruct (notify_result_get_spec _ _ (total (world (sys x))) _ _ task (iv_inv _ (reachable_safe _ Hr)) Ht Hget)
    as (b & w' & E & _). eauto.
Qed.

(** C14 (future): however futures are moved, read and dropped while the workers go
    on, a future that is neither read nor moved away is the only such future of
    its task; the task it refers to is still in memory; it can be dropped without
    a failed assertion; [get] waits until the result is set, which it is when the
    task has returned, and then gives what the function of the task returned. *)
Theorem future_gives_result x k f :
  reachable finit (fstep run_result) x -> futures x !! k = Some f -> taken f = false ->
  (forall k' f', futures x !! k' = Some f' -> taken f' = false -> task_of f' = task_of f -> k' = k) /\
  is_ok (destroy_future f (world (sys x))) = true /\
  exists ready, future_is_ready f (world (sys x)) = Ok ready /\
    (ready = false -> get_future f (data x) (world (sys x)) = Ok None) /\
    (ready = true -> exists w', get_future f (data x) (world (sys x)) =
       Ok (Some (run_result (task_of f), mkFuture true (task_of f), w'))) /\
    (forall i, info (sys x) !! task_of f = Some i -> i_status i = Returned -> ready = true).
Proof.
  intros Hr Hk Hf. pose proof (reachable_finv x Hr) as Hx. destruct (untaken_releases x k f Hx Hk Hf) as (b & w' & E).
  destruct Hx as [_ HS F1 F2 F3 F4 F5 F6]. destruct (F1 k f Hk Hf) as (task & Ht & Hget). split; [| split].
  - intros k' f' Hk' Hf' Eq. eapply F2; eassumption.
  - unfold destroy_future. rewrite Hf, E. reflexivity.
  - unfold get_future, future_is_ready, get_task. rewrite Ht. cbn [deref mbind res_bind].
    eexists. split; [reflexivity |]. split; [intros ->; reflexivity |]. split.
    + intros Hset. rewrite Hset, (F4 _ task Ht Hset). cbn [deref mbind res_bind]. rewrite E. eauto.
    + intros i Hi Hst. eapply F5; eassumption.
Qed.

(** C15 (freed): a task is removed from memory exactly when it is finished and no
    future waits for its result. *)
Theorem freed_iff_finished_and_taken x t i :
  reachable finit (fstep run_result) x -> info (sys x) !! t = Some i ->
  (tasks (world (sys x)) !! t = None <->
   i_status i = Returned /\ finished_in t (world (sys x)) /\
   forall k f, futures x !! k = Some f -> task_of f = t -> taken f = true).
Proof.
  intros Hr Hi. destruct (reachable_finv x Hr) as [Hrs HS F1 F2 F3 F4 F5 F6].
  pose proof (reachable_safe _ Hrs) as [HI HSt HL HO]. split.
  - intros Hn. split; [eapply ln_gone; eassumption |]. split; [intros task Ht; congruence |].
    intros k f Hk <-. destruct (taken f) eqn:Hf; [reflexivity |]. destruct (F1 k f Hk Hf) as (task & Ht & _). congruence.
  - intros (_ & Hfin & Hall). destruct (tasks (world (sys x)) !! t) as [task |] eqn:Ht; [| reflexivity]. exfalso.
    specialize (Hfin task Ht). pose proof (sl_countdown _ _ HS t task Ht) as Ec. unfold removals in Ec.
    rewrite Hfin, bool_decide_false in Ec by apply not_elem_of_empty.
    destruct (is_reached (result_get_event task)) eqn:Eg.
    + destruct (inv_countdown _ _ _ _ HI t task Ht) as [Hc _]. simpl in Ec. lia.
    + destruct (F3 t task Ht Eg) as [k Hk]. specialize (Hall k _ Hk eq_refl). discriminate.
Qed.
End Facts.

(** ** A concrete run *)

Import SystemProps.
#[local] Existing Instances run_ops run_laws.

Definition value (t : nat) : nat := 100 + t.

(** The future of a task is moved and read after the task has returned. *)
Definition one_result : list (FCommand (RA := Guards.RA)) :=
  [FSubmit 0 0 (writes 7) 0 0; FInit 0 false; FStart 0; FMove 0 1; FRun 0; FReturn 0].

Definition fstate_after (l : list (FCommand (RA := Guards.RA))) : FState :=
  match fexec_all value l fstart with Some x => x | None => fstart end.

Lemma fstate_reachable l : Forall fgood l -> is_none (fexec_all value l fstart) = false ->
  reachable finit (fstep value) (fstate_after l).
Proof.
  intros Hg Hn. unfold fstate_after. destruct (fexec_all value l fstart) as [x |] eqn:E; [| discriminate].
  apply (fexec_reachable value l fstart x Hg); [| exact E]. apply reachable_init. repeat split.
Qed.

Lemma one_result_reachable : reachable finit (fstep value) (fstate_after one_result).
Proof.
  apply fstate_reachable; [| vm_compute; reflexivity].
  repeat first [apply Forall_nil; exact I | apply Forall_cons; split; [first [exact I | apply built_writes] |]].
Qed.

Lemma future_gives_result_witness :
  exists w', get_future (mkFuture false 0) (data (fstate_after one_result)) (world (sys (fstate_after one_result)))
    = Ok (Some (100%nat, mkFuture true 0, w')).
Proof.
  destruct (future_gives_result value (fstate_after one_result) 1 (mkFuture false 0) one_result_reachable)
    as (_ & _ & ready & _ & _ & Hget & Hret); [vm_compute; reflexivity | reflexivity |].
  apply Hget, (Hret (info_of (sys (fstate_after one_result)) 0)); vm_compute; reflexivity.
Defined.

Lemma freed_iff_finished_and_taken_witness :
  tasks (world (sys (fstate_after one_result))) !! 0%nat = None <->
  i_status (info_of (sys (fstate_after one_result)) 0) = Returned /\
  finished_in 0 (world (sys (fstate_after one_result))) /\
  forall k f, futures (fstate_after one_result) !! k = Some f -> task_of f = 0%nat -> taken f = true.
Proof.
  apply (freed_iff_finished_and_taken value); [apply one_result_reachable | vm_compute; reflexivity].
Defined.

(** Nothing keeps a program from reading twice: the task is gone by then. *)
Example get_twice :
  let x := fstate_after (one_result ++ [FGet 1]) in
  futures x !! 1%nat = Some (mkFuture true 0) /\ get_future (mkFuture true 0) (data x) (world (sys x)) = Err Undefined.
Proof. vm_compute. split; reflexivity. Qed.
End Futures.
