(* ===== verification/Progress.v ===== *)
(** The running system comes to its end: once no task is submitted any more, every
    order of initializing, starting, running and finishing the tasks, of reaching
    the external events and of dropping the futures is as long as the work left at
    most, and only stops when all tasks are finished and removed
    ([redGrapes/scheduler/event.tpp], [dispatch/thread/execute.hpp],
    [task/future.hpp], [task/task_space.hpp]). *)

From Stdlib Require Import ZArith Lia Bool.
From stdpp Require Import base gmap list strings relations.
From S2P Require Import Prelude Access Resource Guards ResourceUser Entries Graph GraphNotify.
From S2P Require Import GraphInv GraphInit GraphSubmit GraphEvents System SystemSafe SystemLive SystemRun SystemProps.
From S2P Require Import SystemActivate GraphResults Futures.

Open Scope Z_scope.
Open Scope word_scope.

Module Progress.
Import Resource ResourceUser Graph GraphNotify GraphInv GraphInit GraphSubmit GraphEvents System SystemSafe SystemLive.
Import SystemRun SystemProps SystemActivate GraphResults Futures.

(** ** The work that is left *)

(** The handlers a task still has to go through. *)
Definition rank (st : Status) : nat :=
  match st with Emplaced => 3 | Initialized => 2 | Running => 1 | Returned => 0 end.

Section Work.
Context {RA : Type} `{AccessOps RA} {V : Type}.
Implicit Types (w : World RA) (task : Task RA) (s : State (RA := RA)) (x : FState (RA := RA) (V := V)).

Definition due (e : Event) : nat := if is_reached e then 0 else 1.
Definition handlers_left (_ : nat) (i : Info (RA := RA)) : nat := rank (i_status i).
Definition result_left (_ : nat) task : nat := due (result_set_event task).
Definition event_left (_ : nat) (e : Event) : nat := due e.

(** The handlers to come, the results to be set, the events to be reached and the
    futures to be dropped. *)
Definition system_work s : nat :=
  (map_sum handlers_left (info s) + map_sum result_left (tasks (world s)) + map_sum event_left (events (world s)))%nat.

Definition work x : nat := (system_work (sys x) + size (futures x))%nat.

(** Everything but submitting tasks, making spaces and events, and yielding. *)
Definition drains (c : FCommand (RA := RA)) : bool :=
  match c with
  | FInit _ _ | FStart _ | FRun _ | FReturn _ | FDestroy _ | FEvent (CNotifyEvent _ _) => true
  | _ => false
  end.

(** All tasks have returned and are removed from memory, and so are their results;
    nobody holds a future. *)
Definition completed x : Prop :=
  (forall t i, info (sys x) !! t = Some i -> i_status i = Returned) /\
  (forall e y, events (world (sys x)) !! e = Some y -> is_reached y = true) /\
  tasks (world (sys x)) = ∅ /\ futures x = ∅.

(** The counters of the tasks that are not initialized have room for their edges. *)
Definition roomy s : Prop := forall t i, info s !! t = Some i -> i_status i = Emplaced ->
  room t (1 + Z.of_nat (scan_length (unique_resources (i_user i)) (world s))) (world s).

Definition no_duplicates s : Prop := forall t i, info s !! t = Some i -> NoDup (resource_ptrs (i_user i)).

(** ** How steps change it *)

Lemma quiet_left w w' : quiet w w' -> (map_sum result_left (tasks w') <= map_sum result_left (tasks w))%nat.
Proof.
  intros [Qb _]. apply map_sum_mono. intros t task' Ht. destruct (Qb t task' Ht) as (task & Hx & E & _).
  exists task. split; [exact Hx |]. unfold result_left. rewrite E. lia.
Qed.

(** A task goes one handler further. *)
Lemma work_advance s w' t i st :
  info s !! t = Some i -> (rank st < rank (i_status i))%nat -> quiet (world s) w' -> events w' = events (world s) ->
  (system_work (mkState w' (<[t := set_status st i]> (info s)) (next_seq s)) < system_work s)%nat.
Proof.
  intros Hi Hst Q Ee. unfold system_work. cbn [info world]. rewrite Ee. pose proof (quiet_left _ _ Q).
  pose proof (map_sum_insert handlers_left (info s) t (set_status st i) i Hi) as Hs.
  assert (E : handlers_left t (set_status st i) = rank st) by reflexivity.
  assert (E' : handlers_left t i = rank (i_status i)) by reflexivity. lia.
Qed.

Lemma work_reach s w' e y :
  events (world s) !! e = Some y -> is_reached y = false -> state (dn y) = 0 -> quiet (world s) w' ->
  events w' = <[e := dn y]> (events (world s)) ->
  (system_work (mkState w' (info s) (next_seq s)) < system_work s)%nat.
Proof.
  intros He Hn Hd Q Ee. unfold system_work. cbn [info world]. rewrite Ee. pose proof (quiet_left _ _ Q).
  pose proof (map_sum_insert event_left (events (world s)) e (dn y) y He) as Hs.
  assert (E : event_left e y = 1%nat) by (unfold event_left, due; rewrite Hn; reflexivity).
  assert (E' : event_left e (dn y) = 0%nat) by (unfold event_left, due, is_reached; rewrite Hd; reflexivity). lia.
Qed.

Lemma work_result s w' t task :
  tasks (world s) !! t = Some task -> state (result_set_event task) = 1 ->
  tasks w' = <[t := with_event T_EVT_RES_SET (dn (result_set_event task)) task]> (tasks (world s)) ->
  events w' = events (world s) -> (system_work (mkState w' (info s) (next_seq s)) < system_work s)%nat.
Proof.
  intros Ht Hs Et Ee. unfold system_work. cbn [info world]. rewrite Ee, Et.
  pose proof (map_sum_insert result_left (tasks (world s)) t (with_event T_EVT_RES_SET (dn (result_set_event task)) task) task Ht) as Hsum.
  assert (E1 : result_left t task = 1%nat) by (unfold result_left, due, is_reached; rewrite Hs; reflexivity).
  assert (E0 : result_left t (with_event T_EVT_RES_SET (dn (result_set_event task)) task) = 0%nat).
  { unfold result_left, due, is_reached. change (result_set_event (with_event _ ?e task)) with e.
    rewrite dn_state by lia. rewrite Hs. reflexivity. }
  lia.
Qed.
End Work.

Section Facts.
Context {RA : Type} `{AccessOps RA} `{!AccessLaws RA} {V : Type} (run_result : nat -> V).
Implicit Types (w : World RA) (task : Task RA) (s : State (RA := RA)) (f : Future) (x : FState (RA := RA) (V := V)).
Implicit Types (c : FCommand (RA := RA)).

(** ** Each command takes some of the work *)

Lemma init_events s t i claimed b w' :
  invariant s -> info s !! t = Some i -> i_status i = Emplaced ->
  room t (1 + Z.of_nat (scan_length (unique_resources (i_user i)) (world s))) (world s) ->
  init_task t claimed (world s) = Ok (b, w') -> events w' = events (world s).
Proof.
  intros Hinv Hi Hst Hroom E. destruct (init_graph_covers s t i Hinv Hi Hst Hroom) as (w1 & w2 & E1 & E2 & HI2 & _).
  unfold init_task in E. rewrite E1 in E. cbn [mbind res_bind] in E. rewrite E2 in E. cbn [mbind res_bind] in E.
  destruct (notify_spec _ _ (notify_fuel w2) _ w2 [] claimed (Nat.lt_succ_diag_r _) HI2) as (b' & w3 & E3 & _ & HF).
  assert (w3 = w') as -> by congruence. rewrite (fr_events _ _ _ _ HF).
  destruct (entered_init_graph _ _ _ E2) as [_ ->]. eapply events_modify; [| exact E1]. discriminate.
Qed.

Lemma start_events s t i w' :
  invariant s -> info s !! t = Some i -> i_status i = Initialized -> start_task t (world s) = Ok w' ->
  events w' = events (world s).
Proof.
  intros [HI HS HL HO] Hi Hst E. unfold start_task in E. apply bind_Ok in E as (task & Ht & E).
  apply bind_Ok in E as (u & _ & E). apply bind_Ok in E as ([b w2] & En & E). injection E as <-. apply deref_Ok in Ht.
  pose proof (Inv_start _ _ _ _ HI Hi Hst ltac:(eauto)) as HI1.
  destruct (notify_spec _ _ (notify_fuel (world s)) _ (world s) [] false (Nat.lt_succ_diag_r _) HI1)
    as (b' & w3 & E3 & _ & HF). assert (w3 = w2) as -> by congruence. apply (fr_events _ _ _ _ HF).
Qed.

Lemma return_events s t i b w' :
  invariant s -> info s !! t = Some i -> i_status i = Running ->
  notify (notify_fuel (world s)) (get_post_event t) false (world s) = Ok (b, w') -> events w' = events (world s).
Proof.
  intros Hinv Hi Hst E. destruct (running_task s t i Hinv Hi Hst) as (task & Ht & Hrun & _).
  destruct Hinv as [HI HS HL HO]. pose proof (Inv_return _ _ _ _ _ HI Hi Hst Ht Hrun) as HI1.
  destruct (notify_spec _ _ (notify_fuel (world s)) _ (world s) [] false (Nat.lt_succ_diag_r _) HI1)
    as (b' & w2 & E2 & _ & HF). assert (w2 = w') as -> by congruence. apply (fr_events _ _ _ _ HF).
Qed.

Lemma result_events bpre bpost w r b w' : result_spec bpre bpost w r -> r = Ok (b, w') -> events w' = events w.
Proof.
  intros (b0 & w0 & -> & _ & HF) E. assert (w0 = w') as -> by congruence. apply (sf_events _ _ _ HF).
Qed.

(** Initialization, start, return and the notification of an event. *)
Lemma passive_work x s' : finv run_result x -> passive (sys x) s' ->
  (exists t i st w', info (sys x) !! t = Some i /\ (rank st < rank (i_status i))%nat /\
     events w' = events (world (sys x)) /\ s' = mkState w' (<[t := set_status st i]> (info (sys x))) (next_seq (sys x))) \/
  (exists e y w', events (world (sys x)) !! e = Some y /\ state y = 1 /\
     events w' = <[e := dn y]> (events (world (sys x))) /\ s' = mkState w' (info (sys x)) (next_seq (sys x))) ->
  (system_work s' < system_work (sys x))%nat.
Proof.
  intros [Hr HS _ _ _ _ _ _] Hp Hc. destruct (passive_quiet _ _ (reachable_safe _ Hr) HS Hp) as [_ Q].
  destruct Hc as [(t & i & st & w' & Hi & Hst & Ee & ->) | (e & y & w' & He & Hy & Ee & ->)]; cbn [world] in Q.
  - apply work_advance; assumption.
  - apply (work_reach _ _ e y); [exact He | unfold is_reached; rewrite Hy; reflexivity | | exact Q | exact Ee].
    rewrite dn_state by lia. rewrite Hy. reflexivity.
Qed.

Lemma with_sys_work s' x : (system_work s' < system_work (sys x))%nat -> (work (with_sys s' x) < work x)%nat.
Proof. unfold work, with_sys. cbn [sys futures]. lia. Qed.

Lemma release_work x t task b w' :
  finv run_result x -> tasks (world (sys x)) !! t = Some task -> state (result_get_event task) = 1 ->
  notify (notify_fuel (world (sys x))) (get_result_get_event t) false (world (sys x)) = Ok (b, w') ->
  (system_work (with_world w' (sys x)) <= system_work (sys x))%nat.
Proof.
  intros [Hr HS _ _ _ _ _ _] Ht Hs E. pose proof (iv_inv _ (reachable_safe _ Hr)) as HI.
  destruct (inv_leaf _ _ _ _ HI t task Ht) as (_ & _ & Hl).
  destruct (notify_result_get_tasks _ _ _ _ _ _ HS Ht Hl Hs E) as (_ & Hother & Hself).
  pose proof (result_events _ _ _ _ _ _ (notify_result_get_spec _ _ (total (world (sys x))) _ t task HI Ht Hs) E) as Ee.
  unfold system_work. cbn [info world with_world]. rewrite Ee.
  assert (map_sum result_left (tasks w') <= map_sum result_left (tasks (world (sys x))))%nat; [| lia].
  apply map_sum_mono. intros a y Hy. destruct (decide (a = t)) as [-> | Hne].
  - exists task. split; [exact Ht |]. unfold result_left. destruct (Hself y Hy) as [_ ->]. lia.
  - exists y. rewrite Hother in Hy by exact Hne. auto.
Qed.

(** A passive command that moves a task one handler further. *)
Ltac work_advances Hx Hp Es events_same :=
  eapply advance_some in Es; [| eassumption]; apply passive_work; [exact Hx | exact Hp |];
  left; do 4 eexists; split; [eassumption |]; split; [| split; [eapply events_same; eassumption | exact Es]];
  match goal with Hst : i_status _ = _ |- _ => rewrite Hst end; simpl; lia.

Lemma drain_work c x x' :
  finv run_result x -> drains c = true -> fexec run_result c x = Some x' -> (work x' < work x)%nat.
Proof.
  intros Hx Hc E. pose proof (reachable_safe _ (fi_reachable _ _ Hx)) as Hinv.
  destruct c as [| | t cl | t | t | t | c | | | k]; try discriminate Hc; cbn [fexec] in E; cbv zeta in E.
  - apply bind_Some in E as (s' & Es & E). injection E as <-. apply with_sys_work.
    pose proof (exec_passive _ _ _ Es I) as Hp. cbn [exec] in Es. exec_inv.
    match goal with y : (bool * World RA)%type |- _ => destruct y end. exec_inv.
    match goal with Ha : info _ !! t = Some ?i, Hb : info _ !! t = Some ?j |- _ => assert (j = i) as -> by congruence end.
    work_advances Hx Hp Es init_events.
  - apply bind_Some in E as (s' & Es & E). injection E as <-. apply with_sys_work.
    pose proof (exec_passive _ _ _ Es I) as Hp. cbn [exec] in Es. exec_inv.
    work_advances Hx Hp Es start_events.
  - exec_inv. match goal with y : (gmap nat V * World RA)%type |- _ => destruct y as [d' w'] end. injection E as <-.
    exec_inv. match goal with Er : run_task _ _ _ _ = Ok _ |- _ => unfold run_task in Er;
      apply bind_Ok in Er as ([b w1] & En & Er); injection Er as <- <- end.
    match goal with Ht : tasks _ !! t = Some ?y |- _ => rename y into task; rename Ht into Htask end.
    destruct (inv_leaf _ _ _ _ (iv_inv _ Hinv) t task Htask) as (_ & Hl & _).
    unfold work, with_world. cbn [sys futures]. apply Nat.add_lt_mono_r.
    eapply work_result; [exact Htask | eassumption | eapply notify_result_set_tasks; eassumption |].
    eapply result_events; [| exact En]. apply (notify_result_set_spec _ _ (total (world (sys x))) _ t task (iv_inv _ Hinv)); assumption.
  - apply bind_Some in E as (task & Ht & E). apply bind_Some in E as ([] & Hs & E). apply guard_some in Hs.
    apply bind_Some in E as (s' & Es & E). injection E as <-. apply with_sys_work.
    pose proof (exec_return _ _ _ _ Ht Hs Es) as Hp. cbn [exec] in Es. exec_inv.
    work_advances Hx Hp Es return_events.
  - destruct c as [| | | | | | | | | e a]; try discriminate Hc.
    apply bind_Some in E as ([] & He & E). apply bind_Some in E as (s' & Es & E). injection E as <-. apply with_sys_work.
    pose proof (exec_passive _ _ _ Es I) as Hp. cbn [exec] in Es. exec_inv. injection Es as <-.
    apply passive_work; [exact Hx | exact Hp |]. right. do 3 eexists. split; [eassumption |]. split; [eassumption |].
    split; [| reflexivity].
    match goal with En : notify _ _ _ _ = Ok (_, ?w'), Hy : events _ !! e = Some ?y, Hs : state ?y = 1 |- _ =>
      destruct (notify_external_spec _ _ (total (world (sys x))) _ e y a false (iv_inv _ Hinv) Hy Hs (Nat.lt_succ_diag_r _))
        as (b' & w1 & E1 & _ & HF); assert (w1 = w') as -> by (unfold notify_fuel in En; congruence) end.
    apply (fr_events _ _ _ _ HF).
  - apply bind_Some in E as (f & Hk & E). apply bind_Some in E as (w' & Hw & E). apply ok_some in Hw. injection E as <-.
    unfold work. cbn [sys futures]. pose proof (map_size_delete_Some k (futures x) ltac:(eauto)) as Hsz.
    assert (Hpos : (size (futures x) <> 0)%nat) by (rewrite map_size_empty_iff; intros E0; rewrite E0, lookup_empty in Hk; discriminate).
    assert (Hle : (system_work (with_world w' (sys x)) <= system_work (sys x))%nat); [| unfold with_world in Hle |- *; lia].
    unfold destroy_future in Hw. destruct (taken f) eqn:Hf; [injection Hw as <-; reflexivity |].
    apply bind_Ok in Hw as ([b w1] & En & Hw). injection Hw as <-.
    destruct (fi_future _ _ Hx k f Hk Hf) as (task & Ht & Hs). eapply release_work; eassumption.
Qed.
Lemma drain_all_work l : forall x x',
  reachable finit (fstep run_result) x -> Forall (fun c => drains c = true) l -> fexec_all run_result l x = Some x' ->
  reachable finit (fstep run_result) x' /\ (length l + work x' <= work x)%nat.
Proof.
  induction l as [| c l IH]; intros x x' Hr Hl E.
  - injection E as <-. split; [exact Hr | simpl; lia].
  - apply Forall_cons in Hl as [Hc Hl]. cbn [fexec_all] in E. apply bind_Some in E as (x1 & E1 & E).
    assert (Hg : fgood c) by (destruct c; [exact I | discriminate Hc | exact I ..]).
    pose proof (drain_work c x x1 (reachable_finv _ _ Hr) Hc E1).
    assert (Hr1 : reachable finit (fstep run_result) x1) by (eapply reachable_step; [exact Hr | eapply fexec_fstep; eassumption]).
    destruct (IH x1 x' Hr1 Hl E) as [Hr' Hle]. split; [exact Hr' | simpl; lia].
Qed.

(** ** As long as it is not completed, some command can be carried out *)

Lemma is_status_intro s t i st : info s !! t = Some i -> i_status i = st -> is_status st t s = true.
Proof. intros Hi <-. unfold is_status, status_of. rewrite Hi. apply bool_decide_eq_true. reflexivity. Qed.

Lemma room_roomb p n w : room p n w -> roomb p n w = true.
Proof.
  unfold room, roomb. intros Hr. destruct (tasks w !! p) as [task |]; [| reflexivity].
  specialize (Hr task eq_refl). apply andb_true_iff. rewrite !Z.ltb_lt. exact Hr.
Qed.

Lemma deliver_ok p s b w' : notify (notify_fuel (world s)) p false (world s) = Ok (b, w') -> deliver p s = Some w'.
Proof. intros E. unfold deliver. rewrite E. reflexivity. Qed.

Lemma exec_init_runs s t i :
  invariant s -> info s !! t = Some i -> i_status i = Emplaced ->
  room t (1 + Z.of_nat (scan_length (unique_resources (i_user i)) (world s))) (world s) ->
  is_Some (exec (CInit t false) s).
Proof.
  intros Hinv Hi Hst Hroom. destruct (init_graph_covers s t i Hinv Hi Hst Hroom) as (w1 & w2 & E1 & E2 & HI2 & _).
  destruct (notify_spec _ _ (notify_fuel w2) _ w2 [] false (Nat.lt_succ_diag_r _) HI2) as (b & w3 & E3 & _).
  cbn [exec]. rewrite (is_status_intro s t i _ Hi Hst). cbn [guard mbind option_bind]. rewrite Hi. cbn [mbind option_bind].
  rewrite (room_roomb _ _ _ Hroom). cbn [guard mbind option_bind]. unfold init_task. rewrite E1. cbn [mbind res_bind].
  rewrite E2. cbn [mbind res_bind]. rewrite E3. cbn [ok mbind option_bind]. unfold advance. rewrite Hi. cbn [mbind option_bind]. eauto.
Qed.

Lemma exec_start_runs s t i task :
  invariant s -> info s !! t = Some i -> i_status i = Initialized -> tasks (world s) !! t = Some task ->
  task_is_ready task = true -> is_Some (exec (CStart t) s).
Proof.
  intros Hinv Hi Hst Ht Er. destruct (start_runs s t i task Hinv Hi Hst Ht Er) as [w' E].
  cbn [exec]. rewrite (is_status_intro s t i _ Hi Hst). cbn [guard mbind option_bind]. rewrite E.
  cbn [ok mbind option_bind]. unfold advance. rewrite Hi. cbn [mbind option_bind]. eauto.
Qed.

Lemma exec_return_runs s t i :
  invariant s -> info s !! t = Some i -> i_status i = Running -> is_Some (exec (CReturn t) s).
Proof.
  intros Hinv Hi Hst. destruct (running_task s t i Hinv Hi Hst) as (task & Ht & Hrun & _).
  pose proof (Inv_return _ _ _ _ _ (iv_inv _ Hinv) Hi Hst Ht Hrun) as HI1.
  destruct (notify_spec _ _ (notify_fuel (world s)) _ (world s) [] false (Nat.lt_succ_diag_r _) HI1) as (b & w2 & E2 & _).
  cbn [exec]. rewrite (is_status_intro s t i _ Hi Hst). cbn [guard mbind option_bind]. rewrite (deliver_ok _ _ _ _ E2).
  cbn [mbind option_bind]. unfold advance. rewrite Hi. cbn [mbind option_bind]. eauto.
Qed.

Lemma exec_notify_runs s e y :
  invariant s -> events (world s) !! e = Some y -> is_reached y = false -> is_Some (exec (CNotifyEvent e 0) s).
Proof.
  intros Hinv He Hn. destruct (inv_events _ _ _ _ (iv_inv _ Hinv) e y He) as [Hz | [Hs _]];
    [unfold is_reached in Hn; rewrite Hz in Hn; discriminate |].
  destruct (notify_external_spec _ _ (total (world s)) _ e y 0%nat false (iv_inv _ Hinv) He Hs (Nat.lt_succ_diag_r _))
    as (b & w1 & E1 & _).
  cbn [exec]. rewrite He. cbn [mbind option_bind]. rewrite Hs. cbn [Z.eqb Pos.eqb guard mbind option_bind].
  rewrite (deliver_ok _ _ _ _ E1). cbn [mbind option_bind]. eauto.
Qed.

Lemma run_or_return x t i :
  finv run_result x -> info (sys x) !! t = Some i -> i_status i = Running ->
  exists c x', drains c = true /\ fexec run_result c x = Some x'.
Proof.
  intros Hx Hi Hst. pose proof (reachable_safe _ (fi_reachable _ _ Hx)) as Hinv.
  destruct (running_task _ t i Hinv Hi Hst) as (task & Ht & _).
  destruct (is_reached (result_set_event task)) eqn:Hs.
  - destruct (exec_return_runs _ t i Hinv Hi Hst) as [s' E]. exists (FReturn t). eexists. split; [reflexivity |].
    cbn [fexec]. cbv zeta. rewrite Ht. cbn [mbind option_bind]. rewrite Hs. cbn [guard mbind option_bind]. rewrite E. reflexivity.
  - assert (H1 : state (result_set_event task) = 1).
    { pose proof (fi_set _ _ Hx t task Ht). unfold is_reached in Hs. apply Z.eqb_neq in Hs. lia. }
    destruct (notify_result_set_spec _ _ (total (world (sys x))) _ t task (iv_inv _ Hinv) Ht H1) as (b & w' & E & _).
    exists (FRun t). eexists. split; [reflexivity |]. cbn [fexec]. cbv zeta. rewrite (is_status_intro _ t i _ Hi Hst).
    cbn [guard mbind option_bind]. rewrite Ht. cbn [mbind option_bind]. rewrite H1. cbn [Z.eqb Pos.eqb guard mbind option_bind].
    unfold run_task. unfold notify_fuel. rewrite E. reflexivity.
Qed.

Lemma destroy_runs x k f : finv run_result x -> futures x !! k = Some f -> is_Some (fexec run_result (FDestroy k) x).
Proof.
  intros Hx Hk. cbn [fexec]. cbv zeta. rewrite Hk. cbn [mbind option_bind]. unfold destroy_future.
  destruct (taken f) eqn:Hf; [cbn [ok mbind option_bind]; eauto |].
  destruct (untaken_releases _ _ _ _ Hx Hk Hf) as (b & w' & E). rewrite E. cbn [mbind res_bind ok option_bind]. eauto.
Qed.

(** A task no future refers to leaves the memory as soon as it is finished. *)
Lemma no_future_unfinished x t task : finv run_result x -> futures x = ∅ -> tasks (world (sys x)) !! t = Some task ->
  is_finished task = false.
Proof.
  intros Hx Hf Ht. destruct (is_finished task) eqn:Ef; [| reflexivity]. exfalso.
  pose proof (sl_countdown _ _ (fi_settled _ _ Hx) t task Ht) as Ec. unfold removals in Ec.
  rewrite Ef, bool_decide_false in Ec by apply not_elem_of_empty.
  destruct (inv_countdown _ _ _ _ (iv_inv _ (reachable_safe _ (fi_reachable _ _ Hx))) t task Ht) as [Hc _].
  destruct (is_reached (result_get_event task)) eqn:Eg; [simpl in Ec; lia |].
  destruct (fi_owner _ _ Hx t task Ht Eg) as [k Hk]. rewrite Hf, lookup_empty in Hk. discriminate.
Qed.

Lemma drain_progress x :
  finv run_result x -> roomy (sys x) -> no_duplicates (sys x) ->
  completed x \/ exists c x', drains c = true /\ fexec run_result c x = Some x'.
Proof.
  intros Hx Hroom Hnd. destruct (reachable_family _ (fi_reachable _ _ Hx)) as [Hinv Hfam].
  destruct (decide (size (futures x) = 0%nat)) as [Hf | Hf].
  2: { right. destruct (map_choose (futures x)) as (k & f & Hk); [intros E; apply Hf; rewrite E; apply map_size_empty |].
       destruct (destroy_runs x k f Hx Hk) as [x' E]. exists (FDestroy k), x'. auto. }
  apply map_size_empty_inv in Hf.
  destruct (decide (map_Forall (fun _ y => is_reached y = true) (events (world (sys x))))) as [Hev | Hev].
  2: { right. apply map_not_Forall in Hev as (e & y & He & Hn); [| intros; apply _]. apply not_true_iff_false in Hn.
       destruct (exec_notify_runs _ e y Hinv He Hn) as [s' E]. exists (FEvent (CNotifyEvent e 0)). eexists.
       split; [reflexivity |]. cbn [fexec is_event guard mbind option_bind]. cbv zeta. rewrite E. reflexivity. }
  destruct (decide (map_Forall (fun _ i => i_status i <> Emplaced) (info (sys x)))) as [Hem | Hem].
  2: { right. apply map_not_Forall in Hem as (t & i & Hi & Hst); [| intros; apply _]. apply dec_stable in Hst.
       destruct (exec_init_runs _ t i Hinv Hi Hst (Hroom t i Hi Hst)) as [s' E]. exists (FInit t false). eexists.
       split; [reflexivity |]. cbn [fexec]. cbv zeta. rewrite E. reflexivity. }
  destruct (decide (map_Forall (fun _ i => i_status i <> Running) (info (sys x)))) as [Hru | Hru].
  2: { right. apply map_not_Forall in Hru as (t & i & Hi & Hst); [| intros; apply _]. apply dec_stable in Hst.
       eapply run_or_return; eassumption. }
  destruct (decide (size (tasks (world (sys x))) = 0%nat)) as [Hta | Hta].
  - left. apply map_size_empty_inv in Hta. split; [| split; [exact Hev | split; assumption]].
    intros t i Hi. apply (ln_gone _ _ (iv_linked _ Hinv) t i Hi). rewrite Hta. apply lookup_empty.
  - right. destruct (map_choose (tasks (world (sys x)))) as (t & task & Ht); [intros E; apply Hta; rewrite E; apply map_size_empty |].
    destruct (some_task_ready (sys x) Hinv Hfam) as (t' & i' & task' & Hi' & Hst' & Ht' & Er); [| exact Hnd | exact Hev | |].
    + intros a i Hi. specialize (Hem a i Hi). specialize (Hru a i Hi). cbv beta in Hem, Hru. destruct (i_status i); auto; contradiction.
    + exists t, task. split; [exact Ht |]. eapply no_future_unfinished; eassumption.
    + destruct (exec_start_runs _ t' i' task' Hinv Hi' Hst' Ht' Er) as [s' E]. exists (FStart t'). eexists.
      split; [reflexivity |]. cbn [fexec]. cbv zeta. rewrite E. reflexivity.
Qed.

(** ** The program comes to its end *)

(** C6 (completes): if no task lists a resource twice and the 16-bit edge counters of the
    tasks still to be initialized have room, then, when the program submits nothing any
    more, the workers and the owners of the futures can go on in any order for as many
    steps as there is work left, at most; and as long as not all tasks are finished and
    removed from memory with their results, there is a next step.  (Each handler is one
    step; a task that lists a resource twice waits for itself,
    [SystemProps.waits_for_itself].) *)
Theorem drain_completes x l x' :
  reachable finit (fstep run_result) x -> Forall (fun c => drains c = true) l ->
  fexec_all run_result l x = Some x' -> roomy (sys x') -> no_duplicates (sys x') ->
  (length l + work x' <= work x)%nat /\
  (completed x' \/ exists c x'', drains c = true /\ fexec run_result c x' = Some x'').
Proof.
  intros Hr Hl E Hroom Hnd. destruct (drain_all_work l x x' Hr Hl E) as [Hr' Hle].
  split; [exact Hle | apply drain_progress; [apply reachable_finv, Hr' | assumption | assumption]].
Qed.

(** So there is a run to the end. *)
Lemma some_run_completes x :
  reachable finit (fstep run_result) x ->
  (forall l x', Forall (fun c => drains c = true) l -> fexec_all run_result l x = Some x' ->
     roomy (sys x') /\ no_duplicates (sys x')) ->
  exists l x', Forall (fun c => drains c = true) l /\ fexec_all run_result l x = Some x' /\ completed x'.
Proof.
  intros Hr Hall. remember (work x) as n eqn:En. assert (Hn : (work x <= n)%nat) by lia. clear En. revert x Hr Hall Hn.
  induction n as [n IH] using lt_wf_ind. intros x Hr Hall Hn.
  destruct (Hall [] x) as [Hroom Hnd]; [apply List.Forall_nil | reflexivity |].
  destruct (drain_progress x (reachable_finv _ _ Hr) Hroom Hnd) as [Hd | (c & x1 & Hc & E)].
  - exists [], x. split; [apply List.Forall_nil | auto].
  - destruct (drain_all_work [c] x x1 Hr) as [Hr1 Hle]; [apply Forall_singleton, Hc | cbn [fexec_all]; rewrite E; reflexivity |].
    simpl in Hle. destruct (IH (work x1) ltac:(lia) x1 Hr1) as (l & x' & Hl & E' & Hd); [| lia |].
    + intros l x' Hl E'. apply (Hall (c :: l)); [apply Forall_cons; auto | cbn [fexec_all]; rewrite E; exact E'].
    + exists (c :: l), x'. split; [apply Forall_cons; auto | split; [cbn [fexec_all]; rewrite E; exact E' | exact Hd]].
Qed.
End Facts.

(** ** A concrete run *)

Import SystemProps.
#[local] Existing Instances run_ops run_laws.

(** The second of two conflicting tasks waits for an event of the first. *)
Definition mid_run : list (FCommand (RA := Guards.RA)) :=
  [FSubmit 0 0 (writes 7) 0 0; FSubmit 0 1 (writes 7) 0 1; FInit 0 false; FStart 0; FEvent (CCreateEvent 0 5); FMove 0 2].

Definition to_the_end : list (FCommand (RA := Guards.RA)) :=
  [FDestroy 2; FRun 0; FReturn 0; FDestroy 0; FInit 1 true; FEvent (CNotifyEvent 5 0); FStart 1; FRun 1; FReturn 1; FDestroy 1].

Lemma mid_run_reachable : reachable finit (fstep value) (fstate_after mid_run).
Proof.
  apply fstate_reachable; [| vm_compute; reflexivity].
  repeat first [apply List.Forall_nil | apply Forall_cons; split; [first [exact I | apply built_writes] |]].
Qed.

Definition final : FState := fstate_after (mid_run ++ to_the_end).

Lemma drain_completes_witness : (length to_the_end + work final <= work (fstate_after mid_run))%nat /\
  (completed final \/ exists c x'', drains c = true /\ fexec value c final = Some x'').
Proof.
  apply (drain_completes value (fstate_after mid_run) to_the_end final mid_run_reachable).
  - unfold to_the_end. repeat (apply Forall_cons; split; [reflexivity |]). apply List.Forall_nil.
  - vm_compute. reflexivity.
  - intros t i Hi Hst. exfalso. revert t i Hi Hst. apply (map_Forall_to_list (fun t i => i_status i = Emplaced -> False)).
    vm_compute. repeat constructor; discriminate.
  - intros t i Hi. revert t i Hi. apply map_Forall_to_list. vm_compute. repeat constructor; inversion 1.
Defined.

Example final_completed : work (fstate_after mid_run) = 10%nat /\ work final = 0%nat /\
  i_status (info_of (sys final) 1) = Returned /\ tasks (world (sys final)) = ∅.
Proof. vm_compute. repeat split. Qed.
End Progress.
