(* ===== verification/ParserYield.v ===== *)
(** Waiting for one event outside of any task: the parser's branch of [yield_impl]
    ([redGrapes/globalSpace.hpp]), by which [Future::get] waits for a result; the
    workers' steps in between are one step here ([ParserWait] interleaves them). *)

From Stdlib Require Import ZArith Lia Bool.
From stdpp Require Import base gmap list strings relations.
From S2P Require Import Prelude Access Resource Guards ResourceUser Entries Graph GraphNotify.
From S2P Require Import GraphInv GraphInit GraphSubmit System SystemSafe SystemLive SystemRun SystemProps.
From S2P Require Import SystemEvents.

Open Scope Z_scope.
Open Scope word_scope.

Module ParserYield.
Import Resource ResourceUser Graph GraphNotify GraphInv GraphInit GraphSubmit System SystemSafe SystemRun SystemProps SystemEvents.

Section Yield.
Context {RA : Type} `{AccessOps RA}.
Implicit Types (w : World RA) (s : State (RA := RA)).

(** What the workers do while the parser sleeps once in [TaskFreeCtx::idle]. *)
Context (idle : State (RA := RA) -> State (RA := RA)).

(** The loop: the looks at the event and the sleeps in between. *)
Fixpoint yield_loop (fuel : nat) (p : EventPtr) s : res (State (RA := RA)) :=
  match fuel with
  | O => Err OutOfFuel
  | S fuel =>
      e ← get_event p (world s);
      if is_reached e then Ok s else yield_loop fuel p (idle s)
  end.

(** [yield_impl] when no task is running *)
Definition yield_parser (fuel : nat) (p : EventPtr) s : res (State (RA := RA)) :=
  w ← modify_event p (set_waker parserID) (world s);
  yield_loop fuel p (mkState w (info s) (next_seq s)).
End Yield.

Section Facts.
Context {RA : Type} `{AccessOps RA} `{!AccessLaws RA}.
Implicit Types (w : World RA) (task : Task RA) (s : State (RA := RA)).

(** As long as the event exists. *)
Definition present (p : EventPtr) s : Prop := is_ok (get_event p (world s)) = true.

Definition reached_in (p : EventPtr) s : Prop := exists e, get_event p (world s) = Ok e /\ is_reached e = true.

(** The loop ends at the first look that finds the event reached. *)
Lemma yield_loop_ends (idle : State -> State) p fuel : forall s,
  (forall n, (n < fuel)%nat -> present p (Nat.iter n idle s)) ->
  (is_ok (yield_loop idle fuel p s) = true <-> exists n, (n < fuel)%nat /\ reached_in p (Nat.iter n idle s)) /\
  forall s', yield_loop idle fuel p s = Ok s' -> reached_in p s'.
Proof.
  induction fuel as [| fuel IH]; intros s Hp.
  - split; [| discriminate]. split; [discriminate | intros (n & Hn & _); lia].
  - cbn [yield_loop]. pose proof (Hp 0%nat (Nat.lt_0_succ _)) as H0. unfold present in H0. simpl in H0.
    destruct (get_event p (world s)) as [e |] eqn:Ee; [| discriminate]. cbn [mbind res_bind]. destruct (is_reached e) eqn:Er.
    + split; [| intros s' E; injection E as <-; exists e; auto]. split; [| reflexivity]. intros _. exists 0%nat. split; [lia |]. exists e. auto.
    + destruct (IH (idle s)) as [Hiff Hres]; [intros n Hn; rewrite <- Nat.iter_succ_r; apply Hp; lia |].
      split; [| exact Hres]. rewrite Hiff. split; intros (n & Hn & Hr).
      * exists (S n). split; [lia |]. rewrite Nat.iter_succ_r. exact Hr.
      * destruct n as [| n].
        { destruct Hr as (e' & Ee' & Er'). simpl in Ee'. congruence. }
        exists n. split; [lia |]. rewrite Nat.iter_succ_r in Hr. exact Hr.
Qed.

(** The parser enters itself as the one to wake. *)
Lemma set_waker_result bpre bpost w t task :
  Inv bpre bpost w [] -> tasks w !! t = Some task ->
  let task' := with_event T_EVT_RES_SET (set_waker parserID (result_set_event task)) task in
  modify_event (get_result_set_event t) (set_waker parserID) w = Ok (put_task t task' w) /\ Inv bpre bpost (put_task t task' w) [].
Proof.
  intros HI Ht task'. split.
  - unfold modify_event, get_event, put_event, get_task. simpl. rewrite Ht. reflexivity.
  - destruct (inv_leaf _ _ _ _ HI t task Ht) as (_ & Hl & _).
    apply (put_result bpre bpost w [] t task T_EVT_RES_SET (set_waker parserID (result_set_event task)) HI Ht); auto. discriminate.
Qed.

(** (result_told): once the parser has entered itself, the notification that sets the
    result tells it, and leaves the event reached.  ([ParserWait] has the steps of both in
    any interleaving.) *)
Theorem result_tells_parser bpre bpost s t task :
  Inv bpre bpost (world s) [] -> tasks (world s) !! t = Some task -> state (result_set_event task) = 1 ->
  exists w1 b w' l, modify_event (get_result_set_event t) (set_waker parserID) (world s) = Ok w1 /\
    notify (notify_fuel w1) (get_result_set_event t) false w1 = Ok (b, w') /\
    calls w' = calls w1 ++ l /\ NotifyParser ∈ l /\
    reached_in (get_result_set_event t) (mkState w' (info s) (next_seq s)).
Proof.
  intros HI Ht Hs. destruct (set_waker_result _ _ _ t task HI Ht) as [E1 _].
  set (task1 := with_event T_EVT_RES_SET (set_waker parserID (result_set_event task)) task) in *.
  set (w1 := put_task t task1 (world s)) in *. exists w1.
  destruct (inv_leaf _ _ _ _ HI t task Ht) as (_ & Hl & _).
  assert (Ht1 : tasks w1 !! t = Some task1) by apply lookup_insert_eq.
  assert (Eg : get_event (get_result_set_event t) w1 = Ok (set_waker parserID (result_set_event task)))
    by (unfold get_event, get_task; simpl tag; simpl ep_task; cbn [deref mbind res_bind]; rewrite Ht1; reflexivity).
  unfold notify_fuel. rewrite notify_S, Eg. cbn [mbind res_bind].
  unfold put_event, get_task. simpl tag. simpl ep_task. cbn [deref mbind res_bind]. rewrite Ht1. cbn [deref mbind res_bind].
  cbn [set_waker waker_id state followers]. rewrite Hs, Hl. cbn [cpp_assert mbind res_bind notify_all].
  change (1 <? 1 - 1) with false. change (0 <? 1) with true. change (0 <=? parserID) with true. change (1 - 1 =? 0) with true.
  unfold reached_before, reached_after. simpl bool_decide. change (parserID =? parserID) with true. cbn [andb orb cpp_assert mbind res_bind].
  eexists _, _, [Wake t parserID; NotifyParser]. split; [exact E1 |]. split; [reflexivity |].
  split; [simpl; rewrite <- app_assoc; reflexivity |]. split; [right; left |]. eexists. split.
  - unfold get_event, get_task. simpl. rewrite lookup_insert_eq. cbn [deref mbind res_bind]. reflexivity.
  - simpl. unfold is_reached, dn. simpl. rewrite Hs. reflexivity.
Qed.
End Facts.

(** ** Concrete runs *)

Section Example.
Import Guards.
#[local] Existing Instances run_ops run_laws.

Definition waited (p : EventPtr) (s : State (RA := Guards.RA)) : State :=
  match modify_event p (set_waker parserID) (world s) with Ok w => mkState w (info s) (next_seq s) | Err _ => s end.

(** Any other event does not tell the parser: the scheduler is asked to wake the
    worker whose id is [parserID], which there is not. *)
Definition event_waited : State := waited (external 5 0) (state_after event_made).

Example external_event_not_told :
  (fun r => drop (length (calls (world event_waited))) (calls (snd r))) <$>
    notify (notify_fuel (world event_waited)) (external 5 0) false (world event_waited) = Ok [Wake 0 parserID].
Proof. vm_compute. reflexivity. Qed.
End Example.
End ParserYield.
