(* ===== verification/ParserWait.v ===== *)
(** The parser waits for the result of a task ([yield_impl] outside of a task,
    [redGrapes/globalSpace.hpp]) while a worker notifies it ([EventPtr::notify],
    [scheduler/event.tpp]) through the condition variable of [TaskFreeCtx]: one atomic
    operation of one thread is one step. *)

From Stdlib Require Import ZArith Lia Bool.
From stdpp Require Import base list relations.
From S2P Require Import Prelude CondVar Graph Shutdown.

Open Scope Z_scope.
Open Scope word_scope.

Module ParserWait.
Import CondVar.

(** What the parser does next: [event->waker_id = parserID]; the test of the loop;
    [TaskFreeCtx::idle]; it is out of the loop. *)
Inductive ParserPc : Type := SetWaker | Look | InIdle | Passed.

(** What the worker that notifies the event does next: [state.fetch_sub]; it reads
    [waker_id]; [TaskFreeCtx::cv.notify]; it goes on to the followers. *)
Inductive NotifierPc : Type := FetchSub | LoadWaker | Tell | Followers.

(** The result-set event, the condition variable, in which the parser is thread 0 and the
    notifier thread 1, and the two threads. *)
Record Wait : Type := mkWait {
  state : Z;
  waker_id : Z;
  cv : CondVar;
  parser : ParserPc;
  notifier : NotifierPc
}.

Definition with_cv (c : CondVar) (s : Wait) : Wait := mkWait (state s) (waker_id s) c (parser s) (notifier s).
Definition with_parser (p : ParserPc) (s : Wait) : Wait := mkWait (state s) (waker_id s) (cv s) p (notifier s).
Definition with_notifier (p : NotifierPc) (s : Wait) : Wait := mkWait (state s) (waker_id s) (cv s) (parser s) p.

Section Steps.
Context (timeout : Z).

(** The steps of [yield_impl]. *)
Inductive parser_step : Wait -> Wait -> Prop :=
  | sets_waker s : parser s = SetWaker ->
      parser_step s (mkWait (state s) Graph.parserID (cv s) Look (notifier s))
  | finds_reached s : parser s = Look -> state s = 0 -> parser_step s (with_parser Passed s)
  | finds_unreached s : parser s = Look -> state s <> 0 ->
      parser_step s (with_cv (go 0 (Loop 0) (cv s)) (with_parser InIdle s))
  | looks_again s : parser s = InIdle -> threads (cv s) 0%nat = Outside -> parser_step s (with_parser Look s).

(** The steps of [notify] on a result-set event. *)
Inductive notifier_step : Wait -> Wait -> Prop :=
  | subtracts s : notifier s = FetchSub ->
      notifier_step s (mkWait (u16 (state s - 1)) (waker_id s) (cv s) (parser s) LoadWaker)
  | tells s : notifier s = LoadWaker -> state s = 0 -> waker_id s = Graph.parserID ->
      notifier_step s (with_cv (go 1 Exchange (cv s)) (with_notifier Tell s))
  | tells_nobody s : notifier s = LoadWaker -> ~ (state s = 0 /\ waker_id s = Graph.parserID) ->
      notifier_step s (with_notifier Followers s)
  | told s : notifier s = Tell -> threads (cv s) 1%nat = Outside -> notifier_step s (with_notifier Followers s).

(** The steps of the threads that are under way. *)
Inductive prompt : Wait -> Wait -> Prop :=
  | parser_moves s s' : parser_step s s' -> prompt s s'
  | notifier_moves s s' : notifier_step s s' -> prompt s s'
  | cv_moves s c : Shutdown.inner timeout (cv s) c -> prompt s (with_cv c s).

(** Besides, other threads may notify the condition variable at any time ([free_task] does
    so for the barrier), and the parser may wake up for no reason. *)
Inductive step : Wait -> Wait -> Prop :=
  | step_prompt s s' : prompt s s' -> step s s'
  | others_notify s t : (1 < t)%nat -> threads (cv s) t = Outside -> step s (with_cv (go t Exchange (cv s)) s)
  | spurious_wakeup s c : threads (cv s) 0%nat = Sleep c -> step s (with_cv (go 0 (Woken c) (cv s)) s).

(** The event is due once; the condition variable may be in any state that earlier waits
    and notifications left it in. *)
Definition init (s : Wait) : Prop :=
  state s = 1 /\ parser s = SetWaker /\ notifier s = FetchSub /\
  Shutdown.cv_ok (cv s) /\ threads (cv s) 0%nat = Outside /\ threads (cv s) 1%nat = Outside.

(** ** The invariant *)

Record inv (s : Wait) : Prop := {
  in_cv : Shutdown.cv_ok (cv s);
  in_state : state s = match notifier s with FetchSub => 1 | _ => 0 end;
  in_waker : parser s <> SetWaker -> waker_id s = Graph.parserID;
  in_idle : threads (cv s) 0%nat <> Outside -> parser s = InIdle;
  in_tell : threads (cv s) 1%nat <> Outside -> notifier s = Tell;
  in_told : notifier s = Tell \/ notifier s = Followers -> parser s = InIdle -> Shutdown.told (cv s);
  in_passed : parser s = Passed -> notifier s <> FetchSub
}.

Lemma moves_outside t c c' u : moves timeout t c c' -> u <> t -> threads c' u <> Outside -> threads c u <> Outside.
Proof.
  intros Hm Hu Hn E. destruct (Shutdown.moves_other _ _ _ _ _ Hm Hu) as [E' | E']; rewrite E', E in Hn; contradiction.
Qed.

Lemma inner_outside c c' u : Shutdown.inner timeout c c' -> threads c' u <> Outside -> threads c u <> Outside.
Proof.
  intros (t & Ht & Hm) Hn. destruct (decide (u = t)) as [-> |]; [exact Ht | eapply moves_outside; eassumption].
Qed.

Lemma outside_dec (p : pc) : p = Outside \/ p <> Outside.
Proof. destruct p; auto; right; discriminate. Qed.

Lemma inv_cv s c : inv s -> Shutdown.cv_ok c ->
  (forall u, threads c u <> Outside -> threads (cv s) u <> Outside \/ (1 < u)%nat) ->
  (Shutdown.told (cv s) -> Shutdown.told c) -> inv (with_cv c s).
Proof.
  intros [I1 I2 I3 I4 I5 I6 I7] Hc Ho Ht. constructor; cbn [with_cv state waker_id cv parser notifier]; auto.
  - intros Hn. destruct (Ho 0%nat Hn); [auto | lia].
  - intros Hn. destruct (Ho 1%nat Hn); [auto | lia].
Qed.

Lemma inv_parser s s' : inv s -> parser_step s s' -> inv s'.
Proof.
  intros [I1 I2 I3 I4 I5 I6 I7] Hs.
  destruct Hs as [s Hp | s Hp Hz | s Hp Hz | s Hp Ho]; constructor;
    cbn [with_cv with_parser with_notifier state waker_id cv parser notifier]; auto; try congruence;
    try (intros _; apply I3; congruence); try (intros Hn; specialize (I4 Hn); congruence).
  - intros _ E. rewrite E in I2. congruence.
  - apply (Shutdown.cv_ok_wait timeout); [exact I1 |]. destruct (outside_dec (threads (cv s) 0%nat)) as [E | Hn]; [exact E |].
    specialize (I4 Hn). congruence.
  - intros Hn _. exfalso. apply Hz. rewrite I2. destruct Hn as [-> | ->]; reflexivity.
Qed.

Lemma inv_notifier s s' : inv s -> notifier_step s s' -> inv s'.
Proof.
  intros [I1 I2 I3 I4 I5 I6 I7] Hs.
  assert (Hout : notifier s <> Tell -> threads (cv s) 1%nat = Outside).
  { intros Hn. destruct (outside_dec (threads (cv s) 1%nat)) as [E | Hne]; [exact E |]. specialize (I5 Hne). contradiction. }
  destruct Hs as [s Hn | s Hn Hz Hw | s Hn Hz | s Hn Ho]; constructor;
    cbn [with_cv with_parser with_notifier state waker_id cv parser notifier]; auto; try congruence.
  - rewrite I2, Hn. reflexivity.
  - intros H1. specialize (I5 H1). congruence.
  - intros [E | E]; discriminate.
  - apply (Shutdown.cv_ok_notify timeout); [exact I1 | discriminate | apply Hout; congruence].
  - intros _ _. left. cbn [go threads]. apply set_pc_eq.
  - rewrite I2, Hn. reflexivity.
  - intros H1. specialize (I5 H1). congruence.
  - intros _ Hp. exfalso. apply Hz. split; [rewrite I2, Hn; reflexivity | apply I3; congruence].
  - rewrite I2, Hn. reflexivity.
Qed.

Lemma wait_inv_step s s' : inv s -> step s s' -> inv s'.
Proof.
  intros HI Hs. destruct Hs as [s s' [s0 s0' Hp | s0 s0' Hn | s0 c Hc] | s t Ht Ho | s c Hc].
  - eapply inv_parser; eassumption.
  - eapply inv_notifier; eassumption.
  - apply inv_cv; [exact HI | eapply Shutdown.cv_ok_inner; [exact (in_cv _ HI) | exact Hc] | |].
    + intros u Hu. left. eapply inner_outside; eassumption.
    + intros Ht. eapply Shutdown.told_inner; [exact (in_cv _ HI) | exact Hc | exact Ht].
  - apply inv_cv; [exact HI | | |].
    + apply (Shutdown.cv_ok_notify timeout); [exact (in_cv _ HI) | lia | exact Ho].
    + intros u. cbn [go threads]. unfold set_pc. destruct (decide (t = u)) as [<- | Hne]; auto.
    + unfold Shutdown.told. cbn [go threads should_wait]. rewrite !set_pc_ne by lia. auto.
  - pose proof (in_cv _ HI) as [C1 C2 C3]. apply inv_cv; [exact HI | constructor | |].
    + eapply (cv_inv_step timeout); [exact C1 | eapply spurious, Hc].
    + cbn [go threads]. rewrite set_pc_eq. reflexivity.
    + intros t Ht. cbn [go threads]. rewrite set_pc_ne by congruence. apply C3, Ht.
    + intros u. cbn [go threads]. unfold set_pc. destruct (decide (0%nat = u)) as [<- | Hne]; [|auto].
      intros _. left. rewrite Hc. discriminate.
    + unfold Shutdown.told. cbn [go threads should_wait]. rewrite set_pc_ne by discriminate.
      intros [E | [E | E]]; [auto | auto | congruence].
Qed.

Lemma wait_inv s : reachable init step s -> inv s.
Proof.
  apply reachable_invariant; [| exact wait_inv_step].
  intros s0 (Es & Ep & En & Hc & E0 & E1). constructor; rewrite ?Ep, ?En; try assumption; congruence.
Qed.

(** ** The parser passes *)

Lemma prompt_inner c c' : rtc (Shutdown.inner timeout) c c' -> forall s, cv s = c -> rtc prompt s (with_cv c' s).
Proof.
  induction 1 as [c | c1 c2 c3 H1 H2 IH]; intros s E.
  - rewrite <- E. destruct s. apply rtc_refl.
  - subst c1. eapply rtc_l; [apply cv_moves, H1 |]. exact (IH (with_cv c2 s) eq_refl).
Qed.

Definition passes (s : Wait) : Prop := exists s', rtc prompt s s' /\ parser s' = Passed.

Lemma passes_after s s' : rtc prompt s s' -> passes s' -> passes s.
Proof. intros Hr (s2 & Hr2 & Hp). exists s2. split; [etransitivity; eassumption | exact Hp]. Qed.

Lemma look_passes s : parser s = Look -> state s = 0 -> passes s.
Proof. intros Hp Hz. eexists. split; [apply rtc_once, parser_moves, finds_reached; assumption | reflexivity]. Qed.

(** Told, the parser gets out of [idle]. *)
Lemma idle_passes s : inv s -> parser s = InIdle -> state s = 0 ->
  should_wait (cv s) = false \/ threads (cv s) 0%nat = Outside -> passes s.
Proof.
  intros HI Hp Hz Hw. destruct (Shutdown.wait_ends timeout (cv s) (in_cv _ HI) Hw) as (c & Hr & Ho).
  apply (passes_after _ (with_cv c s)); [apply (prompt_inner _ _ Hr s eq_refl) |].
  apply (passes_after _ (with_parser Look (with_cv c s))); [apply rtc_once, parser_moves, looks_again; assumption |].
  apply look_passes; [reflexivity | exact Hz].
Qed.

(** The notifier takes the step that makes the notification certain. *)
Lemma told_passes s : inv s -> parser s = InIdle -> state s = 0 -> notifier s = Tell \/ notifier s = Followers -> passes s.
Proof.
  intros HI Hp Hz Hn. destruct (in_told _ HI Hn Hp) as [Ex | Hw]; [| apply idle_passes; assumption].
  assert (Hx : exists c, Shutdown.inner timeout (cv s) c /\ should_wait c = false).
  { destruct (should_wait (cv s)) eqn:Es.
    - eexists. split; [exists 1%nat; split; [rewrite Ex; discriminate | apply exchange_true; assumption] | reflexivity].
    - eexists. split; [exists 1%nat; split; [rewrite Ex; discriminate | apply exchange_false; assumption] | exact Es]. }
  destruct Hx as (c & Hc & Hs). apply (passes_after _ (with_cv c s)); [apply rtc_once, cv_moves, Hc |].
  apply idle_passes; [eapply wait_inv_step; [exact HI | apply step_prompt, cv_moves, Hc] | exact Hp | exact Hz | left; exact Hs].
Qed.

(** C19 (parser_yield): the parser waits for the result of a task by entering itself as
    the one to tell and looking at the event between its sleeps, while a worker counts the
    event down and then looks whom to tell, in any interleaving with each other, with
    further notifications of the condition variable and with spurious wake-ups: the parser
    does not pass before the event is reached, and as soon as it is, the steps under way
    bring the parser out of its loop; it never sleeps through the result. *)
Theorem result_wakes_parser s :
  reachable init step s ->
  (parser s = Passed -> state s = 0) /\
  (state s = 0 -> exists s', rtc prompt s s' /\ parser s' = Passed).
Proof.
  intros Hr. pose proof (wait_inv s Hr) as HI. split.
  - intros Hp. rewrite (in_state _ HI). pose proof (in_passed _ HI Hp). destruct (notifier s); congruence.
  - intros Hz. change (passes s). destruct (parser s) eqn:Hp.
    + apply (passes_after _ (mkWait (state s) Graph.parserID (cv s) Look (notifier s)));
        [apply rtc_once, parser_moves, sets_waker, Hp | apply look_passes; [reflexivity | exact Hz]].
    + apply look_passes; assumption.
    + destruct (notifier s) eqn:Hn; [rewrite (in_state _ HI), Hn in Hz; discriminate | | apply told_passes; auto ..].
      assert (Hs : notifier_step s (with_cv (go 1 Exchange (cv s)) (with_notifier Tell s)))
        by (apply tells; [exact Hn | exact Hz | apply (in_waker _ HI); congruence]).
      eapply passes_after; [apply rtc_once, notifier_moves, Hs |].
      apply told_passes; [eapply wait_inv_step; [exact HI | apply step_prompt, notifier_moves, Hs] | exact Hp | exact Hz | left; reflexivity].
    + exists s. split; [apply rtc_refl | exact Hp].
Qed.
End Steps.

(** ** The parser is asleep when the result is set *)

Definition quiet : CondVar := mkCV true None (fun _ => Outside).
Definition at_start : Wait := mkWait 1 (-1) quiet SetWaker FetchSub.

Definition asleep : CondVar :=
  release 0 (Sleep 1) (go 0 (Block 1) (acquire 0 (Pred 1) (go 0 (LockW 1) (go 0 (Recheck 1) (go 0 (Loop 0) quiet))))).

Definition sleeping : Wait := mkWait 1 Graph.parserID asleep InIdle FetchSub.

(** The parser in its sleep. *)
Definition idle (c : CondVar) : Wait := mkWait 1 Graph.parserID c InIdle FetchSub.

Lemma idle_goes_on c c' : reachable init (step 0) (idle c) -> Shutdown.inner 0 c c' -> reachable init (step 0) (idle c').
Proof. intros Hr Hc. eapply reachable_step; [exact Hr |]. apply step_prompt, (cv_moves 0 (idle c)), Hc. Qed.

Lemma sleeping_reachable : reachable init (step 0) sleeping.
Proof.
  assert (R : reachable init (step 0) (idle (go 0 (Loop 0) quiet))).
  { eapply reachable_step; [| apply step_prompt, parser_moves, (finds_unreached (mkWait 1 Graph.parserID quiet Look FetchSub)); [reflexivity | discriminate]].
    eapply reachable_step; [| apply step_prompt, parser_moves, (sets_waker at_start); reflexivity].
    apply reachable_init. repeat split; try discriminate; reflexivity. }
  apply (idle_goes_on _ (go 0 (Recheck 1) (go 0 (Loop 0) quiet))) in R;
    [| exists 0%nat; split; [discriminate | apply (loop_true 0 0 _ 0); reflexivity]].
  apply (idle_goes_on _ (go 0 (LockW 1) (go 0 (Recheck 1) (go 0 (Loop 0) quiet)))) in R;
    [| exists 0%nat; split; [discriminate | apply (recheck_true 0 0 _ 1); reflexivity]].
  apply (idle_goes_on _ (acquire 0 (Pred 1) (go 0 (LockW 1) (go 0 (Recheck 1) (go 0 (Loop 0) quiet))))) in R;
    [| exists 0%nat; split; [discriminate | apply (lock_wait 0 0 _ 1); reflexivity]].
  apply (idle_goes_on _ (go 0 (Block 1) (acquire 0 (Pred 1) (go 0 (LockW 1) (go 0 (Recheck 1) (go 0 (Loop 0) quiet)))))) in R;
    [| exists 0%nat; split; [discriminate | apply (pred_false 0 0 _ 1); reflexivity]].
  apply (idle_goes_on _ asleep) in R; [exact R |].
  exists 0%nat; split; [discriminate | apply (fall_asleep 0 0 _ 1); reflexivity].
Qed.

Lemma result_wakes_parser_witness :
  exists s', rtc (prompt 0) (mkWait 0 Graph.parserID asleep InIdle LoadWaker) s' /\ parser s' = Passed.
Proof.
  apply (result_wakes_parser 0); [| reflexivity].
  eapply reachable_step; [exact sleeping_reachable |]. apply step_prompt, notifier_moves, (subtracts sleeping). reflexivity.
Defined.
End ParserWait.
