(* ===== verification/FollowerRace.v ===== *)
(** Entering a follower while its event is being reached, one atomic operation of one
    thread per step: [add_follower] tests the event, pushes the follower and counts it
    up ([scheduler/event.tpp]), [notify] counts the event down and notifies the
    followers it finds.  [init_graph] and [delete_from_resources] take the lock of the
    user list around them ([task/property/graph.tpp]); [sg_pause] takes none
    ([task/property/graph.hpp], [dispatch/thread/DefaultWorker.tpp]). *)

From Stdlib Require Import ZArith Lia Bool.
From stdpp Require Import base list relations.
From S2P Require Import Prelude.

Open Scope Z_scope.
Open Scope word_scope.

Module FollowerRace.

(** What the worker that enters the follower does next: lock the user list; test the
    event in [add_dependency]; test it in [add_follower]; [followers.push];
    [follower->state++]; unlock; [pre_event.up]; and [get_pre_event().notify()]. *)
Inductive WorkerPc : Type := Lock | Ask | Test | Push | Increment | Unlock | Up | Notify | Done.

(** What the worker that notifies the event does next: [fetch_sub]; lock the user list,
    remove the task from it, unlock; notify the followers. *)
Inductive NotifierPc : Type := Subtract | Remove | Removed | NotifyFollowers | Notified.

Inductive Thread : Type := Worker | Notifier.

(** The event, and whether the follower is in its list; the pre-event of the follower, of
    which [others] counts come from other events; [ready] is how often it became ready;
    [found_at] is where the worker was when the notifier went over the followers. *)
Record Race : Type := mkRace {
  event_state : Z;
  followed : bool;
  pre_state : Z;
  others : nat;
  users_mutex : option Thread;
  worker : WorkerPc;
  notifier : NotifierPc;
  ready : nat;
  found_at : option WorkerPc
}.
Implicit Types s : Race.

#[export] Instance worker_pc_eq : EqDecision WorkerPc.
Proof. solve_decision. Defined.
#[export] Instance notifier_pc_eq : EqDecision NotifierPc.
Proof. solve_decision. Defined.
#[export] Instance thread_eq : EqDecision Thread.
Proof. solve_decision. Defined.
#[export] Instance race_eq : EqDecision Race.
Proof. solve_decision. Defined.

Definition with_worker (p : WorkerPc) s : Race :=
  mkRace (event_state s) (followed s) (pre_state s) (others s) (users_mutex s) p (notifier s) (ready s) (found_at s).
Definition with_notifier (p : NotifierPc) s : Race :=
  mkRace (event_state s) (followed s) (pre_state s) (others s) (users_mutex s) (worker s) p (ready s) (found_at s).
Definition with_mutex (m : option Thread) s : Race :=
  mkRace (event_state s) (followed s) (pre_state s) (others s) m (worker s) (notifier s) (ready s) (found_at s).
Definition with_pre (n : Z) s : Race :=
  mkRace (event_state s) (followed s) n (others s) (users_mutex s) (worker s) (notifier s) (ready s) (found_at s).

(** [notify] of the pre-event: its task is ready when one is left. *)
Definition lower s : Race :=
  let state := u16 (pre_state s - 1) in
  mkRace (event_state s) (followed s) state (others s) (users_mutex s) (worker s) (notifier s)
    (if state =? 1 then S (ready s) else ready s) (found_at s).

(** [notify_followers], after which the notifier is done. *)
Definition looked s : Race :=
  mkRace (event_state s) (followed s) (pre_state s) (others s) (users_mutex s) (worker s) Notified (ready s) (Some (worker s)).

(** What the follower is entered for: [init_graph] makes a new task follow the post-event
    of an earlier one, or the pre-event if that puts its work into a CUDA stream;
    [sg_pause] makes a task follow the event it yields for. *)
Inductive Use : Type := Dependency | CudaDependency | Pause.

Section Steps.
Context (use : Use).

(** [init_graph] unlocks the user list; the pause goes on. *)
Definition after_edge : WorkerPc := match use with Pause => Up | _ => Unlock end.

(** Only a post-event takes its task off the user lists. *)
Definition after_subtract : NotifierPc := match use with Dependency => Remove | _ => NotifyFollowers end.

Inductive worker_step : Race -> Race -> Prop :=
  | locks s : worker s = Lock -> users_mutex s = None -> worker_step s (with_mutex (Some Worker) (with_worker Ask s))
  | needs_no_edge s : worker s = Ask -> event_state s = 0 -> worker_step s (with_worker after_edge s)
  | needs_edge s : worker s = Ask -> event_state s <> 0 -> worker_step s (with_worker Test s)
  | finds_reached s : worker s = Test -> event_state s = 0 -> worker_step s (with_worker after_edge s)
  | finds_unreached s : worker s = Test -> event_state s <> 0 -> worker_step s (with_worker Push s)
  | pushes s : worker s = Push ->
      worker_step s (mkRace (event_state s) true (pre_state s) (others s) (users_mutex s) Increment (notifier s) (ready s) (found_at s))
  | increments s : worker s = Increment -> worker_step s (with_pre (u16 (pre_state s + 1)) (with_worker after_edge s))
  | unlocks s : worker s = Unlock -> worker_step s (with_mutex None (with_worker Notify s))
  | ups s : worker s = Up -> worker_step s (with_pre (u16 (pre_state s + 1)) (with_worker Notify s))
  | notifies s : worker s = Notify -> worker_step s (lower (with_worker Done s)).

Inductive notifier_step : Race -> Race -> Prop :=
  | subtracts s : notifier s = Subtract ->
      notifier_step s (mkRace (u16 (event_state s - 1)) (followed s) (pre_state s) (others s) (users_mutex s) (worker s)
        after_subtract (ready s) (found_at s))
  | removes s : notifier s = Remove -> users_mutex s = None ->
      notifier_step s (with_mutex (Some Notifier) (with_notifier Removed s))
  | releases s : notifier s = Removed -> notifier_step s (with_mutex None (with_notifier NotifyFollowers s))
  | notifies_followers s : notifier s = NotifyFollowers ->
      notifier_step s (if followed s then lower (looked s) else looked s).

(** Another event that precedes the task may be reached at any time. *)
Inductive step : Race -> Race -> Prop :=
  | step_worker s s' : worker_step s s' -> step s s'
  | step_notifier s s' : notifier_step s s' -> step s s'
  | step_other s n : others s = S n ->
      step s (lower (mkRace (event_state s) (followed s) (pre_state s) n (users_mutex s) (worker s) (notifier s) (ready s) (found_at s))).

End Steps.

Definition finished s : Prop := worker s = Done /\ notifier s = Notified.
#[export] Instance finished_dec s : Decision (finished s).
Proof. unfold finished. apply _. Defined.

(** ** A dependency of a new task *)

(** The event is due once; the pre-event of the new task, created with 1, was counted up
    once, and [others] predecessors were entered before, all told in 16 bits. *)
Definition init_dependency s : Prop :=
  exists n, Z.of_nat n < 60000 /\ s = mkRace 1 false (2 + Z.of_nat n) n None Lock Subtract 0 None.

(** The worker still holds back its task; the event still does. *)
Definition unsettled (p : WorkerPc) : Z := match p with Done => 0 | _ => 1 end.
Definition edge_open s : Z :=
  match worker s with
  | Lock | Ask | Test | Push | Increment => 0
  | _ => if followed s then match notifier s with Notified => 0 | _ => 1 end else 0
  end.

(** What the lock guarantees: the follower is counted up before the notifier sees it, and
    a worker that found the event unreached comes before the removal. *)
Record dep_inv s : Prop := {
  dp_bound : Z.of_nat (others s) < 60000;
  dp_state : event_state s = match notifier s with Subtract => 1 | _ => 0 end;
  dp_worker : users_mutex s = Some Worker <-> match worker s with Ask | Test | Push | Increment | Unlock => True | _ => False end;
  dp_notifier : users_mutex s = Some Notifier <-> notifier s = Removed;
  dp_up : worker s <> Up;
  dp_push : worker s = Push \/ worker s = Increment -> notifier s = Subtract \/ notifier s = Remove;
  dp_followed : match worker s with Lock | Ask | Test | Push => followed s = false | Increment => followed s = true | _ => True end;
  dp_reached : match worker s with Unlock | Notify | Done => followed s = false -> notifier s <> Subtract | _ => True end;
  dp_pre : pre_state s = 1 + unsettled (worker s) + edge_open s + Z.of_nat (others s);
  dp_ready : ready s = if pre_state s =? 1 then 1%nat else 0%nat
}.

Ltac race := cbn [with_worker with_notifier with_mutex with_pre lower looked event_state followed pre_state others users_mutex worker
  notifier ready found_at unsettled edge_open] in *.

Lemma dep_inv_init s : init_dependency s -> dep_inv s.
Proof.
  intros (n & Hn & ->). constructor; race; try (split; [discriminate | tauto]); try discriminate; try reflexivity; try lia.
  - split; discriminate.
  - intros [E | E]; discriminate.
  - replace (2 + Z.of_nat n =? 1) with false by lia. reflexivity.
Qed.

(** Goes through the places where the threads may be. *)
Ltac places :=
  repeat match goal with
  | |- context [match ?n with Subtract => _ | _ => _ end] => is_var n; destruct n
  | H : context [match ?n with Subtract => _ | _ => _ end] |- _ => is_var n; destruct n
  | H : context [if ?f then _ else _] |- _ => is_var f; destruct f
  | |- context [if ?f then _ else _] => is_var f; destruct f
  | H : context [(?a =? ?b)] |- _ => destruct (Z.eqb_spec a b)
  | |- context [(?a =? ?b)] => destruct (Z.eqb_spec a b)
  end.
Ltac close := subst; try congruence; try lia; try tauto; try intuition (congruence || discriminate).

Lemma dep_inv_worker s s' : dep_inv s -> worker_step Dependency s s' -> dep_inv s'.
Proof.
  intros [I1 I2 I3 I4 I5 I6 I7 I8 I9 I10] Hs.
  destruct Hs as [s Hw Hm | s Hw He | s Hw He | s Hw He | s Hw He | s Hw | s Hw | s Hw | s Hw | s Hw]; unfold after_edge in *;
    destruct s as [e f p o m w n r fa]; race; subst w;
    constructor; race; rewrite ?wrap_small by (places; close); places; close.
Qed.

Lemma dep_inv_notifier s s' : dep_inv s -> notifier_step Dependency s s' -> dep_inv s'.
Proof.
  intros [I1 I2 I3 I4 I5 I6 I7 I8 I9 I10] Hs.
  destruct Hs as [s Hn | s Hn Hm | s Hn | s Hn]; unfold after_subtract in *;
    destruct s as [e f p o m w n r fa]; race; subst n; [.. | destruct f];
    constructor; race; rewrite ?wrap_small by (destruct w; race; places; close); destruct w; race; places; close.
Qed.

Lemma dep_inv_step s s' : dep_inv s -> step Dependency s s' -> dep_inv s'.
Proof.
  intros HI Hs. destruct Hs as [s0 s1 Hw | s0 s1 Hn | s0 n Ho]; [eapply dep_inv_worker; eassumption | eapply dep_inv_notifier; eassumption |].
  destruct HI as [I1 I2 I3 I4 I5 I6 I7 I8 I9 I10]. destruct s0 as [e f p o m w nt r fa]; race; subst o.
  constructor; race; rewrite ?wrap_small by (destruct w; race; places; close); destruct w; race; places; close.
Qed.

Lemma dependency_inv s : reachable init_dependency (step Dependency) s -> dep_inv s.
Proof. apply reachable_invariant; [exact dep_inv_init | exact dep_inv_step]. Qed.

(** C11 (dependency_race): while [init_graph] enters a new task as a follower of an
    earlier one, the earlier one may be notified of its end at any point in between, and
    other predecessors too: the new task becomes ready once, and not before its worker
    is done with it, the event is reached, and no other predecessor is left; and once all
    this is so, it has become ready. There are fewer than 60000 other predecessors, so that
    the 16-bit counter has room. *)
Theorem dependency_never_lost s :
  reachable init_dependency (step Dependency) s ->
  (worker s = Done /\ notifier s = Notified /\ others s = 0%nat -> ready s = 1%nat /\ pre_state s = 1) /\
  (ready s <> 0%nat -> ready s = 1%nat /\ worker s = Done /\ event_state s = 0 /\ others s = 0%nat).
Proof.
  intros Hr. destruct (dependency_inv s Hr) as [I1 I2 I3 I4 I5 I6 I7 I8 I9 I10]. destruct s as [e f p o m w n r fa]; race.
  split; [intros (-> & -> & ->); race; destruct f; places; close |]. intros Hn. destruct w; race; places; close; repeat split; lia.
Qed.

(** ** A task that pauses *)

(** [sg_pause] has set the pre-event of the running task to 1, and no other event precedes
    it. *)
Definition init_pause s : Prop := s = mkRace 1 false 1 0 None Test Subtract 0 None.

(** How often the paused task has been made ready in the end, and what is left in its
    pre-event, by where the worker was when the notifier went over the followers, and
    whether the worker entered the task as a follower, which it does unless it found the
    event reached. *)
Definition wakes (p : WorkerPc) (entered : bool) : nat :=
  match p, entered with Push, _ => 0 | Up, true => 2 | _, _ => 1 end.
Definition left_over (p : WorkerPc) : Z := match p with Push => 2 | _ => 1 end.

(** The steps as a function, by which all interleavings can be gone through. *)
Definition worker_next (use : Use) s : list Race :=
  match worker s with
  | Lock => match users_mutex s with None => [with_mutex (Some Worker) (with_worker Ask s)] | Some _ => [] end
  | Ask => [if event_state s =? 0 then with_worker (after_edge use) s else with_worker Test s]
  | Test => [if event_state s =? 0 then with_worker (after_edge use) s else with_worker Push s]
  | Push => [mkRace (event_state s) true (pre_state s) (others s) (users_mutex s) Increment (notifier s) (ready s) (found_at s)]
  | Increment => [with_pre (u16 (pre_state s + 1)) (with_worker (after_edge use) s)]
  | Unlock => [with_mutex None (with_worker Notify s)]
  | Up => [with_pre (u16 (pre_state s + 1)) (with_worker Notify s)]
  | Notify => [lower (with_worker Done s)]
  | Done => []
  end.

Definition notifier_next (use : Use) s : list Race :=
  match notifier s with
  | Subtract => [mkRace (u16 (event_state s - 1)) (followed s) (pre_state s) (others s) (users_mutex s) (worker s)
      (after_subtract use) (ready s) (found_at s)]
  | Remove => match users_mutex s with None => [with_mutex (Some Notifier) (with_notifier Removed s)] | Some _ => [] end
  | Removed => [with_mutex None (with_notifier NotifyFollowers s)]
  | NotifyFollowers => [if followed s then lower (looked s) else looked s]
  | Notified => []
  end.

Definition other_next s : list Race :=
  match others s with
  | S n => [lower (mkRace (event_state s) (followed s) (pre_state s) n (users_mutex s) (worker s) (notifier s) (ready s) (found_at s))]
  | O => []
  end.

Definition next (use : Use) s : list Race := worker_next use s ++ notifier_next use s ++ other_next s.

Lemma worker_next_step use s s' : s' ∈ worker_next use s <-> worker_step use s s'.
Proof.
  unfold worker_next. split.
  - destruct (worker s) eqn:Ew; [destruct (users_mutex s) eqn:Em | destruct (Z.eqb_spec (event_state s) 0) | destruct (Z.eqb_spec (event_state s) 0) | ..];
      intros Hin; try (inversion Hin; fail); apply list_elem_of_singleton in Hin as ->;
      constructor; assumption.
  - intros [s0 Hw Hm | s0 Hw He | s0 Hw He | s0 Hw He | s0 Hw He | s0 Hw | s0 Hw | s0 Hw | s0 Hw | s0 Hw]; rewrite Hw; try rewrite Hm;
      try (apply Z.eqb_eq in He; rewrite He); try (apply Z.eqb_neq in He; rewrite He); left.
Qed.

Lemma notifier_next_step use s s' : s' ∈ notifier_next use s <-> notifier_step use s s'.
Proof.
  unfold notifier_next. split.
  - destruct (notifier s) eqn:En; [| destruct (users_mutex s) eqn:Em | ..];
      intros Hin; try (inversion Hin; fail); apply list_elem_of_singleton in Hin as ->;
      first [apply subtracts | apply removes | apply releases | apply notifies_followers]; assumption.
  - intros [s0 Hn | s0 Hn Hm | s0 Hn | s0 Hn]; rewrite Hn; try rewrite Hm; left.
Qed.

Lemma next_step use s s' : s' ∈ next use s <-> step use s s'.
Proof.
  unfold next. rewrite !elem_of_app, worker_next_step, notifier_next_step. split.
  - intros [Hw | [Hn | Ho]]; [apply step_worker, Hw | apply step_notifier, Hn |]. unfold other_next in Ho.
    destruct (others s) eqn:Eo; [inversion Ho |]. apply list_elem_of_singleton in Ho as ->. apply step_other, Eo.
  - intros [s0 s1 Hw | s0 s1 Hn | s0 n Ho]; [auto | auto |]. right. right. unfold other_next. rewrite Ho. left.
Qed.

(** All states within [k] steps, and whether they are all there are. *)
Fixpoint explore (use : Use) (k : nat) (l : list Race) : list Race :=
  match k with O => l | S k => explore use k (remove_dups (l ++ (l ≫= next use))) end.

Definition closed (use : Use) (l : list Race) : bool := forallb (fun s => forallb (fun s' => bool_decide (s' ∈ l)) (next use s)) l.

Lemma explore_mono use k : forall l s, s ∈ l -> s ∈ explore use k l.
Proof.
  induction k as [| k IH]; intros l s Hs; [exact Hs |]. apply IH, elem_of_remove_dups, elem_of_app. auto.
Qed.

Lemma explore_reachable use ini k : forall l,
  (forall s, s ∈ l -> reachable ini (step use) s) -> forall s, s ∈ explore use k l -> reachable ini (step use) s.
Proof.
  induction k as [| k IH]; intros l Hl s Hs; [auto |]. apply (IH _ ) in Hs; [exact Hs |]. clear s Hs. intros s Hs.
  apply elem_of_remove_dups, elem_of_app in Hs as [Hs | Hs]; [auto |]. apply list_elem_of_bind in Hs as (s0 & Hn & Hs0).
  eapply reachable_step; [exact (Hl s0 Hs0) | apply next_step, Hn].
Qed.

Lemma closed_reachable use s0 l : s0 ∈ l -> closed use l = true ->
  forall s, reachable (fun s => s = s0) (step use) s -> s ∈ l.
Proof.
  intros H0 Hc. refine (reachable_invariant _ _ (fun x => x ∈ l) _ _); [intros x ->; exact H0 |]. intros x y Hx Hs.
  unfold closed in Hc. rewrite forallb_forall in Hc. apply list_elem_of_In, Hc in Hx. rewrite forallb_forall in Hx.
  apply (bool_decide_eq_true _), Hx, list_elem_of_In, next_step, Hs.
Qed.

Definition pause_start : Race := mkRace 1 false 1 0 None Test Subtract 0 None.
Definition pause_states : list Race := explore Pause 9 [pause_start].

Lemma pause_states_spec s : s ∈ pause_states -> reachable init_pause (step Pause) s.
Proof.
  unfold pause_states. apply explore_reachable. intros x Hx. apply list_elem_of_singleton in Hx as ->.
  apply reachable_init. reflexivity.
Qed.

(** A state that was found by the exploration. *)
Lemma pause_example (P : Race -> Prop) `{forall s, Decision (P s)} :
  existsb (fun s => bool_decide (P s)) pause_states = true -> exists s, reachable init_pause (step Pause) s /\ P s.
Proof.
  intros E. apply existsb_exists in E as (s & Hs & Hd). apply bool_decide_eq_true in Hd. exists s.
  split; [apply pause_states_spec, list_elem_of_In, Hs | exact Hd].
Qed.

Definition outcome s : option (option WorkerPc * bool * nat * Z) :=
  match worker s, notifier s with Done, Notified => Some (found_at s, followed s, ready s, pre_state s) | _, _ => None end.

Definition outcomes : list (option WorkerPc * bool * nat * Z) :=
  (fun pe => (Some (fst pe), snd pe, wakes (fst pe) (snd pe), left_over (fst pe))) <$>
    [(Test, false); (Push, true); (Increment, true); (Up, true); (Up, false); (Notify, true); (Notify, false);
     (Done, true); (Done, false)].

Lemma pause_explored : closed Pause pause_states = true /\
  forallb (fun s => match outcome s with Some o => bool_decide (o ∈ outcomes) | None => true end) pause_states = true /\
  existsb (fun s => bool_decide (finished s /\ event_state s = 0 /\ ready s = 0%nat)) pause_states = true /\
  existsb (fun s => bool_decide (finished s /\ event_state s = 0 /\ ready s = 2%nat)) pause_states = true.
Proof. vm_compute. auto. Qed.

(** C12 (pause_race): a task yields for an event which is notified meanwhile. In every
    interleaving the notifier goes over the followers of the event while the worker that
    pauses the task is somewhere; in the end the task has been made ready once, except that
    it never was, and never will be, if the worker was between the test and the push of
    [add_follower], and twice if it was between the increment and [pre_event.up]; and both
    do happen. *)
Theorem pause_wakes :
  (forall s, reachable init_pause (step Pause) s -> finished s ->
     exists p, found_at s = Some p /\ ready s = wakes p (followed s) /\ pre_state s = left_over p) /\
  (exists s, reachable init_pause (step Pause) s /\ finished s /\ event_state s = 0 /\ ready s = 0%nat) /\
  (exists s, reachable init_pause (step Pause) s /\ finished s /\ event_state s = 0 /\ ready s = 2%nat).
Proof.
  destruct pause_explored as (Hc & Hall & Hlost & Htwice). rewrite forallb_forall in Hall. split.
  - intros s Hr [Hw Hn]. assert (Hin : s ∈ pause_states).
    { apply (closed_reachable Pause pause_start); [apply explore_mono; left | exact Hc | exact Hr]. }
    apply list_elem_of_In, Hall in Hin. unfold outcome in Hin. rewrite Hw, Hn in Hin. apply bool_decide_eq_true in Hin.
    apply list_elem_of_fmap in Hin as ([p e] & E & _). cbn [fst snd] in E. injection E as -> -> -> ->. eauto.
  - split; [exact (pause_example _ Hlost) | exact (pause_example _ Htwice)].
Qed.

Lemma pause_wakes_witness :
  exists s, reachable init_pause (step Pause) s /\ finished s /\ found_at s = Some Push /\ pre_state s = 2.
Proof.
  destruct pause_wakes as (Hall & (s & Hr & Hf & _ & E0) & _). destruct (Hall s Hr Hf) as (p & Ep & Er & El).
  exists s. split; [exact Hr |]. split; [exact Hf |]. rewrite E0 in Er.
  destruct p, (followed s); try discriminate Er; split; assumption.
Defined.

(** ** A dependency on a pre-event *)

(** The notification of a pre-event takes no lock: the edge of a task that follows one may be
    lost, and the task is never ready. *)
Definition cuda_states : list Race := explore CudaDependency 10 [mkRace 1 false 2 0 None Lock Subtract 0 None].

Example cuda_dependency_lost :
  existsb (fun s => bool_decide (finished s /\ event_state s = 0 /\ others s = 0%nat /\ ready s = 0%nat)) cuda_states = true.
Proof. vm_compute. reflexivity. Qed.

(** ** A dependency while the event is reached *)

(** The worker has entered the edge and released the lock when the notifier gets it. *)
Definition dependency_start : Race := mkRace 1 false 3 1 None Lock Subtract 0 None.

Definition dependency_states : list Race := explore Dependency 13 [dependency_start].

Lemma dependency_states_spec s : s ∈ dependency_states -> reachable init_dependency (step Dependency) s.
Proof.
  unfold dependency_states. apply explore_reachable. intros x Hx. apply list_elem_of_singleton in Hx as ->.
  apply reachable_init. exists 1%nat. split; [lia | reflexivity].
Qed.

Definition late_notifier s : Prop := finished s /\ others s = 0%nat /\ found_at s = Some Notify.
#[export] Instance late_notifier_dec s : Decision (late_notifier s).
Proof. unfold late_notifier. apply _. Defined.

Lemma late_notifier_found : existsb (fun s => bool_decide (late_notifier s)) dependency_states = true.
Proof. vm_compute. reflexivity. Qed.

Lemma dependency_never_lost_witness :
  exists s, reachable init_dependency (step Dependency) s /\ late_notifier s /\ ready s = 1%nat.
Proof.
  destruct (proj1 (existsb_exists _ _) late_notifier_found) as (s & Hs & Hd). apply bool_decide_eq_true in Hd.
  pose proof (dependency_states_spec s (proj2 (list_elem_of_In _ _) Hs)) as Hr. exists s. split; [exact Hr |].
  split; [exact Hd |]. destruct Hd as ([Hw Hn] & Ho & _). apply (proj1 (dependency_never_lost s Hr)). split; [exact Hw | split; [exact Hn | exact Ho]].
Defined.
End FollowerRace.
