(* ===== verification/TaskBase.v ===== *)
(** Calling the function of a task ([redGrapes/task/task_base.hpp]) that waits for
    events in between ([yield_impl] of [redGrapes/globalSpace.hpp]): with stack
    switching a call runs on from where the last one stopped; without it the
    function is called from its beginning every time. *)

From Stdlib Require Import ZArith Lia Bool.
From stdpp Require Import base list.
From S2P Require Import Prelude.

Module TaskBase.

Section TaskBase.
Context {A E : Type}.

(** The function of a task, as far as the runtime sees it: what it does, and the
    calls of [yield_impl] in between. *)
Inductive Body : Type :=
  | Finished
  | Act (a : A) (k : Body)
  | YieldImpl (event : E) (k : Body).

Fixpoint actions (b : Body) : list A :=
  match b with Finished => [] | Act a k => a :: actions k | YieldImpl _ k => actions k end.

Fixpoint waits (b : Body) : list E :=
  match b with Finished => [] | Act _ k => waits k | YieldImpl e k => e :: waits k end.

(** [resume_cont]: not there yet, the rest of the function, or spent. *)
Inductive Continuation : Type := NoCont | Suspended (k : Body) | Spent.

Record TaskBase : Type := mkTask {
  enable_stack_switching : bool;
  event : option E;
  resume_cont : Continuation
}.

Definition new_task : TaskBase := mkTask false None NoCont.
Definition switching (t : TaskBase) : TaskBase := mkTask true (event t) (resume_cont t).

(** Whether an event is reached when one looks: looks are numbered. *)
Context (reached : nat -> E -> bool).

(** With stack switching: [yield] leaves to the caller of the task, and the loop
    of [yield_impl] looks again when the task is resumed. The result is what was
    done, the next look, and where the function was left. *)
Fixpoint run_switching (now : nat) (b : Body) : list A * nat * option (E * Body) :=
  match b with
  | Finished => ([], now, None)
  | Act a k => let '(tr, n, s) := run_switching now k in (a :: tr, n, s)
  | YieldImpl e k => if reached now e then run_switching (S now) k else ([], S now, Some (e, YieldImpl e k))
  end.

(** Without: [yield] only records the event, and the loop spins. *)
Fixpoint spin (fuel now : nat) (e : E) (recorded : option E) : res (nat * option E) :=
  match fuel with
  | O => Err OutOfFuel
  | S fuel => if reached now e then Ok (S now, recorded) else spin fuel (S now) e (Some e)
  end.

Fixpoint run_direct (fuel now : nat) (b : Body) (recorded : option E) : res (list A * nat * option E) :=
  match b with
  | Finished => Ok ([], now, recorded)
  | Act a k => '(tr, n, r) ← run_direct fuel now k recorded; Ok (a :: tr, n, r)
  | YieldImpl e k => '(n, r) ← spin fuel now e recorded; run_direct fuel n k r
  end.

(** [TaskBase::operator()]: what is done, the next look, and the task; the event
    it returns is the [event] of the task. *)
Definition call (fuel now : nat) (run : Body) (t : TaskBase) : res (list A * nat * TaskBase) :=
  if enable_stack_switching t then
    b ← (match resume_cont t with NoCont => Ok run | Suspended k => Ok k | Spent => Err Undefined end);
    let '(tr, n, s) := run_switching now b in
    Ok (tr, n, match s with
               | None => mkTask true None Spent
               | Some (e, k) => mkTask true (Some e) (Suspended k)
               end)
  else
    '(tr, n, r) ← run_direct fuel now run (event t);
    Ok (tr, n, mkTask false r (resume_cont t)).

(** Calls of a worker: the task is called again, at the looks in [starts], as long
    as it returns an event. *)
Fixpoint calls (fuel : nat) (run : Body) (starts : list nat) (t : TaskBase) : res (list A * TaskBase) :=
  match starts with
  | [] => Ok ([], t)
  | now :: starts =>
      '(tr, _, t) ← call fuel now run t;
      match event t with
      | None => Ok (tr, t)
      | Some _ => '(tr', t) ← calls fuel run starts t; Ok (tr ++ tr', t)
      end
  end.

(** A paused task is called when the event it returned is reached. *)
Fixpoint timely (fuel : nat) (run : Body) (starts : list nat) (t : TaskBase) : Prop :=
  match starts with
  | [] => True
  | now :: starts =>
      match event t with Some e => reached now e = true | None => True end /\
      forall tr n t', call fuel now run t = Ok (tr, n, t') -> event t' <> None -> timely fuel run starts t'
  end.
End TaskBase.

Arguments Body : clear implicits.
Arguments Continuation : clear implicits.
Arguments TaskBase : clear implicits.

Section Facts.
Context {A E : Type} (reached : nat -> E -> bool).

Implicit Types (b run : Body A E) (t : TaskBase A E).

(** ** With stack switching *)

(** Where the function is left is in front of the wait for the event it returns. *)
Lemma run_switching_split b : forall now tr n s, run_switching reached now b = (tr, n, s) ->
  (now <= n)%nat /\
  match s with
  | None => actions b = tr
  | Some (e, k) => actions b = tr ++ actions k /\ (exists k', k = YieldImpl e k') /\
      (length (waits k) <= length (waits b))%nat /\ reached (n - 1) e = false
  end.
Proof.
  induction b as [| a b IH | e b IH]; intros now tr n s E0; simpl in E0.
  - injection E0 as <- <- <-. split; [lia | reflexivity].
  - destruct (run_switching reached now b) as [[tr0 n0] s0] eqn:Er. injection E0 as <- <- <-.
    destruct (IH now tr0 n0 s0 Er) as [Hn Hs]. split; [exact Hn |]. destruct s0 as [[e k] |]; simpl.
    + destruct Hs as (-> & Hk). split; [reflexivity | exact Hk].
    + rewrite Hs. reflexivity.
  - destruct (reached now e) eqn:Ee.
    + destruct (IH (S now) tr n s E0) as [Hn Hs]. split; [lia |]. destruct s as [[e' k] |]; simpl; [| exact Hs].
      destruct Hs as (Ha & Hk & Hl & Hr). split; [exact Ha |]. split; [exact Hk |]. split; [lia | exact Hr].
    + injection E0 as <- <- <-. split; [lia |]. split; [reflexivity |]. split; [eauto |]. split; [simpl; lia |].
      replace (S now - 1)%nat with now by lia. exact Ee.
Qed.

(** A resumed task gets past the wait it was suspended at. *)
Lemma run_switching_resumed e (k : Body A E) now tr n e' k' :
  reached now e = true -> run_switching reached now (YieldImpl e k) = (tr, n, Some (e', k')) ->
  (length (waits k') <= length (waits k))%nat.
Proof.
  intros Er E0. simpl in E0. rewrite Er in E0. destruct (run_switching_split k _ _ _ _ E0) as (_ & _ & _ & Hl & _). exact Hl.
Qed.

(** What is left to do of a task. *)
Definition rest run t : Body A E :=
  match resume_cont t with NoCont => run | Suspended k => k | Spent => Finished end.

Definition waits_at run t : Prop :=
  match event t with
  | None => resume_cont t = NoCont
  | Some e => exists k, resume_cont t = Suspended (YieldImpl e k)
  end.

Lemma calls_switching fuel run : forall starts t,
  enable_stack_switching t = true -> waits_at run t -> timely reached fuel run starts t ->
  exists tr t', calls reached fuel run starts t = Ok (tr, t') /\ enable_stack_switching t' = true /\
    actions (rest run t) = tr ++ actions (rest run t') /\
    ((length (waits (rest run t)) < length starts + (match event t with Some _ => 1 | None => 0 end))%nat -> event t' = None /\ resume_cont t' = Spent).
Proof.
  induction starts as [| now starts IH]; intros t Hsw Hat Htime.
  - exists [], t. split; [reflexivity |]. split; [exact Hsw |]. split; [reflexivity |]. intros Hlt. exfalso.
    unfold waits_at, rest in *. destruct (event t) as [e |]; [| simpl in Hlt; lia].
    destruct Hat as [k Hk]. rewrite Hk in Hlt. simpl in Hlt. lia.
  - destruct Htime as [Hnow Hnext]. cbn [calls]. unfold call in *. rewrite Hsw in *.
    assert (Eb : (match resume_cont t with NoCont => Ok run | Suspended k => Ok k | Spent => Err Undefined end) = Ok (rest run t)).
    { unfold waits_at, rest in *. destruct (event t); [destruct Hat as [k ->] | rewrite Hat]; reflexivity. }
    rewrite Eb in *. cbn [mbind res_bind] in *.
    destruct (run_switching reached now (rest run t)) as [[tr n] s] eqn:Er.
    destruct (run_switching_split _ _ _ _ _ Er) as [_ Hs]. cbn [mbind res_bind]. destruct s as [[e k] |].
    + destruct Hs as (Ha & (k' & ->) & Hl & _). cbn [event].
      destruct (IH (mkTask true (Some e) (Suspended (YieldImpl e k')))) as (tr' & t' & E' & Hsw' & Ha' & Hfin).
      * reflexivity.
      * exists k'. reflexivity.
      * apply (Hnext tr n); [reflexivity | discriminate].
      * rewrite E'. cbn [mbind res_bind]. exists (tr ++ tr'), t'. split; [reflexivity |]. split; [exact Hsw' |].
        split; [rewrite Ha; change (rest run (mkTask true (Some e) (Suspended (YieldImpl e k')))) with (YieldImpl e k') in Ha';
          rewrite Ha', app_assoc; reflexivity |]. intros Hlt. apply Hfin.
        change (rest run (mkTask true (Some e) (Suspended (YieldImpl e k')))) with (YieldImpl e k').
        cbn [event]. simpl length in Hlt. destruct (event t) as [e0 |] eqn:Ee.
        -- unfold waits_at in Hat. rewrite Ee in Hat. destruct Hat as [k0 Hk0].
           assert (Erest : rest run t = YieldImpl e0 k0) by (unfold rest; rewrite Hk0; reflexivity).
           rewrite Erest in *. pose proof (run_switching_resumed _ _ _ _ _ _ _ Hnow Er). simpl in *. lia.
        -- lia.
    + exists tr, (mkTask true None Spent). split; [reflexivity |]. split; [reflexivity |].
      split; [rewrite app_nil_r; exact Hs |]. intros _. split; reflexivity.
Qed.

(** C17 (yields): with stack switching, a task whose function waits for [n] events
    is called at most [n + 1] times, each time when the event it returned is
    reached; what it does is done once, in order, and it never does anything twice
    on the way; after the last call it returns no event. *)
Theorem switching_runs_once fuel run starts t :
  t = switching new_task -> timely reached fuel run starts t ->
  exists tr t', calls reached fuel run starts t = Ok (tr, t') /\
    actions run = tr ++ actions (rest run t') /\
    ((length (waits run) < length starts)%nat -> event t' = None /\ tr = actions run).
Proof.
  intros -> Htime. destruct (calls_switching fuel run starts (switching new_task)) as (tr & t' & E0 & _ & Ha & Hfin);
    [reflexivity | reflexivity | exact Htime |].
  exists tr, t'. split; [exact E0 |]. split; [exact Ha |]. intros Hlt.
  destruct Hfin as [He Hs]; [simpl; unfold rest; simpl; lia |]. split; [exact He |].
  simpl in Ha. unfold rest in Ha at 1. simpl in Ha. rewrite Ha. unfold rest. rewrite Hs. rewrite app_nil_r. reflexivity.
Qed.

(** ** Without *)

(** Every event is reached within [fuel] looks. *)
Definition soon (fuel : nat) : Prop := forall now e, exists k, (k < fuel)%nat /\ reached (now + k) e = true.

Lemma spin_ends e k : forall fuel now r, (k < fuel)%nat -> reached (now + k) e = true ->
  exists n r', spin reached fuel now e r = Ok (n, r') /\ (r' = r \/ r' = Some e) /\ (reached now e = false -> r' = Some e).
Proof.
  induction k as [| k IH]; intros fuel now r Hk Hr; (destruct fuel as [| fuel]; [lia |]); cbn [spin].
  - rewrite Nat.add_0_r in Hr. rewrite Hr. exists (S now), r. split; [reflexivity |]. split; [auto | discriminate].
  - destruct (reached now e) eqn:E0.
    + exists (S now), r. split; [reflexivity |]. split; [auto | discriminate].
    + destruct (IH fuel (S now) (Some e)) as (n & r' & E1 & Hr' & _); [lia | rewrite <- Hr; f_equal; lia |].
      exists n, r'. split; [exact E1 |]. destruct Hr' as [-> | ->]; auto.
Qed.

Lemma run_direct_does fuel b : soon fuel -> forall now r,
  exists n r', run_direct reached fuel now b r = Ok (actions b, n, r') /\ (r <> None -> r' <> None).
Proof.
  intros Hsoon. induction b as [| a b IH | e b IH]; intros now r; cbn [run_direct actions].
  - eauto.
  - destruct (IH now r) as (n & r' & -> & Hr). cbn [mbind res_bind]. eauto.
  - destruct (Hsoon now e) as (k & Hk & Hr). destruct (spin_ends e k fuel now r Hk Hr) as (n & r1 & -> & H1 & _).
    cbn [mbind res_bind]. destruct (IH n r1) as (n' & r' & -> & H2). exists n', r'. split; [reflexivity |].
    intros Hne. apply H2. destruct H1 as [-> | ->]; congruence.
Qed.

(** The function finds every event reached. *)
Fixpoint unhindered (now : nat) b : bool :=
  match b with
  | Finished => true
  | Act _ k => unhindered now k
  | YieldImpl e k => reached now e && unhindered (S now) k
  end.

Lemma run_direct_unhindered fuel b r : soon fuel -> forall now, unhindered now b = true ->
  exists n, run_direct reached fuel now b r = Ok (actions b, n, r).
Proof.
  intros Hsoon. induction b as [| a b IH | e b IH]; intros now Hu; cbn [run_direct actions unhindered] in *.
  - eauto.
  - destruct (IH now Hu) as [n ->]. cbn [mbind res_bind]. eauto.
  - apply andb_true_iff in Hu as [Hr Hu]. destruct (Hsoon now e) as (k & Hk & _). destruct fuel as [| fuel]; [lia |].
    cbn [spin]. rewrite Hr. cbn [mbind res_bind].
    apply IH, Hu.
Qed.

Lemma run_direct_hindered fuel b : soon fuel -> forall now r, unhindered now b = false ->
  exists n e, run_direct reached fuel now b r = Ok (actions b, n, Some e).
Proof.
  intros Hsoon. induction b as [| a b IH | e b IH]; intros now r Hu; cbn [run_direct actions unhindered] in *.
  - discriminate.
  - destruct (IH now r Hu) as (n & e & ->). cbn [mbind res_bind]. eauto.
  - destruct (reached now e) eqn:Er.
    + destruct (Hsoon now e) as (k & Hk & _). destruct fuel as [| fuel]; [lia |]. cbn [spin]. rewrite Er. cbn [mbind res_bind].
      apply IH. exact Hu.
    + destruct (Hsoon now e) as (k & Hk & Hr). destruct (spin_ends e k fuel now r Hk Hr) as (n & r1 & -> & _ & H1).
      cbn [mbind res_bind]. rewrite (H1 Er). destruct (run_direct_does fuel b Hsoon n (Some e)) as (n' & r' & -> & Hr').
      destruct r' as [e' |]; [eauto | exfalso; apply Hr'; congruence].
Qed.

(** Once an event is recorded every call repeats everything and returns an event. *)
Lemma calls_repeat fuel run : soon fuel -> forall starts t, enable_stack_switching t = false -> event t <> None ->
  exists t', calls reached fuel run starts t = Ok (concat (replicate (length starts) (actions run)), t') /\ event t' <> None.
Proof.
  intros Hsoon. induction starts as [| now starts IH]; intros t Hsw He; [exists t; auto |]. cbn [calls]. unfold call.
  rewrite Hsw. destruct (run_direct_does fuel run Hsoon now (event t)) as (n & r & -> & Hr). cbn [mbind res_bind event].
  specialize (Hr He). destruct r as [e |]; [| contradiction].
  destruct (IH (mkTask false (Some e) (resume_cont t)) eq_refl ltac:(discriminate)) as (t' & -> & He').
  cbn [mbind res_bind length replicate concat]. eauto.
Qed.

(** (no_switching): without stack switching, a task whose function finds all the
    events it waits for reached is called once, does everything once and is
    finished. If it ever has to wait, the event it recorded is never cleared: it
    waits in the call, but every call returns an event, so that the worker pauses
    and calls it again, and every call does everything once more. *)
Theorem no_switching_repeats fuel run now starts :
  soon fuel ->
  (unhindered now run = true ->
     exists t', calls reached fuel run (now :: starts) new_task = Ok (actions run, t') /\ event t' = None) /\
  (unhindered now run = false ->
     exists t', calls reached fuel run (now :: starts) new_task
       = Ok (concat (replicate (S (length starts)) (actions run)), t') /\ event t' <> None).
Proof.
  intros Hsoon. split; intros Hu; cbn [calls]; unfold call; cbn [enable_stack_switching new_task event resume_cont].
  - destruct (run_direct_unhindered fuel run None Hsoon now Hu) as [n ->]. cbn [mbind res_bind event]. eauto.
  - destruct (run_direct_hindered fuel run Hsoon now None Hu) as (n & e & ->). cbn [mbind res_bind event].
    destruct (calls_repeat fuel run Hsoon starts (mkTask false (Some e) NoCont) eq_refl ltac:(discriminate)) as (t' & -> & He').
    cbn [mbind res_bind length replicate concat]. eauto.
Qed.
End Facts.

(** ** A concrete function *)

(** It writes 1, waits for an event that is reached at the third look, and writes 2. *)
Definition waiting : Body nat nat := Act 1%nat (YieldImpl 0%nat (Act 2%nat Finished)).
Definition third_look (now _ : nat) : bool := (3 <=? now)%nat.

Lemma switching_runs_once_witness :
  exists t', calls third_look 0 waiting [0; 5]%nat (switching new_task) = Ok ([1; 2]%nat, t') /\ event t' = None.
Proof.
  destruct (switching_runs_once third_look 0 waiting [0; 5]%nat (switching new_task) eq_refl) as (tr & t' & E & _ & Hfin).
  - split; [exact I |]. intros tr n t' E He. injection E as <- <- <-. split; [reflexivity |].
    intros tr n t' E He'. injection E as <- <- <-. exfalso. apply He'. reflexivity.
  - destruct Hfin as [He ->]; [simpl; lia |]. exists t'. split; [exact E | exact He].
Defined.

Lemma third_look_soon : soon third_look 4.
Proof. intros now e. exists 3%nat. split; [lia |]. apply Nat.leb_le. lia. Qed.

Lemma no_switching_repeats_witness :
  exists t', calls third_look 4 waiting [0; 5; 9]%nat new_task = Ok ([1; 2; 1; 2; 1; 2]%nat, t') /\ event t' <> None.
Proof.
  destruct (no_switching_repeats third_look 4 waiting 0 [5; 9]%nat third_look_soon) as [_ Hrep].
  exact (Hrep eq_refl).
Defined.
End TaskBase.
