(* ===== verification/RequestPool.v ===== *)
(** The MPI requests that tasks wait for, [RequestPool] of
    [redGrapes/dispatch/mpi/request_pool.hpp].  The MPI library and the
    notification of an event are parameters. *)

From Stdlib Require Import ZArith Lia Bool.
From stdpp Require Import base list gmap.
From S2P Require Import Prelude.

Module RequestPool.

Section RequestPool.
(** [MPI_Request], [MPI_Status], the events, and the store [notify] acts on. *)
Context {Request Status Event World : Type} (notify : Event -> World -> res World).

(** [MPI_Testsome]: the positions of the finished requests and their statuses. *)
Context (testsome : list Request -> list nat * list Status).

(** Statuses live in shared cells; the vectors are parallel. *)
Record RequestPool : Type := mkPool {
  requests : list Request;
  events : list Event;
  statuses : list nat
}.

Record State : Type := mkState {
  pool : RequestPool;
  cells : gmap nat Status;
  world : World
}.

(** [v.erase(v.begin() + i)] *)
Definition erase_at {A} (i : nat) (l : list A) : list A := take i l ++ drop (S i) l.

Definition shift (idx j : nat) : nat := if (idx <? j)%nat then (j - 1)%nat else j.

(** One turn of the loop over the finished requests. *)
Definition finish (idx : nat) (st : Status) (s : State) : res State :=
  cell ← deref (statuses (pool s) !! idx);
  let cells := <[cell := st]> (cells s) in
  e ← deref (events (pool s) !! idx);
  w ← notify e (world s);
  _ ← deref (requests (pool s) !! idx);
  Ok (mkState (mkPool (erase_at idx (requests (pool s))) (erase_at idx (events (pool s)))
                (erase_at idx (statuses (pool s)))) cells w).

(** The loop; [indices] are those not yet visited, adjusted by every turn. *)
Fixpoint poll_loop (indices : list nat) (out_statuses : list Status) (s : State) : res State :=
  match indices with
  | [] => Ok s
  | idx :: indices =>
      match out_statuses with
      | [] => Err Undefined
      | st :: out_statuses =>
          s ← finish idx st s;
          poll_loop (shift idx <$> indices) out_statuses s
      end
  end.

Definition poll (s : State) : res State :=
  match requests (pool s) with
  | [] => Ok s
  | _ => let '(indices, out_statuses) := testsome (requests (pool s)) in poll_loop indices out_statuses s
  end.

(** The part of [get_status] before the task yields. *)
Definition add_request (r : Request) (e : Event) (cell : nat) (s : State) : State :=
  mkState (mkPool (requests (pool s) ++ [r]) (events (pool s) ++ [e]) (statuses (pool s) ++ [cell]))
    (cells s) (world s).

(** ** What is left of a vector *)

(** The elements whose positions, counted from [k], are not among [js]. *)
Fixpoint without {A} (js : list nat) (k : nat) (l : list A) : list A :=
  match l with
  | [] => []
  | x :: l => if bool_decide (k ∈ js) then without js (S k) l else x :: without js (S k) l
  end.

Lemma without_ext {A} (l : list A) : forall js js' k k',
  (forall i, (i < length l)%nat -> (k + i)%nat ∈ js <-> (k' + i)%nat ∈ js') -> without js k l = without js' k' l.
Proof.
  induction l as [| x l IH]; intros js js' k k' H; [reflexivity |]. simpl.
  assert (Hh : k ∈ js <-> k' ∈ js').
  { specialize (H 0%nat). rewrite !Nat.add_0_r in H. apply H. simpl. lia. }
  assert (E : without js (S k) l = without js' (S k') l).
  { apply IH. intros i Hi. specialize (H (S i)). rewrite <- !Nat.add_succ_comm in H. apply H. simpl. lia. }
  rewrite E. do 2 case_bool_decide; tauto || reflexivity.
Qed.

Lemma without_none {A} (l : list A) k : without [] k l = l.
Proof.
  revert k. induction l as [| x l IH]; intros k; [reflexivity |]. cbn [without].
  rewrite bool_decide_false by (intros Hin; inversion Hin). rewrite IH. reflexivity.
Qed.

Lemma without_app {A} js k (l1 l2 : list A) :
  without js k (l1 ++ l2) = without js k l1 ++ without js (k + length l1) l2.
Proof.
  revert k. induction l1 as [| x l1 IH]; intros k; simpl; [rewrite Nat.add_0_r; reflexivity |].
  rewrite IH, <- Nat.add_succ_comm. destruct (bool_decide (k ∈ js)); reflexivity.
Qed.

(** Erasing a position and adjusting the others is leaving them all out. *)
Lemma without_erase {A} (idx : nat) (js : list nat) (l : list A) :
  (idx < length l)%nat -> (idx ∉ js) ->
  without (shift idx <$> js) 0 (erase_at idx l) = without (idx :: js) 0 l.
Proof.
  intros Hi Hn. unfold erase_at.
  assert (El : length (take idx l) = idx) by (rewrite length_take; lia).
  destruct (lookup_lt_is_Some_2 l idx Hi) as [x Hx].
  assert (Es : l = take idx l ++ x :: drop (S idx) l) by (symmetry; apply take_drop_middle, Hx).
  rewrite Es at 3. rewrite !without_app, El. cbn [without app plus]. rewrite bool_decide_true by left. f_equal.
  - apply without_ext. intros i Hlt. rewrite El in Hlt. simpl. rewrite list_elem_of_fmap, elem_of_cons. split.
    + intros (j & E & Hj). right. unfold shift in E. destruct (Nat.ltb_spec idx j); [lia | congruence].
    + intros [E | Hj]; [lia |]. exists i. split; [| exact Hj]. unfold shift.
      destruct (Nat.ltb_spec idx i); lia.
  - apply without_ext. intros i Hlt. rewrite list_elem_of_fmap, elem_of_cons. split.
    + intros (j & E & Hj). right. unfold shift in E.
      destruct (Nat.ltb_spec idx j) as [|Hle].
      * replace (S idx + i)%nat with j by lia. exact Hj.
      * assert (j = idx) by lia. congruence.
    + intros [E | Hj]; [lia |]. exists (S idx + i)%nat. split; [| exact Hj]. unfold shift.
      destruct (Nat.ltb_spec idx (S idx + i)); lia.
Qed.

Lemma lookup_erase {A} idx j (l : list A) : (idx < length l)%nat -> j <> idx -> erase_at idx l !! shift idx j = l !! j.
Proof.
  intros Hi Hne. unfold erase_at, shift. assert (El : length (take idx l) = idx) by (rewrite length_take; lia).
  destruct (Nat.ltb_spec idx j) as [Hlt | Hge].
  - rewrite lookup_app_r, El, lookup_drop by lia. f_equal. lia.
  - rewrite lookup_app_l, lookup_take_lt by lia. reflexivity.
Qed.

Lemma length_erase {A} idx (l : list A) : (idx < length l)%nat -> length (erase_at idx l) = (length l - 1)%nat.
Proof. intros Hi. unfold erase_at. rewrite length_app, length_take, length_drop. lia. Qed.

Lemma shift_inj idx a b : a <> idx -> b <> idx -> shift idx a = shift idx b -> a = b.
Proof. unfold shift. destruct (Nat.ltb_spec idx a), (Nat.ltb_spec idx b); lia. Qed.

(** ** Polling *)

(** The vectors have one length and every request has its own status cell. *)
Record aligned (p : RequestPool) : Prop := {
  al_events : length (events p) = length (requests p);
  al_statuses : length (statuses p) = length (requests p);
  al_cells : NoDup (statuses p)
}.

(** Notifying events one after the other. *)
Fixpoint notify_each (es : list Event) (w : World) : res World :=
  match es with [] => Ok w | e :: es => w ← notify e w; notify_each es w end.

Definition all_at {A} (l : list A) (js : list nat) : list A := omap (fun j => l !! j) js.

Lemma all_at_erase {A} idx js (l : list A) : (idx < length l)%nat -> (idx ∉ js) ->
  all_at (erase_at idx l) (shift idx <$> js) = all_at l js.
Proof.
  intros Hi. induction js as [| j js IH]; intros Hn; [reflexivity |].
  assert (IH' : all_at (erase_at idx l) (shift idx <$> js) = all_at l js)
    by (apply IH; intros Hin; apply Hn; right; exact Hin).
  rewrite fmap_cons. unfold all_at in *. cbn [omap list_omap].
  rewrite lookup_erase by (try assumption; intros ->; apply Hn; left).
  rewrite <- IH'. reflexivity.
Qed.

Lemma NoDup_erase {A} idx (l : list A) : NoDup l -> NoDup (erase_at idx l).
Proof.
  intros Hl. unfold erase_at. eapply sublist_NoDup; [exact Hl |].
  rewrite <- (take_drop idx l) at 3. apply sublist_app; [reflexivity |].
  rewrite <- Nat.add_1_r, <- drop_drop. apply sublist_drop.
Qed.

(** What the loop does over the positions [indices]. *)
Definition polled (indices : list nat) (out : list Status) (s : State) (w' : World) (r : res State) : Prop :=
  exists s', r = Ok s' /\ world s' = w' /\ aligned (pool s') /\
    requests (pool s') = without indices 0 (requests (pool s)) /\
    events (pool s') = without indices 0 (events (pool s)) /\
    statuses (pool s') = without indices 0 (statuses (pool s)) /\
    (forall i j st c, indices !! i = Some j -> out !! i = Some st -> statuses (pool s) !! j = Some c ->
       cells s' !! c = Some st) /\
    (forall c, (forall j, j ∈ indices -> statuses (pool s) !! j <> Some c) -> cells s' !! c = cells s !! c).

Lemma shifted_fit idx (js : list nat) n :
  NoDup js -> (idx ∉ js) -> (idx < n)%nat -> (forall j, j ∈ js -> (j < n)%nat) ->
  NoDup (shift idx <$> js) /\ forall j, j ∈ shift idx <$> js -> (j < n - 1)%nat.
Proof.
  intros Hnd Hn Hi Hlt. split.
  - induction Hnd as [| j js Hj Hnd IH]; [constructor |]. rewrite fmap_cons. constructor.
    + intros Hin. apply list_elem_of_fmap in Hin as (j' & E & Hj').
      assert (j = j') as <-; [| contradiction].
      apply (shift_inj idx); [intros ->; apply Hn; left | intros ->; apply Hn; right; exact Hj' | exact E].
    + apply IH; [intros Hin; apply Hn; right; exact Hin | intros j' Hj'; apply Hlt; right; exact Hj'].
  - intros j Hj. apply list_elem_of_fmap in Hj as (j' & -> & Hj'). specialize (Hlt j' Hj').
    assert (j' <> idx) by (intros ->; contradiction). unfold shift. destruct (Nat.ltb_spec idx j'); lia.
Qed.

Lemma poll_loop_ok out : forall indices s w',
  aligned (pool s) -> NoDup indices -> (forall j, j ∈ indices -> (j < length (requests (pool s)))%nat) ->
  length indices = length out -> notify_each (all_at (events (pool s)) indices) (world s) = Ok w' ->
  polled indices out s w' (poll_loop indices out s).
Proof.
  induction out as [| st out IH]; intros indices s w' Hal Hnd Hlt Hlen Hw.
  { destruct indices; [| discriminate]. injection Hw as <-. exists s. split; [reflexivity |].
    rewrite !without_none. split; [reflexivity |]. split; [exact Hal |]. repeat (split; [reflexivity |]).
    split; [| auto]. intros i j st c Hi. rewrite lookup_nil in Hi. discriminate. }
  destruct indices as [| idx js]; [discriminate |]. apply NoDup_cons in Hnd as [Hn Hnd].
  destruct Hal as [A1 A2 A3]. assert (Hidx : (idx < length (requests (pool s)))%nat) by (apply Hlt; left).
  destruct (lookup_lt_is_Some_2 (requests (pool s)) idx Hidx) as [r Hr].
  destruct (lookup_lt_is_Some_2 (events (pool s)) idx ltac:(lia)) as [e He].
  destruct (lookup_lt_is_Some_2 (statuses (pool s)) idx ltac:(lia)) as [cell Hcell].
  unfold all_at in Hw. simpl in Hw. rewrite He in Hw. simpl in Hw. apply bind_Ok in Hw as (w1 & Hw1 & Hw).
  cbn [poll_loop]. unfold finish. rewrite Hcell, He. cbn [deref mbind res_bind]. rewrite Hw1. cbn [mbind res_bind].
  rewrite Hr. cbn [deref mbind res_bind]. set (s1 := mkState _ _ w1).
  assert (Hjs : forall j, j ∈ js -> (j < length (requests (pool s)))%nat) by (intros j Hj; apply Hlt; right; exact Hj).
  destruct (shifted_fit idx js _ Hnd Hn Hidx Hjs) as [Hnd' Hlt'].
  destruct (IH (shift idx <$> js) s1 w') as (s' & E & E1 & E2 & E3 & E4 & E5 & E6 & E7).
  - constructor; simpl; rewrite ?length_erase by lia; [lia | lia | apply NoDup_erase, A3].
  - exact Hnd'.
  - intros j Hj. simpl. rewrite length_erase by lia. apply Hlt', Hj.
  - rewrite length_fmap. simpl in Hlen. lia.
  - simpl. rewrite all_at_erase by (try assumption; lia). exact Hw.
  - exists s'. split; [exact E |]. split; [exact E1 |]. split; [exact E2 |]. simpl in E3, E4, E5, E6, E7.
    rewrite without_erase in E3 by (assumption || lia).
    rewrite without_erase in E4 by (assumption || lia).
    rewrite without_erase in E5 by (assumption || lia).
    split; [exact E3 |]. split; [exact E4 |]. split; [exact E5 |].
    assert (Hother : forall j c, j ∈ js -> statuses (pool s) !! j = Some c -> c <> cell).
    { intros j c Hj Hc ->. pose proof (NoDup_lookup (statuses (pool s)) j idx cell A3 Hc Hcell) as ->. contradiction. }
    split.
    + intros [| i] j st' c Hi Ho Hc; simpl in Hi, Ho.
      * injection Hi as <-. injection Ho as <-. assert (c = cell) as -> by congruence.
        rewrite E7; [apply lookup_insert_eq |]. intros j Hj Hj'.
        apply list_elem_of_fmap in Hj as (j' & -> & Hj0).
        rewrite lookup_erase in Hj' by (lia || (intros ->; contradiction)). apply (Hother j' cell Hj0 Hj' eq_refl).
      * assert (Hj : j ∈ js) by (eapply list_elem_of_lookup_2, Hi).
        apply (E6 i (shift idx j)); [rewrite list_lookup_fmap, Hi; reflexivity | exact Ho |].
        rewrite lookup_erase by (lia || (intros ->; contradiction)). exact Hc.
    + intros c Hc. rewrite E7.
      * apply lookup_insert_ne. intros ->. apply (Hc idx); [left | exact Hcell].
      * intros j Hj Hj'. apply list_elem_of_fmap in Hj as (j' & -> & Hj0).
        rewrite lookup_erase in Hj' by (lia || (intros ->; contradiction)). apply (Hc j'); [right; exact Hj0 | exact Hj'].
Qed.

(** What MPI promises of the positions it reports. *)
Definition valid_report (n : nat) (r : list nat * list Status) : Prop :=
  NoDup (fst r) /\ (forall j, j ∈ fst r -> (j < n)%nat) /\ length (fst r) = length (snd r).

(** (poll): a poll gives every finished request's status to the cell of that
    request, notifies exactly the events of the finished requests, in the order
    they are reported, and keeps the unfinished ones, still aligned and in order,
    although every removal moves the positions of the others. *)
Theorem poll_correct s w' :
  aligned (pool s) -> valid_report (length (requests (pool s))) (testsome (requests (pool s))) ->
  requests (pool s) <> [] ->
  notify_each (all_at (events (pool s)) (fst (testsome (requests (pool s))))) (world s) = Ok w' ->
  polled (fst (testsome (requests (pool s)))) (snd (testsome (requests (pool s)))) s w' (poll s).
Proof.
  intros Hal (Hnd & Hlt & Hlen) Hne Hw. unfold poll.
  destruct (requests (pool s)) as [| r rs] eqn:Er; [congruence |]. rewrite <- Er in *.
  destruct (testsome (requests (pool s))) as [indices out]. simpl in *.
  apply poll_loop_ok; assumption.
Qed.
End RequestPool.

(** Three requests; the third and the first are finished, and reported in that order. *)
Definition sample : @State nat nat nat (list nat) := 
  mkState (mkPool [10; 11; 12] [20; 21; 22] [0; 1; 2])%nat ∅ [].

Example three_requests_polled :
  exists s', poll (fun e w => Ok (w ++ [e])) (fun _ => ([2; 0], [7; 8])%nat) sample = Ok s' /\
    world s' = [22; 20]%nat /\ requests (pool s') = [11]%nat.
Proof.
  destruct (poll_correct (fun e w => Ok (w ++ [e])) (fun _ => ([2; 0], [7; 8])%nat) sample [22; 20]%nat)
    as (s' & E & Ew & _ & Er & _).
  - constructor; try reflexivity. apply (bool_decide_unpack _). vm_compute. exact I.
  - split; [| split; [| reflexivity]].
    + apply (bool_decide_unpack _). vm_compute. exact I.
    + intros j Hj. simpl in *. set_unfold. lia.
  - discriminate.
  - reflexivity.
  - exists s'. split; [exact E |]. split; [exact Ew | exact Er].
Qed.
End RequestPool.
