(* ===== verification/CudaEvents.v ===== *)
(** The CUDA events a [CudaWorker] waits for ([redGrapes/dispatch/cuda]): the pool
    that recycles them ([event_pool.hpp]) and the queue of recorded events that
    [poll] looks at ([cuda_worker.hpp]).  CUDA itself is a parameter. *)

From Stdlib Require Import ZArith Lia Bool.
From stdpp Require Import base list relations.
From S2P Require Import Prelude.

Module CudaEvents.

Section CudaEvents.
(** [cudaEvent_t], and the events of the runtime. *)
Context {CudaEvent Event : Type}.

(** ** EventPool *)

(** [alloc]; [e] is what [cudaEventCreate] would make. *)
Definition alloc (e : CudaEvent) (unused_cuda_events : list CudaEvent) : CudaEvent * list CudaEvent :=
  match last unused_cuda_events with
  | None => (e, unused_cuda_events)
  | Some x => (x, removelast unused_cuda_events)
  end.

Definition free (e : CudaEvent) (unused_cuda_events : list CudaEvent) : list CudaEvent := unused_cuda_events ++ [e].

(** ** The worker's queue *)

Record CudaWorker : Type := mkWorker {
  event_pool : list CudaEvent;
  events : list (CudaEvent * Event)
}.

Definition new_worker : CudaWorker := mkWorker [] [].

(** The part of [execute_task] after the task's function: the work it submitted is
    followed by a CUDA event, which stands for the event [my_event]. *)
Definition record (created : CudaEvent) (my_event : Event) (w : CudaWorker) : CudaWorker :=
  let '(cuda_event, p) := alloc created (event_pool w) in
  mkWorker p (events w ++ [(cuda_event, my_event)]).

(** [cudaEventQuery(e) == cudaSuccess]; looks are numbered.  [notify] is the
    notification of an event, which changes the rest of the program. *)
Definition poll {World} (notify : Event -> World -> res World) (query : nat -> CudaEvent -> bool)
    (now : nat) (w : CudaWorker) (x : World) : res (CudaWorker * World) :=
  match events w with
  | [] => Ok (w, x)
  | (cuda_event, event) :: rest =>
      if query now cuda_event then
        let p := free cuda_event (event_pool w) in
        x ← notify event x;
        Ok (mkWorker p rest, x)
      else Ok (w, x)
  end.

(** ** What they do *)

Implicit Types w : CudaWorker.

(** The CUDA events in the pool or in the queue. *)
Definition held w : list CudaEvent := event_pool w ++ (fst <$> events w).

(** Each CUDA event stands for one piece of work at most, and none that was made is
    lost. *)
Definition all_held (made : list CudaEvent) w : Prop := NoDup (held w) /\ forall e, e ∈ held w <-> e ∈ made.

Lemma alloc_cases e (l : list CudaEvent) :
  (l = [] /\ alloc e l = (e, [])) \/ exists l0 x, l = l0 ++ [x] /\ alloc e l = (x, l0).
Proof.
  destruct l as [| y l] using rev_ind; [left; auto |]. right. exists l, y. split; [reflexivity |].
  unfold alloc. rewrite last_snoc, removelast_last. reflexivity.
Qed.

(** The CUDA events made so far, after an allocation. *)
Definition made_after (e : CudaEvent) (made : list CudaEvent) w : list CudaEvent :=
  match last (event_pool w) with None => e :: made | Some _ => made end.

(** An event of the pool moves to the queue, or a new one is made. *)
Lemma record_held e ev made w : e ∉ made -> all_held made w -> all_held (made_after e made w) (record e ev w).
Proof.
  intros He [Hn Hm]. unfold all_held, made_after, record, held in *.
  destruct (alloc_cases e (event_pool w)) as [[El Ea] | (l0 & x & El & Ea)]; rewrite Ea; cbn [event_pool events];
    rewrite El in *; rewrite fmap_app; cbn [fmap list_fmap fst].
  - cbn [last app] in *. rewrite <- Permutation_cons_append. split.
    + apply NoDup_cons. split; [rewrite Hm; exact He | exact Hn].
    + intros y. rewrite <- Permutation_cons_append, !elem_of_cons, Hm. reflexivity.
  - rewrite last_snoc. assert (Ep : l0 ++ (fst <$> events w) ++ [x] ≡ₚ (l0 ++ [x]) ++ (fst <$> events w)).
    { rewrite <- app_assoc. f_equiv. apply Permutation_app_comm. }
    split; [rewrite Ep; exact Hn | intros y; rewrite Ep; apply Hm].
Qed.

Lemma record_events e ev w :
  exists p, record e ev w = mkWorker p (events w ++ [(fst (alloc e (event_pool w)), ev)]).
Proof. unfold record. destruct (alloc e (event_pool w)) as [x p]. exists p. reflexivity. Qed.

(** A poll looks at the oldest event only. *)
Lemma poll_cases {World} (notify : Event -> World -> res World) query now w (x : World) w' x' :
  poll notify query now w x = Ok (w', x') ->
  (w' = w /\ x' = x /\ forall e ev, head (events w) = Some (e, ev) -> query now e = false) \/
  exists e ev, events w = (e, ev) :: events w' /\ query now e = true /\ notify ev x = Ok x' /\
    event_pool w' = free e (event_pool w).
Proof.
  unfold poll. destruct (events w) as [| [e ev] rest] eqn:E.
  - intros [= <- <-]. left. split; [reflexivity |]. split; [reflexivity |]. discriminate.
  - destruct (query now e) eqn:Eq.
    + cbv zeta. intros Ep. apply bind_Ok in Ep as (y & En & Ep). injection Ep as <- <-. right. exists e, ev. auto.
    + intros [= <- <-]. left. split; [reflexivity |]. split; [reflexivity |]. intros e0 ev0 [= <- <-]. exact Eq.
Qed.

Lemma popped_held made e ev w w' :
  events w = (e, ev) :: events w' -> event_pool w' = free e (event_pool w) -> all_held made w -> all_held made w'.
Proof.
  intros E Ep [Hn Hm]. assert (Hh : held w' ≡ₚ held w).
  { unfold held, free in *. rewrite E, Ep, <- app_assoc. reflexivity. }
  split; [rewrite Hh; exact Hn | intros y; rewrite Hh; apply Hm].
Qed.
End CudaEvents.
End CudaEvents.
