(* ===== verification/Workers.v ===== *)
(** The workers of a pool: their two task queues, the pool's record of which
    workers are available, the search for a free worker and the stealing of
    tasks ([redGrapes/task/queue.hpp], [dispatch/thread/DefaultWorker.*],
    [dispatch/thread/worker_pool.*]).  The concurrent queue is third-party code:
    the class [TaskQueue] says what of it the workers rely on. *)

From Stdlib Require Import ZArith Lia Bool.
From stdpp Require Import base list gmap.
From S2P Require Import Prelude Bitfield.

Open Scope Z_scope.
Open Scope word_scope.

Module Workers.

(** ** The queue of tasks *)

(** [queued] are the tasks in the queue; nothing is promised of their order. *)
Class TaskQueue (Q : Type) : Type := {
  empty_queue : Q;
  enqueue : nat -> Q -> Q;
  try_dequeue : Q -> option (nat * Q);
  queued : Q -> list nat
}.

(** While memory lasts, and seen by one thread at a time, an element enqueued is
    dequeued once, and only an empty queue has nothing to dequeue. *)
Class TaskQueueLaws (Q : Type) `{TaskQueue Q} : Prop := {
  queued_empty : queued empty_queue = [];
  queued_enqueue : forall t q, queued (enqueue t q) ≡ₚ t :: queued q;
  queued_dequeue : forall q t q', try_dequeue q = Some (t, q') -> queued q ≡ₚ t :: queued q';
  queued_none : forall q, try_dequeue q = None -> queued q = []
}.

(** A first-in first-out list is such a queue. *)
#[export] Instance list_queue : TaskQueue (list nat) := {
  empty_queue := [];
  enqueue t q := q ++ [t];
  try_dequeue q := match q with [] => None | t :: q => Some (t, q) end;
  queued q := q
}.

#[export] Instance list_queue_laws : TaskQueueLaws (list nat).
Proof.
  constructor; simpl.
  - reflexivity.
  - intros t q. symmetry. apply Permutation_cons_append.
  - intros [| x q] t q' E; [discriminate |]. injection E as -> ->. reflexivity.
  - intros [| x q]; [reflexivity | discriminate].
Qed.

(** [WorkerState] *)
Definition BUSY : bool := false.
Definition AVAILABLE : bool := true.

Section Workers.
Context {Q : Type} `{TaskQueueLaws Q}.

(** [Queue::push], [Queue::pop]: the null pointer is [None]. *)
Definition push (t : nat) (q : Q) : Q := enqueue t q.
Definition pop (q : Q) : option nat * Q :=
  match try_dequeue q with Some (t, q) => (Some t, q) | None => (None, q) end.

(** ** A worker *)

(** [should_wait] is the flag of the worker's condition variable. *)
Record Worker : Type := mkWorker {
  id : Z;
  m_stop : bool;
  should_wait : bool;
  emplacement_queue : Q;
  ready_queue : Q
}.

Definition new_worker (worker_id : Z) : Worker := mkWorker worker_id false true empty_queue empty_queue.

Definition with_emplacement (q : Q) (w : Worker) : Worker :=
  mkWorker (id w) (m_stop w) (should_wait w) q (ready_queue w).
Definition with_ready (q : Q) (w : Worker) : Worker :=
  mkWorker (id w) (m_stop w) (should_wait w) (emplacement_queue w) q.

(** [wake]: whether the thread was waiting, or going to wait. *)
Definition wake_worker (w : Worker) : bool * Worker :=
  (should_wait w, mkWorker (id w) (m_stop w) false (emplacement_queue w) (ready_queue w)).

Definition stop_worker (w : Worker) : Worker :=
  snd (wake_worker (mkWorker (id w) true (should_wait w) (emplacement_queue w) (ready_queue w))).

Definition dispatch_task (t : nat) (w : Worker) : Worker :=
  snd (wake_worker (with_emplacement (push t (emplacement_queue w)) w)).

(** ** The pool *)

Record WorkerPool : Type := mkPool {
  workers : list Worker;
  worker_state : Bitfield.AtomicBitfield;
  num_workers : Z;
  m_base_id : Z
}.

(** [m_base_id] is not initialized by the constructor. *)
Definition new_pool (n_workers base : Z) : WorkerPool :=
  mkPool [] (Bitfield.make n_workers) (u8 n_workers) base.

Definition size (p : WorkerPool) : Z := Z.of_nat (length (workers p)).

Definition with_workers (l : list Worker) (p : WorkerPool) : WorkerPool :=
  mkPool l (worker_state p) (num_workers p) (m_base_id p).
Definition with_state (b : Bitfield.AtomicBitfield) (p : WorkerPool) : WorkerPool :=
  mkPool (workers p) b (num_workers p) (m_base_id p).

Definition get_worker_thread (i : Z) (p : WorkerPool) : res Worker :=
  _ ← cpp_assert (i <? size p);
  deref (workers p !! Z.to_nat i).

(** An operation on the worker that [get_worker_thread] returns a reference to. *)
Definition on_worker {A} (i : Z) (f : Worker -> A * Worker) (p : WorkerPool) : res (A * WorkerPool) :=
  w ← get_worker_thread i p;
  let '(a, w) := f w in
  Ok (a, with_workers (<[Z.to_nat i := w]> (workers p)) p).

Definition get_worker_state (i : Z) (p : WorkerPool) : res bool := Bitfield.get i (worker_state p).

(** Returns true if the state changes. *)
Definition set_worker_state (i : Z) (st : bool) (p : WorkerPool) : res (bool * WorkerPool) :=
  '(old, b) ← Bitfield.set i st (worker_state p);
  Ok (negb (Bool.eqb old st), with_state b p).

(** The index is converted to [size_t] on the way to the bit field. *)
Definition set_worker_state_global (worker_id : Z) (st : bool) (p : WorkerPool) : res (bool * WorkerPool) :=
  set_worker_state (u64 (worker_id - m_base_id p)) st p.

Definition probe_worker_by_state {T} (f : Z -> WorkerPool -> res (option T * WorkerPool)) (expected : bool)
    (start_worker_idx : Z) (exclude_start : bool) (p : WorkerPool) : res (option T * WorkerPool) :=
  Bitfield.probe_by_value (fun p => Bitfield.state (worker_state p)) f
    (Bitfield.size (worker_state p)) expected start_worker_idx exclude_start p.

(** The loop of [emplace_workers]; the counter [i] is a [WorkerId].  [arenas] is
    the number of memory arenas, the new worker is allocated in arena [i]. *)
Fixpoint emplace_loop (fuel : nat) (i bound n_pus arenas : Z) (l : list Worker) : res (list Worker * Z) :=
  match fuel with
  | O => Err OutOfFuel
  | S fuel =>
      if i <? bound then
        _ ← (if n_pus =? 0 then Err Undefined else Ok tt);
        _ ← cpp_assert (i <? arenas + 1);
        emplace_loop fuel (u8 (i + 1)) bound n_pus (arenas + 1) (l ++ [new_worker i])
      else Ok (l, arenas)
  end.

Definition emplace_workers (fuel : nat) (base_id n_pus arenas : Z) (p : WorkerPool) : res (WorkerPool * Z) :=
  let p := mkPool (workers p) (worker_state p) (num_workers p) base_id in
  '(l, arenas) ← emplace_loop fuel base_id (base_id + num_workers p) n_pus arenas (workers p);
  Ok (with_workers l p, arenas).

(** [stop] joins the threads; [work_loop] ends when [m_stop] is set. *)
Definition stop_pool (p : WorkerPool) : WorkerPool := with_workers [] (with_workers (stop_worker <$> workers p) p).

(** [current] is the thread's [current_worker_id]. *)
Definition claim (i : Z) (p : WorkerPool) : res (option Z * WorkerPool) :=
  '(changed, p) ← set_worker_state (u8 i) BUSY p;
  Ok (if changed : bool then Some (u8 i) else None, p).

Definition find_free_worker (current : option Z) (p : WorkerPool) : res (Z * WorkerPool) :=
  c ← deref current;
  let start_idx := if (m_base_id p <=? c) && (c <? m_base_id p + num_workers p)
                   then u8 (c - m_base_id p) else 0 in
  '(idx, p) ← probe_worker_by_state claim AVAILABLE start_idx false p;
  Ok (match idx with Some i => i | None => -1 end, p).

(** ** Stealing *)

(** The two queues a task can be stolen from. *)
Inductive Kind : Type := Ready | New.

Definition queue_of (k : Kind) (w : Worker) : Q :=
  match k with Ready => ready_queue w | New => emplacement_queue w end.
Definition with_queue (k : Kind) (q : Q) (w : Worker) : Worker :=
  match k with Ready => with_ready q w | New => with_emplacement q w end.

Definition pop_worker (k : Kind) (w : Worker) : option nat * Worker :=
  let '(t, q) := pop (queue_of k w) in (t, with_queue k q w).

(** The callback of [steal_ready_task] and [steal_new_task]; [self] is the index
    of the worker that steals. *)
Definition steal_from (k : Kind) (self idx : Z) (p : WorkerPool) : res (option nat * WorkerPool) :=
  '(t, p) ← on_worker (u8 idx) (pop_worker k) p;
  match t with
  | Some t => Ok (Some t, p)
  | None => on_worker self (pop_worker k) p
  end.

Definition steal (k : Kind) (self : Z) (p : WorkerPool) : res (option nat * WorkerPool) :=
  w ← get_worker_thread self p;
  probe_worker_by_state (steal_from k self) BUSY (u8 (id w - m_base_id p)) true p.

Definition steal_ready_task : Z -> WorkerPool -> res (option nat * WorkerPool) := steal Ready.
Definition steal_new_task : Z -> WorkerPool -> res (option nat * WorkerPool) := steal New.

(** ** What holds of a pool *)

Record pool_wf (p : WorkerPool) : Prop := {
  pw_size : size p = num_workers p;
  pw_bits : Bitfield.m_size (worker_state p) = num_workers p;
  pw_wf : Bitfield.wf (worker_state p);
  pw_small : 0 <= m_base_id p /\ m_base_id p + num_workers p <= 255;
  pw_id : forall i w, workers p !! i = Some w -> id w = m_base_id p + Z.of_nat i
}.

(** The tasks in the queues of one kind. *)
Definition all_queued (k : Kind) (p : WorkerPool) : list nat :=
  concat ((fun w => queued (queue_of k w)) <$> workers p).

(** Worker [i] is marked busy. *)
Definition is_busy (i : Z) (p : WorkerPool) : bool := negb (Bitfield.bit_at (Bitfield.state (worker_state p)) i).

Lemma pool_worker (p : WorkerPool) (i : Z) :
  pool_wf p -> 0 <= i < num_workers p -> exists w, workers p !! Z.to_nat i = Some w /\ get_worker_thread i p = Ok w.
Proof.
  intros [Hs _ _ _ _] Hi. unfold size in Hs.
  destruct (lookup_lt_is_Some_2 (workers p) (Z.to_nat i)) as [w Hw]; [lia |].
  exists w. split; [exact Hw |]. unfold get_worker_thread, size.
  replace (i <? _) with true by lia. rewrite Hw. reflexivity.
Qed.

(** Operations that change one worker and keep its id keep the pool well formed. *)
Lemma pool_wf_insert (p : WorkerPool) (i : nat) (w w' : Worker) :
  pool_wf p -> workers p !! i = Some w -> id w' = id w -> pool_wf (with_workers (<[i := w']> (workers p)) p).
Proof.
  intros [Hs Hb Hw Hn Hid] Hi E. constructor; simpl; try assumption.
  - unfold size in *. simpl. rewrite length_insert. exact Hs.
  - intros j x Hj. destruct (decide (i = j)) as [<- | Hne].
    + rewrite list_lookup_insert_eq in Hj by (eapply lookup_lt_Some, Hi). injection Hj as <-. rewrite E. eauto.
    + rewrite list_lookup_insert_ne in Hj by exact Hne. eauto.
Qed.

Lemma all_queued_insert k (p : WorkerPool) (i : nat) (w w' : Worker) (added : list nat) :
  workers p !! i = Some w -> queued (queue_of k w') ++ added ≡ₚ queued (queue_of k w) ->
  all_queued k (with_workers (<[i := w']> (workers p)) p) ++ added ≡ₚ all_queued k p.
Proof.
  intros Hi E. unfold all_queued. simpl. rewrite list_fmap_insert.
  rewrite insert_take_drop by (rewrite length_fmap; eapply lookup_lt_Some, Hi).
  rewrite <- (take_drop_middle ((fun w => queued (queue_of k w)) <$> workers p) i (queued (queue_of k w)))
    at 3 by (rewrite list_lookup_fmap, Hi; reflexivity).
  rewrite !concat_app. simpl. rewrite <- E, <- !app_assoc. f_equiv. f_equiv. apply Permutation_app_comm.
Qed.

Lemma all_queued_more k (p : WorkerPool) (i : nat) (w w' : Worker) (added : list nat) :
  workers p !! i = Some w -> queued (queue_of k w') ≡ₚ added ++ queued (queue_of k w) ->
  all_queued k (with_workers (<[i := w']> (workers p)) p) ≡ₚ added ++ all_queued k p.
Proof.
  intros Hi E. unfold all_queued. simpl. rewrite list_fmap_insert.
  rewrite insert_take_drop by (rewrite length_fmap; eapply lookup_lt_Some, Hi).
  rewrite <- (take_drop_middle ((fun w => queued (queue_of k w)) <$> workers p) i (queued (queue_of k w)))
    at 3 by (rewrite list_lookup_fmap, Hi; reflexivity).
  rewrite !concat_app. simpl. rewrite E, !app_assoc. f_equiv. f_equiv. apply Permutation_app_comm.
Qed.

Lemma all_queued_same k (p : WorkerPool) (i : nat) (w w' : Worker) :
  workers p !! i = Some w -> queue_of k w' = queue_of k w ->
  all_queued k (with_workers (<[i := w']> (workers p)) p) = all_queued k p.
Proof.
  intros Hi E. unfold all_queued. simpl. rewrite list_fmap_insert, list_insert_id; [reflexivity |].
  rewrite list_lookup_fmap, Hi, E. reflexivity.
Qed.

(** ** Setting the state of a worker *)

Lemma set_worker_state_ok (p : WorkerPool) (i : Z) (st : bool) :
  pool_wf p -> 0 <= i < num_workers p ->
  exists p', set_worker_state i st p = Ok (negb (Bool.eqb (negb (is_busy i p)) st), p') /\ pool_wf p' /\
    workers p' = workers p /\ num_workers p' = num_workers p /\ m_base_id p' = m_base_id p /\
    (forall j, 0 <= j < num_workers p -> is_busy j p' = if j =? i then negb st else is_busy j p).
Proof.
  intros Hp Hi. destruct Hp as [Hs Hb Hw Hn Hid].
  destruct (Bitfield.set_ok (worker_state p) i st Hw ltac:(lia)) as (x & Hx & Hxw & E).
  unfold set_worker_state. rewrite E. cbn [mbind res_bind]. eexists. split.
  { unfold is_busy. rewrite negb_involutive. reflexivity. }
  set (b' := Bitfield.store_word _ _ _).
  assert (Hw' : Bitfield.wf b').
  { apply Bitfield.wf_store, Bitfield.is_word_set_word; try assumption. apply Z.mod_pos_bound. lia. }
  split; [constructor; assumption |]. repeat (split; [reflexivity |]).
  intros j Hj. unfold is_busy. change (worker_state (with_state b' p)) with b'. unfold b'.
  rewrite Bitfield.bit_at_store by (assumption || lia).
  destruct (j =? i); reflexivity.
Qed.

Lemma probe_order_elem sz start i :
  0 <= sz <= 2 ^ 32 -> 0 <= start < sz -> i ∈ Bitfield.probe_order sz start <-> 0 <= i < sz.
Proof.
  intros Hsz Hst. unfold Bitfield.probe_order, Bitfield.chunk_indices, Bitfield.bitfield_len.
  rewrite Bitfield.ceil_div_eq by lia. set (n := (sz + 63) / 64). set (c := start / 64).
  pose proof (Z.div_mod (sz + 63) 64 ltac:(lia)) as Hd. pose proof (Z.mod_pos_bound (sz + 63) 64 ltac:(lia)).
  pose proof (Z.div_mod start 64 ltac:(lia)) as Hd'. pose proof (Z.mod_pos_bound start 64 ltac:(lia)).
  fold n in Hd. fold c in Hd'. rewrite !elem_of_app, !elem_of_zrange, list_elem_of_In, in_concat.
  split.
  - intros [Hi | [Hi | (l & Hl & Hi)]]; [lia | lia |].
    apply list_elem_of_In, list_elem_of_fmap in Hl as (b & -> & Hb).
    apply list_elem_of_In, elem_of_zrange in Hi.
    pose proof (Z.mod_pos_bound (c + b) n ltac:(lia)). lia.
  - intros Hi. pose proof (Z.div_mod i 64 ltac:(lia)). pose proof (Z.mod_pos_bound i 64 ltac:(lia)).
    set (d := i / 64) in *.
    destruct (decide (d = c)) as [E | Hne]; [destruct (Z.lt_ge_cases i start); [left | right; left]; lia |].
    right. right. exists (zrange (64 * d) (Z.min (64 * (d + 1)) sz)).
    split; [| apply list_elem_of_In, elem_of_zrange; lia].
    apply list_elem_of_In, list_elem_of_fmap. exists ((d - c) mod n).
    rewrite Zplus_mod_idemp_r. replace (c + (d - c)) with d by lia.
    rewrite (Z.mod_small d n) by lia. split; [reflexivity |]. apply elem_of_zrange.
    pose proof (Z.mod_pos_bound (d - c) n ltac:(lia)).
    destruct (decide ((d - c) mod n = 0)) as [E0 |]; [| lia].
    apply Z.mod_divide in E0 as [q Hq]; [| lia]. assert (q = 0 \/ q <= -1 \/ 1 <= q) as [-> | Hq0] by lia; [lia |]. nia.
Qed.
(** ** Searching for a free worker *)

Lemma set_false_same (bf bf' : Bitfield.AtomicBitfield) (i : Z) :
  Bitfield.wf bf -> 0 <= i -> Bitfield.set i false bf = Ok (false, bf') -> bf' = bf.
Proof.
  intros Hwf Hi E. unfold Bitfield.set in E. destruct (Bitfield.index_calc_eq i Hi) as [Ei Hk]. rewrite Ei in E.
  unfold Bitfield.word_at in E. destruct (Bitfield.state bf !! Z.to_nat (i / 64)) as [w |] eqn:Hw; [| discriminate].
  cbn [deref mbind res_bind] in E. rewrite Bitfield.land_bit in E by lia.
  assert (Hww : is_word 64 w) by (eapply Forall_lookup_1; [apply Hwf | exact Hw]).
  destruct (Z.testbit w (i mod 64)) eqn:Eb; [discriminate |]. injection E as <-.
  assert (Ew : Z.land w (not64 (Z.shiftl 1 (i mod 64))) = w).
  { apply (word_bits_eq 64); auto with word. intros j Hj.
    rewrite Z.land_spec, not64_testbit, shiftl1_testbit by lia. replace (j <? 64) with true by lia.
    destruct (Z.eqb_spec j (i mod 64)) as [-> |]; [rewrite Eb |]; rewrite ?andb_true_r; reflexivity. }
  unfold Bitfield.store_word. rewrite Ew, list_insert_id by exact Hw. destruct bf; reflexivity.
Qed.

Lemma claim_frame i (p p' : WorkerPool) :
  Bitfield.wf (worker_state p) -> claim i p = Ok (None, p') -> worker_state p' = worker_state p.
Proof.
  intros Hwf E. unfold claim, set_worker_state in E. apply bind_Ok in E as ([ch q] & E & E').
  apply bind_Ok in E as ([old b] & E & E''). injection E'' as <- <-.
  destruct old; simpl in E'; [discriminate |]. injection E' as <-. simpl.
  apply (set_false_same _ _ _ Hwf (proj1 (wrap_is_word 8 i ltac:(lia))) E).
Qed.

(** The candidates of a probe, in the order they are tried. *)
Definition candidates (st : bool) (start : Z) (p : WorkerPool) : list Z :=
  List.filter (Bitfield.bit_is (Bitfield.state (worker_state p)) st) (Bitfield.probe_order (num_workers p) start).

Lemma candidates_elem st start i (p : WorkerPool) :
  pool_wf p -> 0 <= start < num_workers p ->
  i ∈ candidates st start p <-> 0 <= i < num_workers p /\ is_busy i p = negb st.
Proof.
  intros Hp Hst. pose proof (Bitfield.wf_size _ (pw_wf p Hp)) as Hsz. rewrite (pw_bits p Hp) in Hsz.
  unfold candidates. rewrite list_elem_of_In, filter_In, <- list_elem_of_In, probe_order_elem by lia.
  unfold Bitfield.bit_is, is_busy. destruct (Bitfield.bit_at _ i), st; intuition discriminate.
Qed.

Lemma probe_reference {T} (f : Z -> WorkerPool -> res (option T * WorkerPool)) st start excl p :
  (forall i q q', Bitfield.wf (worker_state q) -> f i q = Ok (None, q') -> worker_state q' = worker_state q) ->
  pool_wf p -> 0 <= start < num_workers p ->
  probe_worker_by_state f st start excl p = Bitfield.find_first f (candidates st start p) p.
Proof.
  intros Hf Hp Hst. unfold probe_worker_by_state, candidates, Bitfield.size.
  rewrite <- (pw_bits p Hp) in Hst |- *.
  exact (Bitfield.probe_by_value_reference worker_state f Hf st start excl p (pw_wf p Hp) Hst).
Qed.

(** What a search for a free worker promises. *)
Definition found (p : WorkerPool) (r : Z) (p' : WorkerPool) : Prop :=
  pool_wf p' /\ workers p' = workers p /\ num_workers p' = num_workers p /\ m_base_id p' = m_base_id p /\
  ((r = -1 /\ p' = p /\ forall j, 0 <= j < num_workers p -> is_busy j p = true) \/
   (0 <= r < num_workers p /\ is_busy r p = false /\
    forall j, 0 <= j < num_workers p -> is_busy j p' = (j =? r) || is_busy j p)).

Lemma find_free_worker_spec (p : WorkerPool) (c : Z) :
  pool_wf p -> 0 < num_workers p ->
  exists r p', find_free_worker (Some c) p = Ok (r, p') /\ found p r p'.
Proof.
  intros Hp Hn. unfold find_free_worker. cbn [deref mbind res_bind].
  set (start := if (m_base_id p <=? c) && (c <? m_base_id p + num_workers p) then u8 (c - m_base_id p) else 0).
  assert (Hst : 0 <= start < num_workers p).
  { unfold start. destruct Hp as [_ _ _ Hs _]. destruct (_ && _) eqn:E; [| lia].
    apply andb_true_iff in E as [E1 E2]. rewrite Z.leb_le in E1. rewrite Z.ltb_lt in E2. rewrite wrap_small; lia. }
  rewrite probe_reference by (assumption || exact claim_frame).
  destruct (candidates AVAILABLE start p) as [| i l] eqn:Ec.
  - exists (-1), p. split; [reflexivity |]. split; [exact Hp |]. repeat (split; [reflexivity |]). left.
    repeat (split; [reflexivity |]). intros j Hj. destruct (is_busy j p) eqn:Eb; [reflexivity |].
    assert (Hin : j ∈ candidates AVAILABLE start p) by (apply candidates_elem; auto). rewrite Ec in Hin. inversion Hin.
  - assert (Hi : 0 <= i < num_workers p /\ is_busy i p = false)
      by (apply (candidates_elem AVAILABLE start); [exact Hp | exact Hst | rewrite Ec; left]).
    destruct Hi as [Hi Eb]. destruct (set_worker_state_ok p i BUSY Hp Hi) as (p' & E & Hp' & Ew & En & Em & Hb).
    exists i, p'. split.
    { cbn [Bitfield.find_first]. unfold claim at 1. destruct Hp as [_ _ _ Hs _].
      rewrite (wrap_small 8 i) by lia. rewrite E, Eb. reflexivity. }
    split; [exact Hp' |]. repeat (split; [assumption |]). right. split; [exact Hi |]. split; [exact Eb |].
    intros j Hj. rewrite Hb by exact Hj. destruct (j =? i); reflexivity.
Qed.

(** (free): [find_free_worker] called by a worker thread, of this pool or
    not, returns an available worker, now marked busy, and changes no other; it
    returns -1 only when every worker is busy. *)
Theorem find_free_worker_correct (p : WorkerPool) (c : Z) :
  pool_wf p -> 0 < num_workers p ->
  exists r p', find_free_worker (Some c) p = Ok (r, p') /\ found p r p'.
Proof. apply find_free_worker_spec. Qed.

(** ** Stealing *)

Lemma on_worker_state {A} i (f : Worker -> A * Worker) a (p p' : WorkerPool) :
  on_worker i f p = Ok (a, p') -> worker_state p' = worker_state p.
Proof.
  unfold on_worker. intros E. apply bind_Ok in E as (w & _ & E). destruct (f w). injection E as <- <-. reflexivity.
Qed.

Lemma with_queue_same k (w : Worker) : with_queue k (queue_of k w) w = w.
Proof. destruct w, k; reflexivity. Qed.

(** A pop takes one task out of one queue, or finds the queue empty. *)
Lemma pop_worker_spec k i (p : WorkerPool) :
  pool_wf p -> 0 <= i < num_workers p ->
  exists w, workers p !! Z.to_nat i = Some w /\
  ((on_worker i (pop_worker k) p = Ok (None, p) /\ queued (queue_of k w) = []) \/
   exists t q, on_worker i (pop_worker k) p =
       Ok (Some t, with_workers (<[Z.to_nat i := with_queue k q w]> (workers p)) p) /\
     queued (queue_of k w) ≡ₚ t :: queued q).
Proof.
  intros Hp Hi. destruct (pool_worker p i Hp Hi) as (w & Hw & Eg). exists w. split; [exact Hw |].
  unfold on_worker. rewrite Eg. cbn [mbind res_bind]. unfold pop_worker, pop.
  destruct (try_dequeue (queue_of k w)) as [[t q] |] eqn:E.
  - right. exists t, q. split; [reflexivity |]. apply queued_dequeue, E.
  - left. split; [| apply queued_none, E]. rewrite with_queue_same, list_insert_id by exact Hw. destruct p; reflexivity.
Qed.

(** One task of kind [k] left the pool; nothing else changed. *)
Definition taken (k : Kind) (t : nat) (p p' : WorkerPool) : Prop :=
  all_queued k p ≡ₚ t :: all_queued k p' /\
  (forall k', k' <> k -> all_queued k' p' = all_queued k' p) /\
  worker_state p' = worker_state p /\ pool_wf p' /\
  num_workers p' = num_workers p /\ m_base_id p' = m_base_id p.

Lemma queue_with_queue k q (w : Worker) : queue_of k (with_queue k q w) = q.
Proof. destruct k; reflexivity. Qed.

Lemma taken_insert k t q w i (p : WorkerPool) :
  pool_wf p -> workers p !! i = Some w -> queued (queue_of k w) ≡ₚ t :: queued q ->
  taken k t p (with_workers (<[i := with_queue k q w]> (workers p)) p).
Proof.
  intros Hp Hi E. split; [| split; [| split; [reflexivity | split; [| split; reflexivity]]]].
  - rewrite <- (all_queued_insert k p i w (with_queue k q w) [t] Hi).
    + symmetry. apply Permutation_cons_append.
    + rewrite queue_with_queue, E. symmetry. apply Permutation_cons_append.
  - intros k' Hk. apply all_queued_same with w; [exact Hi |]. destruct k, k'; congruence || reflexivity.
  - apply pool_wf_insert with w; [exact Hp | exact Hi | destruct k; reflexivity].
Qed.

Lemma steal_from_spec k self i (p : WorkerPool) :
  pool_wf p -> 0 <= self < num_workers p -> 0 <= i < num_workers p ->
  (exists t p', steal_from k self i p = Ok (Some t, p') /\ taken k t p p') \/
  (steal_from k self i p = Ok (None, p) /\
   forall w, workers p !! Z.to_nat i = Some w -> queued (queue_of k w) = []).
Proof.
  intros Hp Hs Hi. unfold steal_from. rewrite wrap_small by (destruct Hp as [_ _ _ ? _]; lia).
  destruct (pop_worker_spec k i p Hp Hi) as (w & Hw & [[E E0] | (t & q & E & Eq)]); rewrite E; cbn [mbind res_bind].
  - destruct (pop_worker_spec k self p Hp Hs) as (w' & Hw' & [[E' E0'] | (t & q & E' & Eq)]); rewrite E'.
    + right. split; [reflexivity |]. intros x Hx. assert (x = w) as -> by congruence. exact E0.
    + left. exists t. eexists. split; [reflexivity |]. apply taken_insert; assumption.
  - left. exists t. eexists. split; [reflexivity |]. apply taken_insert; assumption.
Qed.

Lemma steal_list k self l (p : WorkerPool) :
  pool_wf p -> 0 <= self < num_workers p -> (forall i, i ∈ l -> 0 <= i < num_workers p) ->
  (exists t p', Bitfield.find_first (steal_from k self) l p = Ok (Some t, p') /\ taken k t p p') \/
  (Bitfield.find_first (steal_from k self) l p = Ok (None, p) /\
   forall i w, i ∈ l -> workers p !! Z.to_nat i = Some w -> queued (queue_of k w) = []).
Proof.
  intros Hp Hs. induction l as [| i l IH]; intros Hl.
  { right. split; [reflexivity |]. intros i w Hi. inversion Hi. }
  cbn [Bitfield.find_first]. assert (Hi : 0 <= i < num_workers p) by (apply Hl; left).
  destruct (steal_from_spec k self i p Hp Hs Hi) as [(t & p' & E & Ht) | [E Hq]]; rewrite E; simpl.
  - left. eauto.
  - destruct IH as [H1 | [E' Hq']]; [intros j Hj; apply Hl; right; exact Hj | left; exact H1 |].
    right. split; [exact E' |]. intros j w Hj Hw. apply elem_of_cons in Hj as [-> | Hj]; eauto.
Qed.

Lemma steal_spec k self (p : WorkerPool) :
  pool_wf p -> 0 <= self < num_workers p ->
  match steal k self p with
  | Ok (Some t, p') => taken k t p p'
  | Ok (None, p') => p' = p /\
      forall i w, 0 <= i < num_workers p -> is_busy i p = true -> workers p !! Z.to_nat i = Some w ->
        queued (queue_of k w) = []
  | Err _ => False
  end.
Proof.
  intros Hp Hs. unfold steal. destruct (pool_worker p self Hp Hs) as (w & Hw & E). rewrite E. cbn [mbind res_bind].
  assert (Est : u8 (id w - m_base_id p) = self).
  { rewrite (pw_id p Hp _ _ Hw). destruct Hp as [_ _ _ Hn _]. rewrite wrap_small; lia. }
  rewrite Est, probe_reference; [| | exact Hp | exact Hs].
  - destruct (steal_list k self (candidates BUSY self p) p Hp Hs) as [(t & p' & E' & Ht) | [E' Hq]]; try rewrite E'.
    + intros i Hi. apply (candidates_elem BUSY self) in Hi; [apply Hi | exact Hp | exact Hs].
    + exact Ht.
    + split; [reflexivity |]. intros i x Hi Hb Hx. apply (Hq i x); [| exact Hx].
      apply candidates_elem; auto.
  - intros i q q' _ Eq. unfold steal_from in Eq. apply bind_Ok in Eq as ([[t |] q1] & E1 & E2); [discriminate |].
    apply on_worker_state in E1, E2. congruence.
Qed.

(** (steal): stealing either takes exactly one task out of one queue of the
    pool, leaving everything else as it was, or changes nothing, and then no
    worker marked busy has a task of that kind.  It never fails. *)
Theorem steal_correct k self (p : WorkerPool) :
  pool_wf p -> 0 <= self < num_workers p ->
  match steal k self p with
  | Ok (Some t, p') => taken k t p p'
  | Ok (None, p') => p' = p /\
      forall i w, 0 <= i < num_workers p -> is_busy i p = true -> workers p !! Z.to_nat i = Some w ->
        queued (queue_of k w) = []
  | Err _ => False
  end.
Proof. apply steal_spec. Qed.
(** ** Creating the workers *)

Lemma emplace_loop_turn fuel i bound n_pus arenas l :
  n_pus <> 0 -> i < bound -> i < arenas + 1 ->
  emplace_loop (S fuel) i bound n_pus arenas l = emplace_loop fuel (u8 (i + 1)) bound n_pus (arenas + 1) (l ++ [new_worker i]).
Proof.
  intros Hp Hi Ha. cbn [emplace_loop]. replace (i <? bound) with true by lia. replace (n_pus =? 0) with false by lia.
  replace (i <? arenas + 1) with true by lia. reflexivity.
Qed.

Lemma emplace_loop_ok n_pus k : forall fuel i bound arenas l,
  n_pus <> 0 -> 0 <= i -> i + Z.of_nat k = bound -> bound <= 255 -> i <= arenas -> (k < fuel)%nat ->
  emplace_loop fuel i bound n_pus arenas l = Ok (l ++ (new_worker <$> zrange i bound), arenas + Z.of_nat k).
Proof.
  induction k as [| k IH]; intros fuel i bound arenas l Hp Hi Hb Hs Ha Hf; (destruct fuel as [| fuel]; [lia |]).
  - cbn [emplace_loop]. replace (i <? bound) with false by lia. rewrite zrange_nil, app_nil_r by lia.
    repeat f_equal; lia.
  - rewrite emplace_loop_turn, wrap_small by lia. rewrite (IH fuel (i + 1) bound (arenas + 1)) by lia.
    rewrite (zrange_cons i) by lia. rewrite fmap_cons, <- app_assoc.
    replace (arenas + Z.of_nat (S k)) with (arenas + 1 + Z.of_nat k) by lia. reflexivity.
Qed.

Lemma emplace_loop_wraps n_pus bound fuel : forall i arenas l,
  n_pus <> 0 -> 0 <= i <= 255 -> 255 < bound -> 255 <= arenas \/ i <= arenas ->
  emplace_loop fuel i bound n_pus arenas l = Err OutOfFuel.
Proof.
  induction fuel as [| fuel IH]; intros i arenas l Hp Hi Hb Ha; [reflexivity |]. rewrite emplace_loop_turn by lia.
  destruct (Z.eq_dec i 255) as [-> | Hne].
  - apply IH; try assumption; [change (u8 (255 + 1)) with 0; lia | change (u8 (255 + 1)) with 0; lia].
  - rewrite wrap_small by lia. apply IH; try assumption; lia.
Qed.

(** (emplace): a pool whose worker ids end at 255 or below gets its workers,
    in order, idle and with empty queues; with one id more the 8-bit loop counter
    wraps around and the loop never ends. *)
Theorem emplace_workers_correct n base n_pus arenas garbage :
  0 < n <= 255 -> 0 <= base <= 255 -> base <= arenas -> n_pus <> 0 ->
  (base + n <= 255 -> forall fuel, (Z.to_nat n < fuel)%nat -> exists p,
     emplace_workers fuel base n_pus arenas (new_pool n garbage) = Ok (p, arenas + n) /\
     pool_wf p /\ num_workers p = n /\ m_base_id p = base /\ workers p = new_worker <$> zrange base (base + n)) /\
  (255 < base + n -> forall fuel,
     emplace_workers fuel base n_pus arenas (new_pool n garbage) = Err OutOfFuel).
Proof.
  intros Hn Hb Ha Hp. unfold emplace_workers, new_pool. cbn [num_workers workers worker_state].
  rewrite (wrap_small 8 n) by lia. split.
  - intros Hs fuel Hf. rewrite (emplace_loop_ok n_pus (Z.to_nat n)) by lia. cbn [mbind res_bind]. eexists. split.
    { rewrite Z2Nat.id by lia. reflexivity. }
    split; [| repeat (split; [reflexivity |]); reflexivity]. constructor; simpl; try lia.
    + unfold size, zrange. simpl. rewrite !length_fmap, length_seq. lia.
    + apply Bitfield.wf_make. lia.
    + intros i w Hi. unfold zrange in Hi. rewrite <- list_fmap_compose, list_lookup_fmap in Hi.
      destruct (seq _ _ !! i) as [j |] eqn:Ej; [| discriminate]. apply lookup_seq in Ej as [-> _].
      injection Hi as <-. reflexivity.
  - intros Hs fuel. rewrite emplace_loop_wraps; [reflexivity | exact Hp | lia | exact Hs | right; exact Ha].
Qed.
End Workers.

(** ** Concrete pools *)

(** Three workers with ids from 2; the second is available, the first has a
    ready task, the third a new one. *)
Definition three_workers : WorkerPool (Q := list nat) :=
  mkPool [mkWorker 2 false true [] [7%nat]; mkWorker 3 false true [] []; mkWorker 4 false true [8%nat] []]
    (Bitfield.mkBitfield 3 [2]) 3 2.

Lemma three_workers_wf : pool_wf three_workers.
Proof.
  constructor; try reflexivity.
  - constructor; [simpl; lia | reflexivity |]. repeat constructor; unfold is_word; lia.
  - simpl. lia.
  - intros [| [| [| i]]] w E; simpl in E; [injection E as <-; reflexivity .. | discriminate].
Qed.

Lemma find_free_worker_correct_witness :
  exists r p', find_free_worker (Some 4) three_workers = Ok (r, p') /\ found three_workers r p' /\ r = 1.
Proof.
  destruct (find_free_worker_correct three_workers 4 three_workers_wf ltac:(simpl; lia)) as (r & p' & E & Hf).
  exists r, p'. split; [exact E |]. split; [exact Hf |]. vm_compute in E. injection E as <- _. reflexivity.
Defined.

Lemma steal_correct_witness :
  exists p', steal Ready 1 three_workers = Ok (Some 7%nat, p') /\ taken Ready 7 three_workers p'.
Proof.
  pose proof (steal_correct Ready 1 three_workers three_workers_wf ltac:(simpl; lia)) as H.
  destruct (steal Ready 1 three_workers) as [[[t |] p'] |] eqn:E.
  - exists p'. assert (t = 7%nat) as -> by (vm_compute in E; congruence). split; [reflexivity | exact H].
  - vm_compute in E. discriminate.
  - destruct H.
Defined.
End Workers.
