(* ===== verification/Scheduler.v ===== *)
(** The schedulers ([redGrapes/scheduler/scheduler.hpp], [pool_scheduler.*],
    [thread_scheduler.hpp]): where new and ready tasks go, and which worker is
    woken.  [IScheduler] is the interface the task graph calls; [SchedulerLaws]
    says what the graph needs of it, and both schedulers meet it. *)

From Stdlib Require Import ZArith Lia Bool.
From stdpp Require Import base list gmap.
From S2P Require Import Prelude Bitfield Workers.

Open Scope Z_scope.
Open Scope word_scope.

Module Scheduler.
Import Workers.

(** ** The interface *)

(** Tasks are given with the worker they were created for; [current] is the
    calling thread's [current_worker_id]. *)
Class IScheduler (S : Type) : Type := {
  emplace_task : nat -> Z -> S -> res S;
  activate_task : option Z -> nat -> S -> res S;
  wake : Z -> S -> res (bool * S);
  wake_all : S -> res S;
  getNextWorkerID : S -> res (Z * S);
  pending : Kind -> S -> list nat;
  valid : S -> Prop;
  worker_ids : S -> list Z
}.

(** No task is lost or duplicated, and the scheduler's own ids are safe to use;
    [current] is what the calling thread must satisfy. *)
Class SchedulerLaws (S : Type) `{IScheduler S} (current : option Z -> Prop) : Prop := {
  emplace_law : forall t i s, valid s -> i ∈ worker_ids s -> exists s', emplace_task t i s = Ok s' /\
    valid s' /\ worker_ids s' = worker_ids s /\
    pending New s' ≡ₚ t :: pending New s /\ pending Ready s' = pending Ready s;
  activate_law : forall c t s, valid s -> current c -> exists s', activate_task c t s = Ok s' /\
    valid s' /\ worker_ids s' = worker_ids s /\
    pending Ready s' ≡ₚ t :: pending Ready s /\ pending New s' = pending New s;
  wake_law : forall i s, valid s -> i ∈ worker_ids s -> exists b s', wake i s = Ok (b, s') /\
    valid s' /\ worker_ids s' = worker_ids s /\ forall k, pending k s' = pending k s;
  next_law : forall s, valid s -> exists i s', getNextWorkerID s = Ok (i, s') /\
    valid s' /\ worker_ids s' = worker_ids s /\ i ∈ worker_ids s /\ forall k, pending k s' = pending k s
}.

(** ** The static variables *)

(** [next_worker] is static in [activate_task]: one counter per thread, created at the
    first use; [local_next_worker_counter] is static in [getNextWorkerID].  Both are
    variables of the functions, so all pools with one type of workers share them. *)
Record Statics : Type := mkStatics {
  next_worker : gmap (option Z) Z;
  local_next_worker_counter : Z
}.

Definition with_next (c : option Z) (n : Z) (x : Statics) : Statics :=
  mkStatics (<[c := n]> (next_worker x)) (local_next_worker_counter x).

(** At the start of the program. *)
Definition no_statics : Statics := mkStatics ∅ 0.

Record statics_wf (x : Statics) : Prop := {
  sx_next : forall c n, next_worker x !! c = Some n -> 0 <= n < 256;
  sx_counter : 0 <= local_next_worker_counter x < 256
}.

Lemma no_statics_wf : statics_wf no_statics.
Proof. constructor; simpl; [intros c n E; rewrite lookup_empty in E; discriminate | lia]. Qed.

Lemma with_next_wf c n x : statics_wf x -> statics_wf (with_next c (u8 n) x).
Proof.
  intros [Hx Hc]. constructor; [| exact Hc]. intros c' m Hl. simpl in Hl.
  apply lookup_insert_Some in Hl as [(<- & <-) | (_ & Hl)]; [apply wrap_is_word; lia | eauto].
Qed.

Section Schedulers.
Context {Q : Type} `{TaskQueueLaws Q}.

(** ** PoolScheduler *)

Record PoolScheduler : Type := mkScheduler {
  base_id : Z;
  n_workers : Z;
  m_worker_pool : WorkerPool (Q := Q)
}.

Definition with_pool (p : WorkerPool) (s : PoolScheduler) : PoolScheduler := mkScheduler (base_id s) (n_workers s) p.

Definition on_pool_worker {A} (i : Z) (f : Worker -> A * Worker) (s : PoolScheduler) : res (A * PoolScheduler) :=
  '(a, p) ← on_worker i f (m_worker_pool s); Ok (a, with_pool p s).

(** [m_base_id] is set by [init]. *)
Definition new_scheduler (num_workers garbage : Z) : PoolScheduler :=
  mkScheduler garbage num_workers (new_pool num_workers garbage).

Definition init_scheduler (base n_pus arenas : Z) (s : PoolScheduler) : res (PoolScheduler * Z) :=
  '(p, arenas) ← emplace_workers 257 base n_pus arenas (m_worker_pool s);
  Ok (mkScheduler base (n_workers s) p, arenas).

Definition pool_emplace_task (t : nat) (worker_id : Z) (s : PoolScheduler) : res PoolScheduler :=
  let local_worker_id := u8 (worker_id - base_id s) in
  '(_, s) ← on_pool_worker local_worker_id (fun w => (tt, dispatch_task t w)) s;
  Ok s.

Definition push_ready (t : nat) (w : Worker) : unit * Worker := (tt, with_ready (push t (ready_queue w)) w).

(** [next_worker.fetch_add(1) % n_workers] *)
Definition take_next (current : option Z) (s : PoolScheduler) (x : Statics) : res (Z * Statics) :=
  let n := default 0 (next_worker x !! current) in
  if n_workers s =? 0 then Err Undefined
  else Ok (n mod n_workers s, with_next current (u8 (n + 1)) x).

(** The counter of a thread is created when its first [activate_task] begins. *)
Definition enter_activate (current : option Z) (s : PoolScheduler) (x : Statics) : Statics :=
  let start := match current with Some c => u8 (c + 1 - base_id s) | None => 0 end in
  with_next current (default start (next_worker x !! current)) x.

Definition pool_activate_task (current : option Z) (t : nat) '((x, s) : Statics * PoolScheduler)
    : res (Statics * PoolScheduler) :=
  let x := enter_activate current s x in
  '(worker_id, p) ← find_free_worker current (m_worker_pool s);
  let s := with_pool p s in
  if worker_id <? 0 then
    '(worker_id, x) ← take_next current s x;
    c ← deref current;
    '(worker_id, x) ← (if worker_id =? c then take_next current s x else Ok (worker_id, x));
    '(_, s) ← on_pool_worker worker_id (push_ready t) s;
    Ok (x, s)
  else
    '(_, s) ← on_pool_worker (u8 worker_id) (push_ready t) s;
    '(_, s) ← on_pool_worker (u8 worker_id) wake_worker s;
    Ok (x, s).

Definition pool_wake (id : Z) (s : PoolScheduler) : res (bool * PoolScheduler) :=
  let local_waker_id := id - base_id s in
  if (0 <? local_waker_id) && (local_waker_id <=? n_workers s)
  then on_pool_worker (u8 local_waker_id) wake_worker s
  else Ok (false, s).

(** The loop of [wake_all], over an 8-bit counter. *)
Fixpoint wake_loop (fuel : nat) (i bound : Z) (s : PoolScheduler) : res PoolScheduler :=
  match fuel with
  | O => Err OutOfFuel
  | S fuel => if i <? bound then '(_, s) ← pool_wake i s; wake_loop fuel (u8 (i + 1)) bound s else Ok s
  end.

Definition pool_wake_all (s : PoolScheduler) : res PoolScheduler :=
  wake_loop 257 (base_id s) (base_id s + n_workers s) s.

Definition pool_getNextWorkerID '((x, s) : Statics * PoolScheduler) : res (Z * (Statics * PoolScheduler)) :=
  let c := local_next_worker_counter x in
  if n_workers s =? 0 then Err Undefined
  else Ok (u8 (c mod n_workers s + base_id s), (mkStatics (next_worker x) (u8 (c + 1)), s)).

(** ** ThreadScheduler *)

Record ThreadScheduler : Type := mkThread {
  t_base_id : Z;
  m_worker_thread : option (Worker (Q := Q))
}.

Definition on_thread {A} (f : Worker -> A * Worker) (s : ThreadScheduler) : res (A * ThreadScheduler) :=
  w ← deref (m_worker_thread s); let '(a, w) := f w in Ok (a, mkThread (t_base_id s) (Some w)).

(** The worker is created unless one was given to the constructor. *)
Definition init_thread (base n_pus arenas : Z) (s : ThreadScheduler) : res (ThreadScheduler * Z) :=
  match m_worker_thread s with
  | Some w => Ok (mkThread base (Some w), arenas)
  | None =>
      if n_pus =? 0 then Err Undefined
      else
        _ ← cpp_assert (base <? arenas + 1);
        Ok (mkThread base (Some (new_worker base)), arenas + 1)
  end.

Definition thread_emplace_task (t : nat) (worker_id : Z) (s : ThreadScheduler) : res ThreadScheduler :=
  '(_, s) ← on_thread (fun w => (tt, dispatch_task t w)) s; Ok s.

Definition thread_activate_task (current : option Z) (t : nat) (s : ThreadScheduler) : res ThreadScheduler :=
  '(_, s) ← on_thread (push_ready t) s;
  '(_, s) ← on_thread wake_worker s;
  Ok s.

Definition thread_wake (id : Z) (s : ThreadScheduler) : res (bool * ThreadScheduler) :=
  if id =? 0 then on_thread wake_worker s else Ok (false, s).

Definition thread_wake_all (s : ThreadScheduler) : res ThreadScheduler :=
  '(_, s) ← on_thread wake_worker s; Ok s.

Definition thread_getNextWorkerID (s : ThreadScheduler) : res (Z * ThreadScheduler) := Ok (t_base_id s, s).

(** ** Instances of the interface *)

Record scheduler_wf (s : PoolScheduler) : Prop := {
  sw_pool : pool_wf (m_worker_pool s);
  sw_base : m_base_id (m_worker_pool s) = base_id s;
  sw_n : num_workers (m_worker_pool s) = n_workers s;
  sw_some : 0 < n_workers s
}.

(** The ids of its workers. *)
Definition pool_ids (s : PoolScheduler) : list Z := zrange (base_id s) (base_id s + n_workers s).

(** The operations that leave the statics alone. *)
Definition keep_statics {S} (f : S -> res S) '((x, s) : Statics * S) : res (Statics * S) := s ← f s; Ok (x, s).

#[export] Instance pool_scheduler : IScheduler (Statics * PoolScheduler) := {
  emplace_task t i := keep_statics (pool_emplace_task t i);
  activate_task := pool_activate_task;
  wake i xs := '(b, s) ← pool_wake i (snd xs); Ok (b, (fst xs, s));
  wake_all := keep_statics pool_wake_all;
  getNextWorkerID := pool_getNextWorkerID;
  pending k xs := all_queued k (m_worker_pool (snd xs));
  valid xs := statics_wf (fst xs) /\ scheduler_wf (snd xs);
  worker_ids xs := pool_ids (snd xs)
}.

#[export] Instance thread_scheduler : IScheduler ThreadScheduler := {
  emplace_task := thread_emplace_task;
  activate_task := thread_activate_task;
  wake := thread_wake;
  wake_all := thread_wake_all;
  getNextWorkerID := thread_getNextWorkerID;
  pending k s := match m_worker_thread s with Some w => queued (queue_of k w) | None => [] end;
  valid s := exists w, m_worker_thread s = Some w /\ id w = t_base_id s;
  worker_ids s := [t_base_id s]
}.
(** ** The pool scheduler keeps its promises *)

Implicit Types (s : PoolScheduler) (x : Statics).

Lemma on_pool_worker_ok {A} (i : Z) (f : Worker -> A * Worker) (s : PoolScheduler) :
  scheduler_wf s -> 0 <= i < n_workers s -> (forall w, id (snd (f w)) = id w) ->
  exists w s', workers (m_worker_pool s) !! Z.to_nat i = Some w /\
    on_pool_worker i f s = Ok (fst (f w), s') /\ scheduler_wf s' /\
    s' = with_pool (with_workers (<[Z.to_nat i := snd (f w)]> (workers (m_worker_pool s))) (m_worker_pool s)) s.
Proof.
  intros [Hp Hb Hn Hs] Hi Hid. rewrite <- Hn in Hi.
  destruct (pool_worker _ _ Hp Hi) as (w & Hw & E). exists w.
  exists (with_pool (with_workers (<[Z.to_nat i := snd (f w)]> (workers (m_worker_pool s))) (m_worker_pool s)) s).
  split; [exact Hw |]. unfold on_pool_worker, on_worker. rewrite E. cbn [mbind res_bind]. specialize (Hid w).
  destruct (f w) as [a w']. split; [reflexivity |]. split; [| reflexivity].
  constructor; try assumption. apply pool_wf_insert with w; assumption.
Qed.

Lemma worker_id_index (s : PoolScheduler) i :
  scheduler_wf s -> i ∈ zrange (base_id s) (base_id s + n_workers s) ->
  0 <= i - base_id s < n_workers s /\ u8 (i - base_id s) = i - base_id s.
Proof.
  intros [Hp Hb Hn _] Hi. apply elem_of_zrange in Hi. destruct (pw_small _ Hp). split; [lia |].
  rewrite wrap_small; lia.
Qed.

Lemma queued_push t (q : Q) : queued (push t q) ≡ₚ t :: queued q.
Proof. apply queued_enqueue. Qed.

(** Where a new task goes: to the worker it was created for, which is woken. *)
Lemma pool_emplace_ok t i (s : PoolScheduler) :
  scheduler_wf s -> i ∈ zrange (base_id s) (base_id s + n_workers s) ->
  exists w s', workers (m_worker_pool s) !! Z.to_nat (i - base_id s) = Some w /\
    pool_emplace_task t i s = Ok s' /\ scheduler_wf s' /\
    s' = with_pool (with_workers (<[Z.to_nat (i - base_id s) := dispatch_task t w]> (workers (m_worker_pool s)))
           (m_worker_pool s)) s.
Proof.
  intros Hs Hi. destruct (worker_id_index s i Hs Hi) as [Hr Ew]. unfold pool_emplace_task. rewrite Ew.
  destruct (on_pool_worker_ok (i - base_id s) (fun w => (tt, dispatch_task t w)) s Hs Hr) as (w & s' & Hw & E & Hs' & E');
    [reflexivity |].
  exists w, s'. rewrite E. auto.
Qed.

(** The worker a thread [c] chooses when none is available, and its counter after that:
    the next one in turn, or the one after it if the position is the number of the
    thread. *)
Definition in_turn (c : Z) x s (i : Z) x' : Prop :=
  let n := default (u8 (c + 1 - base_id s)) (next_worker x !! Some c) in
  let skipped := if n mod n_workers s =? c then 1 else 0 in
  i = u8 (n + skipped) mod n_workers s /\ x' = with_next (Some c) (u8 (n + skipped + 1)) x.

(** A ready task is queued at a worker [i]: an available one, which is claimed and woken;
    if there was none, at the one whose turn it is. *)
Definition activated (c : Z) (t : nat) (x : Statics) (s : PoolScheduler) (x' : Statics) (s' : PoolScheduler) : Prop :=
  exists i w w', 0 <= i < n_workers s /\ workers (m_worker_pool s) !! Z.to_nat i = Some w /\
    workers (m_worker_pool s') = <[Z.to_nat i := w']> (workers (m_worker_pool s)) /\
    ready_queue w' = push t (ready_queue w) /\ emplacement_queue w' = emplacement_queue w /\
    (forall j, 0 <= j < n_workers s -> is_busy j (m_worker_pool s') = (j =? i) || is_busy j (m_worker_pool s)) /\
    (if is_busy i (m_worker_pool s)
     then should_wait w' = should_wait w /\ (forall j, 0 <= j < n_workers s -> is_busy j (m_worker_pool s) = true) /\
       in_turn c x s i x'
     else should_wait w' = false /\ x' = enter_activate (Some c) s x).

Lemma take_next_eq c n s x :
  0 < n_workers s -> next_worker x !! c = Some n ->
  take_next c s x = Ok (n mod n_workers s, with_next c (u8 (n + 1)) x).
Proof. intros Hs E. unfold take_next. rewrite E. replace (n_workers s =? 0) with false by lia. reflexivity. Qed.

Lemma with_next_twice c n m x : with_next c m (with_next c n x) = with_next c m x.
Proof. unfold with_next. simpl. rewrite insert_insert_eq. reflexivity. Qed.

(** Choosing a worker in turn. *)
Lemma choose_ok c x s :
  statics_wf x -> 0 < n_workers s ->
  exists i x', ('(i, x1) ← take_next (Some c) s (enter_activate (Some c) s x);
      if i =? c then take_next (Some c) s x1 else Ok (i, x1)) = Ok (i, x') /\
    0 <= i < n_workers s /\ statics_wf x' /\ in_turn c x s i x'.
Proof.
  intros Hx Hs. unfold in_turn. set (n := default (u8 (c + 1 - base_id s)) (next_worker x !! Some c)).
  assert (Hn : 0 <= n < 256).
  { unfold n. destruct (next_worker x !! Some c) eqn:E; simpl; [exact (sx_next _ Hx _ _ E) | apply wrap_is_word; lia]. }
  unfold enter_activate. fold n. rewrite (take_next_eq (Some c) n) by (exact Hs || apply lookup_insert_eq).
  cbn [mbind res_bind]. rewrite with_next_twice. destruct (n mod n_workers s =? c).
  - rewrite (take_next_eq (Some c) (u8 (n + 1))) by (exact Hs || apply lookup_insert_eq). rewrite with_next_twice.
    eexists _, _. split; [reflexivity |]. split; [apply Z.mod_pos_bound, Hs |]. split; [apply with_next_wf, Hx |].
    split; [reflexivity |]. f_equal. unfold wrap. rewrite Zplus_mod_idemp_l. reflexivity.
  - eexists _, _. split; [reflexivity |]. split; [apply Z.mod_pos_bound, Hs |]. split; [apply with_next_wf, Hx |].
    rewrite Z.add_0_r, (wrap_small 8 n) by lia. split; reflexivity.
Qed.

(** No worker was available: the task is given to one chosen in turn. *)
Lemma activate_busy c t x s :
  statics_wf x -> scheduler_wf s -> (forall j, 0 <= j < n_workers s -> is_busy j (m_worker_pool s) = true) ->
  exists x' s', ('(i, x) ← take_next (Some c) s (enter_activate (Some c) s x);
      '(i, x) ← (if i =? c then take_next (Some c) s x else Ok (i, x));
      '(_, s) ← on_pool_worker i (push_ready t) s;
      Ok (x, s)) = Ok (x', s') /\ statics_wf x' /\ scheduler_wf s' /\ base_id s' = base_id s /\ n_workers s' = n_workers s /\
    activated c t x s x' s'.
Proof.
  intros Hx Hs Hall. destruct (choose_ok c x s Hx (sw_some s Hs)) as (j & x' & E & Hj & Hx' & Hturn).
  apply bind_Ok in E as ([i x1] & -> & E). cbn [mbind res_bind]. rewrite E. cbn [mbind res_bind].
  destruct (on_pool_worker_ok j (push_ready t) s Hs Hj) as (w & s3 & Hw & E3 & Hs3 & ->); [reflexivity |].
  rewrite E3. cbn [mbind res_bind]. eexists x', _. split; [reflexivity |]. split; [exact Hx' |]. split; [exact Hs3 |].
  split; [reflexivity |]. split; [reflexivity |]. exists j, w, (snd (push_ready t w)). split; [exact Hj |].
  split; [exact Hw |]. repeat (split; [reflexivity |]). split.
  - intros k Hk. unfold is_busy. simpl. specialize (Hall k Hk). unfold is_busy in Hall. rewrite Hall.
    rewrite orb_true_r. reflexivity.
  - rewrite (Hall j Hj). auto.
Qed.

Lemma enter_activate_wf c s x : statics_wf x -> statics_wf (enter_activate c s x).
Proof.
  intros Hx. constructor; [| exact (sx_counter _ Hx)]. intros c' m Hl. simpl in Hl.
  apply lookup_insert_Some in Hl as [(<- & <-) | (_ & Hl)]; [| exact (sx_next _ Hx _ _ Hl)].
  destruct (next_worker x !! c) eqn:E; simpl; [exact (sx_next _ Hx _ _ E) |].
  destruct c; [apply wrap_is_word; lia | lia].
Qed.

Lemma activate_task_correct_spec c t x s :
  statics_wf x -> scheduler_wf s ->
  exists x' s', pool_activate_task (Some c) t (x, s) = Ok (x', s') /\ statics_wf x' /\ scheduler_wf s' /\
    base_id s' = base_id s /\ n_workers s' = n_workers s /\ activated c t x s x' s'.
Proof.
  intros Hx Hs. pose proof Hs as [Hp Hb Hn Hpos]. unfold pool_activate_task.
  destruct (find_free_worker_spec (m_worker_pool s) c Hp ltac:(lia)) as (r & p' & E & Hp' & Ew & En & Em & Hf).
  rewrite E. cbn [mbind res_bind].
  assert (Hs1 : scheduler_wf (with_pool p' s)) by (constructor; simpl; try assumption; congruence).
  destruct Hf as [(-> & -> & Hall) | (Hr & Ebz & Hbz)].
  - cbn [Z.ltb Z.compare deref mbind res_bind].
    replace (with_pool (m_worker_pool s) s) with s by (destruct s; reflexivity).
    rewrite Hn in Hall. exact (activate_busy c t x s Hx Hs Hall).
  - replace (r <? 0) with false by lia. rewrite wrap_small by (destruct (pw_small _ Hp); lia).
    destruct (on_pool_worker_ok r (push_ready t) (with_pool p' s) Hs1) as (w & s2 & Hw & E2 & Hs2 & ->);
      [simpl; lia | reflexivity |]. rewrite E2. cbn [mbind res_bind].
    destruct (on_pool_worker_ok r wake_worker _ Hs2) as (w2 & s3 & Hw2 & E3 & Hs3 & ->); [simpl; lia | reflexivity |].
    rewrite E3. cbn [mbind res_bind]. simpl in Hw, Hw2. rewrite Ew in Hw, Hw2.
    rewrite list_lookup_insert_eq in Hw2 by (eapply lookup_lt_Some, Hw). injection Hw2 as <-.
    eexists _, _. split; [reflexivity |]. split; [apply enter_activate_wf, Hx |]. split; [exact Hs3 |].
    split; [reflexivity |]. split; [reflexivity |].
    exists r, w, (snd (wake_worker (snd (push_ready t w)))). split; [lia |]. split; [exact Hw |].
    split; [simpl; rewrite Ew, list_insert_insert_eq; reflexivity |]. repeat (split; [reflexivity |]). split.
    + rewrite <- Hn. exact Hbz.
    + rewrite Ebz. split; reflexivity.
Qed.

(** C31 (activate): on a worker thread, a task that has become ready is put into exactly
    one ready queue: of an available worker if there is one, which is then marked busy and
    woken, and else of the worker whose turn it is by the counter of the thread, leaving out
    the position that equals the number of the thread; nothing else changes.  It does not
    fail. *)
Theorem activate_task_correct c t x s :
  statics_wf x -> scheduler_wf s ->
  exists x' s', pool_activate_task (Some c) t (x, s) = Ok (x', s') /\ statics_wf x' /\ scheduler_wf s' /\
    base_id s' = base_id s /\ n_workers s' = n_workers s /\ activated c t x s x' s'.
Proof. apply activate_task_correct_spec. Qed.

(** (activate_outside): a thread that is no worker cannot activate a task in a pool: the
    search for a free worker dereferences its empty [current_worker_id]. *)
Theorem activate_outside_worker t x s : pool_activate_task None t (x, s) = Err Undefined.
Proof. reflexivity. Qed.
(** ** Waking workers *)

(** More fuel does not change the result. *)
Lemma wake_loop_more f1 : forall f2 i bound (s s' : PoolScheduler),
  (f1 <= f2)%nat -> wake_loop f1 i bound s = Ok s' -> wake_loop f2 i bound s = Ok s'.
Proof.
  induction f1 as [| f1 IH]; intros f2 i bound s s' Hf E; [discriminate |].
  destruct f2 as [| f2]; [lia |]. cbn [wake_loop] in *. destruct (i <? bound); [| exact E].
  destruct (pool_wake i s) as [[b s1] |]; [| discriminate]. cbn [mbind res_bind] in *. apply IH; [lia | exact E].
Qed.

Definition awake (w : Worker (Q := Q)) : Worker := snd (wake_worker w).

(** All workers but those before position [i], and never the first, are awake. *)
Definition woken_from (i : Z) (s s' : PoolScheduler) : Prop :=
  exists l, s' = with_pool (with_workers l (m_worker_pool s)) s /\ length l = length (workers (m_worker_pool s)) /\
    forall j w, workers (m_worker_pool s) !! j = Some w ->
      l !! j = Some (if (i <=? Z.of_nat j) && (0 <? Z.of_nat j) then awake w else w).

Lemma pool_wake_ok i (s : PoolScheduler) :
  scheduler_wf s -> 0 < i < n_workers s ->
  exists w s', workers (m_worker_pool s) !! Z.to_nat i = Some w /\ scheduler_wf s' /\
    pool_wake (base_id s + i) s = Ok (should_wait w, s') /\
    s' = with_pool (with_workers (<[Z.to_nat i := awake w]> (workers (m_worker_pool s))) (m_worker_pool s)) s.
Proof.
  intros Hs Hi. unfold pool_wake. replace (base_id s + i - base_id s) with i by lia.
  replace ((0 <? i) && (i <=? n_workers s)) with true by lia.
  pose proof (pw_small _ (sw_pool s Hs)). rewrite (sw_n s Hs) in *. rewrite wrap_small by lia.
  destruct (on_pool_worker_ok i wake_worker s Hs) as (w & s' & Hw & E & Hs' & E'); [lia | reflexivity |].
  exists w, s'. auto.
Qed.

Lemma pool_wake_first (s : PoolScheduler) : pool_wake (base_id s) s = Ok (false, s).
Proof. unfold pool_wake. rewrite Z.sub_diag. reflexivity. Qed.

Lemma with_pool_same (s : PoolScheduler) : with_pool (with_workers (workers (m_worker_pool s)) (m_worker_pool s)) s = s.
Proof. destruct s as [b n [ws bf m bi]]. reflexivity. Qed.

Lemma wake_loop_turn fuel i bound (s s1 : PoolScheduler) b :
  i < bound -> pool_wake i s = Ok (b, s1) -> wake_loop (S fuel) i bound s = wake_loop fuel (u8 (i + 1)) bound s1.
Proof. intros Hi E. cbn [wake_loop]. replace (i <? bound) with true by lia. rewrite E. reflexivity. Qed.

Lemma wake_loop_ok k : forall i s,
  scheduler_wf s -> base_id s <= i -> i + Z.of_nat k = base_id s + n_workers s ->
  exists s', wake_loop (S k) i (base_id s + n_workers s) s = Ok s' /\ scheduler_wf s' /\ woken_from (i - base_id s) s s'.
Proof.
  induction k as [| k IH]; intros i s Hs Hi Hk.
  - exists s. split; [| split; [exact Hs |]].
    + cbn [wake_loop]. replace (i <? base_id s + n_workers s) with false by lia. reflexivity.
    + exists (workers (m_worker_pool s)). split; [symmetry; apply with_pool_same |]. split; [reflexivity |].
      intros j w Hj. pose proof (lookup_lt_Some _ _ _ Hj). pose proof (pw_size _ (sw_pool s Hs)) as Hsz.
      rewrite (sw_n s Hs) in Hsz. unfold size in Hsz. replace (i - base_id s <=? Z.of_nat j) with false by lia. exact Hj.
  - assert (Hturn : exists b s1, pool_wake i s = Ok (b, s1) /\ scheduler_wf s1 /\ exists l,
      s1 = with_pool (with_workers l (m_worker_pool s)) s /\ length l = length (workers (m_worker_pool s)) /\
      forall j w, workers (m_worker_pool s) !! j = Some w ->
        l !! j = Some (if (i - base_id s =? Z.of_nat j) && (0 <? Z.of_nat j) then awake w else w)).
    { destruct (Z.eq_dec i (base_id s)) as [-> | Hne].
      - exists false, s. split; [apply pool_wake_first |]. split; [exact Hs |]. exists (workers (m_worker_pool s)).
        split; [symmetry; apply with_pool_same |]. split; [reflexivity |]. intros j w Hj.
        replace ((base_id s - base_id s =? Z.of_nat j) && (0 <? Z.of_nat j)) with false by lia. exact Hj.
      - destruct (pool_wake_ok (i - base_id s) s Hs ltac:(lia)) as (w & s1 & Hw & Hs1 & E & E1).
        replace (base_id s + (i - base_id s)) with i in E by lia. exists (should_wait w), s1.
        split; [exact E |]. split; [exact Hs1 |]. eexists. split; [exact E1 |]. split; [apply length_insert |].
        intros j x Hj. destruct (Z.eqb_spec (i - base_id s) (Z.of_nat j)) as [Ej | Nj].
        + replace (0 <? Z.of_nat j) with true by lia. rewrite Ej, Nat2Z.id in *.
          rewrite list_lookup_insert_eq by (eapply lookup_lt_Some, Hj). simpl. congruence.
        + rewrite list_lookup_insert_ne by lia. exact Hj. }
    destruct Hturn as (b & s1 & E & Hs1 & l & El & Hlen & Hl).
    assert (Eb : base_id s1 = base_id s /\ n_workers s1 = n_workers s) by (rewrite El; split; reflexivity).
    destruct Eb as [Eb En].
    destruct (IH (i + 1) s1 Hs1) as (s' & E' & Hs' & l' & El' & Hlen' & Hl'); [lia | lia |].
    exists s'. split; [| split; [exact Hs' |]].
    + rewrite (wake_loop_turn (S k) i _ s s1 b) by (lia || exact E).
      rewrite wrap_small; [rewrite <- Eb, <- En at 1; exact E' |].
      destruct (pw_small _ (sw_pool s Hs)). rewrite (sw_n s Hs), (sw_base s Hs) in *. lia.
    + exists l'. rewrite El', El. split; [reflexivity |]. rewrite El in Hlen'. simpl in Hlen'. split; [congruence |].
      intros j w Hj. rewrite El in Hl'. simpl in Hl'. rewrite (Hl' j _ (Hl j w Hj)). f_equal.
      destruct (Z.ltb_spec 0 (Z.of_nat j)); rewrite ?andb_false_r, ?andb_true_r; [| reflexivity].
      destruct (Z.leb_spec (i - base_id s) (Z.of_nat j)), (Z.leb_spec (i + 1 - base_id s) (Z.of_nat j)),
        (Z.eqb_spec (i - base_id s) (Z.of_nat j)); try lia; reflexivity.
Qed.

(** (wake): [wake] of a worker's id wakes that worker and reports whether it
    was waiting, except for the first worker of the pool, which it never wakes;
    the id after the last worker's fails an assertion; [wake_all] wakes every
    worker but the first. *)
Theorem wake_skips_first (s : PoolScheduler) :
  scheduler_wf s ->
  (forall i, 0 < i < n_workers s -> exists w, workers (m_worker_pool s) !! Z.to_nat i = Some w /\
     pool_wake (base_id s + i) s = Ok (should_wait w,
       with_pool (with_workers (<[Z.to_nat i := awake w]> (workers (m_worker_pool s))) (m_worker_pool s)) s)) /\
  pool_wake (base_id s) s = Ok (false, s) /\
  pool_wake (base_id s + n_workers s) s = Err AssertFailed /\
  exists s', pool_wake_all s = Ok s' /\ woken_from 0 s s'.
Proof.
  intros Hs. pose proof (pw_small _ (sw_pool s Hs)) as Hsm. rewrite (sw_n s Hs), (sw_base s Hs) in Hsm.
  pose proof (sw_some s Hs) as Hpos. split; [| split; [apply pool_wake_first |]; split].
  - intros i Hi. destruct (pool_wake_ok i s Hs Hi) as (w & s' & Hw & _ & E & ->). eauto.
  - unfold pool_wake. replace (base_id s + n_workers s - base_id s) with (n_workers s) by lia.
    replace ((0 <? n_workers s) && (n_workers s <=? n_workers s)) with true by lia.
    unfold on_pool_worker, on_worker, get_worker_thread. rewrite wrap_small by lia.
    rewrite (pw_size _ (sw_pool s Hs)), (sw_n s Hs), Z.ltb_irrefl. reflexivity.
  - destruct (wake_loop_ok (Z.to_nat (n_workers s)) (base_id s) s Hs) as (s' & E & _ & Hw); [lia | lia |].
    rewrite Z.sub_diag in Hw. exists s'. split; [| exact Hw]. unfold pool_wake_all.
    apply (wake_loop_more (S (Z.to_nat (n_workers s)))); [lia | exact E].
Qed.
(** ** Both schedulers meet the interface *)

Lemma all_queued_workers k (p p' : WorkerPool (Q := Q)) : workers p = workers p' -> all_queued k p = all_queued k p'.
Proof. intros E. unfold all_queued. rewrite E. reflexivity. Qed.

Lemma activated_pending c t x s x' s' :
  activated c t x s x' s' ->
  all_queued Ready (m_worker_pool s') ≡ₚ t :: all_queued Ready (m_worker_pool s) /\
  all_queued New (m_worker_pool s') = all_queued New (m_worker_pool s).
Proof.
  intros (i & w & w' & _ & Hw & Ew & Er & Ee & _ & _).
  rewrite !(all_queued_workers _ (m_worker_pool s') (with_workers (<[Z.to_nat i := w']> (workers (m_worker_pool s)))
    (m_worker_pool s))) by exact Ew.
  split.
  - apply (all_queued_more Ready _ _ w w' [t] Hw). simpl. rewrite Er. apply queued_push.
  - apply all_queued_same with w; [exact Hw | exact Ee].
Qed.

#[export] Instance pool_scheduler_laws : SchedulerLaws (Statics * PoolScheduler) (fun c => is_Some c).
Proof.
  constructor; simpl.
  - intros t i [x s] [Hx Hs] Hi. simpl in *. destruct (pool_emplace_ok t i s Hs Hi) as (w & s' & Hw & E & Hs' & ->).
    unfold keep_statics. rewrite E. cbn [mbind res_bind]. eexists. split; [reflexivity |]. split; [auto |].
    split; [reflexivity |]. split; simpl.
    + apply (all_queued_more New _ _ w _ [t] Hw). apply queued_push.
    + apply all_queued_same with w; [exact Hw | reflexivity].
  - intros c t [x s] [Hx Hs] [y ->]. simpl in *.
    destruct (activate_task_correct_spec y t x s Hx Hs) as (x' & s' & E & Hx' & Hs' & Eb & En & Ha).
    exists (x', s'). split; [exact E |]. split; [auto |]. split; [unfold pool_ids; simpl; congruence |]. exact (activated_pending _ _ _ _ _ _ Ha).
  - intros i [x s] [Hx Hs] Hi. simpl in *. destruct (worker_id_index s i Hs Hi) as [Hr _].
    destruct (Z.eq_dec i (base_id s)) as [-> | Hne].
    + rewrite pool_wake_first. exists false, (x, s). auto.
    + destruct (pool_wake_ok (i - base_id s) s Hs ltac:(lia)) as (w & s' & Hw & Hs' & E & ->).
      replace (base_id s + (i - base_id s)) with i in E by lia. rewrite E. eexists _, _. split; [reflexivity |].
      split; [auto |]. split; [reflexivity |]. intros k. simpl. apply all_queued_same with w; [exact Hw |].
      destruct k; reflexivity.
  - intros [x s] [Hx Hs]. simpl in *. pose proof Hs as [Hp Hb Hn Hpos]. replace (n_workers s =? 0) with false by lia.
    eexists _, _. split; [reflexivity |]. split; [| split; [reflexivity |]; split; [| reflexivity]]; simpl.
    + split; [constructor; [exact (sx_next _ Hx) | apply wrap_is_word; lia] | exact Hs].
    + apply elem_of_zrange. destruct (pw_small _ Hp).
      pose proof (Z.mod_pos_bound (local_next_worker_counter x) (n_workers s) Hpos). rewrite wrap_small; lia.
Qed.

(** A thread scheduler's only worker is id 0's, whatever its id: [wake] of any
    other id does nothing. *)
#[export] Instance thread_scheduler_laws : SchedulerLaws ThreadScheduler (fun _ => True).
Proof.
  constructor; simpl.
  - intros t i s (w & Hw & Ei) _. unfold thread_emplace_task, on_thread. rewrite Hw. eexists.
    split; [reflexivity |]. split; [eexists; split; [reflexivity | exact Ei] |]. split; [reflexivity |].
    split; [apply queued_push | reflexivity].
  - intros c t s (w & Hw & Ei) _. unfold thread_activate_task, on_thread. rewrite Hw. eexists.
    split; [reflexivity |]. split; [eexists; split; [reflexivity | exact Ei] |]. split; [reflexivity |].
    split; [apply queued_push | reflexivity].
  - intros i s (w & Hw & Ei) _. unfold thread_wake, on_thread. rewrite Hw. destruct (i =? 0).
    + eexists _, _. split; [reflexivity |]. split; [eexists; split; [reflexivity | exact Ei] |].
      split; [reflexivity |]. intros k. simpl. destruct k; reflexivity.
    + exists false, s. split; [reflexivity |]. rewrite Hw. eauto.
  - intros s Hs. exists (t_base_id s), s. split; [reflexivity |]. split; [exact Hs |]. split; [reflexivity |].
    split; [left | reflexivity].
Qed.

(** ** Round robin *)

(** The next [k] worker ids. *)
Fixpoint next_ids (k : nat) (xs : Statics * PoolScheduler) : res (list Z * (Statics * PoolScheduler)) :=
  match k with
  | O => Ok ([], xs)
  | S k => '(i, xs) ← pool_getNextWorkerID xs; '(l, xs) ← next_ids k xs; Ok (i :: l, xs)
  end.

Lemma next_ids_ok s (Hs : scheduler_wf s) k : forall x,
  statics_wf x -> exists xs', next_ids k (x, s) =
    Ok ((fun j => base_id s + (u8 (local_next_worker_counter x + j)) mod n_workers s) <$> zrange 0 (Z.of_nat k), xs').
Proof.
  induction k as [| k IH]; intros x [Hx Hc].
  - exists (x, s). reflexivity.
  - pose proof Hs as [Hp Hb Hn Hpos]. cbn [next_ids]. unfold pool_getNextWorkerID.
    replace (n_workers s =? 0) with false by lia. cbn [mbind res_bind]. set (x1 := mkStatics _ _).
    assert (Hx1 : statics_wf x1) by (constructor; [exact Hx | apply wrap_is_word; lia]).
    destruct (IH x1 Hx1) as [xs' E]. exists xs'. rewrite E. cbn [mbind res_bind].
    rewrite (zrange_cons 0 (Z.of_nat (S k))) by lia. rewrite fmap_cons. destruct (pw_small _ Hp).
    pose proof (Z.mod_pos_bound (local_next_worker_counter x) (n_workers s) Hpos).
    rewrite Z.add_0_r, (wrap_small 8 (local_next_worker_counter x)), (wrap_small 8 (_ + base_id s)) by lia.
    rewrite (Z.add_comm _ (base_id s)).
    replace (zrange (0 + 1) (Z.of_nat (S k))) with (zrange (1 + 0) (1 + Z.of_nat k)) by (f_equal; lia).
    rewrite zrange_shift, <- list_fmap_compose.
    assert (Ef : ((fun j => base_id s + u8 (local_next_worker_counter x1 + j) mod n_workers s) <$> zrange 0 (Z.of_nat k))
      = ((fun j => base_id s + u8 (local_next_worker_counter x + j) mod n_workers s) ∘ (fun i => 1 + i)) <$> zrange 0 (Z.of_nat k)).
    { apply list_fmap_ext. intros _ j _. simpl. do 2 f_equal. unfold wrap.
      rewrite Zplus_mod_idemp_l. f_equal. lia. }
    rewrite Ef. reflexivity.
Qed.

(** (round_robin): while the 8-bit counter does not wrap around, [n_workers]
    new tasks in a row go to all workers of the pool, each once, if no other pool
    creates a task meanwhile; every id handed out is one of the pool's, so the task can
    be emplaced there. *)
Theorem round_robin x s :
  statics_wf x -> scheduler_wf s -> local_next_worker_counter x + n_workers s <= 256 ->
  exists ids xs', next_ids (Z.to_nat (n_workers s)) (x, s) = Ok (ids, xs') /\
    ids ≡ₚ zrange (base_id s) (base_id s + n_workers s).
Proof.
  intros Hx Hs Hc. destruct (next_ids_ok s Hs (Z.to_nat (n_workers s)) x Hx) as [xs' E].
  pose proof (sw_some s Hs). pose proof (sx_counter x Hx). rewrite Z2Nat.id in E by lia. eexists _, xs'. split; [exact E |].
  set (c := local_next_worker_counter x) in *. set (n := n_workers s) in *.
  symmetry. apply NoDup_Permutation_bis; [apply NoDup_ListNoDup, NoDup_zrange | |].
  - unfold zrange. rewrite !length_fmap, !length_seq. lia.
  - intros y Hy. apply list_elem_of_In, elem_of_zrange in Hy. apply list_elem_of_In, list_elem_of_fmap. exists ((y - base_id s - c) mod n).
    pose proof (Z.mod_pos_bound (y - base_id s - c) n ltac:(lia)).
    split; [| apply elem_of_zrange; lia]. rewrite wrap_small by lia. rewrite Zplus_mod_idemp_r.
    replace (c + (y - base_id s - c)) with (y - base_id s) by lia. rewrite Z.mod_small; lia.
Qed.
End Schedulers.

(** ** Concrete runs *)

Definition sample : PoolScheduler (Q := list nat) := mkScheduler 2 3 three_workers.

Lemma pool_sample_wf : scheduler_wf sample.
Proof.
  constructor; try reflexivity.
  exact three_workers_wf.
Qed.

Lemma activate_task_correct_witness :
  exists x' s', pool_activate_task (Some 4) 9 (no_statics, sample) = Ok (x', s') /\
    activated 4 9 no_statics sample x' s' /\ ready_queue <$> workers (m_worker_pool s') = [[7]; [9]; []]%nat.
Proof.
  destruct (activate_task_correct 4 9 no_statics sample no_statics_wf pool_sample_wf) as (x' & s' & E & _ & _ & _ & _ & Ha).
  exists x', s'. split; [exact E |]. split; [exact Ha |]. vm_compute in E. injection E as _ <-. reflexivity.
Defined.

Lemma wake_skips_first_witness :
  pool_wake 2 sample = Ok (false, sample) /\ pool_wake 5 sample = Err AssertFailed /\
  exists s', pool_wake_all sample = Ok s' /\ should_wait <$> workers (m_worker_pool s') = [true; false; false].
Proof.
  destruct (wake_skips_first sample pool_sample_wf) as (_ & E1 & E2 & s' & E3 & _).
  split; [exact E1 |]. split; [exact E2 |]. exists s'. split; [exact E3 |].
  vm_compute in E3. injection E3 as <-. reflexivity.
Defined.

Lemma round_robin_witness :
  exists ids xs', next_ids 3 (no_statics, sample) = Ok (ids, xs') /\ ids = [2; 3; 4].
Proof.
  destruct (round_robin no_statics sample no_statics_wf pool_sample_wf ltac:(simpl; lia)) as (ids & xs' & E & _).
  exists ids, xs'. split; [exact E |]. vm_compute in E. injection E as <- _. reflexivity.
Defined.

(** With every worker busy a thread tries not to give the task to itself, but it
    compares a position in the pool with its global id: worker 2, the first of
    this pool, skips the third one instead, and takes what it should not. *)
Definition all_busy : PoolScheduler (Q := list nat) :=
  mkScheduler 2 3 (with_state (Bitfield.mkBitfield 3 [0]) three_workers).

Example activate_compares_ids :
  exists x' s', pool_activate_task (Some 2) 9 (mkStatics {[Some 2 := 2]} 0, all_busy) = Ok (x', s') /\
    id <$> List.filter (fun w => bool_decide (9%nat ∈ ready_queue w)) (workers (m_worker_pool s')) = [2].
Proof. eexists _, _. split; vm_compute; reflexivity. Qed.

(** The pools share the counter for new tasks: when the program creates tasks for two
    pools of two workers in turn, the tasks of a pool all go to one of its workers. *)
Definition take_turns (s1 s2 : PoolScheduler (Q := list nat)) : res (list Z) :=
  '(i, (x, s1)) ← pool_getNextWorkerID (no_statics, s1);
  '(j, (x, s2)) ← pool_getNextWorkerID (x, s2);
  '(k, (x, s1)) ← pool_getNextWorkerID (x, s1);
  '(l, (x, s2)) ← pool_getNextWorkerID (x, s2);
  Ok [i; j; k; l].

Example pools_share_counter : take_turns (new_scheduler 2 0) (mkScheduler 2 2 (new_pool 2 2)) = Ok [0; 3; 0; 3].
Proof. vm_compute. reflexivity. Qed.
End Scheduler.
