(* ===== verification/Startup.v ===== *)
(** Starting the runtime: the constructor of [RedGrapes] ([redGrapes/redGrapes.hpp])
    gives each scheduler the ids of its workers and each worker its arena. *)

From Stdlib Require Import ZArith Lia Bool.
From stdpp Require Import base list gmap.
From S2P Require Import Prelude Bitfield Graph Arenas Workers Scheduler.

Open Scope Z_scope.
Open Scope word_scope.

Module Startup.
Import Workers Scheduler.

Section Startup.
Context {Q : Type} `{TaskQueueLaws Q}.

(** The schedulers that the descriptions of the program name. *)
Inductive Sched : Type :=
  | Pool (s : PoolScheduler (Q := Q))
  | Thread (s : ThreadScheduler (Q := Q)).

Definition sched_workers (s : Sched) : Z := match s with Pool s => n_workers s | Thread _ => 1 end.

Definition sched_ids (s : Sched) : list Z :=
  match s with Pool s => pool_ids s | Thread s => worker_ids s end.

Definition sched_valid (s : Sched) : Prop :=
  match s with Pool s => scheduler_wf s | Thread s => valid s end.

Definition init_sched (base n_pus arenas : Z) (s : Sched) : res (Sched * Z) :=
  match s with
  | Pool s => '(s, arenas) ← init_scheduler base n_pus arenas s; Ok (Pool s, arenas)
  | Thread s => '(s, arenas) ← init_thread base n_pus arenas s; Ok (Thread s, arenas)
  end.

(** [initAdd] on every scheduler; [base_worker_id] is a [WorkerId]. *)
Fixpoint init_all (n_pus base arenas : Z) (l : list Sched) : res (list Sched * Z) :=
  match l with
  | [] => Ok ([], arenas)
  | s :: l =>
      '(s, arenas) ← init_sched base n_pus arenas s;
      '(l, arenas) ← init_all n_pus (u8 (base + sched_workers s)) arenas l;
      Ok (s :: l, arenas)
  end.

(** [TaskFreeCtx]: the number of workers, of which the processing units and the
    arenas that were made. *)
Record TaskFreeCtx : Type := mkCtx { n_workers : Z; n_pus : Z; arenas : Z }.

Definition total_workers (l : list Sched) : Z := foldr (fun s n => sched_workers s + n) 0 l.

(** [hwloc_pus] is what hwloc counts. *)
Definition construct (hwloc_pus : Z) (l : list Sched) : res (list Sched * TaskFreeCtx) :=
  let pus := u8 hwloc_pus in
  '(l', arenas) ← init_all pus 0 0 l;
  Ok (l', mkCtx (u8 (total_workers l)) pus arenas).

(** ** What holds of a program that just started *)

(** A scheduler that was just made: [init] has not been called. *)
Definition new_sched (s : Sched) : Prop :=
  match s with
  | Pool s => exists n garbage, 0 < n <= 255 /\ s = new_scheduler n garbage
  | Thread s => m_worker_thread s = None
  end.

Lemma init_scheduler_ok n garbage base n_pus arenas :
  0 < n -> 0 <= base -> base + n <= 255 -> base <= arenas -> n_pus <> 0 ->
  exists s, init_scheduler base n_pus arenas (new_scheduler n garbage) = Ok (s, arenas + n) /\
    scheduler_wf s /\ Scheduler.n_workers s = n /\ pool_ids s = zrange base (base + n).
Proof.
  intros Hn Hb Hs Ha Hp. destruct (emplace_workers_correct n base n_pus arenas garbage) as [He _]; try lia.
  destruct (He Hs 257%nat ltac:(lia)) as (p & E & Hw & En & Eb & _). unfold init_scheduler.
  cbn [m_worker_pool new_scheduler]. rewrite E. cbn [mbind res_bind]. eexists. split; [reflexivity |]. split; [| split; reflexivity].
  constructor; cbn; try assumption; try lia.
Qed.

Lemma init_sched_ok s base n_pus arenas :
  new_sched s -> 0 <= base -> base + sched_workers s <= 255 -> base <= arenas -> n_pus <> 0 ->
  exists s', init_sched base n_pus arenas s = Ok (s', arenas + sched_workers s) /\
    sched_valid s' /\ sched_workers s' = sched_workers s /\ sched_ids s' = zrange base (base + sched_workers s).
Proof.
  destruct s as [s | s]; cbn [new_sched sched_workers init_sched]; intros Hn Hb Hs Ha Hp.
  - destruct Hn as (n & g & Hn & ->). destruct (init_scheduler_ok n g base n_pus arenas) as (s' & E & Hw & En & Ei); try assumption; try lia.
    rewrite E. cbn [mbind res_bind]. exists (Pool s'). auto.
  - unfold init_thread. rewrite Hn. replace (n_pus =? 0) with false by lia. replace (base <? arenas + 1) with true by lia.
    cbn [cpp_assert mbind res_bind]. eexists. split; [reflexivity |]. split; [exists (new_worker base); auto |]. split; [reflexivity |].
    rewrite zrange_cons, zrange_nil by lia. reflexivity.
Qed.

Lemma total_cons s l : total_workers (s :: l) = sched_workers s + total_workers l.
Proof. reflexivity. Qed.

Lemma total_nonneg l : Forall new_sched l -> 0 <= total_workers l.
Proof.
  induction 1 as [| s l Hs _ IH]; simpl; [lia |]. destruct s as [s | s]; simpl in *; [| lia].
  destruct Hs as (n & g & Hn & ->). simpl. lia.
Qed.

Lemma init_all_ok n_pus l : forall base arenas,
  Forall new_sched l -> 0 <= base -> base + total_workers l <= 255 -> base <= arenas -> n_pus <> 0 ->
  exists l', init_all n_pus base arenas l = Ok (l', arenas + total_workers l) /\ Forall sched_valid l' /\
    concat (sched_ids <$> l') = zrange base (base + total_workers l).
Proof.
  induction l as [| s l IH]; intros base arenas Hl Hb Hs Ha Hp.
  - exists []. simpl. rewrite zrange_nil by lia. split; [rewrite Z.add_0_r; reflexivity |]. split; [apply List.Forall_nil | reflexivity].
  - apply Forall_cons in Hl as [Hn Hl]. rewrite total_cons in *.
    pose proof (total_nonneg l Hl) as Ht. assert (Hpos : 0 < sched_workers s).
    { destruct s as [s | s]; simpl in *; [destruct Hn as (n & g & Hn & ->); simpl; lia | lia]. }
    destruct (init_sched_ok s base n_pus arenas) as (s' & E & Hv & Ew & Ei); try assumption; try lia.
    destruct (IH (base + sched_workers s) (arenas + sched_workers s)) as (l' & E' & Hv' & Ei'); try assumption; try lia.
    exists (s' :: l'). cbn [init_all]. rewrite E. cbn [mbind res_bind]. rewrite Ew, wrap_small by lia. rewrite E'. cbn [mbind res_bind].
    rewrite Z.add_assoc. split; [reflexivity |]. split; [constructor; assumption |].
    rewrite fmap_cons. cbn [concat]. rewrite Ei, Ei', zrange_app by lia. f_equal. lia.
Qed.

(** C32 (startup): with at most 255 workers in all, the constructor ends; the
    schedulers keep their invariants, their workers have the ids from 0 on in the
    order of the descriptions, no id twice, and worker [i] has arena [i].  No worker
    has the id that stands for the parser unless there are 255. *)
Theorem construct_correct hwloc_pus l :
  Forall new_sched l -> total_workers l <= 255 -> u8 hwloc_pus <> 0 ->
  exists l', construct hwloc_pus l = Ok (l', mkCtx (total_workers l) (u8 hwloc_pus) (total_workers l)) /\
    Forall sched_valid l' /\ concat (sched_ids <$> l') = zrange 0 (total_workers l) /\
    (Graph.parserID ∈ concat (sched_ids <$> l') <-> total_workers l = 255).
Proof.
  intros Hl Ht Hp. pose proof (total_nonneg l Hl) as Hn.
  destruct (init_all_ok (u8 hwloc_pus) l 0 0) as (l' & E & Hv & Ei); try assumption; try lia.
  exists l'. unfold construct. rewrite E. cbn [mbind res_bind]. rewrite wrap_small by lia.
  split; [reflexivity |]. split; [exact Hv |]. split; [exact Ei |]. rewrite Ei, elem_of_zrange.
  unfold Graph.parserID. lia.
Qed.

(** The first worker of a new scheduler is refused. *)
Lemma init_sched_fails s base n_pus arenas e :
  new_sched s -> 0 <= base <= 255 ->
  (n_pus = 0 /\ e = Undefined \/ n_pus <> 0 /\ arenas < base /\ e = AssertFailed) ->
  init_sched base n_pus arenas s = Err e.
Proof.
  intros Hn Hb He. assert (Hc : (if n_pus =? 0 then Err Undefined else Ok tt) = Err e \/
    (if n_pus =? 0 then Err Undefined else Ok tt) = Ok tt /\ cpp_assert (base <? arenas + 1) = Err e).
  { destruct He as [[-> ->] | (Hp & Ha & ->)]; [left; reflexivity | right].
    replace (n_pus =? 0) with false by lia. replace (base <? arenas + 1) with false by lia. auto. }
  destruct s as [s | s]; cbn [new_sched init_sched] in *.
  - destruct Hn as (n & g & Hn & ->). unfold init_scheduler, emplace_workers, new_scheduler, new_pool.
    cbn [m_worker_pool num_workers workers]. rewrite (wrap_small 8 n) by lia.
    change 257%nat with (S 256). generalize 256%nat. intros fuel. cbn [emplace_loop].
    replace (base <? base + n) with true by lia.
    destruct (n_pus =? 0); destruct Hc as [Hc | [Hc Hc']]; try discriminate; [injection Hc as <-; reflexivity |].
    rewrite Hc'. reflexivity.
  - unfold init_thread. rewrite Hn.
    destruct (n_pus =? 0); destruct Hc as [Hc | [Hc Hc']]; try discriminate; [injection Hc as <-; reflexivity |].
    rewrite Hc'. reflexivity.
Qed.

(** The pool that passes the last id is never filled. *)
Lemma init_all_stuck n_pus l : forall base arenas,
  (forall s, s ∈ l -> new_sched s /\ exists p, s = Pool p) -> 0 <= base <= 255 -> 255 < base + total_workers l -> base <= arenas ->
  n_pus <> 0 -> init_all n_pus base arenas l = Err OutOfFuel.
Proof.
  induction l as [| s l IH]; intros base arenas Hl Hb Ht Ha Hp; [simpl in Ht; lia |].
  destruct (Hl s ltac:(left)) as [Hn [p ->]]. pose proof Hn as (n & g & Hn' & ->). rewrite total_cons in Ht.
  cbn [sched_workers Scheduler.n_workers new_scheduler] in Ht. cbn [init_all].
  destruct (Z.le_gt_cases (base + n) 255) as [Hle | Hgt].
  - destruct (init_sched_ok (Pool (new_scheduler n g)) base n_pus arenas) as (s' & E & _ & Ew & _); try assumption; try lia.
    rewrite E. cbn [mbind res_bind]. rewrite Ew. cbn [sched_workers Scheduler.n_workers new_scheduler].
    rewrite wrap_small by lia. rewrite IH; [reflexivity | | lia | lia | lia | exact Hp].
    intros x Hx. apply Hl. right. exact Hx.
  - destruct (emplace_workers_correct n base n_pus arenas g) as [_ He]; try lia.
    cbn [init_sched]. unfold init_scheduler. cbn [m_worker_pool new_scheduler]. rewrite He by lia. reflexivity.
Qed.

(** (startup_fails): what goes wrong beyond that. With a multiple of 256
    processing units their number is taken for 0, and the constructor divides by it.
    A thread scheduler that is given its worker counts one worker but makes no arena,
    so an assertion fails in the next scheduler. Pools of more than 255 workers in
    all are never filled. *)
Theorem construct_fails s l :
  new_sched s ->
  (forall k, construct (256 * k) (s :: l) = Err Undefined) /\
  (forall g w hwloc_pus, u8 hwloc_pus <> 0 -> construct hwloc_pus (Thread (mkThread g (Some w)) :: s :: l) = Err AssertFailed) /\
  (forall hwloc_pus, u8 hwloc_pus <> 0 -> 255 < total_workers (s :: l) ->
     (forall x, x ∈ s :: l -> new_sched x /\ exists p, x = Pool p) -> construct hwloc_pus (s :: l) = Err OutOfFuel).
Proof.
  intros Hn. split; [| split]; unfold construct.
  - intros k. assert (E : u8 (256 * k) = 0) by (unfold wrap; rewrite Z.mul_comm; apply Z_mod_mult).
    cbn [init_all]. rewrite (init_sched_fails s _ _ _ Undefined); [reflexivity | exact Hn | lia | auto].
  - intros g w hwloc_pus Hp. cbn [init_all init_sched init_thread m_worker_thread sched_workers mbind res_bind].
    change (u8 (0 + 1)) with 1. rewrite (init_sched_fails s _ _ _ AssertFailed); [reflexivity | exact Hn | lia | right; split; [exact Hp | split; [lia | reflexivity]]].
  - intros hwloc_pus Hp Ht Hl. rewrite (init_all_stuck (u8 hwloc_pus) (s :: l)); [reflexivity | exact Hl | lia | lia | lia | exact Hp].
Qed.
End Startup.

(** ** A concrete program: two pools and a thread of its own *)

Definition descriptions : list (Sched (Q := list nat)) :=
  [Pool (new_scheduler 17 99); Pool (new_scheduler 4 0); Thread (mkThread 7 None)].

Lemma descriptions_new : Forall new_sched descriptions.
Proof.
  repeat first [apply List.Forall_nil | apply Forall_cons; split]; [exists 17, 99 | exists 4, 0 | reflexivity];
    (split; [lia | reflexivity]).
Qed.

Lemma construct_correct_witness :
  exists l', construct 8 descriptions = Ok (l', mkCtx 22 8 22) /\ concat (sched_ids <$> l') = zrange 0 22.
Proof.
  destruct (construct_correct 8 descriptions descriptions_new) as (l' & E & _ & Ei & _).
  - vm_compute. discriminate.
  - vm_compute. discriminate.
  - exists l'. split; [exact E | exact Ei].
Defined.

Lemma construct_fails_witness :
  construct 256 descriptions = Err Undefined /\
  construct (Q := list nat) 8 [Thread (mkThread 0 (Some (new_worker 0))); Pool (new_scheduler 4 0)] = Err AssertFailed /\
  construct (Q := list nat) 8 [Pool (new_scheduler 250 0); Pool (new_scheduler 6 0)] = Err OutOfFuel.
Proof.
  destruct (construct_fails (Pool (new_scheduler 17 99)) [Pool (new_scheduler 4 0); Thread (mkThread 7 None)]) as (H1 & _ & _);
    [exists 17, 99; split; [lia | reflexivity] |].
  destruct (construct_fails (Q := list nat) (Pool (new_scheduler 4 0)) []) as (_ & H2 & _); [exists 4, 0; split; [lia | reflexivity] |].
  destruct (construct_fails (Q := list nat) (Pool (new_scheduler 250 0)) [Pool (new_scheduler 6 0)]) as (_ & _ & H3);
    [exists 250, 0; split; [lia | reflexivity] |].
  split; [exact (H1 1) |]. split; [apply H2; discriminate |]. apply H3; [discriminate | vm_compute; reflexivity |].
  intros x Hx. apply elem_of_cons in Hx as [-> | Hx]; [| apply list_elem_of_singleton in Hx as ->];
    (split; [eexists _, _; split; [| reflexivity]; lia | eauto]).
Defined.
End Startup.
