(* ===== verification/Tags.v ===== *)
(** Several schedulers: the program names them by tags ([SchedulerDescription.hpp],
    [util/tuple_map.hpp]); a task is created for the scheduler of a tag
    ([redGrapes/redGrapes.hpp]) and keeps it ([task/task.hpp]), and what its events ask
    for goes to that scheduler ([scheduler/event.tpp]). *)

From Stdlib Require Import ZArith Lia Bool.
From stdpp Require Import base list gmap.
From S2P Require Import Prelude Bitfield Graph Arenas Workers Scheduler Startup.

Open Scope Z_scope.
Open Scope word_scope.

Module Tags.
Import Workers Scheduler Startup Graph.

Section Tags.
Context {Q : Type} `{TaskQueueLaws Q}.
Abbreviation Sched := (Sched (Q := Q)).

(** ** The virtual functions of [IScheduler] *)

Definition sched_emplace (t : nat) (i : Z) (s : Sched) : res Sched :=
  match s with
  | Pool s => s ← pool_emplace_task t i s; Ok (Pool s)
  | Thread s => s ← thread_emplace_task t i s; Ok (Thread s)
  end.
Definition sched_activate (current : option Z) (t : nat) '((x, s) : Statics * Sched) : res (Statics * Sched) :=
  match s with
  | Pool s => '(x, s) ← pool_activate_task current t (x, s); Ok (x, Pool s)
  | Thread s => s ← thread_activate_task current t s; Ok (x, Thread s)
  end.
Definition sched_wake (i : Z) (s : Sched) : res (bool * Sched) :=
  match s with
  | Pool s => '(b, s) ← pool_wake i s; Ok (b, Pool s)
  | Thread s => '(b, s) ← thread_wake i s; Ok (b, Thread s)
  end.
Definition sched_wake_all (s : Sched) : res Sched :=
  match s with
  | Pool s => s ← pool_wake_all s; Ok (Pool s)
  | Thread s => s ← thread_wake_all s; Ok (Thread s)
  end.
Definition sched_next '((x, s) : Statics * Sched) : res (Z * (Statics * Sched)) :=
  match s with
  | Pool s => '(i, (x, s)) ← pool_getNextWorkerID (x, s); Ok (i, (x, Pool s))
  | Thread s => '(i, s) ← thread_getNextWorkerID s; Ok (i, (x, Thread s))
  end.
Definition sched_pending (k : Kind) (s : Sched) : list nat :=
  match s with Pool s => all_queued k (m_worker_pool s) | Thread s => pending k s end.

Lemma pool_valid x (s : PoolScheduler (Q := Q)) : statics_wf x -> scheduler_wf s -> valid (S := Statics * PoolScheduler) (x, s).
Proof. split; assumption. Qed.

Lemma thread_valid (s : ThreadScheduler (Q := Q)) : sched_valid (Thread s) -> valid s.
Proof. intros Hs. exact Hs. Qed.

(** A scheduler with the static variables that the pools share. *)
#[export] Instance sched_scheduler : IScheduler (Statics * Sched) := {
  emplace_task t i := keep_statics (sched_emplace t i);
  activate_task := sched_activate;
  wake i xs := '(b, s) ← sched_wake i (snd xs); Ok (b, (fst xs, s));
  wake_all := keep_statics sched_wake_all;
  getNextWorkerID := sched_next;
  pending k xs := sched_pending k (snd xs);
  valid xs := statics_wf (fst xs) /\ sched_valid (snd xs);
  worker_ids xs := sched_ids (snd xs)
}.

#[export] Instance sched_laws : SchedulerLaws (Statics * Sched) (fun c => is_Some c).
Proof.
  constructor.
  - intros t i [x [s | s]] [Hx Hv] Hi; simpl in *.
    + destruct (emplace_law (S := Statics * PoolScheduler (Q := Q)) t i (x, s) (pool_valid x s Hx Hv) Hi) as ([x' s'] & E & R). simpl in E.
      apply bind_Ok in E as (s1 & E & E1). injection E1 as -> ->. exists (x', Pool s'). rewrite E. auto.
    + destruct (emplace_law (S := ThreadScheduler (Q := Q)) t i s (thread_valid s Hv) Hi) as (s' & E & R1 & R2 & R3). simpl in E.
      exists (x, Thread s'). rewrite E. auto.
  - intros c t [x [s | s]] [Hx Hv] Hc; simpl in *.
    + destruct (activate_law (S := Statics * PoolScheduler (Q := Q)) c t (x, s) (pool_valid x s Hx Hv) Hc) as ([x' s'] & E & R). simpl in E.
      exists (x', Pool s'). rewrite E. auto.
    + destruct (activate_law (S := ThreadScheduler (Q := Q)) c t s (thread_valid s Hv) I) as (s' & E & R1 & R2 & R3). simpl in E.
      exists (x, Thread s'). rewrite E. auto.
  - intros i [x [s | s]] [Hx Hv] Hi; simpl in *.
    + destruct (wake_law (S := Statics * PoolScheduler (Q := Q)) i (x, s) (pool_valid x s Hx Hv) Hi) as (b & [x' s'] & E & R). simpl in E.
      apply bind_Ok in E as ([b1 s1] & E & E1). injection E1 as -> -> ->. exists b, (x', Pool s'). rewrite E. auto.
    + destruct (wake_law (S := ThreadScheduler (Q := Q)) i s (thread_valid s Hv) Hi) as (b & s' & E & R1 & R2 & R3). simpl in E.
      exists b, (x, Thread s'). rewrite E. auto.
  - intros [x [s | s]] [Hx Hv]; simpl in *.
    + destruct (next_law (S := Statics * PoolScheduler (Q := Q)) (x, s) (pool_valid x s Hx Hv)) as (i & [x' s'] & E & R). simpl in E.
      exists i, (x', Pool s'). rewrite E. auto.
    + exists (t_base_id s), (x, Thread s). split; [reflexivity |]. split; [auto |].
      split; [reflexivity |]. split; [left | reflexivity].
Qed.

(** ** The map from tags *)

(** [scheduler_map], in the order of the descriptions; [scheduler_p] of the tasks; and
    the static variables. *)
Record RedGrapes : Type := mkRedGrapes {
  statics : Statics;
  scheduler_map : list (nat * Sched);
  scheduler_p : gmap nat nat
}.
Implicit Types m : RedGrapes.

Definition scheduler m (j : nat) : option Sched := snd <$> scheduler_map m !! j.

(** [scheduler_map[TSchedTag{}]], as a position.  A tag that is not in the map does not
    compile. *)
Definition find_tag (tag : nat) m : option nat := fst <$> list_find (fun x => fst x = tag) (scheduler_map m).

(** A call of a virtual function. *)
Definition on_scheduler {A} (j : nat) (f : Statics * Sched -> res (A * (Statics * Sched))) m : res (A * RedGrapes) :=
  '(tag, s) ← deref (scheduler_map m !! j);
  '(a, (x, s)) ← f (statics m, s);
  Ok (a, mkRedGrapes x (<[j := (tag, s)]> (scheduler_map m)) (scheduler_p m)).

Definition no_result {X} (f : X -> res X) (s : X) : res (unit * X) := s ← f s; Ok (tt, s).

(** [emplace_task<TSchedTag>]: the worker id, and the task that is created for it. *)
Definition create_task (tag t : nat) m : res (Z * RedGrapes) :=
  j ← deref (find_tag tag m);
  '(worker_id, m) ← on_scheduler j getNextWorkerID m;
  Ok (worker_id, mkRedGrapes (statics m) (scheduler_map m) (<[t := j]> (scheduler_p m))).

(** [scheduler_p->emplace_task], when the task is submitted. *)
Definition hand_over (t : nat) (worker_id : Z) m : res RedGrapes :=
  j ← deref (scheduler_p m !! t);
  '(_, m) ← on_scheduler j (no_result (emplace_task t worker_id)) m;
  Ok m.

(** What the events of the graph ask for. *)
Definition answer (current : option Z) (c : Call) m : res RedGrapes :=
  match c with
  | Activate t => j ← deref (scheduler_p m !! t); '(_, m) ← on_scheduler j (no_result (activate_task current t)) m; Ok m
  | Wake t i => j ← deref (scheduler_p m !! t); '(_, m) ← on_scheduler j (wake i) m; Ok m
  | NotifyParser | Free _ => Ok m
  end.

Fixpoint answer_all (current : option Z) (cs : list Call) m : res RedGrapes :=
  match cs with [] => Ok m | c :: cs => m ← answer current c m; answer_all current cs m end.

(** ** Waking *)

Definition is_pool (s : Sched) : bool := match s with Pool _ => true | Thread _ => false end.

(** The id after those of a pool. *)
Definition past_end (i : Z) (s : Sched) : Prop := is_pool s = true /\ i - 1 ∈ sched_ids s /\ i ∉ sched_ids s.

(** A scheduler may be asked to wake any worker but that one, also workers of others. *)
Lemma wake_any i x (s : Sched) : statics_wf x -> sched_valid s -> ~ past_end i s ->
  exists b s', wake i (x, s) = Ok (b, (x, s')) /\ sched_valid s' /\ is_pool s' = is_pool s /\ sched_ids s' = sched_ids s /\
    forall k, sched_pending k s' = sched_pending k s.
Proof.
  intros Hx Hv Hp. destruct s as [s | s]; simpl in *.
  - destruct (decide (i ∈ pool_ids s)) as [Hi | Hi].
    + destruct (wake_law (S := Statics * PoolScheduler (Q := Q)) i (x, s) (pool_valid x s Hx Hv) Hi) as (b & [x' s'] & E & (_ & R1) & R2 & R3).
      simpl in *. apply bind_Ok in E as ([b1 s1] & E & E1). injection E1 as <- <- <-. exists b1, (Pool s1). rewrite E. auto.
    + exists false, (Pool s). unfold pool_wake. pose proof (sw_some s Hv) as Hpos.
      assert (Hout : (0 <? i - base_id s) && (i - base_id s <=? Scheduler.n_workers s) = false).
      { unfold pool_ids in Hi. rewrite elem_of_zrange in Hi.
        destruct (decide (i = base_id s + Scheduler.n_workers s)) as [-> | Hne]; [| lia].
        exfalso. apply Hp. split; [reflexivity |]. simpl. unfold pool_ids. rewrite !elem_of_zrange. lia. }
      rewrite Hout. auto.
  - destruct Hv as (w & Hw & Ei). unfold thread_wake, on_thread. rewrite Hw. destruct (i =? 0).
    + eexists _, _. split; [reflexivity |]. split; [eexists; split; [reflexivity | exact Ei] |]. split; [reflexivity |].
      split; [reflexivity |]. intros k. simpl. rewrite ?Hw. destruct k; reflexivity.
    + exists false, (Thread s). split; [reflexivity |]. split; [exists w; split; [exact Hw | exact Ei] |].
      split; [reflexivity |]. split; [reflexivity |]. intros k. simpl. rewrite Hw. reflexivity.
Qed.

Lemma wake_past_end i x (s : Sched) : sched_valid s -> past_end i s -> wake i (x, s) = Err AssertFailed.
Proof.
  intros Hv (Hp & Hi & Hn). destruct s as [s |]; [| discriminate]. simpl in *. pose proof (pw_small _ (sw_pool s Hv)) as Hsm.
  rewrite (sw_n s Hv) in Hsm. pose proof (sw_some s Hv) as Hpos. unfold pool_ids in Hi, Hn.
  rewrite elem_of_zrange in Hi, Hn. unfold pool_wake.
  assert (Ei : i - base_id s = Scheduler.n_workers s) by lia. rewrite Ei.
  replace ((0 <? Scheduler.n_workers s) && (Scheduler.n_workers s <=? Scheduler.n_workers s)) with true by lia.
  unfold on_pool_worker, on_worker, get_worker_thread. rewrite wrap_small by lia.
  rewrite (pw_size _ (sw_pool s Hv)), (sw_n s Hv), Z.ltb_irrefl. reflexivity.
Qed.

(** ** Calls *)

Record tags_ok m : Prop := {
  to_statics : statics_wf (statics m);
  to_valid : forall j s, scheduler m j = Some s -> sched_valid s;
  to_known : forall t j, scheduler_p m !! t = Some j -> is_Some (scheduler m j)
}.

(** The tasks of [l] that belong to scheduler [j]. *)
Definition tasks_of (j : nat) (l : list nat) m : list nat := List.filter (fun t => bool_decide (scheduler_p m !! t = Some j)) l.

(** Every scheduler got those of [news] and [readies] that are its own. *)
Definition received (news readies : list nat) m m' : Prop :=
  scheduler_p m' = scheduler_p m /\ length (scheduler_map m') = length (scheduler_map m) /\
  forall j s, scheduler m j = Some s -> exists s', scheduler m' j = Some s' /\
    is_pool s' = is_pool s /\ sched_ids s' = sched_ids s /\
    sched_pending Ready s' ≡ₚ tasks_of j readies m ++ sched_pending Ready s /\
    sched_pending New s' ≡ₚ tasks_of j news m ++ sched_pending New s.

Lemma received_refl m : received [] [] m m.
Proof. split; [reflexivity |]. split; [reflexivity |]. intros j s Hs. exists s. auto. Qed.

Lemma received_trans n1 r1 n2 r2 m1 m2 m3 :
  received n1 r1 m1 m2 -> received n2 r2 m2 m3 -> received (n1 ++ n2) (r1 ++ r2) m1 m3.
Proof.
  intros (Ep1 & El1 & H1) (Ep2 & El2 & H2). split; [congruence |]. split; [congruence |]. intros j s Hs.
  destruct (H1 j s Hs) as (s2 & Hs2 & K1 & I1 & R1 & N1), (H2 j s2 Hs2) as (s3 & Hs3 & K2 & I2 & R2 & N2).
  exists s3. split; [exact Hs3 |]. split; [congruence |]. split; [congruence |].
  unfold tasks_of in *. rewrite Ep1 in R2, N2. rewrite !List.filter_app.
  split; [rewrite R2, R1 | rewrite N2, N1]; rewrite !app_assoc; f_equiv; apply Permutation_app_comm.
Qed.

(** A call that gives scheduler [j] some of its own tasks. *)
Lemma on_scheduler_ok {A} j (f : Statics * Sched -> res (A * (Statics * Sched))) m a s x' s' news readies :
  tags_ok m -> scheduler m j = Some s -> f (statics m, s) = Ok (a, (x', s')) -> valid (x', s') ->
  is_pool s' = is_pool s -> sched_ids s' = sched_ids s ->
  (forall t, t ∈ news ++ readies -> scheduler_p m !! t = Some j) ->
  sched_pending Ready s' ≡ₚ readies ++ sched_pending Ready s -> sched_pending New s' ≡ₚ news ++ sched_pending New s ->
  exists m', on_scheduler j f m = Ok (a, m') /\ tags_ok m' /\ received news readies m m'.
Proof.
  intros [Hst Hv Hk] Hj Ef [Hst' Hv'] Hpool Hids Hown Hr Hn. unfold scheduler in Hj. apply fmap_Some in Hj as ([tag s0] & Hj & ->).
  cbn [snd] in *. unfold on_scheduler. rewrite Hj. cbn [deref mbind res_bind]. rewrite Ef. cbn [mbind res_bind].
  eexists. split; [reflexivity |].
  assert (Hlt : (j < length (scheduler_map m))%nat) by (eapply lookup_lt_Some, Hj).
  assert (Hlook : forall i, scheduler (mkRedGrapes x' (<[j := (tag, s')]> (scheduler_map m)) (scheduler_p m)) i =
    if decide (i = j) then Some s' else scheduler m i).
  { intros i. unfold scheduler. cbn [scheduler_map]. destruct (decide (i = j)) as [-> | Hne];
      [rewrite list_lookup_insert_eq by exact Hlt; reflexivity | rewrite list_lookup_insert_ne by congruence; reflexivity]. }
  assert (Hall : forall l, (forall t, t ∈ l -> scheduler_p m !! t = Some j) -> tasks_of j l m = l).
  { intros l Hl. apply forallb_filter_id, forallb_forall. intros t Ht. apply bool_decide_eq_true, Hl, list_elem_of_In, Ht. }
  assert (Hnone : forall i l, i <> j -> (forall t, t ∈ l -> scheduler_p m !! t = Some j) -> tasks_of i l m = []).
  { intros i l Hne Hl. unfold tasks_of. induction l as [| t l IH]; [reflexivity |]. simpl.
    rewrite bool_decide_false by (rewrite (Hl t) by left; congruence). apply IH. intros u Hu. apply Hl. right. exact Hu. }
  assert (Hnews : forall t, t ∈ news -> scheduler_p m !! t = Some j) by (intros t Ht; apply Hown, elem_of_app; auto).
  assert (Hreadies : forall t, t ∈ readies -> scheduler_p m !! t = Some j) by (intros t Ht; apply Hown, elem_of_app; auto).
  split; [constructor |].
  - exact Hst'.
  - intros i x. rewrite Hlook. case_decide; [intros [= <-]; exact Hv' | apply Hv].
  - intros t i Ht. rewrite Hlook. case_decide; [eauto | exact (Hk t i Ht)].
  - split; [reflexivity |]. split; [apply length_insert |]. intros i x Hx. rewrite Hlook. case_decide as Hij.
    + subst i. unfold scheduler in Hx. rewrite Hj in Hx. injection Hx as <-. exists s'. rewrite !Hall by assumption. auto.
    + exists x. rewrite !Hnone by assumption. auto.
Qed.

(** A call that can be answered: the task has a scheduler, and no pool is asked to wake
    the worker past its last. *)
Definition answerable m (c : Call) : Prop :=
  match c with
  | Activate t => is_Some (scheduler_p m !! t)
  | Wake t i => exists j s, scheduler_p m !! t = Some j /\ scheduler m j = Some s /\ ~ past_end i s
  | NotifyParser | Free _ => True
  end.

Lemma answerable_kept news readies m m' c : received news readies m m' -> answerable m c -> answerable m' c.
Proof.
  intros (Ep & _ & Hr). destruct c as [t i | t | | t]; cbn [answerable]; rewrite ?Ep; auto.
  intros (j & s & Hj & Hs & Hp). destruct (Hr j s Hs) as (s' & Hs' & Ek & Ei & _). exists j, s'. split; [exact Hj |].
  split; [exact Hs' |]. unfold past_end in *. rewrite Ek, Ei. exact Hp.
Qed.

Lemma activate_kind current t x (s : Sched) x' s' : activate_task current t (x, s) = Ok (x', s') -> is_pool s' = is_pool s.
Proof.
  destruct s as [s | s]; cbn; intros E; [apply bind_Ok in E as ([y z] & _ & E) | apply bind_Ok in E as (y & _ & E)];
    injection E as <- <-; reflexivity.
Qed.

Lemma tags_valid m j s : tags_ok m -> scheduler m j = Some s -> valid (statics m, s).
Proof. intros Hm Hs. split; [exact (to_statics _ Hm) | exact (to_valid _ Hm j s Hs)]. Qed.

Lemma answer_ok current c m : tags_ok m -> is_Some current -> answerable m c ->
  exists m', answer current c m = Ok m' /\ tags_ok m' /\ received [] (activations [c]) m m'.
Proof.
  intros Hm Hc Ha. destruct c as [t i | t | | t]; cbn [answerable answer] in *.
  - destruct Ha as (j & s & Hj & Hs & Hp). rewrite Hj. cbn [deref mbind res_bind].
    destruct (wake_any i (statics m) s (to_statics _ Hm) (to_valid _ Hm j s Hs) Hp) as (b & s' & E & Hv & Ek & Ei & Hk).
    destruct (on_scheduler_ok j (wake i) m b s _ s' [] [] Hm Hs E (conj (to_statics _ Hm) Hv) Ek Ei) as (m' & -> & Hm' & Hr);
      [intros u Hu; inversion Hu | rewrite Hk; reflexivity | rewrite Hk; reflexivity |].
    exists m'. auto.
  - destruct Ha as [j Hj]. rewrite Hj. cbn [deref mbind res_bind]. destruct (to_known _ Hm t j Hj) as [s Hs].
    destruct (activate_law current t (statics m, s) (tags_valid _ _ _ Hm Hs) Hc) as ([x' s'] & E & Hv & Ei & Hr & Hn).
    destruct (on_scheduler_ok j (no_result (activate_task current t)) m tt s x' s' [] [t] Hm Hs) as (m' & -> & Hm' & Hr');
      [unfold no_result; rewrite E; reflexivity | exact Hv | exact (activate_kind _ _ _ _ _ _ E) | exact Ei
      | intros u Hu; apply list_elem_of_singleton in Hu as ->; exact Hj | exact Hr | simpl in Hn; rewrite Hn; reflexivity |].
    exists m'. auto.
  - exists m. split; [reflexivity |]. split; [exact Hm | apply received_refl].
  - exists m. split; [reflexivity |]. split; [exact Hm | apply received_refl].
Qed.


(** (tags_outside): a thread that is no worker, which has no [current_worker_id], fails
    when it activates a task of a pool. *)
Theorem outside_activation_fails t j p m :
  scheduler_p m !! t = Some j -> scheduler m j = Some (Pool p) -> answer None (Activate t) m = Err Undefined.
Proof.
  intros Ht Hj. unfold scheduler in Hj. apply fmap_Some in Hj as ([tag s] & Hj & Es). cbn in Es. subst s.
  cbn [answer]. rewrite Ht. cbn [deref mbind res_bind]. unfold on_scheduler. rewrite Hj. reflexivity.
Qed.

(** ** Creating tasks *)

Lemma next_kind x (s : Sched) x' s' i : getNextWorkerID (x, s) = Ok (i, (x', s')) -> is_pool s' = is_pool s.
Proof.
  destruct s as [s | s]; cbn; intros E; [apply bind_Ok in E as ([y [z u]] & _ & E) |]; injection E as _ <- <-; reflexivity.
Qed.

Lemma emplace_kind t i x (s : Sched) x' s' : emplace_task t i (x, s) = Ok (x', s') -> is_pool s' = is_pool s.
Proof.
  cbn. intros E. apply bind_Ok in E as (u & E & E'). injection E' as <- <-.
  destruct s as [s | s]; cbn in E; apply bind_Ok in E as (y & _ & E); injection E as <-; reflexivity.
Qed.

Lemma find_tag_scheduler tag m j : find_tag tag m = Some j -> is_Some (scheduler m j).
Proof.
  intros E. unfold find_tag in E. apply fmap_Some in E as ([k [tg s]] & E & ->). apply list_find_Some in E as (E & _).
  unfold scheduler. cbn [fst]. rewrite E. eauto.
Qed.

(** The task [t] belongs to scheduler [j]. *)
Definition assigned t j m : RedGrapes := mkRedGrapes (statics m) (scheduler_map m) (<[t := j]> (scheduler_p m)).

Lemma assign_ok t j m : tags_ok m -> is_Some (scheduler m j) -> tags_ok (assigned t j m).
Proof.
  intros [Hx Hv Hk] Hj. constructor; [exact Hx | exact Hv |]. cbn [assigned scheduler_p]. intros u i Hu.
  apply lookup_insert_Some in Hu as [(<- & <-) | (_ & Hu)]; [exact Hj | exact (Hk u i Hu)].
Qed.

(** (tags_new): a task that is created for a tag gets a worker of the scheduler with
    that tag, belongs to it from then on, and is put into a queue of new tasks there when
    it is submitted; no other queue changes. *)
Theorem create_task_correct tag t m j :
  tags_ok m -> find_tag tag m = Some j ->
  exists i m1 m2 s, create_task tag t m = Ok (i, m1) /\ hand_over t i m1 = Ok m2 /\ tags_ok m2 /\
    scheduler m j = Some s /\ i ∈ sched_ids s /\ scheduler_p m1 = <[t := j]> (scheduler_p m) /\
    received [] [] (assigned t j m) m1 /\ received [t] [] m1 m2.
Proof.
  intros Hm Hj. destruct (find_tag_scheduler _ _ _ Hj) as [s Hs].
  destruct (next_law (statics m, s) (tags_valid _ _ _ Hm Hs)) as (i & [x1 s1] & E1 & Hv1 & Ei1 & Hi & Hp1).
  assert (Hp1' : forall k, sched_pending k s1 = sched_pending k s) by exact Hp1.
  destruct (on_scheduler_ok j getNextWorkerID m i s x1 s1 [] [] Hm Hs E1 Hv1 (next_kind _ _ _ _ _ E1) Ei1) as (m0 & E0 & Hm0 & Hr0);
    [intros u Hu; inversion Hu | rewrite Hp1'; reflexivity | rewrite Hp1'; reflexivity |].
  destruct Hr0 as (Ep0 & El0 & Hr0). set (m1 := assigned t j m0).
  destruct (Hr0 j s Hs) as (s0 & Hs0 & Hk0 & Hi0 & Hr & Hn).
  assert (Hm1 : tags_ok m1) by (apply assign_ok; eauto).
  assert (Hs1 : scheduler m1 j = Some s0) by exact Hs0.
  destruct (emplace_law t i (statics m1, s0) (tags_valid _ _ _ Hm1 Hs1) ltac:(simpl; rewrite Hi0; exact Hi))
    as ([x2 s2] & E2 & Hv2 & Ei2 & Hn2 & Hr2).
  assert (Ht : scheduler_p m1 !! t = Some j) by apply lookup_insert_eq.
  destruct (on_scheduler_ok j (no_result (emplace_task t i)) m1 tt s0 x2 s2 [t] [] Hm1 Hs1) as (m2 & E3 & Hm2 & Hr3);
    [unfold no_result; rewrite E2; reflexivity | exact Hv2 | exact (emplace_kind _ _ _ _ _ _ E2) | exact Ei2
    | intros u Hu; apply list_elem_of_singleton in Hu as ->; exact Ht | simpl in Hr2; rewrite Hr2; reflexivity | exact Hn2 |].
  exists i, m1, m2, s. split; [unfold create_task; rewrite Hj; cbn [deref mbind res_bind]; rewrite E0; reflexivity |].
  split; [unfold hand_over; rewrite Ht; cbn [deref mbind res_bind]; rewrite E3; reflexivity |].
  split; [exact Hm2 |]. split; [exact Hs |]. split; [exact Hi |]. split; [unfold m1; cbn [assigned scheduler_p]; rewrite Ep0; reflexivity |].
  split; [| exact Hr3]. split; [unfold m1; cbn [assigned scheduler_p]; rewrite Ep0; reflexivity |]. split; [exact El0 |].
  intros k x Hx. destruct (Hr0 k x Hx) as (x' & Hx' & R). exists x'. split; [exact Hx' |]. exact R.
Qed.

(** ** Neighbours *)

(** The constructor of [RedGrapes]. *)
Definition start_runtime (hwloc_pus : Z) (descriptions : list (nat * Sched)) : res RedGrapes :=
  '(l, _) ← construct hwloc_pus (snd <$> descriptions);
  Ok (mkRedGrapes no_statics (zip (fst <$> descriptions) l) ∅).

(** The ids of each scheduler follow those of the one before. *)
Fixpoint chained (base : Z) (l : list Sched) : Prop :=
  match l with
  | [] => True
  | s :: l => 0 < sched_workers s /\ sched_ids s = zrange base (base + sched_workers s) /\ chained (base + sched_workers s) l
  end.

Lemma new_sched_pos (s : Sched) : new_sched s -> 0 < sched_workers s.
Proof. destruct s as [s | s]; cbn; [intros (n & g & Hn & ->); cbn; lia | lia]. Qed.

Lemma init_all_chained n_pus l : forall base arenas,
  Forall new_sched l -> 0 <= base -> base + total_workers l <= 255 -> base <= arenas -> n_pus <> 0 ->
  exists l' a, init_all n_pus base arenas l = Ok (l', a) /\ Forall sched_valid l' /\ chained base l' /\ length l' = length l.
Proof.
  induction l as [| s l IH]; intros base arenas Hl Hb Hs Ha Hp; [exists [], arenas; cbn; auto using List.Forall_nil |].
  apply Forall_cons in Hl as [Hn Hl]. rewrite total_cons in *. pose proof (total_nonneg l Hl) as Ht. pose proof (new_sched_pos s Hn) as Hpos.
  destruct (init_sched_ok s base n_pus arenas) as (s' & E & Hv & Ew & Ei); try assumption; try lia.
  destruct (IH (base + sched_workers s) (arenas + sched_workers s)) as (l' & a & E' & Hv' & Hc & Hlen); try assumption; try lia.
  exists (s' :: l'), a. cbn [init_all]. rewrite E. cbn [mbind res_bind]. rewrite Ew, wrap_small by lia. rewrite E'. cbn [mbind res_bind].
  split; [reflexivity |]. split; [constructor; assumption |]. split; [| cbn; congruence]. cbn [chained]. rewrite Ew. auto.
Qed.

Lemma chained_next l : forall base j s s', chained base l -> l !! j = Some s -> l !! S j = Some s' ->
  exists b, 0 < sched_workers s /\ sched_ids s = zrange b (b + sched_workers s) /\ head (sched_ids s') = Some (b + sched_workers s).
Proof.
  induction l as [| x l IH]; intros base j s s' Hc Hj Hj'; [discriminate |]. destruct Hc as (Hpos & Ei & Hc). destruct j as [| j].
  - injection Hj as <-. destruct l as [| y l]; [discriminate |]. injection Hj' as <-. destruct Hc as (Hpos' & Ei' & _).
    exists base. split; [exact Hpos |]. split; [exact Ei |]. rewrite Ei', zrange_cons by lia. reflexivity.
  - exact (IH _ j s s' Hc Hj Hj').
Qed.

(** The runtime that was just started. *)
Lemma start_runtime_ok hwloc_pus descriptions m :
  Forall new_sched (snd <$> descriptions) -> total_workers (snd <$> descriptions) <= 255 -> u8 hwloc_pus <> 0 ->
  start_runtime hwloc_pus descriptions = Ok m ->
  exists l, Forall sched_valid l /\ chained 0 l /\ forall k x, scheduler m k = Some x -> l !! k = Some x.
Proof.
  intros Hnew Htot Hpus E. pose proof (total_nonneg _ Hnew) as Hn.
  destruct (init_all_chained (u8 hwloc_pus) (snd <$> descriptions) 0 0) as (l & a & El & Hv & Hc & Hlen); try assumption; try lia.
  unfold start_runtime, construct in E. rewrite El in E. cbn [mbind res_bind] in E. injection E as <-.
  exists l. split; [exact Hv |]. split; [exact Hc |].
  intros k x Hx. unfold scheduler in Hx. cbn [scheduler_map] in Hx. apply fmap_Some in Hx as ([tg y] & Hx & ->).
  apply lookup_zip_with_Some in Hx as (u & v & E & _ & Hv'). injection E as -> ->. exact Hv'.
Qed.

Lemma start_tags_ok hwloc_pus descriptions m :
  Forall new_sched (snd <$> descriptions) -> total_workers (snd <$> descriptions) <= 255 -> u8 hwloc_pus <> 0 ->
  start_runtime hwloc_pus descriptions = Ok m -> tags_ok m.
Proof.
  intros Hnew Htot Hpus E. destruct (start_runtime_ok _ _ _ Hnew Htot Hpus E) as (l & Hv & _ & Hl). constructor.
  - apply bind_Ok in E as ([l' a] & _ & E). injection E as <-. exact no_statics_wf.
  - intros j s Hs. rewrite Forall_lookup in Hv. exact (Hv j s (Hl j s Hs)).
  - intros t j Ht. apply bind_Ok in E as ([l' a] & _ & E). injection E as <-. cbn [scheduler_p] in Ht. rewrite lookup_empty in Ht. discriminate.
Qed.

(** (neighbour): when a pool is followed by another scheduler, a task of the pool
    must not have to wake the first worker of that scheduler: a worker that waits for an
    event of a task leaves its id there, and if it is that worker, the notification of
    the event fails an assertion. *)
Theorem neighbour_wake_fails hwloc_pus descriptions m j p s :
  Forall new_sched (snd <$> descriptions) -> total_workers (snd <$> descriptions) <= 255 -> u8 hwloc_pus <> 0 ->
  start_runtime hwloc_pus descriptions = Ok m -> scheduler m j = Some (Pool p) -> scheduler m (S j) = Some s ->
  exists i, head (sched_ids s) = Some i /\ forall current t,
    answer current (Wake t i) (assigned t j m) = Err AssertFailed.
Proof.
  intros Hnew Htot Hpus E Hj Hj'. destruct (start_runtime_ok _ _ _ Hnew Htot Hpus E) as (l & Hv & Hc & Hl).
  pose proof (Hl _ _ Hj) as Lj. pose proof (Hl _ _ Hj') as Lj'.
  destruct (chained_next l 0 j (Pool p) s Hc Lj Lj') as (b & Hpos & Ei & Eh). exists (b + sched_workers (Pool p)).
  split; [exact Eh |]. intros current t. cbn [answer assigned scheduler_p]. rewrite lookup_insert_eq. cbn [deref mbind res_bind].
  unfold on_scheduler. cbn [assigned statics scheduler_map]. unfold scheduler in Hj. apply fmap_Some in Hj as ([tg y] & Hz & Ey). cbn [snd] in Ey. subst y.
  rewrite Hz. cbn [deref mbind res_bind].
  rewrite (wake_past_end (b + sched_workers (Pool p)) _ (Pool p)); [reflexivity | |].
  - rewrite Forall_lookup in Hv. exact (Hv j _ Lj).
  - split; [reflexivity |]. rewrite Ei, !elem_of_zrange. lia.
Qed.
End Tags.

(** ** A pool of two workers, and a thread of its own *)

Definition two_schedulers : list (nat * Sched (Q := list nat)) :=
  [(0%nat, Pool (new_scheduler 2 99)); (1%nat, Thread (mkThread 7 None))].

Definition started : RedGrapes (Q := list nat) :=
  match start_runtime 8 two_schedulers with Ok m => m | Err _ => mkRedGrapes no_statics [] ∅ end.

Lemma two_schedulers_new : Forall new_sched (snd <$> two_schedulers).
Proof. apply Forall_cons; split; [exists 2, 99; split; [lia | reflexivity] |]. apply Forall_cons; split; [reflexivity | apply List.Forall_nil]. Qed.

(** Task 0 belongs to the pool, task 1 to the thread. *)
Definition two_tasks : RedGrapes := assigned 0 0 (assigned 1 1 started).

Lemma two_tasks_ok : tags_ok two_tasks.
Proof.
  assert (Hs : tags_ok started) by (apply (start_tags_ok 8 two_schedulers); [exact two_schedulers_new | vm_compute; discriminate .. | vm_compute; reflexivity]).
  assert (H1 : tags_ok (assigned 1 1 started)) by (apply assign_ok; [exact Hs | vm_compute; eauto]).
  exact (assign_ok 0 0 _ H1 ltac:(vm_compute; eauto)).
Qed.

Definition some_calls : list Call := [Activate 1; Wake 0 1; Activate 0; Wake 1 1; Free 1].


Example calls_answered :
  (fun m => (fun x => (sched_pending Ready (snd x), sched_pending New (snd x))) <$> scheduler_map m) <$> answer_all (Some 0) some_calls two_tasks
  = Ok [([0%nat], []); ([1%nat], [])].
Proof. vm_compute. reflexivity. Qed.

Lemma neighbour_wake_fails_witness : answer None (Wake 0 2) two_tasks = Err AssertFailed.
Proof.
  destruct (scheduler started 0) as [[p |] |] eqn:Hp; [| discriminate Hp | discriminate Hp].
  destruct (scheduler started 1) as [s |] eqn:Hs; [| discriminate Hs].
  destruct (neighbour_wake_fails 8 two_schedulers started 0 p s two_schedulers_new) as (i & Hi & Hf);
    [vm_compute; discriminate | vm_compute; discriminate | vm_compute; reflexivity | exact Hp | exact Hs |].
  vm_compute in Hs. injection Hs as <-. injection Hi as <-. exact (Hf None 0%nat).
Defined.
Lemma outside_activation_fails_witness : answer None (Activate 0) two_tasks = Err Undefined.
Proof.
  destruct (scheduler two_tasks 0) as [[p |] |] eqn:Hp; [| discriminate Hp | discriminate Hp].
  exact (outside_activation_fails 0 0 p two_tasks eq_refl Hp).
Defined.
End Tags.
