(* ===== verification/TaskBuilder.v ===== *)
(** Emplacing tasks: [RedGrapes::emplace_task] ([redGrapes/redGrapes.hpp]) makes a
    task for a worker and hands out a [TaskBuilder] ([task/task_builder.hpp]),
    through which the program adds properties and submits the task, at the latest
    when the builder is destroyed; tasks are numbered by [task/property/id.hpp].
    The scheduler is behind the interface [IScheduler]. *)

From Stdlib Require Import ZArith Lia Bool.
From stdpp Require Import base gmap list strings relations.
From S2P Require Import Prelude Access Resource Guards ResourceUser Entries Graph GraphNotify.
From S2P Require Import GraphInv GraphInit GraphSubmit System SystemSafe SystemLive SystemRun SystemProps.
From S2P Require Import Nesting Futures Bitfield Workers Scheduler.

Open Scope Z_scope.
Open Scope word_scope.

Module TaskBuilder.
Import Resource ResourceUser Graph GraphNotify GraphInv GraphInit GraphSubmit System SystemSafe SystemLive.
Import SystemRun SystemProps Nesting Futures Workers Scheduler.

Section Builder.
Context {RA : Type} `{AccessOps RA} {S : Type} `{IScheduler S}.

(** A task that is not submitted yet: nothing but its builder refers to it. *)
Record Unsubmitted : Type := mkUnsubmitted {
  u_task : nat;
  u_worker : Z;
  u_depth : Z;
  u_user : ResourceUser RA;
  u_switching : bool;
  u_label : string
}.

(** [TaskBuilder]: the space, and the task unless it is given away. *)
Record TaskBuilder : Type := mkBuilder {
  b_space : nat;
  b_task : option Unsubmitted
}.

Record Program : Type := mkProgram {
  sys : State (RA := RA);
  sched : S;
  builders : gmap nat TaskBuilder;
  id_counter : Z;
  task_ids : gmap nat Z
}.

Implicit Types (x : Program) (u : Unsubmitted).

Definition with_u_user (v : ResourceUser RA) u : Unsubmitted :=
  mkUnsubmitted (u_task u) (u_worker u) (u_depth u) v (u_switching u) (u_label u).

Definition put_builder (k : nat) (b : TaskBuilder) x : Program :=
  mkProgram (sys x) (sched x) (<[k := b]> (builders x)) (id_counter x) (task_ids x).

(** [Builder::init_id] *)
Definition init_id (t : nat) x : Program :=
  mkProgram (sys x) (sched x) (builders x) (u32 (id_counter x + 1)) (<[t := id_counter x]> (task_ids x)).

(** [emplace_task]: [blk] is the memory the worker's allocator gives, [q] the
    address of the child space should the running task have none; the arguments of
    the function add the accesses [args]. *)
Definition emplace (k q : nat) (blk : option nat) (current : option nat) (args : list RA) x : res Program :=
  '(worker, s) ← getNextWorkerID (sched x);
  match blk with
  | None => Err (Throw "std::bad_alloc")
  | Some t =>
      '(d, w) ← scope_depth_impl current q (world (sys x));
      '(y, w) ← current_task_space current q w;
      let user := fold_left (fun v ra => add_resource_access ra v) args (new_user d) in
      let u := mkUnsubmitted t worker d user false "" in
      Ok (init_id t (put_builder k (mkBuilder y (Some u))
            (mkProgram (mkState w (info (sys x)) (next_seq (sys x))) s (builders x) (id_counter x) (task_ids x))))
  end.

(** Changing the task of a builder; the pointer must not be null. *)
Definition on_task (k : nat) (f : Unsubmitted -> Unsubmitted) x : res Program :=
  b ← deref (builders x !! k);
  u ← deref (b_task b);
  Ok (put_builder k (mkBuilder (b_space b) (Some (f u))) x).

(** [Builder::resources] and [Builder::add_resource] of the resource property *)
Definition resources (k : nat) (l : list RA) : Program -> res Program :=
  on_task k (fun u => with_u_user (build_unique_resource_list (fold_left (fun v ra => push_access ra v) l (u_user u))) u).

Definition add_resource (k : nat) (ra : RA) : Program -> res Program :=
  on_task k (fun u => with_u_user (add_resource_access ra (u_user u)) u).

(** [enable_stack_switching], and [Builder::label] of the label property *)
Definition enable_stack_switching (k : nat) : Program -> res Program :=
  on_task k (fun u => mkUnsubmitted (u_task u) (u_worker u) (u_depth u) (u_user u) true (u_label u)).

Definition label (k : nat) (l : string) : Program -> res Program :=
  on_task k (fun u => mkUnsubmitted (u_task u) (u_worker u) (u_depth u) (u_user u) (u_switching u) l).

(** The copy and the move constructor both take the task away from the other. *)
Definition move_builder (k k' : nat) x : res Program :=
  b ← deref (builders x !! k);
  Ok (put_builder k' b (put_builder k (mkBuilder (b_space b) None) x)).

(** [submit]: the future of the task, which leaves the builder. *)
Definition submit_builder (k : nat) x : res (Future * Program) :=
  b ← deref (builders x !! k);
  u ← deref (b_task b);
  let t := u_task u in
  w ← submit (b_space b) t (put_task t (with_user (u_user u) (new_task (u_worker u) (u_depth u))) (world (sys x)));
  task ← get_task t w;
  s ← emplace_task t (u_worker u) (sched x);
  let i := mkInfo (next_seq (sys x)) (user task) (b_space b) Emplaced in
  Ok (new_future t,
      mkProgram (mkState w (<[t := i]> (info (sys x))) (Datatypes.S (next_seq (sys x)))) s
        (<[k := mkBuilder (b_space b) None]> (builders x)) (id_counter x) (task_ids x)).

(** [~TaskBuilder]; the future that [submit] returns is dropped at once. *)
Definition destroy_builder (k : nat) x : res Program :=
  b ← deref (builders x !! k);
  let remove x := mkProgram (sys x) (sched x) (delete k (builders x)) (id_counter x) (task_ids x) in
  match b_task b with
  | None => Ok (remove x)
  | Some _ =>
      '(f, x) ← submit_builder k x;
      w ← destroy_future f (world (sys x));
      Ok (remove (mkProgram (mkState w (info (sys x)) (next_seq (sys x))) (sched x) (builders x) (id_counter x) (task_ids x)))
  end.

(** ** Programs *)

Definition fresh (t : nat) x : Prop :=
  info (sys x) !! t = None /\ forall k b u, builders x !! k = Some b -> b_task b = Some u -> u_task u <> t.

(** The running task may make a space: its function is running. *)
Definition may_emplace (current : option nat) (q : nat) x : Prop :=
  forall p, current = Some p -> spaces (world (sys x)) !! q = None /\
    exists i, info (sys x) !! p = Some i /\ i_status i = Running.

(** A task is submitted to a child space while the parent's function runs. *)
Definition may_submit (k : nat) x : Prop :=
  forall b u sp p, builders x !! k = Some b -> b_task b = Some u ->
    spaces (world (sys x)) !! b_space b = Some sp -> parent sp = Some p ->
    (exists i, info (sys x) !! p = Some i /\ i_status i = Running) /\ room p 1 (world (sys x)).

(** The accesses of the task stay within those of the task whose space it is
    submitted to. *)
Definition covered (b : TaskBuilder) u x : Prop :=
  forall sp p taskp, spaces (world (sys x)) !! b_space b = Some sp -> parent sp = Some p ->
    tasks (world (sys x)) !! p = Some taskp -> is_superset_of (user taskp) (u_user u) = true.

Inductive bstep : Program -> Program -> Prop :=
  | b_emplace k q t current args x x' :
      builders x !! k = None -> fresh t x -> may_emplace current q x -> (forall ra, ra ∈ args -> ra_valid ra) ->
      emplace k q (Some t) current args x = Ok x' -> bstep x x'
  | b_resources k l x x' : (forall ra, ra ∈ l -> ra_valid ra) -> resources k l x = Ok x' -> bstep x x'
  | b_add_resource k ra x x' : ra_valid ra -> add_resource k ra x = Ok x' -> bstep x x'
  | b_switching k x x' : enable_stack_switching k x = Ok x' -> bstep x x'
  | b_label k l x x' : label k l x = Ok x' -> bstep x x'
  | b_move k k' x x' : builders x !! k' = None -> move_builder k k' x = Ok x' -> bstep x x'
  | b_submit k f x x' : may_submit k x -> submit_builder k x = Ok (f, x') -> bstep x x'
  | b_destroy k x x' : may_submit k x -> destroy_builder k x = Ok x' -> bstep x x'
  | b_system s' x :
      (* the workers go on: no task is submitted *)
      step (sys x) s' -> (forall t, info s' !! t = None <-> info (sys x) !! t = None) ->
      bstep x (mkProgram s' (sched x) (builders x) (id_counter x) (task_ids x))
  | b_sched s' x :
      valid s' -> worker_ids s' = worker_ids (sched x) ->
      bstep x (mkProgram (sys x) s' (builders x) (id_counter x) (task_ids x)).

Definition binit x : Prop :=
  init (sys x) /\ valid (sched x) /\ builders x = ∅ /\ id_counter x = 0 /\ task_ids x = ∅.

(** [k] holds the task. *)
Definition holds (k : nat) u x : Prop := exists b, builders x !! k = Some b /\ b_task b = Some u.

Record binv x : Prop := {
  bi_sys : reachable init step (sys x);
  bi_valid : valid (sched x);
  bi_held : forall k b u, builders x !! k = Some b -> b_task b = Some u ->
    info (sys x) !! u_task u = None /\ built (u_user u) /\ u_worker u ∈ worker_ids (sched x) /\
    exists sp, spaces (world (sys x)) !! b_space b = Some sp /\ depth sp = u_depth u;
  bi_unique : forall k k' u u', holds k u x -> holds k' u' x -> u_task u = u_task u' -> k = k';
  bi_ids : forall t, is_Some (task_ids x !! t) <-> is_Some (info (sys x) !! t) \/ exists k u, holds k u x /\ u_task u = t;
  bi_counter : id_counter x = u32 (Z.of_nat (base.size (task_ids x)));
  bi_distinct : Z.of_nat (base.size (task_ids x)) <= 2 ^ 32 ->
    (forall t i, task_ids x !! t = Some i -> 0 <= i < Z.of_nat (base.size (task_ids x))) /\
    (forall t t' i, task_ids x !! t = Some i -> task_ids x !! t' = Some i -> t = t')
}.
End Builder.

Section Facts.
Context {RA : Type} `{AccessOps RA} `{!AccessLaws RA} {S : Type} `{IScheduler S} {current_ok : option Z -> Prop}
  `{!SchedulerLaws S current_ok}.
Implicit Types (x : Program (RA := RA) (S := S)) (u : Unsubmitted (RA := RA)).

(** ** The accesses of a task *)

Lemma built_new d : built (new_user (RA := RA) d).
Proof. split; intros ra Hra; inversion Hra. Qed.

Lemma built_add ra (v : ResourceUser RA) : ra_valid ra -> built v -> built (add_resource_access ra v).
Proof.
  intros Hra [Hv Hb]. split; simpl; intros r Hr; apply elem_of_cons in Hr as [-> | Hr]; auto.
  - exists (mkUsage (get_resource ra) None). split; [left | reflexivity].
  - destruct (Hb r Hr) as (e & He & E). exists e. split; [right; exact He | exact E].
Qed.

Lemma built_args args (v : ResourceUser RA) : (forall ra, ra ∈ args -> ra_valid ra) -> built v ->
  built (fold_left (fun v ra => add_resource_access ra v) args v).
Proof.
  revert v. induction args as [| ra args IH]; intros v Hv Hb; simpl; [exact Hb |].
  apply IH; [intros r Hr; apply Hv; right; exact Hr | apply built_add; [apply Hv; left | exact Hb]].
Qed.

Lemma build_fold_keeps (l : list RA) : forall v p, p ∈ resource_ptrs v \/ (exists ra, ra ∈ l /\ p = r_ptr (get_resource ra)) ->
  p ∈ resource_ptrs (fold_left build_step l v).
Proof.
  induction l as [| ra l IH]; intros v p Hp; simpl.
  - destruct Hp as [Hp | (ra & Hra & _)]; [exact Hp | inversion Hra].
  - apply IH. rewrite build_step_ptrs. destruct Hp as [Hp | (r & Hr & ->)].
    + left. apply elem_of_cons. destruct (decide (p = r_ptr (get_resource ra))) as [-> | Hne]; [auto |]. right.
      apply list_elem_of_In, filter_In. split; [apply list_elem_of_In, Hp |]. apply negb_true_iff, Nat.eqb_neq, Hne.
    + apply elem_of_cons in Hr as [-> | Hr]; [left; left | right; eauto].
Qed.

Lemma build_fold_accesses (l : list RA) : forall v, access_list (fold_left build_step l v) = access_list v.
Proof. induction l as [| ra l IH]; intros v; simpl; [reflexivity |]. rewrite IH. reflexivity. Qed.

Lemma pushed_accesses (l : list RA) : forall (v : ResourceUser RA) ra,
  ra ∈ access_list (fold_left (fun v ra => push_access ra v) l v) <-> ra ∈ l \/ ra ∈ access_list v.
Proof.
  induction l as [| r l IH]; intros v ra; simpl.
  - split; [auto |]. intros [Hin | Hin]; [inversion Hin | exact Hin].
  - rewrite IH. simpl. rewrite !elem_of_cons. tauto.
Qed.

Lemma built_resources l (v : ResourceUser RA) : (forall ra, ra ∈ l -> ra_valid ra) -> built v ->
  built (build_unique_resource_list (fold_left (fun v ra => push_access ra v) l v)).
Proof.
  intros Hl [Hv _]. unfold build_unique_resource_list. split; rewrite build_fold_accesses; intros ra Hra.
  - apply pushed_accesses in Hra as [Hra | Hra]; auto.
  - assert (Hin : r_ptr (get_resource ra) ∈ resource_ptrs (fold_left build_step
      (access_list (fold_left (fun v ra => push_access ra v) l v)) (fold_left (fun v ra => push_access ra v) l v)))
      by (apply build_fold_keeps; eauto).
    apply list_elem_of_fmap in Hin as (e & E & He). eauto.
Qed.

(** ** What keeps the invariant *)

(** Neither the tasks submitted nor the builders change. *)
Lemma binv_sys_sched x s' d :
  binv x -> s' = sys x \/ step (sys x) s' -> (forall t, info s' !! t = None <-> info (sys x) !! t = None) ->
  valid d -> worker_ids d = worker_ids (sched x) ->
  binv (mkProgram s' d (builders x) (id_counter x) (task_ids x)).
Proof.
  intros [B1 B2 B3 B4 B5 B6 B7] Hs Hi Hv Hw. constructor; cbn [sys sched builders id_counter task_ids]; auto.
  - destruct Hs as [-> | Hs]; [exact B1 | eapply reachable_step; eassumption].
  - intros k b u Hk Hb. destruct (B3 k b u Hk Hb) as (Hn & Hu & Hwk & sp & Hsp & Hd). split; [apply Hi, Hn |].
    split; [exact Hu |]. split; [rewrite Hw; exact Hwk |]. destruct Hs as [-> | Hs]; [eauto |].
    destruct (effect_space_forth _ _ _ _ (step_effect _ _ (reachable_safe _ B1) Hs) Hsp) as (sp' & Hsp' & E & _).
    exists sp'. split; [exact Hsp' | congruence].
  - intros t. rewrite B5. split; intros [Ht | Ht]; auto; left; apply not_eq_None_Some;
      intros Hn; apply Hi in Hn; destruct Ht; congruence.
Qed.

Lemma on_task_ok k f x x' : on_task k f x = Ok x' -> exists b u, builders x !! k = Some b /\ b_task b = Some u /\
  x' = put_builder k (mkBuilder (b_space b) (Some (f u))) x.
Proof.
  unfold on_task. intros E. apply bind_Ok in E as (b & Hb & E). apply bind_Ok in E as (u & Hu & E).
  apply deref_Ok in Hb, Hu. injection E as <-. eauto.
Qed.

(** The builders hold the same tasks, each with its accesses in order. *)
Lemma binv_builders x bs :
  binv x ->
  (forall k b u, bs !! k = Some b -> b_task b = Some u -> exists k0 b0 u0, builders x !! k0 = Some b0 /\ b_task b0 = Some u0 /\
     u_task u = u_task u0 /\ u_worker u = u_worker u0 /\ u_depth u = u_depth u0 /\ b_space b = b_space b0 /\
     (built (u_user u0) -> built (u_user u))) ->
  (forall k0 b0 u0, builders x !! k0 = Some b0 -> b_task b0 = Some u0 -> exists k b u, bs !! k = Some b /\ b_task b = Some u /\
     u_task u = u_task u0) ->
  (forall k k' b b' u u', bs !! k = Some b -> bs !! k' = Some b' -> b_task b = Some u -> b_task b' = Some u' ->
     u_task u = u_task u' -> k = k') ->
  binv (mkProgram (sys x) (sched x) bs (id_counter x) (task_ids x)).
Proof.
  intros [B1 B2 B3 B4 B5 B6 B7] Hb Hf Hu. constructor; cbn [sys sched builders id_counter task_ids]; auto.
  - intros k b u Hk Hbt. destruct (Hb k b u Hk Hbt) as (k0 & b0 & u0 & Hk0 & Hb0 & -> & -> & -> & -> & Hbuilt).
    destruct (B3 k0 b0 u0 Hk0 Hb0) as (Hn & Hu0 & Hrest). auto.
  - intros k k' u u' (b & Hk & Hbt) (b' & Hk' & Hbt') E. eapply (Hu k k' b b'); eassumption.
  - intros t. rewrite B5. split; (intros [Ht | Ht]; [auto |]); right.
    + destruct Ht as (k0 & u0 & (b0 & Hk0 & Hb0) & <-). destruct (Hf k0 b0 u0 Hk0 Hb0) as (k & b & u & Hk & Hbt & E).
      exists k, u. split; [exists b; auto | exact E].
    + destruct Ht as (k & u & (b & Hk & Hbt) & <-). destruct (Hb k b u Hk Hbt) as (k0 & b0 & u0 & Hk0 & Hb0 & E & _).
      exists k0, u0. split; [exists b0; auto | congruence].
Qed.

Lemma binv_on_task k f x x' :
  binv x -> on_task k f x = Ok x' ->
  (forall u, u_task (f u) = u_task u /\ u_worker (f u) = u_worker u /\ u_depth (f u) = u_depth u) ->
  (forall u, built (u_user u) -> built (u_user (f u))) -> binv x'.
Proof.
  intros Hx E Hsame Hbuilt. destruct (on_task_ok k f x x' E) as (b & u & Hk & Hb & ->). apply (binv_builders x); [exact Hx | | |].
  - intros k1 b1 u1 H1 Hb1. apply lookup_insert_Some in H1 as [(<- & <-) | (Hne & H1)].
    + injection Hb1 as <-. destruct (Hsame u) as (E1 & E2 & E3). exists k, b, u. auto 10.
    + exists k1, b1, u1. auto 10.
  - intros k0 b0 u0 Hk0 Hb0. destruct (decide (k = k0)) as [<- | Hne].
    + exists k, (mkBuilder (b_space b) (Some (f u))), (f u). rewrite lookup_insert_eq. split; [reflexivity |].
      split; [reflexivity |]. assert (u0 = u) as -> by congruence. apply Hsame.
    + exists k0, b0, u0. rewrite lookup_insert_ne by exact Hne. auto.
  - assert (Hold : forall k1 b1 u1, <[k := mkBuilder (b_space b) (Some (f u))]> (builders x) !! k1 = Some b1 -> b_task b1 = Some u1 ->
      exists u0, holds k1 u0 x /\ u_task u1 = u_task u0).
    { intros k1 b1 u1 H1 Hb1. apply lookup_insert_Some in H1 as [(<- & <-) | (Hne & H1)].
      - injection Hb1 as <-. exists u. split; [exists b; auto | apply Hsame].
      - exists u1. split; [exists b1; auto | reflexivity]. }
    intros k1 k2 b1 b2 u1 u2 H1 H2 Hb1 Hb2 Eq. destruct (Hold k1 b1 u1 H1 Hb1) as (v1 & Hv1 & E1).
    destruct (Hold k2 b2 u2 H2 Hb2) as (v2 & Hv2 & E2). apply (bi_unique _ Hx k1 k2 v1 v2 Hv1 Hv2). congruence.
Qed.

Lemma binv_move k k' x x' : binv x -> builders x !! k' = None -> move_builder k k' x = Ok x' -> binv x'.
Proof.
  intros Hx Hk' E. unfold move_builder in E. apply bind_Ok in E as (b & Hk & E). apply deref_Ok in Hk. injection E as <-.
  assert (Hne : k' <> k) by congruence.
  assert (Hold : forall k1 b1 u1, <[k' := b]> (<[k := mkBuilder (b_space b) None]> (builders x)) !! k1 = Some b1 -> b_task b1 = Some u1 ->
    exists k0, builders x !! k0 = Some b1 /\ (k1 = k' /\ k0 = k \/ k1 <> k' /\ k1 <> k /\ k0 = k1)).
  { intros k1 b1 u1 H1 Hb1. apply lookup_insert_Some in H1 as [(<- & <-) | (N1 & H1)]; [eauto |].
    apply lookup_insert_Some in H1 as [(<- & <-) | (N2 & H1)]; [discriminate |]. exists k1. auto 10. }
  apply (binv_builders x); [exact Hx | | |].
  - intros k1 b1 u1 H1 Hb1. destruct (Hold k1 b1 u1 H1 Hb1) as (k0 & Hk0 & _). exists k0, b1, u1. auto 10.
  - intros k0 b0 u0 Hk0 Hb0. destruct (decide (k0 = k)) as [-> | N].
    + exists k', b, u0. rewrite lookup_insert_eq. assert (b0 = b) as -> by congruence. auto.
    + exists k0, b0, u0. cbn [builders put_builder]. rewrite lookup_insert_ne by congruence.
      rewrite lookup_insert_ne by congruence. auto.
  - intros k1 k2 b1 b2 u1 u2 H1 H2 Hb1 Hb2 Eq. destruct (Hold k1 b1 u1 H1 Hb1) as (j1 & J1 & C1).
    destruct (Hold k2 b2 u2 H2 Hb2) as (j2 & J2 & C2).
    assert (Ej : j1 = j2) by (apply (bi_unique _ Hx j1 j2 u1 u2); [exists b1; auto | exists b2; auto | exact Eq]).
    destruct C1 as [[-> ->] | (N1 & M1 & ->)], C2 as [[-> ->] | (N2 & M2 & ->)]; congruence.
Qed.

(** ** Emplacing *)

(** The space of the running task, made if it has none yet. *)
Lemma emplaced_space x current q d y w1 w2 :
  reachable init step (sys x) -> may_emplace current q x ->
  scope_depth_impl current q (world (sys x)) = Ok (d, w1) -> current_task_space current q w1 = Ok (y, w2) ->
  let s' := mkState w2 (info (sys x)) (next_seq (sys x)) in
  (s' = sys x \/ step (sys x) s') /\ exists sp, spaces w2 !! y = Some sp /\ depth sp = d.
Proof.
  intros Hr Hm E1 E2. destruct (reachable_nested _ Hr) as (Hinv & _ & Hns).
  assert (Hself : mkState (world (sys x)) (info (sys x)) (next_seq (sys x)) = sys x) by (destruct (sys x); reflexivity).
  unfold scope_depth_impl in E1. apply bind_Ok in E1 as ([y1 w] & E0 & E1).
  unfold current_task_space in E0, E2. destruct current as [p |].
  - apply bind_Ok in E0 as (task & Ht & E0). unfold get_task in Ht. apply deref_Ok in Ht.
    destruct (Hm p eq_refl) as (Hq & i & Hi & Hst). destruct (children task) as [c |] eqn:Hc.
    + injection E0 as <- <-. destruct (ns_children _ Hns p task c Ht Hc) as (sp & Hsp & _). rewrite Hsp in E1.
      injection E1 as <- <-. unfold get_task in E2. rewrite Ht in E2. cbn [deref mbind res_bind] in E2. rewrite Hc in E2.
      injection E2 as <- <-. split; [left; exact Hself | eauto].
    + apply bind_Ok in E0 as (sp & Hsp & E0). injection E0 as <- <-. simpl spaces in E1. rewrite lookup_insert_eq in E1.
      injection E1 as <- <-. unfold get_task in E2. simpl tasks in E2. rewrite lookup_insert_eq in E2.
      cbn [deref mbind res_bind children with_children] in E2. injection E2 as <- <-. split.
      * right. eapply step_space; eassumption.
      * exists sp. simpl. rewrite lookup_insert_eq. auto.
  - injection E0 as <- <-. injection E2 as <- <-. destruct (ns_root _ Hns) as (sp & Hsp & _). rewrite Hsp in E1.
    injection E1 as <- <-. split; [left; exact Hself | eauto].
Qed.

(** A new task in a new builder. *)
Lemma binv_new x k u y sp :
  binv x -> builders x !! k = None -> fresh (u_task u) x -> built (u_user u) -> u_worker u ∈ worker_ids (sched x) ->
  spaces (world (sys x)) !! y = Some sp -> depth sp = u_depth u ->
  binv (init_id (u_task u) (put_builder k (mkBuilder y (Some u)) x)).
Proof.
  intros [B1 B2 B3 B4 B5 B6 B7] Hk [Hfi Hfb] Hu Hw Hsp Hd.
  assert (Hnid : task_ids x !! u_task u = None).
  { apply eq_None_not_Some. rewrite B5. intros [[i Hi] | (k0 & u0 & (b0 & Hb & Hb0) & E)]; [congruence |].
    apply (Hfb k0 b0 u0 Hb Hb0 E). }
  assert (Hcase : forall k1 u1, holds k1 u1 (init_id (u_task u) (put_builder k (mkBuilder y (Some u)) x)) ->
    k1 = k /\ u1 = u \/ k1 <> k /\ holds k1 u1 x).
  { intros k1 u1 (b1 & Hb1 & Ht1). cbn [builders init_id put_builder] in Hb1.
    apply lookup_insert_Some in Hb1 as [(<- & <-) | (Hne & Hb1)]; [injection Ht1 as <-; auto |].
    right. split; [congruence | exists b1; auto]. }
  assert (Hsize : base.size (<[u_task u := id_counter x]> (task_ids x)) = Datatypes.S (base.size (task_ids x)))
    by (apply map_size_insert_None, Hnid).
  constructor; cbn [sys sched builders id_counter task_ids init_id put_builder]; auto.
  - intros k1 b1 u1 H1 Hb1. apply lookup_insert_Some in H1 as [(<- & <-) | (Hne & H1)]; [| eauto].
    injection Hb1 as <-. split; [exact Hfi |]. split; [exact Hu |]. split; [exact Hw | eauto].
  - intros k1 k2 u1 u2 H1 H2 Eq. destruct (Hcase k1 u1 H1) as [[-> ->] | [N1 G1]], (Hcase k2 u2 H2) as [[-> ->] | [N2 G2]]; auto.
    + exfalso. destruct G2 as (b & Hb & Ht). apply (Hfb k2 b u2 Hb Ht). congruence.
    + exfalso. destruct G1 as (b & Hb & Ht). apply (Hfb k1 b u1 Hb Ht). congruence.
    + eapply B4; eassumption.
  - intros t. destruct (decide (u_task u = t)) as [<- | Hne].
    + rewrite lookup_insert_eq. split; [| eauto]. intros _. right. exists k, u. split; [| reflexivity].
      eexists. cbn [builders init_id put_builder]. rewrite lookup_insert_eq. split; reflexivity.
    + rewrite lookup_insert_ne by exact Hne. rewrite B5. split; (intros [Ht | (k1 & u1 & Hh & E)]; [auto | right]).
      * exists k1, u1. split; [| exact E]. destruct Hh as (b & Hb & Ht). exists b. cbn [builders init_id put_builder].
        rewrite lookup_insert_ne by congruence. auto.
      * destruct (Hcase k1 u1 Hh) as [[-> ->] | [_ Hh1]]; [congruence | eauto].
  - rewrite Hsize, B6. unfold wrap. rewrite Zplus_mod_idemp_l. f_equal. lia.
  - rewrite Hsize. intros Hle. destruct B7 as [Hr Hd7]; [lia |].
    assert (Ec : id_counter x = Z.of_nat (base.size (task_ids x))) by (rewrite B6; apply wrap_small; change (2 ^ Z.of_nat 32) with (2 ^ 32); lia).
    split.
    + intros t i Ht. apply lookup_insert_Some in Ht as [(_ & <-) | (_ & Ht)]; [lia |]. specialize (Hr t i Ht). lia.
    + intros t t' i Ht Ht'. apply lookup_insert_Some in Ht as [(<- & Ei) | (Hn1 & Ht)];
        apply lookup_insert_Some in Ht' as [(<- & Ei') | (Hn2 & Ht')]; [reflexivity | | | eauto].
      * specialize (Hr _ _ Ht'). lia.
      * specialize (Hr _ _ Ht). lia.
Qed.

Lemma binv_emplace k q t current args x x' :
  binv x -> builders x !! k = None -> fresh t x -> may_emplace current q x -> (forall ra, ra ∈ args -> ra_valid ra) ->
  emplace k q (Some t) current args x = Ok x' -> binv x'.
Proof.
  intros Hx Hk Hf Hm Ha E. pose proof Hx as [B1 B2 B3 B4 B5 B6 B7]. unfold emplace in E.
  destruct (next_law _ B2) as (i & s1 & En & Hv & Hw & Hin & _). rewrite En in E. cbn [mbind res_bind] in E.
  apply bind_Ok in E as ([d w1] & Ed & E). apply bind_Ok in E as ([y w2] & Ey & E). cbv zeta in E. injection E as <-.
  destruct (emplaced_space x current q d y w1 w2 B1 Hm Ed Ey) as (Hs & sp & Hsp & Hd).
  assert (Hx1 : binv (mkProgram (mkState w2 (info (sys x)) (next_seq (sys x))) s1 (builders x) (id_counter x) (task_ids x)))
    by (apply binv_sys_sched; [exact Hx | exact Hs | reflexivity | exact Hv | exact Hw]).
  eapply (binv_new _ k (mkUnsubmitted t i d _ false "") y sp Hx1 Hk Hf); cbn [u_user u_worker u_depth sched]; auto.
  - apply built_args; [exact Ha | apply built_new].
  - rewrite Hw. exact Hin.
Qed.

(** ** Submitting *)

Lemma fresh_not_live x t : reachable init step (sys x) -> info (sys x) !! t = None -> tasks (world (sys x)) !! t = None.
Proof.
  intros Hr Hn. destruct (tasks (world (sys x)) !! t) as [task |] eqn:Ht; [| reflexivity].
  destruct (ln_task _ _ (iv_linked _ (reachable_safe _ Hr)) t task Ht) as (i & Hi & _). congruence.
Qed.

(** What [submit] does: a step of the system, and the scheduler takes the task. *)
Lemma submit_builder_step k f x x' :
  binv x -> may_submit k x -> submit_builder k x = Ok (f, x') ->
  exists b u i, builders x !! k = Some b /\ b_task b = Some u /\ f = new_future (u_task u) /\
    step (sys x) (sys x') /\ info (sys x') = <[u_task u := i]> (info (sys x)) /\
    builders x' = <[k := mkBuilder (b_space b) None]> (builders x) /\ id_counter x' = id_counter x /\
    task_ids x' = task_ids x /\ valid (sched x') /\ worker_ids (sched x') = worker_ids (sched x) /\
    pending New (sched x') ≡ₚ u_task u :: pending New (sched x) /\
    exists task, tasks (world (sys x')) !! u_task u = Some task /\ state (result_get_event task) = 1.
Proof.
  intros Hx Hm E. pose proof Hx as [B1 B2 B3 B4 B5 B6 B7]. unfold submit_builder in E.
  apply bind_Ok in E as (b & Hb & E). apply bind_Ok in E as (u & Hu & E). apply deref_Ok in Hb, Hu. cbv zeta in E.
  destruct (B3 k b u Hb Hu) as (Hn & Hbuilt & Hwk & sp & Hsp & Hd).
  apply bind_Ok in E as (w & Hsub & E). apply bind_Ok in E as (task & Ht & E). unfold get_task in Ht. apply deref_Ok in Ht.
  destruct (emplace_law (u_task u) (u_worker u) (sched x) B2 Hwk) as (s1 & Es & Hv & Hw & Hnew & _).
  rewrite Es in E. cbn [mbind res_bind] in E. injection E as <- <-. cbn [sys sched builders id_counter task_ids info].
  pose proof (fresh_not_live x (u_task u) B1 Hn) as Hnt. rewrite <- Hd in Hsub.
  assert (Hp : forall p, parent sp = Some p -> (exists ip, info (sys x) !! p = Some ip /\ i_status ip = Running) /\ room p 1 (world (sys x)))
    by (intros p Hp; exact (Hm b u sp p Hb Hu Hsp Hp)).
  destruct (submit_submitted _ _ _ _ _ _ _ (reachable_safe _ B1) Hn Hnt Hsp Hp Hsub) as [l' Hd'].
  destruct (sb_new _ _ _ _ _ _ Hd' task Ht) as (_ & _ & Eg & _).
  eexists b, u, _. split; [exact Hb |]. split; [exact Hu |]. split; [reflexivity |]. split.
  { eapply step_submit; [exact Hn | exact Hnt | exact Hsp | exact Hbuilt | exact Hp | exact Hsub |]. rewrite Ht. reflexivity. }
  split; [reflexivity |]. split; [reflexivity |]. split; [reflexivity |]. split; [reflexivity |]. split; [exact Hv |].
  split; [exact Hw |]. split; [exact Hnew |]. exists task. split; [exact Ht |]. rewrite Eg. reflexivity.
Qed.

(** The task moves from its builder to the system. *)
Lemma binv_submitted x k b u i s' d bs :
  binv x -> builders x !! k = Some b -> b_task b = Some u -> reachable init step s' ->
  (forall y sp, spaces (world (sys x)) !! y = Some sp -> exists sp', spaces (world s') !! y = Some sp' /\ depth sp' = depth sp) ->
  info s' = <[u_task u := i]> (info (sys x)) -> valid d -> worker_ids d = worker_ids (sched x) ->
  (forall k1 b1 u1, bs !! k1 = Some b1 -> b_task b1 = Some u1 -> k1 <> k /\ builders x !! k1 = Some b1) ->
  (forall k1, k1 <> k -> bs !! k1 = builders x !! k1) ->
  binv (mkProgram s' d bs (id_counter x) (task_ids x)).
Proof.
  intros [B1 B2 B3 B4 B5 B6 B7] Hk Hb Hr Hsp Hi Hv Hw Hbs Hbs'.
  assert (Hh : holds k u x) by (exists b; auto).
  assert (Hother : forall k1 u1, holds k1 u1 (mkProgram s' d bs (id_counter x) (task_ids x)) -> holds k1 u1 x /\ u_task u1 <> u_task u).
  { intros k1 u1 (b1 & H1 & Hb1). destruct (Hbs k1 b1 u1 H1 Hb1) as [Hne H1']. assert (Hh1 : holds k1 u1 x) by (exists b1; auto).
    split; [exact Hh1 |]. intros E. apply Hne, (B4 k1 k u1 u Hh1 Hh E). }
  constructor; cbn [sys sched builders id_counter task_ids]; auto.
  - intros k1 b1 u1 H1 Hb1. destruct (Hother k1 u1) as [_ Hne]; [exists b1; auto |].
    destruct (Hbs k1 b1 u1 H1 Hb1) as [_ H1']. destruct (B3 k1 b1 u1 H1' Hb1) as (Hn & Hu & Hwk & sp & Hs & Hd).
    split; [rewrite Hi, lookup_insert_ne by congruence; exact Hn |]. split; [exact Hu |]. split; [rewrite Hw; exact Hwk |].
    destruct (Hsp _ _ Hs) as (sp' & Hs' & E). exists sp'. split; [exact Hs' | congruence].
  - intros k1 k2 u1 u2 H1 H2. apply B4; apply Hother; assumption.
  - intros t. rewrite B5, Hi. destruct (decide (u_task u = t)) as [<- | Hne].
    + rewrite lookup_insert_eq. split; [eauto |]. intros _. right. eauto.
    + rewrite lookup_insert_ne by exact Hne. split; (intros [Ht | (k1 & u1 & Hh1 & E)]; [auto | right]).
      * exists k1, u1. split; [| exact E]. destruct Hh1 as (b1 & H1 & Hb1). exists b1. split; [| exact Hb1].
        cbn [builders]. rewrite Hbs'; [exact H1 |]. intros ->. congruence.
      * exists k1, u1. split; [apply Hother, Hh1 | exact E].
Qed.

Lemma binv_submit k f x x' : binv x -> may_submit k x -> submit_builder k x = Ok (f, x') -> binv x'.
Proof.
  intros Hx Hm E. destruct (submit_builder_step k f x x' Hx Hm E) as (b & u & i & Hb & Hu & _ & Hs & Hi & Ebs & Ec & Ei & Hv & Hw & _).
  destruct x' as [s' d bs c ids]. cbn [sys sched builders id_counter task_ids] in *. subst bs c ids.
  eapply (binv_submitted x k b u i); try eassumption.
  - eapply reachable_step; [apply Hx | exact Hs].
  - intros y sp Hy. destruct (effect_space_forth _ _ _ _ (step_effect _ _ (reachable_safe _ (bi_sys _ Hx)) Hs) Hy) as (sp' & Hs' & E1 & _).
    eauto.
  - intros k1 b1 u1 H1 Hb1. apply lookup_insert_Some in H1 as [(<- & <-) | (Hne & H1)]; [discriminate | auto].
  - intros k1 Hne. apply lookup_insert_ne. congruence.
Qed.

Lemma binv_delete k x : binv x -> (forall b, builders x !! k = Some b -> b_task b = None) ->
  binv (mkProgram (sys x) (sched x) (delete k (builders x)) (id_counter x) (task_ids x)).
Proof.
  intros Hx Hk. apply (binv_builders x); [exact Hx | | |].
  - intros k1 b1 u1 H1 Hb1. apply lookup_delete_Some in H1 as [_ H1]. exists k1, b1, u1. auto 10.
  - intros k1 b1 u1 H1 Hb1. exists k1, b1, u1. rewrite lookup_delete_ne; [auto |]. intros <-. specialize (Hk b1 H1). congruence.
  - intros k1 k2 b1 b2 u1 u2 H1 H2 Hb1 Hb2. apply lookup_delete_Some in H1 as [_ H1], H2 as [_ H2].
    apply (bi_unique _ Hx k1 k2); [exists b1 | exists b2]; auto.
Qed.

Lemma binv_destroy k x x' : binv x -> may_submit k x -> destroy_builder k x = Ok x' -> binv x'.
Proof.
  intros Hx Hm E. unfold destroy_builder in E. apply bind_Ok in E as (b & Hb & E). apply deref_Ok in Hb.
  destruct (b_task b) as [u |] eqn:Hu.
  - apply bind_Ok in E as ([f y] & Ey & E). apply bind_Ok in E as (w & Ew & E). injection E as <-.
    pose proof (binv_submit k f x y Hx Hm Ey) as Hy.
    destruct (submit_builder_step k f x y Hx Hm Ey) as (b0 & u0 & i & Hb0 & Hu0 & -> & _ & _ & Ebs & _ & _ & _ & _ & _ & task & Ht & Eg).
    unfold destroy_future in Ew. cbn [taken new_future task_of] in Ew. apply bind_Ok in Ew as ([r w1] & En & Ew). injection Ew as <-.
    set (z := mkProgram (mkState w1 (info (sys y)) (next_seq (sys y))) (sched y) (builders y) (id_counter y) (task_ids y)).
    assert (Hz : binv z).
    { apply binv_sys_sched; [exact Hy | right; eapply step_result_get; eassumption | reflexivity | apply Hy | reflexivity]. }
    apply (binv_delete k z Hz). intros b1 H1. cbn [builders z] in H1. rewrite Ebs, lookup_insert_eq in H1. injection H1 as <-. reflexivity.
  - injection E as <-. apply binv_delete; [exact Hx |]. intros b1 H1. congruence.
Qed.

Lemma binv_step x x' : binv x -> bstep x x' -> binv x'.
Proof.
  intros Hx Hs. destruct Hs as [k q t current args x x' Hk Hf Hm Ha E | k l x x' Hl E | k ra x x' Hra E | k x x' E
    | k l x x' E | k k' x x' Hk E | k f x x' Hm E | k x x' Hm E | s' x Hs Hi | s' x Hv Hw].
  - eapply binv_emplace; eassumption.
  - eapply binv_on_task; [exact Hx | exact E | auto |]. intros u Hu. apply built_resources; assumption.
  - eapply binv_on_task; [exact Hx | exact E | auto |]. intros u Hu. apply built_add; assumption.
  - eapply binv_on_task; [exact Hx | exact E | auto | auto].
  - eapply binv_on_task; [exact Hx | exact E | auto | auto].
  - eapply binv_move; eassumption.
  - eapply binv_submit; eassumption.
  - eapply binv_destroy; eassumption.
  - apply binv_sys_sched; [exact Hx | right; exact Hs | exact Hi | apply Hx | reflexivity].
  - apply binv_sys_sched; [exact Hx | left; reflexivity | reflexivity | exact Hv | exact Hw].
Qed.

Lemma reachable_binv x : reachable binit bstep x -> binv x.
Proof.
  apply reachable_invariant; [| intros x0 x1; apply binv_step].
  intros x0 (Hi & Hv & Hb & Hc & Ht). unfold init in Hi.
  constructor; rewrite ?Hb, ?Hc, ?Ht; auto.
  - apply reachable_init. exact Hi.
  - intros k b u Hk. rewrite lookup_empty in Hk. discriminate.
  - intros k k' u u' (b & Hk & _). rewrite Hb, lookup_empty in Hk. discriminate.
  - intros t. rewrite lookup_empty, Hi. cbn [info]. rewrite lookup_empty. split; [intros [? ?]; discriminate |].
    intros [[? ?] | (k & u & (b & Hk & _) & _)]; [discriminate |]. rewrite Hb, lookup_empty in Hk. discriminate.
  - intros _. split; [intros t i E | intros t t' i E]; rewrite lookup_empty in E; discriminate.
Qed.

(** C16 (builders): a task that was emplaced is either submitted or held by one
    builder, never both; so when no builder is left, every emplaced task is
    submitted.  Ids are distinct until 2^32 tasks have been made. *)
Theorem emplaced_task_submitted_once x :
  reachable binit bstep x ->
  (forall t, is_Some (task_ids x !! t) <-> is_Some (info (sys x) !! t) \/ exists k u, holds k u x /\ u_task u = t) /\
  (forall k u, holds k u x -> info (sys x) !! u_task u = None) /\
  (forall k k' u u', holds k u x -> holds k' u' x -> u_task u = u_task u' -> k = k') /\
  (builders x = ∅ -> forall t, is_Some (task_ids x !! t) -> is_Some (info (sys x) !! t)) /\
  (Z.of_nat (base.size (task_ids x)) <= 2 ^ 32 ->
   forall t t' i, task_ids x !! t = Some i -> task_ids x !! t' = Some i -> t = t').
Proof.
  intros Hr. destruct (reachable_binv x Hr) as [B1 B2 B3 B4 B5 B6 B7].
  split; [exact B5 |]. split; [intros k u (b & Hb & Hu); apply (B3 k b u Hb Hu) |]. split; [exact B4 |]. split.
  - intros Hbs t Ht. apply B5 in Ht as [Ht | (k & u & (b & Hb & _) & _)]; [exact Ht |].
    rewrite Hbs, lookup_empty in Hb. discriminate.
  - intros Hle. apply B7, Hle.
Qed.

(** The result of a task that is just submitted can be given up. *)
Lemma destroy_new_future s t task :
  invariant s -> tasks (world s) !! t = Some task -> state (result_get_event task) = 1 ->
  exists w', destroy_future (new_future t) (world s) = Ok w'.
Proof.
  intros [HI _ _ _] Ht Hg. unfold destroy_future. cbn [taken new_future task_of].
  destruct (notify_result_get_spec _ _ (total (world s)) _ t task HI Ht Hg) as (b & w' & E & _).
  unfold notify_fuel. rewrite E. cbn [mbind res_bind]. eauto.
Qed.

Lemma submit_builder_ok k b u x :
  binv x -> builders x !! k = Some b -> b_task b = Some u -> may_submit k x -> covered b u x ->
  exists x', submit_builder k x = Ok (new_future (u_task u), x') /\
    exists i, info (sys x') !! u_task u = Some i /\ i_space i = b_space b /\ i_seq i = next_seq (sys x) /\ i_status i = Emplaced.
Proof.
  intros Hx Hb Hu Hm Hc. pose proof Hx as [B1 B2 B3 B4 B5 B6 B7].
  destruct (B3 k b u Hb Hu) as (Hn & Hbuilt & Hwk & sp & Hsp & Hd).
  destruct (reachable_safe _ B1) as [HI HS HL HO]. pose proof (fresh_not_live x _ B1 Hn) as Hnt.
  destruct (submit_spec _ _ _ (b_space b) sp (u_task u) (u_user u) (u_worker u) HI Hnt Hsp) as (l' & w' & E & _ & Hd').
  - unfold bpre_of. rewrite Hn. reflexivity.
  - unfold bpost_of. rewrite Hn. reflexivity.
  - intros p Hp. destruct (Hm b u sp p Hb Hu Hsp Hp) as [(ip & Hip & Hrun) Hroom].
    assert (Hnf := running_not_finished _ p ip B1 Hip Hrun).
    destruct (tasks (world (sys x)) !! p) as [taskp |] eqn:Htp; [| exfalso; apply Hnf; intros y Hy; congruence].
    exists taskp. split; [reflexivity |]. split; [| split; [apply (Hroom taskp Htp) | eapply Hc; eassumption]].
    destruct (is_finished taskp) eqn:Ef; [| reflexivity]. exfalso. apply Hnf. intros y Hy. congruence.
  - destruct (emplace_law (u_task u) (u_worker u) (sched x) B2 Hwk) as (s1 & Es & _).
    destruct (sb_task _ _ _ _ _ _ Hd') as (task & Ht & _).
    eexists. split.
    + unfold submit_builder. rewrite Hb. cbn [deref mbind res_bind]. rewrite Hu. cbn [deref mbind res_bind].
      rewrite <- Hd. rewrite E. cbn [mbind res_bind]. unfold get_task. rewrite Ht. cbn [deref mbind res_bind].
      rewrite Es. reflexivity.
    + eexists. cbn [sys info]. rewrite lookup_insert_eq. repeat split; reflexivity.
Qed.

(** What is left of a submission that the superset test of the parent refuses. *)
Lemma submit_builder_refused k b u sp p taskp x :
  binv x -> builders x !! k = Some b -> b_task b = Some u -> spaces (world (sys x)) !! b_space b = Some sp ->
  parent sp = Some p -> tasks (world (sys x)) !! p = Some taskp -> is_superset_of (user taskp) (u_user u) = false ->
  submit_builder k x = Err AssertFailed.
Proof.
  intros Hx Hb Hu Hsp Hp Htp Esup. destruct (bi_held _ Hx k b u Hb Hu) as (Hn & _).
  pose proof (fresh_not_live x _ (bi_sys _ Hx) Hn) as Hnt. assert (Hne : p <> u_task u) by congruence.
  unfold submit_builder. rewrite Hb. cbn [deref mbind res_bind]. rewrite Hu. cbn [deref mbind res_bind].
  unfold submit, get_task. simpl (tasks (put_task _ _ _) !! u_task u). rewrite lookup_insert_eq.
  simpl (spaces (put_task _ _ _) !! b_space b). rewrite Hsp. cbn [deref mbind res_bind]. rewrite Hp.
  simpl (tasks _ !! p). rewrite !lookup_insert_ne by congruence. rewrite Htp. cbn [deref mbind res_bind].
  change (user (with_user (u_user u) ?v)) with (u_user u). rewrite Esup. reflexivity.
Qed.

(** (destroy_submits): a builder that goes out of scope with its task submits
    it: the task is entered in its space after all earlier tasks and put once into
    the queue of new tasks, and the builder is gone.  In a child space it must not
    access more than the parent, or the assertion fails; a builder whose task was
    given away does nothing. *)
Theorem destroy_builder_submits k b x :
  reachable binit bstep x -> builders x !! k = Some b -> may_submit k x ->
  match b_task b with
  | Some u =>
      (covered b u x -> exists x', destroy_builder k x = Ok x' /\ builders x' !! k = None /\
         pending New (sched x') ≡ₚ u_task u :: pending New (sched x) /\
         exists i, info (sys x') !! u_task u = Some i /\ i_space i = b_space b /\ i_seq i = next_seq (sys x) /\
           i_status i = Emplaced) /\
      (forall sp p taskp, spaces (world (sys x)) !! b_space b = Some sp -> parent sp = Some p ->
         tasks (world (sys x)) !! p = Some taskp -> is_superset_of (user taskp) (u_user u) = false ->
         destroy_builder k x = Err AssertFailed)
  | None => exists x', destroy_builder k x = Ok x' /\ builders x' !! k = None /\ sys x' = sys x /\ sched x' = sched x
  end.
Proof.
  intros Hr Hb Hm. pose proof (reachable_binv x Hr) as Hx. unfold destroy_builder. rewrite Hb. cbn [deref mbind res_bind].
  destruct (b_task b) as [u |] eqn:Hu.
  - split.
    + intros Hc. destruct (submit_builder_ok k b u x Hx Hb Hu Hm Hc) as (y & E & i & Hi & Hs).
      rewrite E. cbn [mbind res_bind].
      destruct (submit_builder_step k _ x y Hx Hm E) as (b0 & u0 & i0 & Hb0 & Hu0 & _ & Hst & Hinfo & Ebs & _ & _ & Hv & _ & Hnew & task & Ht & Eg).
      assert (u0 = u) as -> by congruence.
      destruct (destroy_new_future (sys y) (u_task u) task) as (w & Ew); [apply reachable_safe, (binv_submit k _ x y Hx Hm E) | exact Ht | exact Eg |].
      rewrite Ew. cbn [mbind res_bind]. eexists. split; [reflexivity |]. cbn [builders sched sys info].
      split; [apply lookup_delete_eq |]. split; [exact Hnew | eauto].
    + intros sp p taskp Hsp Hp Htp Esup. rewrite (submit_builder_refused k b u sp p taskp x); auto.
  - eexists. split; [reflexivity |]. cbn [builders sched sys]. split; [apply lookup_delete_eq | auto].
Qed.
End Facts.

(** ** A concrete program *)

Section Example.
#[local] Existing Instances run_ops run_laws.

Definition start_program : Program (RA := Guards.RA) (S := Statics * PoolScheduler (Q := list nat)) :=
  mkProgram start_state (no_statics, sample) ∅ 0 ∅.

(** The value of a call that succeeds. *)
Definition got {A} (d : A) (r : res A) : A := match r with Ok x => x | Err _ => d end.

Lemma got_ok {A} (d : A) r : is_ok r = true -> r = Ok (got d r).
Proof. destruct r; [reflexivity | discriminate]. Qed.

(** Two writers of a resource are emplaced; the second builder is moved, and the
    builder moved from is destroyed, then the first. *)
Definition one_emplaced : Program := got start_program (emplace 0 0 (Some 0%nat) None [io_access Access.write 7] start_program).
Definition two_emplaced : Program := got start_program (emplace 1 0 (Some 1%nat) None [io_access Access.write 7] one_emplaced).
Definition one_moved : Program := got start_program (move_builder 1 2 two_emplaced).

Lemma io_write_valid ra : ra ∈ [io_access Access.write 7] -> ra_valid ra.
Proof. intros Hra. apply list_elem_of_singleton in Hra as ->. split; [reflexivity | exact I]. Qed.

Lemma one_builder : builders one_emplaced =
  {[0%nat := got (mkBuilder 0 None) (deref (builders one_emplaced !! 0%nat))]}.
Proof. vm_compute. reflexivity. Qed.

Lemma one_moved_reachable : reachable binit bstep one_moved.
Proof.
  apply (reachable_step _ _ two_emplaced).
  - apply (reachable_step _ _ one_emplaced).
    + apply (reachable_step _ _ start_program); [apply reachable_init; split; [reflexivity |]; split; [split; [exact no_statics_wf | exact pool_sample_wf] |]; auto |].
      apply (b_emplace 0 0 0 None [io_access Access.write 7]); [reflexivity | split | discriminate | exact io_write_valid | apply got_ok; vm_compute; reflexivity].
      * reflexivity.
      * intros k b u Hk. vm_compute in Hk. discriminate.
    + apply (b_emplace 1 0 1 None [io_access Access.write 7]); [vm_compute; reflexivity | split | discriminate | exact io_write_valid | apply got_ok; vm_compute; reflexivity].
      * vm_compute. reflexivity.
      * intros k b u Hk Hb. rewrite one_builder in Hk. apply lookup_singleton_Some in Hk as [_ <-].
        vm_compute in Hb. injection Hb as <-. discriminate.
  - apply (b_move 1 2); [vm_compute; reflexivity | apply got_ok; vm_compute; reflexivity].
Qed.

Definition first_builder : TaskBuilder := got (mkBuilder 0 None) (deref (builders one_moved !! 0%nat)).

Lemma one_moved_submit : may_submit 0 one_moved.
Proof. intros b u sp p E _ Es Ep. vm_compute in E. injection E as <-. vm_compute in Es. injection Es as <-. discriminate. Qed.

Lemma emplaced_task_submitted_once_witness :
  is_Some (info (sys one_moved) !! 1%nat) \/ exists k u, holds k u one_moved /\ u_task u = 1%nat.
Proof.
  destruct (emplaced_task_submitted_once one_moved one_moved_reachable) as (Hid & _).
  apply Hid. exists 1. vm_compute. reflexivity.
Defined.

Lemma destroy_builder_submits_witness :
  exists x', destroy_builder 0 one_moved = Ok x' /\ builders x' !! 0%nat = None /\ pending New (sched x') = [0; 8]%nat.
Proof.
  assert (Hb : builders one_moved !! 0%nat = Some first_builder) by (vm_compute; reflexivity).
  pose proof (destroy_builder_submits 0 first_builder one_moved one_moved_reachable Hb one_moved_submit) as Hd.
  assert (E : ((fun x' => pending New (sched x')) <$> destroy_builder 0 one_moved) = Ok [0; 8]%nat) by (vm_compute; reflexivity).
  destruct (b_task first_builder) as [u |] eqn:Hu; [| vm_compute in Hu; discriminate].
  destruct Hd as [Hd _]. destruct Hd as (x' & Ex & Hn & _).
  - intros sp p taskp Es Ep. vm_compute in Es. injection Es as <-. discriminate.
  - exists x'. split; [exact Ex |]. split; [exact Hn |]. rewrite Ex in E. injection E as E. exact E.
Defined.
End Example.
End TaskBuilder.
