(* ===== verification/WorkerLoop.v ===== *)
(** What a worker of a pool does: it takes ready tasks from its queue,
    initializes new ones until one is ready, steals from busy workers, and
    executes what it found ([redGrapes/dispatch/thread/DefaultWorker.tpp],
    [WorkerPool::steal_task]).  The task graph is behind the interface
    [TaskGraph]; what the graph asks of the scheduler while it runs are calls,
    performed in their order. *)

From Stdlib Require Import ZArith Lia Bool.
From stdpp Require Import base list gmap.
From S2P Require Import Prelude Bitfield Workers Scheduler Graph.

Open Scope Z_scope.
Open Scope word_scope.

Module WorkerLoop.
Import Workers Scheduler Graph.

(** ** The task graph as the workers see it *)

(** [graph_init] initializes the dependencies of a new task, and tells whether it
    is ready; [graph_start], [graph_finish] and [graph_pause] are the
    notifications around the call of the task's function. *)
Class TaskGraph (W : Type) : Type := {
  graph_init : nat -> bool -> W -> res (bool * list Call * W);
  graph_start : nat -> W -> res (list Call * W);
  graph_finish : nat -> W -> res (list Call * W);
  graph_pause : nat -> Z -> EventPtr -> W -> res (list Call * W);
  graph_ok : W -> Prop;
  fresh : nat -> W -> Prop
}.

(** A fresh task can be initialized; that wakes no one and leaves the other
    fresh tasks fresh. *)
Class TaskGraphLaws (W : Type) `{TaskGraph W} : Prop := {
  init_law : forall t claimed w, graph_ok w -> fresh t w -> exists b cs w',
    graph_init t claimed w = Ok (b, cs, w') /\ graph_ok w' /\
    (forall u, u <> t -> fresh u w -> fresh u w') /\
    (forall u i, ~ Wake u i ∈ cs)
}.

(** ** The calls of the graph *)

Section Perform.
Context {S : Type} `{IScheduler S}.

(** [NotifyParser] and [Free] concern neither scheduler nor workers. *)
Definition perform_call (current : option Z) (c : Call) (s : S) : res S :=
  match c with
  | Activate t => activate_task current t s
  | Wake _ i => '(_, s) ← wake i s; Ok s
  | NotifyParser => Ok s
  | Free _ => Ok s
  end.

Fixpoint perform (current : option Z) (cs : list Call) (s : S) : res S :=
  match cs with
  | [] => Ok s
  | c :: cs => s ← perform_call current c s; perform current cs s
  end.

(** Exactly the activated tasks arrive in the ready queues. *)
Lemma perform_ok {cur} `{!SchedulerLaws S cur} current cs : forall s,
  valid s -> cur current -> (forall u i, Wake u i ∈ cs -> i ∈ worker_ids s) ->
  exists s', perform current cs s = Ok s' /\ valid s' /\ worker_ids s' = worker_ids s /\
    pending Ready s' ≡ₚ activations cs ++ pending Ready s /\ pending New s' = pending New s.
Proof.
  induction cs as [| c cs IH]; intros s Hv Hc Hw.
  { exists s. auto. }
  assert (Hs1 : exists s1, perform_call current c s = Ok s1 /\ valid s1 /\ worker_ids s1 = worker_ids s /\
    pending Ready s1 ≡ₚ activations [c] ++ pending Ready s /\ pending New s1 = pending New s).
  { destruct c as [u i | t | | t]; simpl.
    - destruct (wake_law i s Hv (Hw u i ltac:(left))) as (b & s1 & E & Hv1 & Hi1 & Hk).
      exists s1. rewrite E, !Hk. auto.
    - destruct (activate_law current t s Hv Hc) as (s1 & E & Hv1 & Hi1 & Hr & Hn). exists s1. auto.
    - exists s. auto.
    - exists s. auto. }
  destruct Hs1 as (s1 & E & Hv1 & Hi1 & Hr & Hn). cbn [perform]. rewrite E. cbn [mbind res_bind].
  destruct (IH s1 Hv1 Hc) as (s2 & E2 & Hv2 & Hi2 & Hr2 & Hn2).
  { intros u i Hin. rewrite Hi1. apply (Hw u i). right. exact Hin. }
  exists s2. split; [exact E2 |]. split; [exact Hv2 |]. split; [congruence |]. split; [| congruence].
  rewrite Hr2, Hr. unfold activations. destruct c; simpl; rewrite ?Permutation_middle; reflexivity.
Qed.
End Perform.

(** ** Accounting for tasks *)

Section Accounting.
Context {W : Type} `{TaskGraph W}.

(** Initializing tasks one after the other for a worker that claims the first that is
    ready: the calls the graph makes, and the claimed task, with which it ends. *)
Inductive inits : list nat -> W -> list Call -> option nat -> W -> Prop :=
  | inits_none w : inits [] w [] None w
  | inits_waits t ts w cs w1 cs' r w2 :
      graph_init t true w = Ok (false, cs, w1) -> inits ts w1 cs' r w2 -> inits (t :: ts) w (cs ++ cs') r w2
  | inits_ready t w cs w1 :
      graph_init t true w = Ok (true, cs, w1) -> inits [t] w cs (Some t) w1.

(** What a worker that looks for a task does to the new and ready tasks in the queues and
    to the graph: the new tasks it takes are initialized; the task it gets and those ready
    afterwards are those that were ready, those the graph activated meanwhile, and the
    task it claimed, which is the one it gets. *)
Definition handed_out (new ready : list nat) (w : W) (r : option nat) (new' ready' : list nat) (w' : W) : Prop :=
  exists ts cs claimed,
    inits ts w cs claimed w' /\ new ≡ₚ ts ++ new' /\
    ready ++ activations cs ++ option_list claimed ≡ₚ option_list r ++ ready' /\
    (is_Some claimed -> claimed = r).

Lemma inits_app ts1 w1 cs1 w2 : forall r1, inits ts1 w1 cs1 r1 w2 -> r1 = None -> forall ts2 cs2 r w3,
  inits ts2 w2 cs2 r w3 -> inits (ts1 ++ ts2) w1 (cs1 ++ cs2) r w3.
Proof.
  intros r1 H1. induction H1 as [w | t ts w cs wa cs' r wb E _ IH | t w cs wa E]; intros Er ts2 cs2 r2 w3 H2.
  - exact H2.
  - rewrite <- app_assoc. simpl. eapply inits_waits; [exact E |]. apply IH; assumption.
  - discriminate.
Qed.

Lemma handed_out_same new ready w : handed_out new ready w None new ready w.
Proof. exists [], [], None. split; [constructor |]. split; [reflexivity |]. split; [rewrite app_nil_r; reflexivity | intros []; discriminate]. Qed.

Lemma handed_out_ready new ready ready1 t w : ready ≡ₚ t :: ready1 -> handed_out new ready w (Some t) new ready1 w.
Proof.
  intros Er. exists [], [], None. split; [constructor |]. split; [reflexivity |].
  split; [rewrite Er, app_nil_r; reflexivity | intros []; discriminate].
Qed.

Lemma handed_out_claimed new ready w new1 ready1 t cs w1 :
  graph_init t true w = Ok (true, cs, w1) -> new ≡ₚ t :: new1 -> ready1 ≡ₚ activations cs ++ ready ->
  handed_out new ready w (Some t) new1 ready1 w1.
Proof.
  intros E Hn Hr. exists [t], cs, (Some t). split; [constructor; exact E |]. split; [exact Hn |]. split; [| auto].
  simpl. rewrite Hr, app_assoc, <- Permutation_cons_append. f_equiv. apply Permutation_app_comm.
Qed.

Lemma handed_out_waits new ready w new1 ready1 t cs w1 :
  graph_init t true w = Ok (false, cs, w1) -> new ≡ₚ t :: new1 -> ready1 ≡ₚ activations cs ++ ready ->
  handed_out new ready w None new1 ready1 w1.
Proof.
  intros E Hn Hr. exists [t], cs, None. split; [rewrite <- (app_nil_r cs); econstructor; [exact E | constructor] |].
  split; [exact Hn |]. split; [| intros []; discriminate]. simpl. rewrite Hr, app_nil_r. apply Permutation_app_comm.
Qed.

Lemma handed_out_trans new ready w new1 ready1 w1 r new2 ready2 w2 :
  handed_out new ready w None new1 ready1 w1 -> handed_out new1 ready1 w1 r new2 ready2 w2 ->
  handed_out new ready w r new2 ready2 w2.
Proof.
  intros (t1 & c1 & k1 & G1 & Hn1 & Hr1 & Hk1) (t2 & c2 & k2 & G2 & Hn2 & Hr2 & Hk2).
  assert (k1 = None) as -> by (destruct k1; [discriminate Hk1; eauto | reflexivity]).
  exists (t1 ++ t2), (c1 ++ c2), k2. split; [eapply inits_app; eauto |]. split; [rewrite Hn1, Hn2, app_assoc; reflexivity |].
  split; [| exact Hk2]. simpl in Hr1. rewrite app_nil_r in Hr1. unfold activations in *. rewrite <- Hr2, omap_app, <- Hr1.
  rewrite <- !app_assoc. reflexivity.
Qed.
End Accounting.

Section Loop.
Context {Q : Type} `{TaskQueueLaws Q} {W : Type} `{TaskGraph W}.

Record Machine : Type := mkMachine { statics : Statics; sched : PoolScheduler (Q := Q); graph : W }.

Definition pool (m : Machine) : WorkerPool := m_worker_pool (sched m).
Definition with_sched (s : PoolScheduler) (m : Machine) : Machine := mkMachine (statics m) s (graph m).

(** An operation on the pool of the worker. *)
Definition on_pool {A} (f : WorkerPool (Q := Q) -> res (A * WorkerPool)) (m : Machine) : res (A * Machine) :=
  '(a, p) ← f (pool m); Ok (a, with_sched (with_pool p (sched m)) m).

(** [self] is the worker's position, [current] its id. *)
Definition current_of (self : Z) (m : Machine) : option Z := Some (base_id (sched m) + self).

Definition set_state (self : Z) (st : bool) (m : Machine) : res Machine :=
  '(_, m) ← on_pool (set_worker_state_global (base_id (sched m) + self) st) m; Ok m.

(** [pre_event.up(); init_graph(); get_pre_event().notify(claimed)] *)
Definition init_task (self : Z) (t : nat) (claimed : bool) (m : Machine) : res (bool * Machine) :=
  '(ready, cs, g) ← graph_init t claimed (graph m);
  '(x, s) ← perform (current_of self m) cs (statics m, sched m);
  Ok (ready, mkMachine x s g).

(** [init_dependencies]: whether there was a task, and the task if it is ready. *)
Definition init_dependencies (self : Z) (claimed : bool) (m : Machine) : res (bool * option nat * Machine) :=
  '(t, m) ← on_pool (on_worker self (pop_worker New)) m;
  match t with
  | Some t => '(ready, m) ← init_task self t claimed m; Ok (true, if ready : bool then Some t else None, m)
  | None => Ok (false, None, m)
  end.

(** Stage 2 of [gather_task]; the second component tells whether the loop was
    left with a task. *)
Fixpoint init_loop (fuel : nat) (self : Z) (m : Machine) : res (option nat * Machine) :=
  match fuel with
  | O => Err OutOfFuel
  | S fuel =>
      '(more, t, m) ← init_dependencies self true m;
      match more, t with
      | true, Some t => Ok (Some t, m)
      | true, None => init_loop fuel self m
      | false, _ => Ok (None, m)
      end
  end.

Definition steal_task (self : Z) (m : Machine) : res (option nat * Machine) :=
  '(t, m) ← on_pool (steal_ready_task self) m;
  match t with
  | Some t => m ← set_state self BUSY m; Ok (Some t, m)
  | None =>
      '(t, m) ← on_pool (steal_new_task self) m;
      match t with
      | Some t =>
          '(ready, m) ← init_task self t true m;
          if ready : bool then m ← set_state self BUSY m; Ok (Some t, m) else Ok (None, m)
      | None => Ok (None, m)
      end
  end.

(** One new task fewer in every turn of the loop. *)
Definition gather_fuel (self : Z) (m : Machine) : nat := S (length (all_queued New (pool m))).

Definition gather_task (self : Z) (m : Machine) : res (option nat * Machine) :=
  '(t, m) ← on_pool (on_worker self (pop_worker Ready)) m;
  match t with
  | Some t => Ok (Some t, m)
  | None =>
      '(t, m) ← init_loop (gather_fuel self m) self m;
      match t with
      | Some t => Ok (Some t, m)
      | None => m ← set_state self AVAILABLE m; steal_task self m
      end
  end.

(** ** Executing a task *)

(** [run] is the task's function: it may change anything, and returns the event
    the task waits for if it was paused. *)
Section Execute.
Context (run : nat -> Machine -> res (option EventPtr * Machine)).

Definition absorb (self : Z) (f : W -> res (list Call * W)) (m : Machine) : res Machine :=
  '(cs, g) ← f (graph m);
  '(x, s) ← perform (current_of self m) cs (statics m, sched m);
  Ok (mkMachine x s g).

Definition execute_task (self : Z) (t : nat) (m : Machine) : res Machine :=
  m ← absorb self (graph_start t) m;
  '(event, m) ← run t m;
  match event with
  | Some e => absorb self (graph_pause t (base_id (sched m) + self) e) m
  | None => absorb self (graph_finish t) m
  end.

(** The inner loop of [work_loop]. *)
Fixpoint work (fuel : nat) (self : Z) (m : Machine) : res Machine :=
  match fuel with
  | O => Err OutOfFuel
  | S fuel =>
      '(t, m) ← gather_task self m;
      match t with
      | Some t => m ← set_state self BUSY m; m ← execute_task self t m; work fuel self m
      | None => Ok m
      end
  end.

(** One turn of [work_loop] from the return of [cv.wait], which resets the flag
    of the condition variable, to the next. *)
Definition work_turn (fuel : nat) (self : Z) (m : Machine) : res Machine :=
  '(_, m) ← on_pool (on_worker self (fun w =>
      (tt, mkWorker (id w) (m_stop w) true (emplacement_queue w) (ready_queue w)))) m;
  m ← work fuel self m;
  '(stop, m) ← on_pool (on_worker self (fun w => (m_stop w, w))) m;
  if stop : bool then Ok m else set_state self AVAILABLE m.
End Execute.

(** ** Gathering tasks *)

Context `{!TaskGraphLaws W}.

Implicit Types (m : Machine).

Definition ready_tasks (m : Machine) : list nat := all_queued Ready (pool m).
Definition new_tasks (m : Machine) : list nat := all_queued New (pool m).

(** The new tasks in the queues are different and can be initialized. *)
Record machine_ok (m : Machine) : Prop := {
  mo_statics : statics_wf (statics m);
  mo_sched : scheduler_wf (sched m);
  mo_graph : graph_ok (graph m);
  mo_nodup : NoDup (new_tasks m);
  mo_fresh : forall t, t ∈ new_tasks m -> fresh t (graph m)
}.

Definition gathered (m : Machine) (r : option nat) (m' : Machine) : Prop :=
  handed_out (new_tasks m) (ready_tasks m) (graph m) r (new_tasks m') (ready_tasks m') (graph m').

Lemma scheduler_wf_pool (s : PoolScheduler (Q := Q)) (p : WorkerPool) :
  scheduler_wf s -> pool_wf p -> num_workers p = num_workers (m_worker_pool s) ->
  m_base_id p = m_base_id (m_worker_pool s) -> scheduler_wf (with_pool p s).
Proof. intros [] Hp En Eb. constructor; simpl; try assumption; congruence. Qed.

Lemma machine_ok_taken m k t p :
  machine_ok m -> taken k t (pool m) p ->
  let m' := with_sched (with_pool p (sched m)) m in
  machine_ok m' /\ n_workers (sched m') = n_workers (sched m) /\
  (k = Ready -> ready_tasks m ≡ₚ t :: ready_tasks m' /\ new_tasks m' = new_tasks m) /\
  (k = New -> new_tasks m ≡ₚ t :: new_tasks m' /\ ready_tasks m' = ready_tasks m /\
     fresh t (graph m) /\ t ∉ new_tasks m').
Proof.
  intros [Hx Hs Hg Hn Hf] (Ht & Ho & _ & Hp & En & Eb) m'.
  assert (Hs' : scheduler_wf (sched m')) by (apply scheduler_wf_pool; assumption).
  destruct k.
  - assert (Enew : new_tasks m' = new_tasks m) by (apply Ho; discriminate).
    split; [constructor; rewrite ?Enew; assumption |]. split; [reflexivity |].
    split; [intros _; split; [exact Ht | exact Enew] | discriminate].
  - assert (Enew : new_tasks m ≡ₚ t :: new_tasks m') by exact Ht.
    pose proof Hn as Hn'. rewrite Enew in Hn'. apply NoDup_cons in Hn' as [Hnt Hn'].
    split.
    { constructor; try assumption. intros u Hu. apply Hf. rewrite Enew. right. exact Hu. }
    split; [reflexivity |]. split; [discriminate |]. intros _. split; [exact Ht |].
    split; [apply Ho; discriminate |]. split; [| exact Hnt]. apply Hf. rewrite Enew. left.
Qed.

Lemma pop_ok k self m :
  machine_ok m -> 0 <= self < n_workers (sched m) ->
  (on_pool (on_worker self (pop_worker k)) m = Ok (None, m) /\
   forall w, workers (pool m) !! Z.to_nat self = Some w -> queued (queue_of k w) = []) \/
  exists t p, on_pool (on_worker self (pop_worker k)) m = Ok (Some t, with_sched (with_pool p (sched m)) m) /\
    taken k t (pool m) p.
Proof.
  intros [_ Hs _ _ _] Hi. pose proof (sw_pool _ Hs) as Hp. rewrite <- (sw_n _ Hs) in Hi. unfold on_pool.
  destruct (pop_worker_spec k self (pool m) Hp Hi) as (w & Hw & [[E E0] | (t & q & E & Eq)]).
  - left. unfold pool in *. rewrite E. cbn [mbind res_bind]. split.
    + destruct m as [x [b n p] g]. reflexivity.
    + intros x Hx. assert (x = w) as -> by congruence. exact E0.
  - right. exists t. eexists. unfold pool in *. rewrite E. cbn [mbind res_bind]. split; [reflexivity |].
    apply taken_insert; assumption.
Qed.

(** Initializing a fresh task that is in no queue. *)
Lemma init_task_ok self t m :
  machine_ok m -> fresh t (graph m) -> t ∉ new_tasks m ->
  exists b cs m', init_task self t true m = Ok (b, m') /\ machine_ok m' /\
    n_workers (sched m') = n_workers (sched m) /\ graph_init t true (graph m) = Ok (b, cs, graph m') /\
    new_tasks m' = new_tasks m /\ ready_tasks m' ≡ₚ activations cs ++ ready_tasks m.
Proof.
  intros [Hx Hs Hg Hn Hf] Ht Hnt. destruct (init_law t true (graph m) Hg Ht) as (b & cs & g & E & Hg' & Hf' & Hw).
  destruct (perform_ok (current_of self m) cs (statics m, sched m)) as ([x' s'] & Es & [Hx' Hs'] & Hi & Hr & Hnew).
  - split; assumption.
  - exists (base_id (sched m) + self). reflexivity.
  - intros u i Hin. destruct (Hw u i Hin).
  - simpl in Hx', Hs', Hi, Hr, Hnew. exists b, cs, (mkMachine x' s' g). split.
    { unfold init_task. rewrite E. cbn [mbind res_bind]. rewrite Es. reflexivity. }
    assert (En : n_workers s' = n_workers (sched m)).
    { assert (El : length (pool_ids s') = length (pool_ids (sched m))) by congruence.
      unfold pool_ids, zrange in El. rewrite !length_fmap, !length_seq in El.
      pose proof (sw_some _ Hs). pose proof (sw_some _ Hs'). lia. }
    split; [| split; [exact En |]; split; [exact E |]; split; assumption].
    constructor; unfold new_tasks, pool; simpl; rewrite ?Hnew; try assumption.
    intros u Hu. apply Hf'; [intros ->; contradiction | apply Hf, Hu].
Qed.

(** The initialization of a task that was taken from a queue. *)
Lemma init_taken_ok self t p m :
  machine_ok m -> taken New t (pool m) p ->
  exists b m', init_task self t true (with_sched (with_pool p (sched m)) m) = Ok (b, m') /\ machine_ok m' /\
    n_workers (sched m') = n_workers (sched m) /\ new_tasks m ≡ₚ t :: new_tasks m' /\
    gathered m (if b : bool then Some t else None) m'.
Proof.
  intros Hm Ht. destruct (machine_ok_taken m New t p Hm Ht) as (Hm1 & En1 & _ & Hk).
  destruct (Hk eq_refl) as (Enew & Eready & Hfr & Hnt).
  destruct (init_task_ok self t _ Hm1 Hfr Hnt) as (b & cs & m' & E & Hm' & En & Eg & Enew' & Er).
  rewrite <- Enew' in Enew. rewrite Eready in Er.
  exists b, m'. split; [exact E |]. split; [exact Hm' |]. split; [congruence |]. split; [exact Enew |].
  destruct b; [exact (handed_out_claimed _ _ _ _ _ _ _ _ Eg Enew Er) | exact (handed_out_waits _ _ _ _ _ _ _ _ Eg Enew Er)].
Qed.

(** A step of [init_dependencies]: the own queue is empty, or its next task is
    initialized. *)
Lemma init_dependencies_ok self m :
  machine_ok m -> 0 <= self < n_workers (sched m) ->
  init_dependencies self true m = Ok (false, None, m) \/
  exists t b m', init_dependencies self true m = Ok (true, if b : bool then Some t else None, m') /\
    machine_ok m' /\ n_workers (sched m') = n_workers (sched m) /\ new_tasks m ≡ₚ t :: new_tasks m' /\
    gathered m (if b then Some t else None) m'.
Proof.
  intros Hm Hi. unfold init_dependencies.
  destruct (pop_ok New self m Hm Hi) as [[E _] | (t & p & E & Ht)]; rewrite E; cbn [mbind res_bind]; [left; reflexivity |].
  right. destruct (init_taken_ok self t p m Hm Ht) as (b & m' & E' & R). exists t, b, m'. rewrite E'. auto.
Qed.

Lemma init_loop_ok self fuel : forall m,
  machine_ok m -> 0 <= self < n_workers (sched m) -> (length (new_tasks m) < fuel)%nat ->
  exists r m', init_loop fuel self m = Ok (r, m') /\ machine_ok m' /\
    n_workers (sched m') = n_workers (sched m) /\ gathered m r m'.
Proof.
  induction fuel as [| fuel IH]; intros m Hm Hi Hf; [lia |]. cbn [init_loop].
  destruct (init_dependencies_ok self m Hm Hi) as [E | (t & b & m1 & E & Hm1 & En1 & Hnew & Hg1)];
    rewrite E; cbn [mbind res_bind].
  - exists None, m. split; [reflexivity |]. split; [exact Hm |]. split; [reflexivity |]. apply handed_out_same.
  - destruct b.
    + exists (Some t), m1. auto.
    + destruct (IH m1 Hm1) as (r & m2 & E2 & Hm2 & En2 & Hg); [lia | |].
      { rewrite Hnew in Hf. simpl in Hf. lia. }
      exists r, m2. split; [exact E2 |]. split; [exact Hm2 |]. split; [congruence |].
      exact (handed_out_trans _ _ _ _ _ _ _ _ _ _ Hg1 Hg).
Qed.

Lemma set_state_ok self st m :
  machine_ok m -> 0 <= self < n_workers (sched m) ->
  exists m', set_state self st m = Ok m' /\ machine_ok m' /\ n_workers (sched m') = n_workers (sched m) /\
    new_tasks m' = new_tasks m /\ ready_tasks m' = ready_tasks m /\ graph m' = graph m.
Proof.
  intros [Hx Hs Hg Hn Hf] Hi. pose proof (sw_pool _ Hs) as Hp. pose proof (pw_small _ Hp) as Hsm.
  rewrite (sw_n _ Hs) in Hsm. unfold set_state, on_pool, set_worker_state_global, pool.
  rewrite (sw_base _ Hs), wrap_small by lia. replace (base_id (sched m) + self - base_id (sched m)) with self by lia.
  destruct (set_worker_state_ok (m_worker_pool (sched m)) self st Hp) as (p & E & Hp' & Ew & En & Eb & _).
  { rewrite (sw_n _ Hs). exact Hi. }
  rewrite E. cbn [mbind res_bind]. eexists. split; [reflexivity |].
  assert (Eq : forall k, all_queued k p = all_queued k (pool m)) by (intros k; apply all_queued_workers, Ew).
  split; [| split; [reflexivity |]; split; [apply Eq |]; split; [apply Eq | reflexivity]].
  constructor; unfold new_tasks; simpl; rewrite ?Eq; try assumption. apply scheduler_wf_pool; assumption.
Qed.

Lemma gathered_eq m m' r m2 :
  new_tasks m' = new_tasks m /\ ready_tasks m' = ready_tasks m /\ graph m' = graph m -> gathered m' r m2 -> gathered m r m2.
Proof. unfold gathered. intros (-> & -> & ->). auto. Qed.

Lemma gathered_eq_r m r m2 m3 :
  new_tasks m3 = new_tasks m2 /\ ready_tasks m3 = ready_tasks m2 /\ graph m3 = graph m2 -> gathered m r m2 -> gathered m r m3.
Proof. unfold gathered. intros (-> & -> & ->). auto. Qed.

(** A steal takes a task or finds none. *)
Lemma steal_pool k self m :
  machine_ok m -> 0 <= self < n_workers (sched m) ->
  on_pool (steal k self) m = Ok (None, m) \/
  exists t p, on_pool (steal k self) m = Ok (Some t, with_sched (with_pool p (sched m)) m) /\ taken k t (pool m) p.
Proof.
  intros [_ Hs _ _ _] Hi. rewrite <- (sw_n _ Hs) in Hi. unfold on_pool.
  pose proof (steal_spec k self (pool m) (sw_pool _ Hs) Hi) as Hst.
  destruct (steal k self (pool m)) as [[[t |] p] |]; [| | destruct Hst]; cbn [mbind res_bind].
  - right. exists t, p. auto.
  - left. destruct Hst as [-> _]. destruct m as [x [b n p'] g]. reflexivity.
Qed.

Lemma steal_task_ok self m :
  machine_ok m -> 0 <= self < n_workers (sched m) ->
  exists r m', steal_task self m = Ok (r, m') /\ machine_ok m' /\
    n_workers (sched m') = n_workers (sched m) /\ gathered m r m'.
Proof.
  intros Hm Hi. unfold steal_task, steal_ready_task, steal_new_task.
  destruct (steal_pool Ready self m Hm Hi) as [E | (t & p & E & Ht)]; rewrite E; cbn [mbind res_bind].
  2: { destruct (machine_ok_taken m Ready t p Hm Ht) as (Hm1 & En1 & Hk & _).
       destruct (Hk eq_refl) as [Er Enew].
       destruct (set_state_ok self BUSY _ Hm1 ltac:(rewrite En1; exact Hi)) as (m2 & E2 & Hm2 & En2 & Esame).
       rewrite E2. cbn [mbind res_bind]. exists (Some t), m2. split; [reflexivity |]. split; [exact Hm2 |].
       split; [congruence |]. eapply gathered_eq_r; [exact Esame |]. unfold gathered; rewrite Enew; apply handed_out_ready, Er. }
  destruct (steal_pool New self m Hm Hi) as [E' | (t & p & E' & Ht)]; rewrite E'; cbn [mbind res_bind].
  { exists None, m. split; [reflexivity |]. split; [exact Hm |]. split; [reflexivity |]. apply handed_out_same. }
  destruct (init_taken_ok self t p m Hm Ht) as (b & m2 & E2 & Hm2 & En2 & _ & Hg). rewrite E2. cbn [mbind res_bind]. destruct b.
  - destruct (set_state_ok self BUSY m2 Hm2) as (m3 & E3 & Hm3 & En3 & Esame); [rewrite En2; exact Hi |].
    rewrite E3. cbn [mbind res_bind]. exists (Some t), m3. split; [reflexivity |]. split; [exact Hm3 |].
    split; [congruence |]. exact (gathered_eq_r _ _ _ _ Esame Hg).
  - exists None, m2. auto.
Qed.

(** C20 (gather): [gather_task] always returns.  The new tasks it takes out of the queues
    are those it had the graph initialize, one after the other until one was ready, and
    that one is claimed and returned.  The task returned, together with the ready queues
    afterwards, are the ready tasks from before, those the graph activated during these
    initializations, and the claimed one, each as often as before: none is lost and none
    handed out twice.  A worker with a ready task gets one. *)
Theorem gather_task_correct self m :
  machine_ok m -> 0 <= self < n_workers (sched m) ->
  exists r m', gather_task self m = Ok (r, m') /\ machine_ok m' /\ gathered m r m' /\
    ((exists w, workers (pool m) !! Z.to_nat self = Some w /\ queued (ready_queue w) <> []) -> is_Some r).
Proof.
  intros Hm Hi. unfold gather_task.
  destruct (pop_ok Ready self m Hm Hi) as [[E Hq] | (t & p & E & Ht)]; rewrite E; cbn [mbind res_bind].
  2: { destruct (machine_ok_taken m Ready t p Hm Ht) as (Hm1 & En1 & Hk & _).
       destruct (Hk eq_refl) as [Er Enew]. exists (Some t). eexists. split; [reflexivity |]. split; [exact Hm1 |].
       split; [unfold gathered; rewrite Enew; apply handed_out_ready, Er | eauto]. }
  assert (Hno : (exists w, workers (pool m) !! Z.to_nat self = Some w /\ queued (ready_queue w) <> []) -> False).
  { intros (w & Hw & Hne). apply Hne, (Hq w Hw). }
  destruct (init_loop_ok self (gather_fuel self m) m Hm Hi) as (r & m1 & E1 & Hm1 & En1 & Hg1).
  { unfold gather_fuel, new_tasks. lia. }
  rewrite E1. cbn [mbind res_bind]. destruct r as [t |].
  { exists (Some t), m1. split; [reflexivity |]. split; [exact Hm1 |]. split; [exact Hg1 | eauto]. }
  destruct (set_state_ok self AVAILABLE m1 Hm1) as (m2 & E2 & Hm2 & En2 & Esame); [rewrite En1; exact Hi |].
  rewrite E2. cbn [mbind res_bind].
  destruct (steal_task_ok self m2 Hm2) as (r & m3 & E3 & Hm3 & _ & Hg3); [rewrite En2, En1; exact Hi |].
  exists r, m3. split; [exact E3 |]. split; [exact Hm3 |]. split; [| intros Hx; destruct (Hno Hx)].
  exact (handed_out_trans _ _ _ _ _ _ _ _ _ _ Hg1 (gathered_eq _ _ _ _ Esame Hg3)).
Qed.
End Loop.
End WorkerLoop.
