(* ===== verification/MPIWorker.v ===== *)
(** The worker of a thread of its own ([redGrapes/dispatch/mpi/mpiWorker.hpp],
    behind a [ThreadScheduler]): it takes ready tasks, initializes new ones, has
    nobody to steal from, and polls the MPI requests its tasks wait for
    ([dispatch/mpi/request_pool.hpp]) instead of sleeping.  All tasks here belong
    to the one scheduler. *)

From Stdlib Require Import ZArith Lia Bool.
From stdpp Require Import base list gmap.
From S2P Require Import Prelude Bitfield Graph RequestPool Workers Scheduler WorkerLoop.

Open Scope Z_scope.
Open Scope word_scope.

Module MPIWorker.
Import Workers Scheduler Graph WorkerLoop.

(** What such a worker does to the graph besides: it notifies external events. *)
Class NotifyGraph (W : Type) : Type := graph_notify : EventPtr -> W -> res (list Call * W).

Section Worker.
Context {Q : Type} `{TaskQueueLaws Q} {W : Type} `{TaskGraph W} `{NotifyGraph W}.

(** The scheduler, with its worker, and the graph. *)
Record Single : Type := mkSingle { s_sched : ThreadScheduler (Q := Q); s_graph : W }.

Implicit Types (x : Single).

Definition on_self {A} (f : Worker (Q := Q) -> A * Worker) x : res (A * Single) :=
  '(a, s) ← on_thread f (s_sched x); Ok (a, mkSingle s (s_graph x)).

Definition s_current x : option Z := Some (t_base_id (s_sched x)).

(** An operation on the graph and the calls it makes. *)
Definition s_absorb (f : W -> res (list Call * W)) x : res Single :=
  '(cs, g) ← f (s_graph x); s ← perform (s_current x) cs (s_sched x); Ok (mkSingle s g).

Definition s_init_task (t : nat) (claimed : bool) x : res (bool * Single) :=
  '(ready, cs, g) ← graph_init t claimed (s_graph x);
  s ← perform (s_current x) cs (s_sched x);
  Ok (ready, mkSingle s g).

Definition s_init_dependencies (claimed : bool) x : res (bool * option nat * Single) :=
  '(t, x) ← on_self (pop_worker New) x;
  match t with
  | Some t => '(ready, x) ← s_init_task t claimed x; Ok (true, if ready : bool then Some t else None, x)
  | None => Ok (false, None, x)
  end.

(** The loop of stage 2. *)
Fixpoint s_init_loop (fuel : nat) x : res (option nat * Single) :=
  match fuel with
  | O => Err OutOfFuel
  | S fuel =>
      '(more, t, x) ← s_init_dependencies true x;
      match more, t with
      | true, Some t => Ok (Some t, x)
      | true, None => s_init_loop fuel x
      | false, _ => Ok (None, x)
      end
  end.

Definition s_new x : list nat := pending New (s_sched x).
Definition s_ready x : list nat := pending Ready (s_sched x).

Definition s_gather_task x : res (option nat * Single) :=
  '(t, x) ← on_self (pop_worker Ready) x;
  match t with
  | Some t => Ok (Some t, x)
  | None => s_init_loop (S (length (s_new x))) x
  end.

(** ** Requests *)

Section Requests.
Context {Request Status : Type}.

(** The pool of requests, the status cells, and the rest. *)
Definition MPIState : Type := RequestPool.State (Request := Request) (Status := Status) (Event := EventPtr) (World := Single).

Definition with_single (x : Single) (m : MPIState) : MPIState :=
  RequestPool.mkState (RequestPool.pool m) (RequestPool.cells m) x.

(** [MPI_Testsome] as the worker sees it: its looks are numbered. *)
Context (testsome : nat -> list Request -> list nat * list Status).

Definition mpi_poll (now : nat) (m : MPIState) : res MPIState :=
  RequestPool.poll (fun e => s_absorb (graph_notify e)) (testsome now) m.

(** [run] is the task's function: it may add requests, and returns the event the
    task waits for if it was paused. *)
Context (run : nat -> MPIState -> res (option EventPtr * MPIState)).

Definition m_absorb (f : W -> res (list Call * W)) (m : MPIState) : res MPIState :=
  x ← s_absorb f (RequestPool.world m); Ok (with_single x m).

Definition mpi_execute_task (t : nat) (m : MPIState) : res MPIState :=
  m ← m_absorb (graph_start t) m;
  '(event, m) ← run t m;
  match event with
  | Some e => m_absorb (graph_pause t (t_base_id (s_sched (RequestPool.world m))) e) m
  | None => m_absorb (graph_finish t) m
  end.

(** The inner loop of [work_loop] and the poll that follows it; the first
    component counts the looks. *)
Fixpoint mpi_work (fuel now : nat) (m : MPIState) : res (nat * MPIState) :=
  match fuel with
  | O => Err OutOfFuel
  | S fuel =>
      '(t, x) ← s_gather_task (RequestPool.world m);
      let m := with_single x m in
      match t with
      | Some t => m ← mpi_execute_task t m; m ← mpi_poll now m; mpi_work fuel (S now) m
      | None => m ← mpi_poll now m; Ok (S now, m)
      end
  end.

(** [work_loop]: [m_stop] is looked at between the rounds. *)
Definition mpi_stopped (m : MPIState) : bool :=
  match m_worker_thread (s_sched (RequestPool.world m)) with Some w => m_stop w | None => false end.

Fixpoint mpi_work_loop (rounds fuel now : nat) (m : MPIState) : res MPIState :=
  match rounds with
  | O => Err OutOfFuel
  | S rounds =>
      if mpi_stopped m then Ok m
      else '(now, m) ← mpi_work fuel now m; mpi_work_loop rounds fuel now m
  end.
End Requests.

(** ** Gathering *)

Context `{!TaskGraphLaws W}.

Record single_ok x : Prop := {
  so_sched : valid (s_sched x);
  so_graph : graph_ok (s_graph x);
  so_nodup : NoDup (s_new x);
  so_fresh : forall t, t ∈ s_new x -> fresh t (s_graph x)
}.

Definition other_kind (k : Kind) : Kind := match k with Ready => New | New => Ready end.

Lemma pop_self_ok k x : valid (s_sched x) ->
  (on_self (pop_worker k) x = Ok (None, x) /\ pending k (s_sched x) = []) \/
  exists t x1, on_self (pop_worker k) x = Ok (Some t, x1) /\ valid (s_sched x1) /\ s_graph x1 = s_graph x /\
    pending k (s_sched x) ≡ₚ t :: pending k (s_sched x1) /\
    pending (other_kind k) (s_sched x1) = pending (other_kind k) (s_sched x).
Proof.
  intros (w & Hw & Ei). destruct x as [[b th] g]. simpl in Hw, Ei. subst th.
  unfold on_self, on_thread, pop_worker, pop. cbn [s_sched m_worker_thread deref mbind res_bind pending thread_scheduler].
  destruct (try_dequeue (queue_of k w)) as [[t q] |] eqn:E.
  - right. eexists t, _. split; [reflexivity |]. split; [eexists; split; [reflexivity | destruct k; exact Ei] |].
    split; [reflexivity |]. cbn. split; destruct k; cbn; [apply queued_dequeue, E .. | reflexivity | reflexivity].
  - left. rewrite with_queue_same. split; [reflexivity |]. apply queued_none, E.
Qed.

(** A thread scheduler performs any calls. *)
Lemma thread_perform_ok current cs : forall s : ThreadScheduler (Q := Q), valid s ->
  exists s', perform current cs s = Ok s' /\ valid s' /\ t_base_id s' = t_base_id s /\
    pending Ready s' ≡ₚ activations cs ++ pending Ready s /\ pending New s' = pending New s.
Proof.
  induction cs as [| c cs IH]; intros s Hv; [exists s; auto |].
  assert (Hs1 : exists s1, perform_call current c s = Ok s1 /\ valid s1 /\ t_base_id s1 = t_base_id s /\
    pending Ready s1 ≡ₚ activations [c] ++ pending Ready s /\ pending New s1 = pending New s).
  { destruct c as [u i | t | | t]; cbn [perform_call].
    - destruct Hv as (w & Hw & Ei). cbn [wake thread_scheduler]. unfold thread_wake, on_thread. rewrite Hw.
      destruct (i =? 0); (eexists; split; [reflexivity |]; split; [eexists; split; [first [reflexivity | exact Hw] | exact Ei] |];
        split; [reflexivity |]; cbn; rewrite ?Hw; split; reflexivity).
    - destruct (activate_law current t s Hv I) as (s1 & E & Hv1 & Hi & Hr & Hn). exists s1. split; [exact E |]. split; [exact Hv1 |].
      split; [injection Hi as Hi; exact Hi |]. split; [exact Hr | exact Hn].
    - exists s. auto.
    - exists s. auto. }
  destruct Hs1 as (s1 & E & Hv1 & Hi1 & Hr & Hn). cbn [perform]. rewrite E. cbn [mbind res_bind].
  destruct (IH s1 Hv1) as (s2 & E2 & Hv2 & Hi2 & Hr2 & Hn2). exists s2. split; [exact E2 |]. split; [exact Hv2 |].
  split; [congruence |]. split; [| congruence]. rewrite Hr2, Hr. unfold activations.
  destruct c; simpl; rewrite ?Permutation_middle; reflexivity.
Qed.

Definition s_gathered x (r : option nat) x' : Prop :=
  handed_out (s_new x) (s_ready x) (s_graph x) r (s_new x') (s_ready x') (s_graph x').

(** The own queue is empty, or its next task is initialized. *)
Lemma s_init_dependencies_ok x :
  single_ok x ->
  (s_init_dependencies true x = Ok (false, None, x) /\ s_new x = []) \/
  exists t b x', s_init_dependencies true x = Ok (true, if b : bool then Some t else None, x') /\ single_ok x' /\
    s_new x ≡ₚ t :: s_new x' /\ s_gathered x (if b then Some t else None) x'.
Proof.
  intros [Hs Hg Hn Hf]. unfold s_init_dependencies.
  destruct (pop_self_ok New x Hs) as [[E E0] | (t & x1 & E & Hs1 & Eg & Enew & Er)]; rewrite E; cbn [mbind res_bind]; [left; auto |].
  right. pose proof Hn as Hn1. unfold s_new in Hn1. rewrite Enew in Hn1. apply NoDup_cons in Hn1 as [Hnt Hn1].
  assert (Hft : fresh t (s_graph x1)) by (rewrite Eg; apply Hf; unfold s_new; rewrite Enew; left).
  destruct (init_law t true (s_graph x1) ltac:(rewrite Eg; exact Hg) Hft) as (b & cs & g & Ei & Hg' & Hf' & _).
  destruct (thread_perform_ok (s_current x1) cs (s_sched x1) Hs1) as (s' & Es & Hv' & _ & Hr' & Hnew').
  assert (Eready : pending Ready s' ≡ₚ activations cs ++ s_ready x).
  { rewrite Hr'. f_equiv. cbn [other_kind] in Er. rewrite Er. reflexivity. }
  exists t, b, (mkSingle s' g). unfold s_init_task. rewrite Ei. cbn [mbind res_bind]. rewrite Es. cbn [mbind res_bind].
  split; [reflexivity |]. assert (Enew' : s_new x ≡ₚ t :: pending New s') by (rewrite Hnew'; exact Enew).
  rewrite Eg in Ei. split; [| split; [exact Enew' |]].
  - constructor; unfold s_new; cbn [s_sched s_graph]; try assumption; rewrite Hnew'; [exact Hn1 |].
    intros u Hu. apply Hf'; [intros ->; contradiction |]. rewrite Eg. apply Hf. unfold s_new. rewrite Enew. right. exact Hu.
  - destruct b; [exact (handed_out_claimed _ _ _ _ _ _ _ _ Ei Enew' Eready) | exact (handed_out_waits _ _ _ _ _ _ _ _ Ei Enew' Eready)].
Qed.

Lemma s_init_loop_ok fuel : forall x, single_ok x -> (length (s_new x) < fuel)%nat ->
  exists r x', s_init_loop fuel x = Ok (r, x') /\ single_ok x' /\ s_gathered x r x' /\
    (r = None -> s_new x' = []).
Proof.
  induction fuel as [| fuel IH]; intros x Hx Hf; [lia |]. cbn [s_init_loop].
  destruct (s_init_dependencies_ok x Hx) as [[E E0] | (t & b & x1 & E & Hx1 & Hnew & Hg1)]; rewrite E; cbn [mbind res_bind].
  - exists None, x. split; [reflexivity |]. split; [exact Hx |]. split; [apply handed_out_same | auto].
  - destruct b.
    + exists (Some t), x1. split; [reflexivity |]. split; [exact Hx1 |]. split; [exact Hg1 | discriminate].
    + destruct (IH x1 Hx1) as (r & x2 & E2 & Hx2 & Hg & Hz); [rewrite Hnew in Hf; simpl in Hf; lia |].
      exists r, x2. split; [exact E2 |]. split; [exact Hx2 |]. split; [| exact Hz].
      exact (handed_out_trans _ _ _ _ _ _ _ _ _ _ Hg1 Hg).
Qed.

(** (mpi_gather): the worker always gets through its queues: no task is lost or
    handed out twice, a worker with a ready task gets one, and one that gets nothing
    has initialized all its new tasks. *)
Theorem mpi_gather_correct x :
  single_ok x ->
  exists r x', s_gather_task x = Ok (r, x') /\ single_ok x' /\ s_gathered x r x' /\
    (s_ready x <> [] -> is_Some r) /\ (r = None -> s_new x' = []).
Proof.
  intros Hx. pose proof Hx as [Hs Hg Hn Hf]. unfold s_gather_task.
  destruct (pop_self_ok Ready x Hs) as [[E E0] | (t & x1 & E & Hs1 & Eg & Er & En)]; rewrite E; cbn [mbind res_bind].
  - destruct (s_init_loop_ok (S (length (s_new x))) x Hx) as (r & x' & E' & Hx' & Hh & Hz); [lia |].
    exists r, x'. split; [exact E' |]. split; [exact Hx' |]. split; [exact Hh |]. split; [contradiction | exact Hz].
  - cbn [other_kind] in En. exists (Some t), x1. split; [reflexivity |]. unfold s_new, s_ready in *. split.
    + constructor; unfold s_new; rewrite ?En, ?Eg; auto.
    + unfold s_gathered, s_new, s_ready. rewrite En, Eg. split; [apply handed_out_ready, Er |]. split; [eauto | discriminate].
Qed.

(** ** Polling *)

(** The events of the finished requests are notified one after the other. *)
Fixpoint graph_notify_each (es : list EventPtr) (g : W) : res (list Call * W) :=
  match es with
  | [] => Ok ([], g)
  | e :: es => '(cs, g) ← graph_notify e g; '(cs', g) ← graph_notify_each es g; Ok (cs ++ cs', g)
  end.

Lemma s_absorb_eq f x cs g s : f (s_graph x) = Ok (cs, g) -> perform (s_current x) cs (s_sched x) = Ok s ->
  s_absorb f x = Ok (mkSingle s g).
Proof. intros E Es. unfold s_absorb. rewrite E. cbn [mbind res_bind]. rewrite Es. reflexivity. Qed.

Lemma notify_each_ok es : forall x cs g,
  valid (s_sched x) -> graph_notify_each es (s_graph x) = Ok (cs, g) ->
  exists x', RequestPool.notify_each (fun e => s_absorb (graph_notify e)) es x = Ok x' /\ s_graph x' = g /\ valid (s_sched x') /\
    s_ready x' ≡ₚ activations cs ++ s_ready x /\ s_new x' = s_new x.
Proof.
  induction es as [| e es IH]; intros x cs g Hv E; cbn [graph_notify_each] in E.
  - injection E as <- <-. exists x. repeat (split; [reflexivity || assumption |]). reflexivity.
  - apply bind_Ok in E as ([cs1 g1] & E1 & E). apply bind_Ok in E as ([cs2 g2] & E2 & E). injection E as <- <-.
    destruct (thread_perform_ok (s_current x) cs1 (s_sched x) Hv) as (s1 & Es & Hv1 & _ & Hr1 & Hn1).
    destruct (IH (mkSingle s1 g1) cs2 g2 Hv1 E2) as (x' & Ex & Eg & Hv' & Hr' & Hn').
    exists x'. cbn [RequestPool.notify_each]. rewrite (s_absorb_eq _ x cs1 g1 s1 E1 Es). cbn [mbind res_bind].
    split; [exact Ex |]. split; [exact Eg |]. split; [exact Hv' |]. unfold s_ready, s_new in *. cbn [s_sched] in *.
    split; [| congruence]. rewrite Hr', Hr1. unfold activations. rewrite omap_app, <- app_assoc, Permutation_app_swap_app. reflexivity.
Qed.

(** C33 (mpi_poll): a poll gives every finished request's status to the cell of that
    request, notifies exactly the events of the finished requests, in the order
    they are reported, and keeps the unfinished ones aligned and in order, although
    every removal moves the positions of the others; and exactly the tasks these
    notifications make ready arrive in the worker's ready queue. *)
Theorem mpi_poll_correct {Request Status} (testsome : nat -> list Request -> list nat * list Status) now m cs g :
  let reported := testsome now (RequestPool.requests (RequestPool.pool m)) in
  let x := RequestPool.world m in
  RequestPool.aligned (RequestPool.pool m) ->
  RequestPool.valid_report (length (RequestPool.requests (RequestPool.pool m))) reported ->
  RequestPool.requests (RequestPool.pool m) <> [] -> valid (s_sched x) ->
  graph_notify_each (RequestPool.all_at (RequestPool.events (RequestPool.pool m)) (fst reported)) (s_graph x) = Ok (cs, g) ->
  exists x', RequestPool.polled (fst reported) (snd reported) m x' (mpi_poll testsome now m) /\
    s_graph x' = g /\ valid (s_sched x') /\ s_ready x' ≡ₚ activations cs ++ s_ready x /\ s_new x' = s_new x.
Proof.
  intros reported x Hal Hrep Hne Hv E. destruct (notify_each_ok _ x cs g Hv E) as (x' & Ex & Eg & Hv' & Hr & Hn).
  exists x'. split; [| auto]. apply RequestPool.poll_correct; assumption.
Qed.
End Worker.
End MPIWorker.
