(* ===== verification/Runtime.v ===== *)
(** The task graph of [System] behind the interface the workers use: the graph
    meets the laws of [TaskGraph], so what is proved of the workers holds when
    they run on it. *)

From Stdlib Require Import ZArith Lia Bool.
From stdpp Require Import base gmap list strings relations.
From S2P Require Import Prelude Access Resource Guards ResourceUser Entries Graph GraphNotify.
From S2P Require Import GraphInv GraphInit GraphSubmit System SystemSafe SystemRun SystemProps.
From S2P Require Import GraphActivate SystemActivate Bitfield RequestPool Workers Scheduler WorkerLoop MPIWorker.

Open Scope Z_scope.
Open Scope word_scope.

Module Runtime.
Import Resource ResourceUser Graph GraphNotify GraphInv GraphInit GraphSubmit System SystemSafe SystemRun GraphActivate
  WorkerLoop.

Section Runtime.
Context {RA : Type} `{AccessOps RA} `{!AccessLaws RA}.
Implicit Types (w : World RA) (task : Task RA) (s : State (RA := RA)).

(** ** The operations *)

(** The calls made since [w]. *)
Definition new_calls w w' : list Call := drop (length (calls w)) (calls w').

Definition advance_to (t : nat) (st : Status) w' s : res State :=
  i ← deref (info s !! t); Ok (mkState w' (<[t := set_status st i]> (info s)) (next_seq s)).

Definition run_init (t : nat) (claimed : bool) s : res (bool * list Call * State) :=
  '(b, w') ← System.init_task t claimed (world s);
  s' ← advance_to t Initialized w' s;
  Ok (b, new_calls (world s) w', s').

Definition run_start (t : nat) s : res (list Call * State) :=
  w' ← start_task t (world s);
  s' ← advance_to t Running w' s;
  Ok (new_calls (world s) w', s').

Definition run_finish (t : nat) s : res (list Call * State) :=
  '(_, w') ← notify (notify_fuel (world s)) (get_post_event t) false (world s);
  s' ← advance_to t Returned w' s;
  Ok (new_calls (world s) w', s').

(** The task waits for [event], whose waker is the worker with id [waker]. *)
Definition run_pause (t : nat) (waker : Z) (event : EventPtr) s : res (list Call * State) :=
  '(_, w') ← pause_task t waker event (world s);
  s' ← advance_to t Initialized w' s;
  Ok (new_calls (world s) w', s').

(** Emplaced, with room in its counters, and nobody waits for its pre-event. *)
Definition initializable (t : nat) s : Prop :=
  exists i task, info s !! t = Some i /\ i_status i = Emplaced /\ tasks (world s) !! t = Some task /\
    waker_id (pre_event task) = -1 /\
    room t (1 + Z.of_nat (scan_length (unique_resources (i_user i)) (world s))) (world s).

#[export] Instance state_graph : TaskGraph (State (RA := RA)) := {
  graph_init := run_init;
  graph_start := run_start;
  graph_finish := run_finish;
  graph_pause := run_pause;
  graph_ok := invariant;
  fresh := initializable
}.

Definition run_notify (p : EventPtr) s : res (list Call * State) :=
  '(_, w') ← notify (notify_fuel (world s)) p false (world s);
  Ok (new_calls (world s) w', mkState w' (info s) (next_seq s)).

#[export] Instance state_notify : MPIWorker.NotifyGraph (State (RA := RA)) := run_notify.

(** ** Entering the graph keeps the wakers *)

Definition waker_of task : Z := waker_id (pre_event task).

Definition same_wakers w w' : Prop :=
  forall t task', tasks w' !! t = Some task' -> exists task, tasks w !! t = Some task /\ waker_of task' = waker_of task.

Lemma same_wakers_refl w : same_wakers w w.
Proof. intros t task Ht. eauto. Qed.

Lemma same_wakers_trans w1 w2 w3 : same_wakers w1 w2 -> same_wakers w2 w3 -> same_wakers w1 w3.
Proof.
  intros H1 H2 t x Hx. destruct (H2 t x Hx) as (y & Hy & E2). destruct (H1 t y Hy) as (z & Hz & E1).
  exists z. split; [exact Hz | congruence].
Qed.

Lemma wakers_modify p f w w' :
  (forall e, waker_id (f e) = waker_id e) -> modify_event p f w = Ok w' -> same_wakers w w'.
Proof.
  intros Hf E. unfold modify_event, get_event, put_event, get_task in E.
  destruct (tag p); [discriminate E | | | | |];
    try (destruct (ep_task p) as [t |]; [| discriminate E]; cbn [deref mbind res_bind] in E;
     destruct (tasks w !! t) as [task |] eqn:Ht; [| discriminate E]; cbn [deref mbind res_bind task_event] in E;
     injection E as <-; intros u x Hx; simpl in Hx;
     apply lookup_insert_Some in Hx as [(<- & <-) | (_ & Hx)]; [| eauto]; exists task; split; [exact Ht |];
     unfold waker_of; simpl; try rewrite Hf; reflexivity).
  destruct (external_event p); [| discriminate E]. cbn [deref mbind res_bind] in E. res_inv.
  intros t x Hx. simpl in Hx. eauto.
Qed.

Lemma wakers_add_follower p f w w' : add_follower p f w = Ok w' -> same_wakers w w'.
Proof.
  unfold add_follower. intros E. apply bind_Ok in E as (e & _ & E).
  destruct (is_reached e); [injection E as <-; apply same_wakers_refl |].
  apply bind_Ok in E as (w1 & E1 & E). apply wakers_modify in E1, E; [| reflexivity ..].
  eapply same_wakers_trans; eassumption.
Qed.

Lemma wakers_check t par r l : forall w w', check_predecessors t par r l w = Ok w' -> same_wakers w w'.
Proof.
  induction l as [| a l IH]; intros w w' E; cbn [check_predecessors] in E; [injection E as <-; apply same_wakers_refl |].
  destruct (bool_decide (Some a = par)); [injection E as <-; apply same_wakers_refl |].
  apply bind_Ok in E as (ta & _ & E). apply bind_Ok in E as (tb & _ & E).
  destruct (_ && _); [| eapply IH, E].
  apply bind_Ok in E as (w1 & E1 & E). apply bind_Ok in E as (ta' & _ & E).
  assert (Ew : same_wakers w w1).
  { unfold add_dependency in E1. apply bind_Ok in E1 as (x & _ & E1). apply bind_Ok in E1 as (y & _ & E1).
    cbv zeta in E1. apply bind_Ok in E1 as (e & _ & E1).
    destruct (negb (is_reached e)); [eapply wakers_add_follower, E1 | injection E1 as <-; apply same_wakers_refl]. }
  destruct (has_sync_access r (user ta')); [injection E as <-; exact Ew |].
  eapply same_wakers_trans; [exact Ew | eapply IH, E].
Qed.

Lemma wakers_init_graph t w w' : init_graph t w = Ok w' -> same_wakers w w'.
Proof.
  unfold init_graph. intros E. apply bind_Ok in E as (task & _ & E). apply bind_Ok in E as (sx & _ & E).
  apply bind_Ok in E as (sp & _ & E). revert w w' E. generalize (unique_resources (user task)).
  intros l. induction l as [| r l IH]; intros w w' E; cbn [init_resources] in E; [injection E as <-; apply same_wakers_refl |].
  destruct (user_entry r); [| eapply IH, E].
  apply bind_Ok in E as (w1 & E1 & E). eapply same_wakers_trans; [eapply wakers_check, E1 | eapply IH, E].
Qed.

(** A notification of a pre-event nobody is waiting for changes that event only. *)
Lemma notify_pre_only fuel t claimed w b w' task :
  tasks w !! t = Some task -> followers (pre_event task) = [] -> waker_of task = -1 ->
  notify (S fuel) (get_pre_event t) claimed w = Ok (b, w') ->
  tasks w' = <[t := with_event T_EVT_PRE (dn (pre_event task)) task]> (tasks w) /\ users w' = users w /\
  (calls w' = calls w \/ calls w' = calls w ++ [Activate t]).
Proof.
  intros Ht Hf Hwk E. rewrite notify_S, (get_pre w t task Ht) in E. cbn [mbind res_bind] in E.
  rewrite (put_pre w t task _ Ht) in E. cbn [mbind res_bind] in E.
  apply bind_Ok in E as (u & _ & E). destruct (1 <? state (pre_event task) - 1).
  { injection E as <- <-. auto. }
  cbn [ep_task get_pre_event deref mbind res_bind] in E. cbv zeta in E. unfold waker_of in Hwk. rewrite Hwk, Hf in E.
  change (0 <=? -1) with false in E. cbv iota in E. cbn [notify_all] in E.
  unfold reached_before, reached_after in E. simpl bool_decide in E. cbn [mbind res_bind andb orb] in E.
  destruct ((state (pre_event task) - 1 =? 1) && negb claimed), (state (pre_event task) - 1 =? 0);
    injection E as <- <-; auto.
Qed.

(** ** The laws *)

#[export] Instance state_graph_laws : TaskGraphLaws (State (RA := RA)).
Proof.
  constructor. cbn [graph_ok fresh graph_init state_graph]. intros t claimed s Hinv (i & task & Hi & Hst & Ht & Hwk & Hroom).
  destruct (init_graph_covers s t i Hinv Hi Hst Hroom) as (w1 & w2 & E1 & E2 & HI2 & G & _).
  destruct (notify_spec _ _ (notify_fuel w2) _ w2 [] claimed (Nat.lt_succ_diag_r _) HI2) as (b & w' & E3 & _).
  assert (Hini : System.init_task t claimed (world s) = Ok (b, w')).
  { unfold System.init_task. rewrite E1. cbn [mbind res_bind]. rewrite E2. cbn [mbind res_bind]. exact E3. }
  assert (Ecalls : calls w2 = calls (world s)).
  { rewrite (SystemActivate.calls_init_graph _ _ _ E2). apply (SystemActivate.calls_modify _ _ _ _ E1). }
  assert (Hwakers : same_wakers (world s) w2).
  { eapply same_wakers_trans; [eapply wakers_modify, E1; reflexivity | eapply wakers_init_graph, E2]. }
  destruct (gr_forth _ _ _ G t ltac:(eauto)) as [task2 Ht2].
  assert (Hwk2 : waker_of task2 = -1).
  { destruct (Hwakers t task2 Ht2) as (x & Hx & ->). assert (x = task) as -> by congruence. exact Hwk. }
  destruct (notify_pre_only _ t claimed w2 b w' task2 Ht2 (proj1 (inv_leaf _ _ _ _ HI2 t task2 Ht2)) Hwk2 E3)
    as (Etasks & Eusers & Ecs).
  exists b, (new_calls (world s) w'), (mkState w' (<[t := set_status Initialized i]> (info s)) (next_seq s)).
  split; [| split; [eapply invariant_init_step; eassumption |]; split].
  - unfold run_init, advance_to. rewrite Hini. cbn [mbind res_bind]. rewrite Hi. reflexivity.
  - intros u Hu (j & y & Hj & Hjs & Hy & Hyw & Hyr). unfold initializable. cbn [info world].
    destruct (gr_forth _ _ _ G u ltac:(eauto)) as [y2 Hy2].
    destruct (gr_back _ _ _ G u y2 Hy2) as (y0 & Hy0 & Hg). assert (y0 = y) as -> by congruence.
    exists j, y2. split; [rewrite lookup_insert_ne by congruence; exact Hj |]. split; [exact Hjs |].
    assert (Hy' : tasks w' !! u = Some y2) by (rewrite Etasks, lookup_insert_ne by congruence; exact Hy2).
    split; [exact Hy' |]. rewrite (gt_pre _ _ _ Hg) by exact Hu. split; [exact Hyw |].
    rewrite (scan_length_users _ (world s) w') by (rewrite Eusers; apply (gr_users _ _ _ G)).
    intros x Hx. assert (x = y2) as -> by congruence. rewrite (gt_pre _ _ _ Hg), (gt_post _ _ _ Hg) by exact Hu.
    apply (Hyr y Hy).
  - intros u k Hin. unfold new_calls in Hin. rewrite <- Ecalls in Hin.
    destruct Ecs as [Ec | Ec]; rewrite Ec in Hin; [rewrite drop_all in Hin; inversion Hin |].
    rewrite drop_app_length in Hin. apply list_elem_of_singleton in Hin. discriminate.
Qed.
End Runtime.

(** ** A concrete machine *)

Section Example.
Import SystemProps Guards Workers Scheduler.
#[local] Existing Instances run_ops run_laws.

(** Two writers of one resource in the emplacement queue of the first worker. *)
Definition two_submitted : list Command := [CSubmit 0 0 (writes 7) 0; CSubmit 0 1 (writes 7) 0].

Definition machine : Machine (Q := list nat) (W := State (RA := Guards.RA)) :=
  mkMachine no_statics (mkScheduler 0 2 (mkPool [mkWorker 0 false false [0; 1]%nat []; mkWorker 1 false true [] []]
    (Bitfield.mkBitfield 2 [2]) 2 0)) (state_after two_submitted).

Lemma machine_is_ok : machine_ok machine.
Proof.
  assert (Hr : reachable init step (graph machine)).
  { apply state_reachable; [| vm_compute; reflexivity].
    repeat first [apply Forall_nil; exact I | apply Forall_cons; split; [first [exact I | apply built_writes] |]]. }
  constructor.
  - exact no_statics_wf.
  - constructor; try reflexivity; try (simpl; lia).
    + constructor; try reflexivity; [| simpl; lia |].
      * constructor; [simpl; lia | reflexivity |]. repeat constructor; unfold is_word; lia.
      * intros [| [| i]] w E; simpl in E; [injection E as <-; reflexivity .. | discriminate].
  - apply reachable_safe, Hr.
  - apply (bool_decide_unpack _). vm_compute. exact I.
  - intros t Ht. assert (Hc : t = 0%nat \/ t = 1%nat) by (apply elem_of_cons in Ht as [-> | Ht]; [| apply list_elem_of_singleton in Ht as ->]; auto).
    destruct Hc as [-> | ->]; (eexists _, _; split; [vm_compute; reflexivity |]; split; [vm_compute; reflexivity |];
      split; [vm_compute; reflexivity |]; split; [reflexivity |]; intros task E; vm_compute in E; injection E as <-;
      vm_compute; split; reflexivity).
Qed.

Lemma gather_task_correct_witness :
  exists m', gather_task 0 machine = Ok (Some 0%nat, m') /\ gathered machine (Some 0%nat) m' /\ new_tasks m' = [1%nat].
Proof.
  destruct (gather_task_correct 0 machine machine_is_ok ltac:(simpl; lia)) as (r & m' & E & _ & Hg & _).
  assert (Er : (fun x => fst x) <$> (match gather_task 0 machine with Ok x => Some x | Err _ => None end) = Some (Some 0%nat)
    /\ (fun x => new_tasks (snd x)) <$> (match gather_task 0 machine with Ok x => Some x | Err _ => None end) = Some [1%nat])
    by (vm_compute; split; reflexivity).
  rewrite E in Er. destruct Er as [Er En]. injection Er as ->. injection En as En. exists m'. auto.
Defined.

(** ** A task that waits for an MPI request *)

Definition single : Type := MPIWorker.Single (Q := list nat) (W := State (RA := Guards.RA)).
Definition mpi : Type := MPIWorker.MPIState (Q := list nat) (W := State (RA := Guards.RA)) (Request := nat) (Status := nat).

Definition mpi_start : mpi :=
  RequestPool.mkState (RequestPool.mkPool [] [] []) ∅
    (MPIWorker.mkSingle (mkThread 0 (Some (mkWorker 0 false true [0%nat] []))) (state_after [CSubmit 0 0 (writes 7) 0])).

(** [get_status] of request 7: an event, the request with cell 0, and a wait;
    called again the function finds the status and returns. *)
Definition get_status (t : nat) (m : mpi) : res (option EventPtr * mpi) :=
  match RequestPool.cells m !! 0%nat with
  | Some _ => Ok (None, m)
  | None =>
      let x := RequestPool.world m in
      let s := MPIWorker.s_graph x in
      '(p, w) ← make_event 5 t (world s);
      Ok (Some p, RequestPool.add_request 7%nat p 0%nat (MPIWorker.with_single
        (MPIWorker.mkSingle (MPIWorker.s_sched x) (mkState w (info s) (next_seq s))) m))
  end.

(** MPI reports it at the third look. *)
Definition testsome (now : nat) (l : list nat) : list nat * list nat :=
  if (now <? 2)%nat then ([], []) else ((fun _ => 0%nat) <$> l, (fun _ => 42%nat) <$> l).

Definition rounds (k : nat) : res (nat * mpi) :=
  Nat.iter k (fun r => '(now, m) ← r; MPIWorker.mpi_work testsome get_status 9 now m) (Ok (0%nat, mpi_start)).

Definition mpi_after (k : nat) : mpi := match rounds k with Ok (_, m) => m | Err _ => mpi_start end.

(** The first round runs the task until it waits; the second finds nothing to do,
    its poll wakes the task; the third runs the task to its end. *)
Example mpi_rounds :
  (fun k => (MPIWorker.s_ready (RequestPool.world (mpi_after k)), RequestPool.requests (RequestPool.pool (mpi_after k)),
     status_of 0 (MPIWorker.s_graph (RequestPool.world (mpi_after k))), RequestPool.cells (mpi_after k) !! 0%nat)) <$> [0; 1; 2; 3]%nat =
  [([], [], Some Emplaced, None); ([], [7]%nat, Some Initialized, None);
   ([0]%nat, [], Some Initialized, Some 42%nat); ([], [], Some Returned, Some 42%nat)].
Proof. vm_compute. reflexivity. Qed.

Lemma mpi_start_ok : MPIWorker.single_ok (RequestPool.world mpi_start).
Proof.
  assert (Hr : reachable init step (MPIWorker.s_graph (RequestPool.world mpi_start))).
  { apply state_reachable; [| vm_compute; reflexivity].
    repeat first [apply Forall_nil; exact I | apply Forall_cons; split; [first [exact I | apply built_writes] |]]. }
  constructor.
  - eexists. split; reflexivity.
  - apply reachable_safe, Hr.
  - apply (bool_decide_unpack _). vm_compute. exact I.
  - intros t Ht. apply list_elem_of_singleton in Ht as ->.
    eexists _, _. split; [vm_compute; reflexivity |]. split; [vm_compute; reflexivity |].
    split; [vm_compute; reflexivity |]. split; [reflexivity |]. intros task E. vm_compute in E. injection E as <-.
    vm_compute. split; reflexivity.
Qed.

Lemma mpi_gather_correct_witness :
  exists r x', MPIWorker.s_gather_task (RequestPool.world mpi_start) = Ok (r, x') /\ r = Some 0%nat /\ MPIWorker.s_new x' = [].
Proof.
  destruct (MPIWorker.mpi_gather_correct (RequestPool.world mpi_start) mpi_start_ok) as (r & x' & E & _).
  assert (Er : (fun y => (fst y, MPIWorker.s_new (snd y))) <$> MPIWorker.s_gather_task (RequestPool.world mpi_start) = Ok (Some 0%nat, []))
    by (vm_compute; reflexivity).
  rewrite E in Er. injection Er as -> En. exists (Some 0%nat), x'. auto.
Defined.

(** The poll of the second round. *)
Definition notified : res (list Call * State) :=
  MPIWorker.graph_notify_each [external 5 0] (MPIWorker.s_graph (RequestPool.world (mpi_after 1))).

Lemma mpi_poll_correct_witness :
  exists m', MPIWorker.mpi_poll testsome 2 (mpi_after 1) = Ok m' /\ RequestPool.requests (RequestPool.pool m') = [] /\
    MPIWorker.s_ready (RequestPool.world m') ≡ₚ [0%nat].
Proof.
  assert (Ec : (fun y => activations (fst y)) <$> notified = Ok [0%nat]) by (vm_compute; reflexivity).
  destruct notified as [[cs g] |] eqn:E; [injection Ec as Ec | discriminate].
  assert (Erq : RequestPool.requests (RequestPool.pool (mpi_after 1)) = [7%nat]) by (vm_compute; reflexivity).
  assert (Eev : RequestPool.events (RequestPool.pool (mpi_after 1)) = [external 5 0]) by (vm_compute; reflexivity).
  destruct (MPIWorker.mpi_poll_correct testsome 2 (mpi_after 1) cs g) as (x' & (m' & Em & Ex & _ & Er & _) & _ & _ & Hready & _).
  - constructor; [vm_compute; reflexivity .. |]. apply (bool_decide_unpack _). vm_compute. exact I.
  - rewrite Erq. split; [apply (bool_decide_unpack _); vm_compute; exact I |]. split; [| reflexivity].
    intros j Hj. apply list_elem_of_singleton in Hj as ->. simpl. lia.
  - rewrite Erq. discriminate.
  - eexists. split; vm_compute; reflexivity.
  - rewrite Erq, Eev. exact E.
  - exists m'. split; [exact Em |]. split; [rewrite Er, Erq; reflexivity |]. rewrite Ex, Hready, Ec.
    assert (En : MPIWorker.s_ready (RequestPool.world (mpi_after 1)) = []) by (vm_compute; reflexivity).
    rewrite En. reflexivity.
Defined.
End Example.
End Runtime.
