(* ===== verification/CudaWorker.v ===== *)
(** The worker for CUDA tasks ([redGrapes/dispatch/cuda/cuda_worker.hpp]) and its
    scheduler ([scheduler/cuda_thread_scheduler.hpp]): the function of a task puts
    work into a stream; the task is not finished before the event made for that work is
    notified, which [poll] does once it has seen the CUDA event recorded behind it.  CUDA is a parameter. *)

From Stdlib Require Import ZArith Lia Bool.
From stdpp Require Import base gmap list strings relations.
From S2P Require Import Prelude Access Resource Guards ResourceUser Entries Graph GraphNotify.
From S2P Require Import GraphInv GraphInit GraphSubmit GraphEvents System SystemSafe SystemLive SystemRun SystemProps.
From S2P Require Import SystemEvents Bitfield RequestPool CudaEvents Workers Scheduler WorkerLoop MPIWorker Runtime.

Open Scope Z_scope.
Open Scope word_scope.

Module CudaWorker.
Import Graph Workers Scheduler WorkerLoop MPIWorker.

(** What such a worker does to the graph besides: [is_ready], [create_event_impl] with
    the task as the current one, and the notification of the pre-event, which it makes
    after the call of the function. *)
Class CudaGraph (W : Type) : Type := {
  graph_ready : nat -> W -> res bool;
  graph_create_event : nat -> W -> res (EventPtr * W);
  graph_launched : nat -> W -> res (list Call * W)
}.

Section Worker.
Context {Q : Type} `{TaskQueueLaws Q} {W : Type} `{TaskGraph W} `{NotifyGraph W} `{CudaGraph W}.
Context {CudaEvent : Type}.

(** The scheduler with its worker and the graph; the worker's CUDA events; the number
    of its streams; [m_cuda_stream_idx] of the tasks; the static counter of
    [getCudaStream]; what CUDA has made so far, and recorded in which stream. *)
Record CudaState : Type := mkCuda {
  c_single : Single (Q := Q) (W := W);
  c_events : CudaEvents.CudaWorker (CudaEvent := CudaEvent) (Event := EventPtr);
  num_streams : Z;
  m_cuda_stream_idx : gmap nat Z;
  stream_idx : Z;
  made : list CudaEvent;
  recorded_in : list (CudaEvent * Z)
}.
Implicit Types c : CudaState.

Definition with_machine (x : Single) c : CudaState :=
  mkCuda x (c_events c) (num_streams c) (m_cuda_stream_idx c) (stream_idx c) (made c) (recorded_in c).

(** ** The scheduler *)

(** [getCudaStream], called by the function of [t]; the stream is known by its index. *)
Definition getCudaStream (t : nat) c : res (Z * CudaState) :=
  if num_streams c =? 0 then Err Undefined
  else
    let task_stream_idx := stream_idx c mod num_streams c in
    Ok (task_stream_idx, mkCuda (c_single c) (c_events c) (num_streams c) (<[t := task_stream_idx]> (m_cuda_stream_idx c))
         (u32 (stream_idx c + 1)) (made c) (recorded_in c)).

Definition getCudaStreamIdx (idx : Z) c : res Z :=
  _ ← cpp_assert (idx <? num_streams c); Ok idx.

(** [CudaThreadScheduler::task_dependency_type] of the edge from [a] to any task. *)
Definition cuda_task_dependency_type (a : nat) c : bool := bool_decide (is_Some (m_cuda_stream_idx c !! a)).

(** ** The worker *)

Definition cuda_absorb (f : W -> res (list Call * W)) c : res CudaState :=
  x ← s_absorb f (c_single c); Ok (with_machine x c).

(** The same code as that of the worker for MPI. *)
Definition cuda_gather_task c : res (option nat * CudaState) :=
  '(t, x) ← s_gather_task (c_single c); Ok (t, with_machine x c).

(** [cudaEventQuery(e) == cudaSuccess], looks are numbered; [cudaEventCreate], after
    the events made before. *)
Context (query : nat -> CudaEvent -> bool) (create : list CudaEvent -> CudaEvent).
(** The function of a task; it returns the event it waits for if it was paused. *)
Context (run : nat -> CudaState -> res (option EventPtr * CudaState)).

(** From [event_pool.alloc] to [events.push]. *)
Definition record_event (t : nat) c : res CudaState :=
  let created := create (made c) in
  let '(cuda_event, _) := CudaEvents.alloc created (CudaEvents.event_pool (c_events c)) in
  let made' := CudaEvents.made_after created (made c) (c_events c) in
  idx ← deref (m_cuda_stream_idx c !! t);
  if idx <? num_streams c then
    '(my_event, g) ← graph_create_event t (s_graph (c_single c));
    Ok (mkCuda (mkSingle (s_sched (c_single c)) g) (CudaEvents.record created my_event (c_events c))
          (num_streams c) (m_cuda_stream_idx c) (stream_idx c) made' (recorded_in c ++ [(cuda_event, idx)]))
  else Err Undefined.

Definition cuda_execute_task (t : nat) c : res CudaState :=
  ready ← graph_ready t (s_graph (c_single c));
  _ ← cpp_assert ready;
  '(event, c) ← run t c;
  c ← record_event t c;
  c ← cuda_absorb (graph_launched t) c;
  match event with
  | Some e => cuda_absorb (graph_pause t (t_base_id (s_sched (c_single c))) e) c
  | None => cuda_absorb (graph_finish t) c
  end.

Definition cuda_poll (now : nat) c : res CudaState :=
  '(w, x) ← CudaEvents.poll (fun event => s_absorb (graph_notify event)) query now (c_events c) (c_single c);
  Ok (mkCuda x w (num_streams c) (m_cuda_stream_idx c) (stream_idx c) (made c) (recorded_in c)).

(** One round of [work_loop]; the first component counts the looks. *)
Fixpoint cuda_work (fuel now : nat) c : res (nat * CudaState) :=
  match fuel with
  | O => Err OutOfFuel
  | S fuel =>
      '(t, c) ← cuda_gather_task c;
      match t with
      | Some t => c ← cuda_execute_task t c; c ← cuda_poll now c; cuda_work fuel (S now) c
      | None => c ← cuda_poll now c; Ok (S now, c)
      end
  end.

(** [stopped]: what [m_stop], which the main thread sets, is at a look. *)
Fixpoint cuda_work_loop (stopped : nat -> bool) (rounds fuel now : nat) c : res CudaState :=
  match rounds with
  | O => Err OutOfFuel
  | S rounds =>
      if stopped now then Ok c
      else '(now, c) ← cuda_work fuel now c; cuda_work_loop stopped rounds fuel now c
  end.

(** (cuda_stream): a task that has no stream index when its function returns is used
    through an empty [std::optional]; it is not taken to use stream 0. *)
Lemma record_needs_stream t c : m_cuda_stream_idx c !! t = None -> record_event t c = Err Undefined.
Proof. intros E. unfold record_event. destruct (CudaEvents.alloc _ _). cbv zeta. rewrite E. reflexivity. Qed.

(** ** What the worker does to the graph *)

(** The operations on the graph: new tasks are initialized; the function of a task runs;
    an event is made for the work it left in the stream [idx], behind which [cuda_event]
    was recorded; the notifications of [execute_task]; and that of [poll]. *)
Inductive Op : Type :=
  | Inits (ts : list nat)
  | Run (t : nat)
  | Recorded (t : nat) (cuda_event : CudaEvent) (idx : Z) (event : EventPtr)
  | Launched (t : nat)
  | Paused (t : nat) (waker : Z) (event : EventPtr)
  | Finished (t : nat)
  | Notified (cuda_event : CudaEvent) (event : EventPtr).

(** What each does; [poll] notifies an event only when CUDA says that the work before its
    CUDA event is done. *)
Definition op_step (o : Op) (g g' : W) : Prop :=
  match o with
  | Inits ts => exists cs claimed, inits ts g cs claimed g'
  | Run t => exists c c' e, run t c = Ok (e, c') /\ s_graph (c_single c) = g /\ s_graph (c_single c') = g'
  | Recorded t _ _ event => graph_create_event t g = Ok (event, g')
  | Launched t => exists cs, graph_launched t g = Ok (cs, g')
  | Paused t waker event => exists cs, graph_pause t waker event g = Ok (cs, g')
  | Finished t => exists cs, graph_finish t g = Ok (cs, g')
  | Notified cuda_event event => (exists now, query now cuda_event = true) /\ exists cs, graph_notify event g = Ok (cs, g')
  end.

Inductive ops_run : list Op -> W -> W -> Prop :=
  | ops_none g : ops_run [] g g
  | ops_next o l g g1 g2 : op_step o g g1 -> ops_run l g1 g2 -> ops_run (o :: l) g g2.

Lemma ops_run_app l1 l2 g1 g2 g3 : ops_run l1 g1 g2 -> ops_run l2 g2 g3 -> ops_run (l1 ++ l2) g1 g3.
Proof. induction 1 as [| o l g ga gb Ho _ IH]; [auto |]. intros H'. eapply ops_next; [exact Ho | apply IH, H']. Qed.

Lemma ops_one o g g' : op_step o g g' -> ops_run [o] g g'.
Proof. intros Ho. eapply ops_next; [exact Ho | constructor]. Qed.

(** The tasks that were executed, what was recorded for them, and what was notified. *)
Definition executed : list Op -> list nat := omap (fun o => match o with Run t => Some t | _ => None end).
Definition recordings : list Op -> list (nat * CudaEvent * Z * EventPtr) :=
  omap (fun o => match o with Recorded t ce idx e => Some (t, ce, idx, e) | _ => None end).
Definition notifications : list Op -> list (CudaEvent * EventPtr) :=
  omap (fun o => match o with Notified ce e => Some (ce, e) | _ => None end).

Definition r_task (r : nat * CudaEvent * Z * EventPtr) : nat := r.1.1.1.
Definition r_stream (r : nat * CudaEvent * Z * EventPtr) : CudaEvent * Z := (r.1.1.2, r.1.2).
Definition r_pair (r : nat * CudaEvent * Z * EventPtr) : CudaEvent * EventPtr := (r.1.1.2, r.2).

(** The operations [l] lead from [c] to [c']: one recording for each task, in the order in
    which they were executed; and first in, first out: what was in the queue, followed by
    what was recorded, is what was notified, followed by what is still in the queue. *)
Record conforms (l : list Op) c c' : Prop := {
  cf_run : ops_run l (s_graph (c_single c)) (s_graph (c_single c'));
  cf_order : executed l = r_task <$> recordings l;
  cf_fifo : CudaEvents.events (c_events c) ++ (r_pair <$> recordings l) = notifications l ++ CudaEvents.events (c_events c');
  cf_streams : recorded_in c' = recorded_in c ++ (r_stream <$> recordings l);
  cf_held : CudaEvents.all_held (made c) (c_events c) -> CudaEvents.all_held (made c') (c_events c')
}.

(** [cudaEventCreate] makes a new event, and no function of a task touches the
    worker's events. *)
Context (create_new : forall l, create l ∉ l).
Context (run_keeps : forall t c e c', run t c = Ok (e, c') ->
  c_events c' = c_events c /\ made c' = made c /\ recorded_in c' = recorded_in c).

Lemma conforms_trans l1 l2 c1 c2 c3 : conforms l1 c1 c2 -> conforms l2 c2 c3 -> conforms (l1 ++ l2) c1 c3.
Proof.
  intros [R1 O1 F1 S1 H1'] [R2 O2 F2 S2 H2']. unfold executed, recordings, notifications in *.
  constructor; unfold executed, recordings, notifications; rewrite ?omap_app, ?fmap_app.
  - eapply ops_run_app; eassumption.
  - congruence.
  - rewrite app_assoc, F1, <- app_assoc, F2, app_assoc. reflexivity.
  - rewrite S2, S1, app_assoc. reflexivity.
  - auto.
Qed.

(** Operations after which the worker's events are as before. *)
Lemma conforms_same l c c' :
  ops_run l (s_graph (c_single c)) (s_graph (c_single c')) -> executed l = [] -> recordings l = [] -> notifications l = [] ->
  c_events c' = c_events c -> made c' = made c -> recorded_in c' = recorded_in c -> conforms l c c'.
Proof.
  intros Hr E1 E2 E3 Ee Em Ei. constructor; rewrite ?E1, ?E2, ?E3, ?Ee, ?Em, ?Ei; simpl; rewrite ?app_nil_r; auto.
Qed.

Lemma absorb_absorbed f c c' : cuda_absorb f c = Ok c' ->
  (exists cs, f (s_graph (c_single c)) = Ok (cs, s_graph (c_single c'))) /\
  c_events c' = c_events c /\ made c' = made c /\ recorded_in c' = recorded_in c.
Proof.
  intros E. apply bind_Ok in E as (x & E & Ec). injection Ec as <-. apply bind_Ok in E as ([cs g] & E & Es).
  apply bind_Ok in Es as (s' & _ & Es). injection Es as <-. split; [exists cs; exact E | auto].
Qed.

(** What the loop over the new tasks does to the graph, if it ends. *)
Lemma init_loop_inits fuel : forall x r x', s_init_loop fuel x = Ok (r, x') ->
  exists ts cs claimed, inits ts (s_graph x) cs claimed (s_graph x').
Proof.
  induction fuel as [| fuel IH]; intros x r x' E; [discriminate |]. cbn [s_init_loop] in E.
  apply bind_Ok in E as ([[more t] x1] & E1 & E). unfold s_init_dependencies in E1.
  apply bind_Ok in E1 as ([t0 x0] & E0 & E1).
  assert (Eg : s_graph x0 = s_graph x) by (apply bind_Ok in E0 as ([a s] & _ & E0); injection E0 as _ <-; reflexivity).
  destruct t0 as [t0 |]; [| injection E1 as <- <- <-; injection E as _ <-; exists [], [], None; rewrite Eg; constructor].
  apply bind_Ok in E1 as ([ready x2] & E2 & E1). injection E1 as <- <- <-.
  apply bind_Ok in E2 as ([[b cs] g] & Ei & E2). apply bind_Ok in E2 as (s & _ & E2). injection E2 as <- <-.
  rewrite Eg in Ei. destruct b.
  - injection E as _ <-. exists [t0], cs, (Some t0). constructor. exact Ei.
  - destruct (IH _ _ _ E) as (ts & cs' & k & Hk). exists (t0 :: ts), (cs ++ cs'), k. econstructor; [exact Ei | exact Hk].
Qed.

Lemma gather_conforms c t c' : cuda_gather_task c = Ok (t, c') -> exists ts, conforms [Inits ts] c c'.
Proof.
  intros E. apply bind_Ok in E as ([u x] & E & Ec). injection Ec as _ <-. unfold s_gather_task in E.
  apply bind_Ok in E as ([v x1] & E1 & E).
  assert (Eg : s_graph x1 = s_graph (c_single c)) by (apply bind_Ok in E1 as ([a s] & _ & E1); injection E1 as _ <-; reflexivity).
  assert (Hi : exists ts cs k, inits ts (s_graph (c_single c)) cs k (s_graph x)).
  { destruct v; [injection E as _ <-; exists [], [], None; rewrite Eg; constructor |].
    rewrite <- Eg. exact (init_loop_inits _ _ _ _ E). }
  destruct Hi as (ts & cs & k & Hi). exists ts. apply conforms_same; try reflexivity. apply ops_one. exists cs, k. exact Hi.
Qed.

(** The stream the work is recorded in is the one of the task. *)
Lemma record_inv t c c' : record_event t c = Ok c' ->
  exists ce idx e, m_cuda_stream_idx c !! t = Some idx /\ idx < num_streams c /\
    graph_create_event t (s_graph (c_single c)) = Ok (e, s_graph (c_single c')) /\
    CudaEvents.events (c_events c') = CudaEvents.events (c_events c) ++ [(ce, e)] /\
    recorded_in c' = recorded_in c ++ [(ce, idx)] /\
    (CudaEvents.all_held (made c) (c_events c) -> CudaEvents.all_held (made c') (c_events c')).
Proof.
  unfold record_event. destruct (CudaEvents.alloc _ _) as [ce p] eqn:Ea. cbv zeta. intros E.
  apply bind_Ok in E as (idx & Ei & E). apply deref_Ok in Ei. destruct (idx <? num_streams c) eqn:El; [| discriminate].
  apply Z.ltb_lt in El. apply bind_Ok in E as ([ev g] & Eg & E). injection E as <-. exists ce, idx, ev.
  split; [exact Ei |]. split; [exact El |]. split; [exact Eg |]. cbn [c_events recorded_in made].
  split; [unfold CudaEvents.record; rewrite Ea; reflexivity |]. split; [reflexivity |].
  intros Hh. apply CudaEvents.record_held; [apply create_new | exact Hh].
Qed.

Lemma execute_conforms t c c' : cuda_execute_task t c = Ok c' ->
  exists ce idx e last, conforms [Run t; Recorded t ce idx e; Launched t; last] c c' /\
    (last = Finished t \/ exists waker ev, last = Paused t waker ev).
Proof.
  intros E. unfold cuda_execute_task in E. apply bind_Ok in E as (ready & _ & E). apply bind_Ok in E as (u & _ & E).
  apply bind_Ok in E as ([event c1] & E1 & E). apply bind_Ok in E as (c2 & E2 & E). apply bind_Ok in E as (c3 & E3 & E).
  destruct (run_keeps _ _ _ _ E1) as (K1 & K2 & K3).
  destruct (record_inv _ _ _ E2) as (ce & idx & e & _ & _ & Hc & Hq & Hs & Hh).
  destruct (absorb_absorbed _ _ _ E3) as (Hl & L1 & L2 & L3).
  assert (Hlast : exists last, op_step last (s_graph (c_single c3)) (s_graph (c_single c')) /\
    (last = Finished t \/ exists waker ev, last = Paused t waker ev) /\
    c_events c' = c_events c3 /\ made c' = made c3 /\ recorded_in c' = recorded_in c3).
  { destruct event as [ev |]; destruct (absorb_absorbed _ _ _ E) as (Hf & R); [eexists (Paused t _ ev) | exists (Finished t)];
      (split; [exact Hf |]; split; [eauto | exact R]). }
  destruct Hlast as (last & Hlast & Hkind & M1 & M2 & M3). exists ce, idx, e, last. split; [| exact Hkind].
  assert (Hx : executed [last] = [] /\ recordings [last] = [] /\ notifications [last] = [])
    by (destruct Hkind as [-> | (? & ? & ->)]; auto).
  destruct Hx as (X1 & X2 & X3). constructor.
  - eapply ops_next; [exists c, c1, event; auto |]. eapply ops_next; [exact Hc |]. eapply ops_next; [exact Hl |].
    apply ops_one, Hlast.
  - change (t :: executed [last] = r_task <$> ((t, ce, idx, e) :: recordings [last])). rewrite X1, X2. reflexivity.
  - change (CudaEvents.events (c_events c) ++ (r_pair <$> ((t, ce, idx, e) :: recordings [last])) =
      notifications [last] ++ CudaEvents.events (c_events c')). rewrite X2, X3, M1, L1, Hq, K1. reflexivity.
  - change (recorded_in c' = recorded_in c ++ (r_stream <$> ((t, ce, idx, e) :: recordings [last]))).
    rewrite X2, M3, L3, Hs, K3. reflexivity.
  - rewrite M1, M2, L1, L2, <- K1, <- K2. exact Hh.
Qed.

Lemma poll_conforms now c c' : cuda_poll now c = Ok c' -> exists l, conforms l c c' /\ executed l = [].
Proof.
  unfold cuda_poll. intros E. apply bind_Ok in E as ([w x] & Ep & E). injection E as <-.
  destruct (CudaEvents.poll_cases _ _ _ _ _ _ _ Ep) as [(-> & -> & _) | (ce & ev & Eq & Hq & En & Epool)].
  - exists []. split; [apply conforms_same; try reflexivity; constructor | reflexivity].
  - exists [Notified ce ev]. split; [| reflexivity]. constructor; cbn [c_single c_events recorded_in made].
    + apply ops_one. split; [exists now; exact Hq |]. apply bind_Ok in En as ([cs g] & En & Es).
      apply bind_Ok in Es as (s' & _ & Es). injection Es as <-. exists cs. exact En.
    + reflexivity.
    + cbn. rewrite app_nil_r. exact Eq.
    + symmetry. apply app_nil_r.
    + exact (CudaEvents.popped_held _ _ _ _ _ Eq Epool).
Qed.

Lemma work_conforms fuel : forall now c now' c', cuda_work fuel now c = Ok (now', c') -> exists l, conforms l c c'.
Proof.
  induction fuel as [| fuel IH]; intros now c now' c' E; [discriminate |]. cbn [cuda_work] in E.
  apply bind_Ok in E as ([t c1] & E1 & E). destruct (gather_conforms _ _ _ E1) as (ts & C1). destruct t as [t |].
  - apply bind_Ok in E as (c2 & E2 & E). apply bind_Ok in E as (c3 & E3 & E).
    destruct (execute_conforms _ _ _ E2) as (ce & idx & e & last & C2 & _).
    destruct (poll_conforms _ _ _ E3) as (l3 & C3 & _). destruct (IH _ _ _ _ E) as (l4 & C4).
    eexists. exact (conforms_trans _ _ _ _ _ C1 (conforms_trans _ _ _ _ _ C2 (conforms_trans _ _ _ _ _ C3 C4))).
  - apply bind_Ok in E as (c2 & E2 & E). injection E as _ <-. destruct (poll_conforms _ _ _ E2) as (l2 & C2 & _).
    eexists. exact (conforms_trans _ _ _ _ _ C1 C2).
Qed.

Lemma loop_conforms stopped rounds fuel : forall now c c', cuda_work_loop stopped rounds fuel now c = Ok c' -> exists l, conforms l c c'.
Proof.
  induction rounds as [| rounds IH]; intros now c c' E; [discriminate |]. cbn [cuda_work_loop] in E. destruct (stopped now).
  - injection E as <-. exists []. apply conforms_same; try reflexivity. constructor.
  - apply bind_Ok in E as ([now1 c1] & E1 & E). destruct (work_conforms _ _ _ _ _ E1) as (l1 & C1). destruct (IH _ _ _ E) as (l2 & C2).
    eexists. exact (conforms_trans _ _ _ _ _ C1 C2).
Qed.

(** C40 (cuda): whatever the loop of the worker does, it does to the graph through a
    sequence of operations: each task that is executed has one event made for it, in the
    order of execution, with a CUDA event that is recorded in a stream; and the events
    are notified in that order, each once, when CUDA has said that the work before its
    CUDA event is done; those not yet notified are in the queue.  No CUDA event stands for
    two pieces of work at once, and none that was made is lost. *)
Theorem cuda_loop_in_order stopped rounds fuel now c c' :
  CudaEvents.all_held (made c) (c_events c) -> cuda_work_loop stopped rounds fuel now c = Ok c' ->
  CudaEvents.all_held (made c') (c_events c') /\
  exists l, ops_run l (s_graph (c_single c)) (s_graph (c_single c')) /\
    executed l = r_task <$> recordings l /\
    recorded_in c' = recorded_in c ++ (r_stream <$> recordings l) /\
    CudaEvents.events (c_events c) ++ (r_pair <$> recordings l) = notifications l ++ CudaEvents.events (c_events c').
Proof.
  intros Hh E. destruct (loop_conforms _ _ _ _ _ _ E) as (l & [R O F S Hk]). split; [exact (Hk Hh) |]. exists l. auto.
Qed.
End Worker.

(** [CudaThreadScheduler::init]: as that of [ThreadScheduler], with the streams. *)
Definition cuda_init {Q W CudaEvent} `{TaskQueue Q} (base n_pus arenas n_streams : Z) (g : W) (s : ThreadScheduler (Q := Q)) :
    res (CudaState (W := W) (CudaEvent := CudaEvent) * Z) :=
  '(s, arenas) ← init_thread base n_pus arenas s;
  Ok (mkCuda (mkSingle s g) CudaEvents.new_worker n_streams ∅ 0 [] [], arenas).

(** ** On the task graph of [System] *)

Section Waiting.
Import Resource ResourceUser GraphNotify GraphInv GraphInit GraphSubmit GraphEvents System SystemSafe SystemLive SystemRun SystemProps.
Import SystemEvents Runtime.
Context {RA : Type} `{AccessOps RA} `{!AccessLaws RA}.
Implicit Types (w : World RA) (task : Task RA) (s : State (RA := RA)).

(** The address of a new event. *)
Definition new_address w : nat := base.fresh (dom (events w) : gset nat).

Definition run_create_event (t : nat) s : res (EventPtr * State) :=
  '(p, w) ← make_event (new_address (world s)) t (world s); Ok (p, mkState w (info s) (next_seq s)).

Definition run_launched (t : nat) s : res (list Call * State) :=
  '(_, w') ← notify (notify_fuel (world s)) (get_pre_event t) false (world s);
  s' ← advance_to t Running w' s;
  Ok (new_calls (world s) w', s').

#[export] Instance state_cuda : CudaGraph (State (RA := RA)) := {
  graph_ready := fun t s => task ← get_task t (world s); Ok (task_is_ready task);
  graph_create_event := run_create_event;
  graph_launched := run_launched
}.

(** The notification of a pre-event that is due once. *)
Definition launched (t : nat) task w : World RA :=
  let w := put_task t (with_event T_EVT_PRE (dn (pre_event task)) task) w in
  if 0 <=? waker_id (pre_event task) then call (Wake t (waker_id (pre_event task))) w else w.

Lemma launch_eq fuel w t task : tasks w !! t = Some task -> state (pre_event task) = 1 -> followers (pre_event task) = [] ->
  notify (S fuel) (get_pre_event t) false w = Ok (false, launched t task w).
Proof.
  intros Ht Hs Hf. rewrite notify_S. unfold get_event, get_task. cbn [tag get_pre_event ep_task deref mbind res_bind].
  rewrite Ht. cbn [deref mbind res_bind task_event]. rewrite (put_pre w t task _ Ht). cbn [mbind res_bind]. rewrite Hs, Hf.
  cbn. unfold launched. destruct (0 <=? waker_id (pre_event task)); reflexivity.
Qed.

Lemma launched_events t task w : events (launched t task w) = events w.
Proof. unfold launched. destruct (0 <=? waker_id (pre_event task)); reflexivity. Qed.

Lemma launched_task t task w : tasks (launched t task w) !! t = Some (with_event T_EVT_PRE (dn (pre_event task)) task).
Proof. unfold launched. destruct (0 <=? waker_id (pre_event task)); apply lookup_insert_eq. Qed.

(** The new event, which the post-event of [t] follows. *)
Definition with_new_event (x t : nat) task w : World RA :=
  put_task t (with_event T_EVT_POST (up (post_event task)) task)
    (put_external x (push_follower (get_post_event t) new_event) (put_external x new_event w)).

Lemma create_eq x w t task : tasks w !! t = Some task -> make_event x t w = Ok (external x t, with_new_event x t task w).
Proof.
  intros Ht. unfold make_event, add_follower, modify_event, get_event, put_event, get_task.
  cbn [tag external_event deref mbind res_bind put_external events]. rewrite lookup_insert_eq. cbn [deref mbind res_bind is_reached new_event state].
  change (1 =? 0) with false. cbv iota. cbn [tag external_event get_post_event ep_task deref mbind res_bind put_external tasks events].
  rewrite ?lookup_insert_eq. cbn [deref mbind res_bind]. rewrite Ht. cbn [deref mbind res_bind task_event]. reflexivity.
Qed.

(** Making an event and the notification of the pre-event can be exchanged. *)
Lemma create_launched x t task w :
  launched t (with_event T_EVT_POST (up (post_event task)) task) (with_new_event x t task w) =
  with_new_event x t (with_event T_EVT_PRE (dn (pre_event task)) task) (launched t task w).
Proof.
  unfold launched, with_new_event. cbn [with_event pre_event post_event]. simpl bool_decide. cbv iota.
  destruct (0 <=? waker_id (pre_event task)); unfold put_task, put_external, call; cbn [tasks events spaces users calls];
    rewrite !insert_insert_eq; reflexivity.
Qed.

Context {Q : Type} `{TaskQueueLaws Q} {CudaEvent : Type}.
Abbreviation Cuda := (CudaState (Q := Q) (W := State (RA := RA)) (CudaEvent := CudaEvent)).
Context (create : list CudaEvent -> CudaEvent) (run : nat -> Cuda -> res (option EventPtr * Cuda)).

Definition graph_of (c : Cuda) : State := s_graph (c_single c).

Lemma record_graph t (c c' : Cuda) task : record_event create t c = Ok c' -> tasks (world (graph_of c)) !! t = Some task ->
  let x := new_address (world (graph_of c)) in
  graph_of c' = mkState (with_new_event x t task (world (graph_of c))) (info (graph_of c)) (next_seq (graph_of c)) /\
  exists ce idx, m_cuda_stream_idx c !! t = Some idx /\ recorded_in c' = recorded_in c ++ [(ce, idx)] /\
    CudaEvents.events (c_events c') = CudaEvents.events (c_events c) ++ [(ce, external x t)].
Proof.
  intros E Ht x. unfold record_event in E. destruct (CudaEvents.alloc _ _) as [ce p] eqn:Ea. cbv zeta in E.
  apply bind_Ok in E as (idx & Ei & E). apply deref_Ok in Ei. destruct (idx <? num_streams c); [| discriminate].
  apply bind_Ok in E as ([ev g] & Eg & E).
  cbn [graph_create_event state_cuda] in Eg. unfold run_create_event in Eg. fold (graph_of c) in Eg. fold x in Eg.
  rewrite (create_eq x _ t task Ht) in Eg. cbn [mbind res_bind] in Eg. injection Eg as <- <-. injection E as <-.
  split; [reflexivity |]. exists ce, idx. split; [exact Ei |]. split; [reflexivity |]. cbn [c_events].
  unfold CudaEvents.record. rewrite Ea. reflexivity.
Qed.

Lemma new_address_new w : events w !! new_address w = None.
Proof. apply not_elem_of_dom, (is_fresh (dom (events w) : gset nat)). Qed.

End Waiting.

(** ** A run *)

Section Example.
Import System SystemRun SystemProps SystemEvents Runtime.
#[local] Existing Instances run_ops run_laws.

Definition cuda : Type := CudaState (Q := list nat) (W := State (RA := Guards.RA)) (CudaEvent := nat).

(** Two tasks write one object, a third another one. *)
Definition kernels : cuda :=
  mkCuda (mkSingle (mkThread 0 (Some (mkWorker 0 false true [0; 1; 2]%nat [])))
      (state_after [CSubmit 0 0 (writes 7) 0; CSubmit 0 1 (writes 7) 0; CSubmit 0 2 (writes 8) 0]))
    CudaEvents.new_worker 2 ∅ 0 [] [].

(** Each launches one kernel; an event is finished at the fourth look or later. *)
Definition launch (t : nat) (c : cuda) : res (option EventPtr * cuda) := '(_, c) ← getCudaStream t c; Ok (None, c).
Definition done (now e : nat) : bool := (3 <=? now)%nat.
Definition next_event (l : list nat) : nat := S (foldr Nat.max 0%nat l).

Lemma next_event_new l : next_event l ∉ l.
Proof.
  assert (Hle : forall x, x ∈ l -> (x <= foldr Nat.max 0 l)%nat).
  { induction l as [| y l IH]; intros x Hx; [inversion Hx |]. simpl. apply elem_of_cons in Hx as [-> | Hx]; [lia |]. specialize (IH x Hx). lia. }
  intros Hin. specialize (Hle _ Hin). unfold next_event in Hle. lia.
Qed.

Lemma launch_keeps t c e c' : launch t c = Ok (e, c') -> c_events c' = c_events c /\ made c' = made c /\ recorded_in c' = recorded_in c.
Proof.
  unfold launch, getCudaStream. destruct (num_streams c =? 0); [discriminate |]. intros E. injection E as _ <-. auto.
Qed.

Definition looks (k : nat) : res cuda := cuda_work_loop done next_event launch (fun now => (k <=? now)%nat) 9 9 0 kernels.
Definition after_looks (k : nat) : cuda := match looks k with Ok c => c | Err _ => kernels end.

Definition state_at (t : nat) (c : cuda) : option Status * option bool :=
  (status_of t (graph_of c), is_finished <$> tasks (world (graph_of c)) !! t).

(** Tasks 0 and 2 are launched at once, in different streams; task 1 waits until the
    poll has seen the work of task 0 finished, and uses its CUDA event again. *)
Example kernels_run : (fun k => (state_at 0 (after_looks k), state_at 1 (after_looks k), state_at 2 (after_looks k),
    recorded_in (after_looks k))) <$> [1; 4; 5]%nat =
  [((Some Returned, Some false), (Some Initialized, Some false), (Some Returned, Some false), [(1%nat, 0); (2%nat, 1)]);
   ((Some Returned, Some true), (Some Initialized, Some false), (Some Returned, Some false), [(1%nat, 0); (2%nat, 1)]);
   ((Some Returned, Some true), (Some Returned, Some true), (Some Returned, Some true), [(1%nat, 0); (2%nat, 1); (1%nat, 0)])].
Proof. vm_compute. reflexivity. Qed.

(** After five looks all three tasks have been executed and notified. *)
Lemma cuda_loop_in_order_witness :
  exists l, executed l = r_task <$> recordings l /\ r_stream <$> recordings l = [(1%nat, 0); (2%nat, 1); (1%nat, 0)] /\
    (r_pair <$> recordings l) = notifications l ++ CudaEvents.events (c_events (after_looks 5)).
Proof.
  destruct (cuda_loop_in_order done next_event launch next_event_new launch_keeps (fun now => (5 <=? now)%nat) 9 9 0
    kernels (after_looks 5)) as (_ & l & _ & Eo & Es & Ef).
  - split; [apply NoDup_nil_2 |]. intros e. split; intros Hin; inversion Hin.
  - vm_compute. reflexivity.
  - exists l. split; [exact Eo |]. split; [| exact Ef]. vm_compute in Es. symmetry. exact Es.
Defined.

(** The first task of [kernels], initialized, and after its execution. *)
Definition ready_kernel : cuda :=
  mkCuda (mkSingle (mkThread 0 (Some (mkWorker 0 false true [] []))) (state_after [CSubmit 0 0 (writes 7) 0; CInit 0 true]))
    CudaEvents.new_worker 2 ∅ 0 [] [].
Definition launched_kernel : cuda := match launch 0 ready_kernel with Ok (_, c) => c | Err _ => ready_kernel end.
Definition executed_kernel : cuda := match cuda_execute_task next_event launch 0 ready_kernel with Ok c => c | Err _ => ready_kernel end.

End Example.
End CudaWorker.
