(* ===== verification/ConcurrentList.v ===== *)
(** Many threads push elements into one chunked list and remove them again
    ([push] and [remove] of [redGrapes/util/chunked_list.hpp] with [append_item] of
    [redGrapes/util/atomic_list.hpp]): one access to a variable the threads share is
    one step.  [ChunkedList] has the same operations as one thread executes them. *)

From Stdlib Require Import ZArith Lia Bool.
From stdpp Require Import base gmap list relations strings.
From S2P Require Import Prelude AtomicList ChunkedList ChunkedListSpec ChunkedListOps.

Open Scope Z_scope.
Open Scope word_scope.

Module ConcurrentList.
Import AtomicList ChunkedList ChunkedListSpec ChunkedListOps.

Section Threads.
Context {T : Type} {N : ChunkSize} {HN : GoodSize N}.

(** Thread [t] pushes [value t]; a thread that pushes again has another number. *)
Context (value : nat -> T).

(** ** The steps *)

(** What a thread does next, with its local variables. *)
Inductive pc : Type :=
  | Idle                                  (* calls [push] *)
  | Load                                  (* [chunks.rbegin()] *)
  | Look (c : nat)                        (* [chunk->next_item.load() <= chunk_end] *)
  | Fetch (c : nat)                       (* [chunk->next_item.fetch_add(1)] *)
  | Assign (c : nat) (i : Z)              (* [storage.value = value] *)
  | Publish (c : nat) (i : Z)             (* [iter_offset = 0] *)
  | Access (c : nat) (i : Z)              (* makes the iterator to return *)
  | Pushed (a : ItemAccess)               (* [push] has returned; calls [remove] *)
  | Allocate (c : option nat)             (* the list is empty, or [c] is full *)
  | TryFirst (id : nat)                   (* [try_append_first_item] *)
  | LoadHead (c id : nat)                 (* [append_item] of [id] *)
  | StorePrev (c id : nat) (old : option nat)
  | CasHead (c id : nat) (old : option nat)
  | Distance (a : ItemAccess)             (* reads the offset of the item before *)
  | Skip (a : ItemAccess) (off : Z)       (* stores [iter_offset] *)
  | Release (a : ItemAccess)              (* [pos.item().release()] *)
  | Freed (a : ItemAccess)                (* [freed_items.fetch_add(1)] *)
  | EraseChunk (a : ItemAccess)           (* [chunks.erase(chunk)] *)
  | Drop (a : ItemAccess)                 (* [remove] has returned; drops the iterator *)
  | Removed (a : ItemAccess).

Record State : Type := mkState { store : @CL T; threads : nat -> pc }.

(** The last [shared_ptr] to a control block that was never linked is gone. *)
Definition discard (id : nat) (l : @CL T) : @CL T := mkList (base.delete id (nodes l)) (head l) (next_id l).

(** An access to the item at [p]. *)
Definition update_item (p : nat * Z) (f : Item T -> res (Item T)) (l : @CL T) : res CL :=
  it ← read_item p l; it ← f it; write_item p it l.

(** [assert(iter_offset != 0); assert(refcount == 0); storage.value = value] *)
Definition assign_value (v : T) (it : Item T) : res (Item T) :=
  _ ← cpp_assert (negb (iter_offset it =? 0));
  _ ← cpp_assert (refcount it =? 0);
  Ok (mkItem (Some v) (iter_offset it) (refcount it)).

Definition set_offset (off : Z) (it : Item T) : res (Item T) := Ok (mkItem (storage it) off (refcount it)).

(** The next step of thread [t]. *)
Definition run (t : nat) (s : State) : res State :=
  let l := store s in
  let go (p : pc) (l : @CL T) : res State := Ok (mkState l (set_pc t p (threads s))) in
  match threads s t with
  | Idle => go Load l
  | Load => go (match rbegin l with Some c => Look c | None => Allocate None end) l
  | Look c => d ← get c l; go (if next_item d <=? chunk_size then Fetch c else Load) l
  | Fetch c =>
      d ← get c l;
      let next := next_item d in
      l ← set_data c (mkChunk (items d) (next + 1) (freed_items d)) l;
      go (if next <? chunk_size then Assign c next
          else if next =? chunk_size then Allocate (Some c) else Load) l
  | Assign c i =>
      l ← update_item (c, i) (assign_value (value t)) l;
      go (Publish c i) l
  | Publish c i =>
      l ← update_item (c, i) (set_offset 0) l;
      go (Access c i) l
  | Access c i => '(a, l) ← make_access (Some c) (Some i) l; go (Pushed a) l
  | Allocate c =>
      let '(id, l) := make_node new_chunk l in
      go (match c with None => TryFirst id | Some c => LoadHead c id end) l
  | TryFirst id =>
      let '(ok, l) := try_append_first_item id l in
      go Load (if ok : bool then l else discard id l)
  | LoadHead c id => go (StorePrev c id (head l)) l
  | StorePrev c id old => l ← set_prev id old l; go (CasHead c id old) l
  | CasHead c id old =>
      if decide (head l = old) then go Load (mkList (nodes l) (Some id) (next_id l))
      else go (LoadHead c id) l
  | Pushed a =>
      if is_valid_idx a then go (Distance a) l else Err (Throw "remove invalid position")
  | Distance a =>
      '(c, i) ← location a;
      off ← (if i =? 0 then Ok 1
             else p ← read_item (c, i - 1) l; Ok (u16 (iter_offset p + 1)));
      go (Skip a off) l
  | Skip a off =>
      p ← location a;
      l ← update_item p (set_offset off) l;
      go (Release a) l
  | Release a =>
      p ← location a; l ← update_item p (item_release true) l; go (Freed a) l
  | Freed a =>
      c ← deref (ia_chunk a);
      d ← get c l;
      l ← set_data c (mkChunk (items d) (next_item d) (freed_items d + 1)) l;
      go (if freed_items d =? chunk_size - 1 then EraseChunk a else Drop a) l
  | EraseChunk a => l ← erase (ia_chunk a) l; go (Drop a) l
  | Drop a => '(a, l) ← release a l; go (Removed a) l
  | Removed a => Ok s
  end.

Definition step (s s' : State) : Prop := exists t, run t s = Ok s'.

Definition init (s : State) : Prop := s = mkState empty (fun _ => Idle).

Fixpoint run_all (ts : list nat) (s : State) : res State :=
  match ts with
  | [] => Ok s
  | t :: ts => s ← run t s; run_all ts s
  end.

(** ** The invariant *)

(** The slot a thread has taken. *)
Definition claim (p : pc) : option pos :=
  match p with
  | Assign c i | Publish c i | Access c i => Some (c, i)
  | Pushed a | Distance a | Skip a _ | Release a | Freed a | EraseChunk a | Drop a | Removed a =>
      c ← ia_chunk a; i ← ia_item a; Some (c, i)
  | _ => None
  end.

(** The control block a thread has made and not linked. *)
Definition floating (p : pc) : option nat :=
  match p with
  | TryFirst id | LoadHead _ id | StorePrev _ id _ | CasHead _ id _ => Some id
  | _ => None
  end.

(** The chunk behind which a thread appends another one. *)
Definition extends (p : pc) : option nat :=
  match p with
  | Allocate c => c
  | LoadHead c _ | StorePrev c _ _ | CasHead c _ _ => Some c
  | _ => None
  end.

(** The item was counted in [freed_items]. *)
Definition counted (p : pc) : bool :=
  match p with EraseChunk _ | Drop _ | Removed _ => true | _ => false end.

(** On its way to a slot of the newest chunk [c]. *)
Definition comes (c : nat) (p : pc) : bool :=
  match p with Load => true | Look d | Fetch d => bool_decide (c = d) | _ => false end.

(** An offset that stays in the chunk, or leaves it by one. *)
Definition offset_ok (i off : Z) : Prop := 1 <= off <= i + 1.

(** The item in the slot [i] that thread [t] has taken. *)
Definition item_of (t : nat) (i : Z) (p : pc) (it : Item T) : Prop :=
  match p with
  | Assign _ _ => it = new_item
  | Publish _ _ => it = mkItem (Some (value t)) 1 0
  | Access _ _ => it = mkItem (Some (value t)) 0 0
  | Pushed _ | Distance _ | Skip _ _ => it = mkItem (Some (value t)) 0 1
  | Release _ => exists off, offset_ok i off /\ it = mkItem (Some (value t)) off 1
  | Freed _ | EraseChunk _ | Drop _ => exists off, offset_ok i off /\ it = mkItem (Some (value t)) off 0
  | Removed _ => exists off, offset_ok i off /\ it = mkItem None off (-1)
  | _ => False
  end.

Section Invariant.
Implicit Types (P : nat -> pc) (l : @CL T).

Record chunk_ok P (id : nat) (d : Chunk T) : Prop := {
  ck_length : Z.of_nat (length (items d)) = chunk_size;
  ck_next : 0 <= next_item d;
  ck_taken : forall i it, items d !! i = Some it -> Z.of_nat i < next_item d ->
    exists u, claim (P u) = Some (id, Z.of_nat i) /\ item_of u (Z.of_nat i) (P u) it;
  ck_free : forall i it, items d !! i = Some it -> next_item d <= Z.of_nat i -> it = new_item;
  ck_counted : exists K, NoDup K /\ freed_items d = Z.of_nat (length K) /\
    forall i, i ∈ K -> 0 <= i < chunk_size /\ exists u, claim (P u) = Some (id, i) /\ counted (P u) = true
}.

(** What holds of the local variables of a thread. *)
Definition locals l (ids : list nat) (p : pc) : Prop :=
  match p with
  | Look c | Fetch c => c ∈ ids
  | Pushed a | Distance a | Release a | Freed a | Drop a =>
      exists q, a = at_pos q
  | Skip a off => exists q, a = at_pos q /\ offset_ok (snd q) off
  | EraseChunk a => exists q, a = at_pos q /\
      forall n, nodes l !! fst q = Some n -> freed_items (item_data n) = chunk_size
  | TryFirst id => (prev <$> nodes l !! id) = Some None
  | LoadHead c id => (c < id)%nat
  | StorePrev c id old => (c < id)%nat /\ old = Some c
  | CasHead c id old => old = Some c /\ (prev <$> nodes l !! id) = Some (Some c)
  | _ => True
  end.

Record Inv (ids : list nat) (s : State) : Prop := {
  iv_wf : wf (store s);
  iv_path : path (store s) (head (store s)) ids;
  iv_nodes : forall id n, nodes (store s) !! id = Some n -> id ∈ ids \/ exists t, floating (threads s t) = Some id;
  iv_chunk : forall id n, nodes (store s) !! id = Some n -> id ∈ ids ->
    chunk_ok (threads s) id (item_data n) /\ (deleted n = true -> freed_items (item_data n) = chunk_size);
  iv_full : forall id n, nodes (store s) !! id = Some n -> id ∈ ids -> head (store s) <> Some id ->
    chunk_size < next_item (item_data n);
  iv_head : forall h n, head (store s) = Some h -> nodes (store s) !! h = Some n ->
    (chunk_size < next_item (item_data n)) <-> (exists t, extends (threads s t) = Some h);
  iv_empty : forall h n, head (store s) = Some h -> nodes (store s) !! h = Some n ->
    next_item (item_data n) = 0 -> prev n = None \/ exists t, comes h (threads s t) = true;
  iv_float : forall t id, floating (threads s t) = Some id -> (id ∉ ids) /\
    exists p, nodes (store s) !! id = Some (mkCB false p new_chunk) /\ forall c, p = Some c -> c ∈ ids;
  iv_floats : forall t u id, floating (threads s t) = Some id -> floating (threads s u) = Some id -> t = u;
  iv_extends : forall t c, extends (threads s t) = Some c -> head (store s) = Some c;
  iv_one : forall t u c, extends (threads s t) = Some c -> extends (threads s u) = Some c -> t = u;
  iv_claim : forall t c i, claim (threads s t) = Some (c, i) -> c ∈ ids /\ 0 <= i < chunk_size /\
    forall n, nodes (store s) !! c = Some n -> i < next_item (item_data n);
  iv_claims : forall t u p, claim (threads s t) = Some p -> claim (threads s u) = Some p -> t = u;
  iv_locals : forall t, locals (store s) ids (threads s t)
}.

Lemma set_pc_cases (t u : nat) (q : pc) P : t = u /\ set_pc t q P u = q \/ t <> u /\ set_pc t q P u = P u.
Proof. unfold set_pc. destruct (decide (t = u)); auto. Qed.

(** The changes of the store that leave its structure alone. *)
Record grows (ids : list nat) l l' : Prop := {
  gw_head : head l' = head l;
  gw_next : next_id l' = next_id l;
  gw_prev : forall id, (prev <$> nodes l' !! id) = (prev <$> nodes l !! id);
  gw_node : forall id n', nodes l' !! id = Some n' -> exists n, nodes l !! id = Some n /\ (id ∉ ids -> n' = n) /\
    next_item (item_data n) <= next_item (item_data n') /\
    (freed_items (item_data n) = chunk_size -> freed_items (item_data n') = chunk_size)
}.

Lemma grows_refl ids l : grows ids l l.
Proof. constructor; try reflexivity. intros id n Hn. exists n. auto with lia. Qed.

Lemma grows_put ids l c n n' :
  nodes l !! c = Some n -> c ∈ ids -> prev n' = prev n -> next_item (item_data n) <= next_item (item_data n') ->
  (freed_items (item_data n) = chunk_size -> freed_items (item_data n') = chunk_size) ->
  grows ids l (put_node c n' l).
Proof.
  intros Hn Hc Hp Hx Hf. constructor; try reflexivity; [apply put_same_prev with n; assumption |].
  intros id m Hm. simpl in Hm. destruct (decide (c = id)) as [<- | Hne].
  - rewrite lookup_insert_eq in Hm. injection Hm as <-. exists n. tauto.
  - rewrite lookup_insert_ne in Hm by exact Hne. exists m. auto with lia.
Qed.

Lemma grows_wf ids l l' : wf l -> grows ids l l' -> wf l'.
Proof.
  intros Hwf [G1 G2 G3 G4].
  assert (Hs : forall id, is_Some (nodes l !! id) -> is_Some (nodes l' !! id)).
  { intros id [n Hn]. specialize (G3 id). rewrite Hn in G3. destruct (nodes l' !! id); [eauto | discriminate]. }
  constructor.
  - intros id n' Hn'. destruct (G4 id n' Hn') as (n & Hn & _). specialize (G3 id). rewrite Hn, Hn' in G3. injection G3 as G3.
    destruct (wf_prev l Hwf id n Hn) as [H1 H2]. rewrite G2, G3. split; [exact H1 |].
    intros p Hp. destruct (H2 p Hp). auto.
  - intros h Hh. rewrite G1 in Hh. apply Hs, (wf_head l Hwf h Hh).
Qed.

Lemma locals_grows ids l l' p : grows ids l l' -> locals l ids p -> locals l' ids p.
Proof.
  intros [G1 G2 G3 G4]. destruct p; simpl; auto.
  - rewrite G3. auto.
  - rewrite G3. auto.
  - intros (q & -> & Hq). exists q. split; [reflexivity |]. intros n' Hn'. destruct (G4 _ n' Hn') as (n & Hn & _ & _ & Hf). eauto.
Qed.

(** A step of thread [t] to [q] that leaves the structure of the list alone. *)
Record stable (ids : list nat) (s : State) (t : nat) (q : pc) l' : Prop := {
  st_floating : floating q = floating (threads s t);
  st_extends : extends q = extends (threads s t) \/
    exists c n', extends q = Some c /\ head (store s) = Some c /\ (forall u, extends (threads s u) <> Some c) /\
      nodes l' !! c = Some n' /\ chunk_size < next_item (item_data n');
  st_full : forall h n n', head (store s) = Some h -> nodes (store s) !! h = Some n -> nodes l' !! h = Some n' ->
    chunk_size < next_item (item_data n') -> chunk_size < next_item (item_data n) \/ extends q = Some h;
  st_comes : forall h n', head (store s) = Some h -> nodes l' !! h = Some n' -> next_item (item_data n') = 0 ->
    comes h (threads s t) = true -> comes h q = true;
  st_claim : claim q = claim (threads s t) \/
    exists c i n', claim q = Some (c, i) /\ c ∈ ids /\ 0 <= i < chunk_size /\ nodes l' !! c = Some n' /\
      i < next_item (item_data n') /\ forall u, claim (threads s u) <> Some (c, i);
  st_locals : locals l' ids q
}.

Lemma path_head_in l h ids : path l (Some h) ids -> h ∈ ids.
Proof. intros H. inversion H; subst. left. Qed.

Lemma stable_extends ids s t q l' u c : stable ids s t q l' ->
  extends (set_pc t q (threads s) u) = Some c -> extends (threads s u) = Some c \/
    t = u /\ head (store s) = Some c /\ (forall v, extends (threads s v) <> Some c) /\
    exists n', nodes l' !! c = Some n' /\ chunk_size < next_item (item_data n').
Proof.
  intros HS. destruct (set_pc_cases t u q (threads s)) as [[<- ->] | [_ ->]]; [| auto]. intros E.
  destruct (st_extends _ _ _ _ _ HS) as [S2 | (d & n' & E1 & E2 & E3 & E4 & E5)]; [left; congruence |].
  assert (d = c) as -> by congruence. right. eauto 10.
Qed.

Lemma stable_claim ids s t q l' u p : stable ids s t q l' ->
  claim (set_pc t q (threads s) u) = Some p -> claim (threads s u) = Some p \/
    t = u /\ fst p ∈ ids /\ 0 <= snd p < chunk_size /\ (forall v, claim (threads s v) <> Some p) /\
    exists n', nodes l' !! fst p = Some n' /\ snd p < next_item (item_data n').
Proof.
  intros HS. destruct (set_pc_cases t u q (threads s)) as [[<- ->] | [_ ->]]; [| auto]. intros E.
  destruct (st_claim _ _ _ _ _ HS) as [S5 | (c & i & n' & E1 & E2 & E3 & E4 & E5 & E6)]; [left; congruence |].
  assert (p = (c, i)) as -> by congruence. right. eauto 12.
Qed.

(** Who extends the list, and that its newest chunk is full when somebody does. *)
Lemma stable_head ids s t q l' h n' :
  Inv ids s -> grows ids (store s) l' -> stable ids s t q l' -> head (store s) = Some h -> nodes l' !! h = Some n' ->
  (chunk_size < next_item (item_data n')) <-> (exists u, extends (set_pc t q (threads s) u) = Some h).
Proof.
  intros HI HG HS Hh Hn'. destruct (gw_node _ _ _ HG h n' Hn') as (n & Hn & _ & Hx & _). split.
  - intros Hlt. destruct (st_full _ _ _ _ _ HS h n n' Hh Hn Hn' Hlt) as [Hl |]; [| exists t; rewrite set_pc_eq; assumption].
    apply (iv_head _ _ HI h n Hh Hn) in Hl as [u Hu]. exists u.
    destruct (set_pc_cases t u q (threads s)) as [[<- ->] | [_ ->]]; [| exact Hu].
    destruct (st_extends _ _ _ _ _ HS) as [-> | (c & _ & _ & E2 & E3 & _)]; [exact Hu |].
    assert (c = h) as -> by congruence. destruct (E3 t Hu).
  - intros [u Hu]. destruct (stable_extends _ _ _ _ _ u h HS Hu) as [Hu' | (_ & _ & _ & m & Hm & Hl)]; [| congruence].
    enough (chunk_size < next_item (item_data n)) by lia. apply (iv_head _ _ HI h n Hh Hn). eauto.
Qed.

Lemma stable_empty ids s t q l' h n' :
  Inv ids s -> grows ids (store s) l' -> stable ids s t q l' -> head (store s) = Some h -> nodes l' !! h = Some n' ->
  next_item (item_data n') = 0 -> prev n' = None \/ exists u, comes h (set_pc t q (threads s) u) = true.
Proof.
  intros HI HG HS Hh Hn' E0. destruct (gw_node _ _ _ HG h n' Hn') as (n & Hn & _ & Hx & _).
  assert (Hin : h ∈ ids) by (apply (path_head_in (store s)); rewrite <- Hh; apply HI).
  pose proof (ck_next _ _ _ (proj1 (iv_chunk _ _ HI h n Hn Hin))).
  destruct (iv_empty _ _ HI h n Hh Hn ltac:(lia)) as [Hp | [u Hu]].
  - left. pose proof (gw_prev _ _ _ HG h) as G3. rewrite Hn, Hn' in G3. simpl in G3. congruence.
  - right. exists u. destruct (set_pc_cases t u q (threads s)) as [[<- ->] | [_ ->]]; [| exact Hu].
    eapply st_comes; eassumption.
Qed.

Lemma Inv_stable ids s t q l' :
  Inv ids s -> grows ids (store s) l' -> stable ids s t q l' ->
  (forall id n', nodes l' !! id = Some n' -> id ∈ ids -> chunk_ok (set_pc t q (threads s)) id (item_data n') /\
    (deleted n' = true -> freed_items (item_data n') = chunk_size)) ->
  Inv ids (mkState l' (set_pc t q (threads s))).
Proof.
  intros HI HG HS Hck. pose proof HG as [G1 G2 G3 G4].
  assert (Hfl : forall u, floating (set_pc t q (threads s) u) = floating (threads s u)).
  { intros u. destruct (set_pc_cases t u q (threads s)) as [[-> ->] | [_ ->]]; [apply HS | reflexivity]. }
  constructor; cbn [store threads]; rewrite ?G1.
  - eapply grows_wf; [apply HI | exact HG].
  - eapply path_same_prev; [apply HI | exact G3].
  - intros id n' Hn'. destruct (G4 id n' Hn') as (n & Hn & _). destruct (iv_nodes _ _ HI id n Hn) as [| [u Hu]]; [auto |].
    right. exists u. rewrite Hfl. exact Hu.
  - exact Hck.
  - intros id n' Hn' Hi Hh. destruct (G4 id n' Hn') as (n & Hn & _ & Hx & _).
    pose proof (iv_full _ _ HI id n Hn Hi Hh). lia.
  - intros h n' Hh Hn'. eapply stable_head; eassumption.
  - intros h n' Hh Hn'. eapply stable_empty; eassumption.
  - intros u id Hu. rewrite Hfl in Hu. destruct (iv_float _ _ HI u id Hu) as (Hi & p & Hn & Hp). split; [exact Hi |]. exists p. split; [| exact Hp].
    specialize (G3 id). rewrite Hn in G3. destruct (nodes l' !! id) as [n' |] eqn:E; [| discriminate].
    destruct (G4 id n' E) as (n & Hn' & Heq & _). rewrite (Heq Hi). congruence.
  - intros u v id. rewrite !Hfl. apply HI.
  - intros u c Hu. destruct (stable_extends _ _ _ _ _ u c HS Hu) as [Hu' | (_ & Hh & _)]; [eapply iv_extends; eassumption | exact Hh].
  - intros u v c Hu Hv. destruct (stable_extends _ _ _ _ _ u c HS Hu) as [Hu' | (<- & _ & Hno & _)],
      (stable_extends _ _ _ _ _ v c HS Hv) as [Hv' | (Ev & _ & Hno' & _)];
      [eapply iv_one; eassumption | destruct (Hno' u Hu') | destruct (Hno v Hv') | congruence].
  - intros u c i Hu. destruct (stable_claim _ _ _ _ _ u _ HS Hu) as [Hu' | (_ & Hc & Hi & _ & n' & Hn' & Hl)].
    + destruct (iv_claim _ _ HI u c i Hu') as (Hc & Hi & Hl). split; [exact Hc |]. split; [exact Hi |]. intros n' Hn'.
      destruct (G4 c n' Hn') as (n & Hn & _ & Hx & _). specialize (Hl n Hn). lia.
    + split; [exact Hc |]. split; [exact Hi |]. intros m Hm. simpl in *. congruence.
  - intros u v p Hu Hv. destruct (stable_claim _ _ _ _ _ u p HS Hu) as [Hu' | (<- & _ & _ & Hno & _)],
      (stable_claim _ _ _ _ _ v p HS Hv) as [Hv' | (Ev & _ & _ & Hno' & _)];
      [eapply iv_claims; eassumption | destruct (Hno' u Hu') | destruct (Hno v Hv') | congruence].
  - intros u. destruct (set_pc_cases t u q (threads s)) as [[<- ->] | [_ ->]]; [apply HS |].
    eapply locals_grows; [exact HG | apply HI].
Qed.

(** ** One chunk *)

(** A thread that goes on, seen from a chunk it does not change. *)
Lemma chunk_ok_stay P t q id d :
  chunk_ok P id d ->
  (forall i, claim (P t) = Some (id, i) -> claim q = Some (id, i) /\
    (forall it, item_of t i (P t) it -> item_of t i q it) /\ (counted (P t) = true -> counted q = true)) ->
  chunk_ok (set_pc t q P) id d.
Proof.
  intros [C1 C2 C3 C4 (K & C5 & C6 & C7)] Hq.
  constructor; try assumption.
  - intros i it Hit Hi. destruct (C3 i it Hit Hi) as (u & Hu & Hv). exists u.
    destruct (set_pc_cases t u q P) as [[<- ->] | [_ ->]]; [| auto]. destruct (Hq _ Hu) as (H1 & H2 & _). auto.
  - exists K. split; [exact C5 |]. split; [exact C6 |]. intros i Hi. destruct (C7 i Hi) as (H0 & u & Hu & Hc).
    split; [exact H0 |]. exists u. destruct (set_pc_cases t u q P) as [[<- ->] | [_ ->]]; [| auto].
    destruct (Hq _ Hu) as (H1 & _ & H3). auto.
Qed.

Lemma chunk_ok_put P t q id i d it' :
  chunk_ok P id d -> claim (P t) = Some (id, i) -> claim q = Some (id, i) -> 0 <= i < next_item d ->
  (forall u, claim (P u) = Some (id, i) -> t = u) -> item_of t i q it' -> (counted (P t) = true -> counted q = true) ->
  chunk_ok (set_pc t q P) id (put_item i it' d).
Proof.
  intros [C1 C2 C3 C4 (K & C5 & C6 & C7)] Ht Eq Hi Hone Hit Hcn. unfold put_item.
  constructor; cbn [items next_item freed_items].
  - rewrite length_insert. exact C1.
  - exact C2.
  - intros j jt Hj Hlt. apply list_lookup_insert_Some in Hj as [(<- & <- & _) | [Hne Hj]].
    + exists t. rewrite set_pc_eq, Z2Nat.id by lia. auto.
    + destruct (C3 j jt Hj Hlt) as (u & Hu & Hv). exists u.
      rewrite set_pc_ne; [auto |]. intros <-. rewrite Ht in Hu. injection Hu as E. lia.
  - intros j jt Hj Hlt. rewrite list_lookup_insert_ne in Hj by lia. eauto.
  - exists K. split; [exact C5 |]. split; [exact C6 |]. intros j Hj. destruct (C7 j Hj) as (H0 & u & Hu & Hc).
    split; [exact H0 |]. exists u. destruct (set_pc_cases t u q P) as [[<- ->] | [_ ->]]; [| auto].
    rewrite Ht in Hu. injection Hu as <-. auto.
Qed.

(** [next_item.fetch_add(1)] *)
Lemma chunk_ok_fetch P t q id d :
  chunk_ok P id d -> claim (P t) = None ->
  (next_item d < chunk_size -> claim q = Some (id, next_item d) /\ item_of t (next_item d) q new_item) ->
  chunk_ok (set_pc t q P) id (mkChunk (items d) (next_item d + 1) (freed_items d)).
Proof.
  intros [C1 C2 C3 C4 (K & C5 & C6 & C7)] Ht Hq.
  assert (Hne : forall u p, claim (P u) = Some p -> set_pc t q P u = P u)
    by (intros u p Hu; apply set_pc_ne; intros <-; congruence).
  constructor; cbn [items next_item freed_items].
  - exact C1.
  - lia.
  - intros i it Hit Hi. destruct (decide (Z.of_nat i = next_item d)) as [Ei | Hd].
    + apply lookup_lt_Some in Hit as Hlen. rewrite (C4 i it Hit) by lia.
      exists t. rewrite set_pc_eq, Ei. apply Hq. lia.
    + destruct (C3 i it Hit ltac:(lia)) as (u & Hu & Hv). exists u. rewrite (Hne u _ Hu). auto.
  - intros i it Hit Hi. apply (C4 i it Hit). lia.
  - exists K. split; [exact C5 |]. split; [exact C6 |]. intros i Hi. destruct (C7 i Hi) as (H0 & u & Hu & Hc).
    split; [exact H0 |]. exists u. rewrite (Hne u _ Hu). auto.
Qed.

(** [freed_items.fetch_add(1)] *)
Lemma chunk_ok_count P t q id i d :
  chunk_ok P id d -> claim (P t) = Some (id, i) -> claim q = Some (id, i) -> 0 <= i < chunk_size ->
  (forall u, claim (P u) = Some (id, i) -> t = u) -> counted (P t) = false -> counted q = true ->
  (forall it, item_of t i (P t) it -> item_of t i q it) ->
  chunk_ok (set_pc t q P) id (mkChunk (items d) (next_item d) (freed_items d + 1)).
Proof.
  intros Hc Ht Eq Hi Hone Hn Hy Hit.
  destruct (chunk_ok_stay P t q id d Hc) as [C1 C2 C3 C4 _].
  { intros j Hj. rewrite Ht in Hj. injection Hj as <-. split; [exact Eq |]. split; [exact Hit | congruence]. }
  constructor; try assumption. cbn [items next_item freed_items].
  destruct (ck_counted _ _ _ Hc) as (K & C5 & C6 & C7). exists (i :: K). split; [| split].
  - constructor; [| exact C5]. intros Hk. destruct (C7 i Hk) as (_ & u & Hu & Hcu).
    specialize (Hone u Hu) as <-. congruence.
  - simpl length. lia.
  - intros j Hj. apply elem_of_cons in Hj as [-> | Hj].
    + split; [exact Hi |]. exists t. rewrite set_pc_eq. auto.
    + destruct (C7 j Hj) as (H0 & u & Hu & Hcu). split; [exact H0 |]. exists u.
      rewrite set_pc_ne; [auto |]. intros <-. congruence.
Qed.

(** ** One step *)

Lemma claim_only p q : claim p = Some q -> floating p = None /\ extends p = None /\ forall h, comes h p = false.
Proof. destruct p; simpl; try discriminate; auto. Qed.

(** A step that changes nothing but the thread. *)
Lemma Inv_move ids s t q :
  Inv ids s -> claim q = claim (threads s t) -> floating q = floating (threads s t) ->
  extends q = extends (threads s t) ->
  (forall h n, head (store s) = Some h -> nodes (store s) !! h = Some n -> next_item (item_data n) = 0 ->
    comes h (threads s t) = true -> comes h q = true) ->
  locals (store s) ids q ->
  (forall i it, item_of t i (threads s t) it -> item_of t i q it) -> counted q = counted (threads s t) ->
  Inv ids (mkState (store s) (set_pc t q (threads s))).
Proof.
  intros HI Ec Ef Ee Hcm Hl Hit Ecn. apply Inv_stable; [exact HI | apply grows_refl | |].
  - constructor; eauto. intros h n n' _ E E'. rewrite E in E'. injection E' as <-. auto.
  - intros id n Hn Hin. destruct (iv_chunk _ _ HI id n Hn Hin) as [Hc Hd]. split; [| exact Hd].
    apply chunk_ok_stay; [exact Hc |]. intros i Hi. rewrite Ec, Ecn. eauto.
Qed.

Lemma claim_item ids s t c i :
  Inv ids s -> claim (threads s t) = Some (c, i) ->
  exists n it, nodes (store s) !! c = Some n /\ c ∈ ids /\ 0 <= i < chunk_size /\ i < next_item (item_data n) /\
    items (item_data n) !! Z.to_nat i = Some it /\ item_of t i (threads s t) it.
Proof.
  intros HI Ht. destruct (iv_claim _ _ HI t c i Ht) as (Hc & Hi & Hx).
  pose proof (path_ids _ _ _ (iv_wf _ _ HI) (iv_path _ _ HI)) as Hids. rewrite Forall_forall in Hids.
  destruct (Hids c Hc) as [[n Hn] _]. specialize (Hx n Hn). destruct (iv_chunk _ _ HI c n Hn Hc) as [C _].
  destruct (lookup_lt_is_Some_2 (items (item_data n)) (Z.to_nat i)) as [it Hit]; [pose proof (ck_length _ _ _ C); lia |].
  exists n, it. repeat (split; [assumption |]).
  destruct (ck_taken _ _ _ C (Z.to_nat i) it Hit) as (u & Hu & Hv); [lia |]. rewrite Z2Nat.id in Hu, Hv by lia.
  rewrite (iv_claims _ _ HI t u _ Ht Hu). exact Hv.
Qed.

(** A step that changes the chunk of the slot the thread has taken. *)
Lemma Inv_chunk ids s t q c i n d del :
  Inv ids s -> claim (threads s t) = Some (c, i) -> claim q = Some (c, i) -> nodes (store s) !! c = Some n ->
  next_item d = next_item (item_data n) ->
  chunk_ok (set_pc t q (threads s)) c d -> (freed_items (item_data n) = chunk_size -> freed_items d = chunk_size) ->
  (del = true -> freed_items d = chunk_size) ->
  locals (put_node c (mkCB del (prev n) d) (store s)) ids q ->
  Inv ids (mkState (put_node c (mkCB del (prev n) d) (store s)) (set_pc t q (threads s))).
Proof.
  intros HI Ht Eq Hn Ex Hck Hf Hdel Hl.
  destruct (claim_only _ _ Ht) as (F1 & F2 & F3), (claim_only _ _ Eq) as (F4 & F5 & F6).
  destruct (iv_claim _ _ HI t c i Ht) as (Hc & _).
  apply Inv_stable; [exact HI | apply grows_put with n; simpl; auto; lia | |].
  - constructor; [congruence | left; congruence | | intros h n' _ _ _ E; congruence | left; congruence | exact Hl].
    intros h m m' _ Hm Hm' Hlt. left. simpl in Hm'. destruct (decide (c = h)) as [<- | Hne].
    + rewrite lookup_insert_eq in Hm'. injection Hm' as <-. simpl in Hlt. congruence.
    + rewrite lookup_insert_ne in Hm' by exact Hne. congruence.
  - intros id m Hm Hin. simpl in Hm. destruct (decide (c = id)) as [<- | Hne].
    + rewrite lookup_insert_eq in Hm. injection Hm as <-. auto.
    + rewrite lookup_insert_ne in Hm by exact Hne. destruct (iv_chunk _ _ HI id m Hm Hin) as [C D].
      split; [| exact D]. apply chunk_ok_stay; [exact C |]. intros j Hj. congruence.
Qed.

Lemma update_item_ok l c n i it it' (f : Item T -> res (Item T)) :
  nodes l !! c = Some n -> 0 <= i -> items (item_data n) !! Z.to_nat i = Some it -> f it = Ok it' ->
  update_item (c, i) f l = Ok (put_node c (mkCB (deleted n) (prev n) (put_item i it' (item_data n))) l).
Proof.
  intros Hn Hi Hit E. unfold update_item. rewrite (read_item_ok l c n i it Hn Hi Hit). cbn [mbind res_bind].
  rewrite E. cbn [mbind res_bind]. apply write_item_ok, Hn.
Qed.

(** A step that changes the item in the slot the thread has taken. *)
Lemma Inv_slot ids s t q c i n it' :
  Inv ids s -> claim (threads s t) = Some (c, i) -> claim q = Some (c, i) -> nodes (store s) !! c = Some n ->
  item_of t i q it' -> (counted (threads s t) = true -> counted q = true) ->
  (forall l, grows ids (store s) l -> locals l ids q) ->
  Inv ids (mkState (put_node c (mkCB (deleted n) (prev n) (put_item i it' (item_data n))) (store s)) (set_pc t q (threads s))).
Proof.
  intros HI Ht Eq Hn Hit Hcn Hl. destruct (iv_claim _ _ HI t c i Ht) as (Hc & Hi & Hx). specialize (Hx n Hn).
  destruct (iv_chunk _ _ HI c n Hn Hc) as [C D].
  apply (Inv_chunk ids s t q c i n); try assumption; [reflexivity | | auto |].
  - apply chunk_ok_put; auto; [lia |]. intros u Hu. eapply iv_claims; eassumption.
  - apply Hl, grows_put with n; simpl; auto; lia.
Qed.

(** A step that changes only control blocks that are not linked. *)
Lemma Inv_off ids s t q l' :
  Inv ids s -> head l' = head (store s) -> wf l' -> (forall id, id ∈ ids -> nodes l' !! id = nodes (store s) !! id) ->
  claim (threads s t) = None -> claim q = None -> extends q = extends (threads s t) ->
  (forall h, comes h (threads s t) = false) ->
  (forall u id, t <> u -> floating (threads s u) = Some id -> nodes l' !! id = nodes (store s) !! id) ->
  (forall id n, nodes l' !! id = Some n -> is_Some (nodes (store s) !! id) /\ floating (threads s t) <> Some id \/ floating q = Some id) ->
  (forall id, floating q = Some id -> (id ∉ ids) /\ (forall u, t <> u -> floating (threads s u) <> Some id) /\
    exists p, nodes l' !! id = Some (mkCB false p new_chunk) /\ forall c, p = Some c -> c ∈ ids) ->
  locals l' ids q ->
  Inv ids (mkState l' (set_pc t q (threads s))).
Proof.
  intros HI Hh Hwf Hsame Ht Eq Ee Hcm Hother Hnodes Hq Hl.
  assert (Hcl : forall u p, claim (set_pc t q (threads s) u) = Some p -> claim (threads s u) = Some p).
  { intros u p. destruct (set_pc_cases t u q (threads s)) as [[<- ->] | [_ ->]]; [congruence | auto]. }
  assert (Hex : forall u, extends (set_pc t q (threads s) u) = extends (threads s u)).
  { intros u. destruct (set_pc_cases t u q (threads s)) as [[<- ->] | [_ ->]]; auto. }
  constructor; cbn [store threads]; rewrite ?Hh.
  - exact Hwf.
  - eapply path_local; [apply HI | exact Hsame].
  - intros id n Hn. destruct (Hnodes id n Hn) as [[[n0 Hn0] Hne] | E]; [| right; exists t; rewrite set_pc_eq; exact E].
    destruct (iv_nodes _ _ HI id n0 Hn0) as [| [u Hu]]; [auto |]. right. exists u.
    rewrite set_pc_ne; [exact Hu | congruence].
  - intros id n Hn Hin. rewrite Hsame in Hn by exact Hin. destruct (iv_chunk _ _ HI id n Hn Hin) as [C D].
    split; [| exact D]. apply chunk_ok_stay; [exact C |]. congruence.
  - intros id n Hn Hin. rewrite Hsame in Hn by exact Hin. eapply iv_full; eassumption.
  - intros h n Eh Hn. rewrite Hsame in Hn by (apply (path_head_in (store s)); rewrite <- Eh; apply HI).
    rewrite (iv_head _ _ HI h n Eh Hn). split; intros [u Hu]; exists u; [rewrite Hex | rewrite Hex in Hu]; exact Hu.
  - intros h n Eh Hn E0. rewrite Hsame in Hn by (apply (path_head_in (store s)); rewrite <- Eh; apply HI).
    destruct (iv_empty _ _ HI h n Eh Hn E0) as [| [u Hu]]; [auto |]. right. exists u.
    rewrite set_pc_ne; [exact Hu |]. intros <-. rewrite Hcm in Hu. discriminate.
  - intros u id. destruct (set_pc_cases t u q (threads s)) as [[<- ->] | [Hne ->]]; intros E.
    + destruct (Hq id E) as (H1 & _ & H2). auto.
    + rewrite (Hother u id Hne E). eapply iv_float; eassumption.
  - intros u v id. destruct (set_pc_cases t u q (threads s)) as [[<- ->] | [Hu ->]],
      (set_pc_cases t v q (threads s)) as [[<- ->] | [Hv ->]]; intros E E'; [reflexivity | | | eapply iv_floats; eassumption].
    + destruct (Hq id E) as (_ & H2 & _). destruct (H2 v Hv E').
    + destruct (Hq id E') as (_ & H2 & _). destruct (H2 u Hu E).
  - intros u c. rewrite Hex. eapply iv_extends, HI.
  - intros u v c. rewrite !Hex. eapply iv_one, HI.
  - intros u c i Hu. destruct (iv_claim _ _ HI u c i (Hcl u _ Hu)) as (H1 & H2 & H3). rewrite (Hsame c H1). auto.
  - intros u v p Hu Hv. eapply iv_claims; eauto.
  - intros u. destruct (set_pc_cases t u q (threads s)) as [[<- ->] | [Hne ->]]; [exact Hl |].
    pose proof (iv_locals _ _ HI u) as Hlu. specialize (Hother u). destruct (threads s u) eqn:Eu; simpl in *; auto.
    + rewrite (Hother _ Hne eq_refl). exact Hlu.
    + rewrite (Hother _ Hne eq_refl). exact Hlu.
    + destruct Hlu as ((c & i) & -> & Hf). exists (c, i). split; [reflexivity |]. simpl in *.
      destruct (iv_claim _ _ HI u c i) as (H1 & _); [rewrite Eu; reflexivity |]. rewrite Hsame by exact H1. exact Hf.
Qed.

Lemma ids_node ids s id : Inv ids s -> id ∈ ids -> exists n, nodes (store s) !! id = Some n /\ (id < next_id (store s))%nat.
Proof.
  intros HI Hin. pose proof (path_ids _ _ _ (iv_wf _ _ HI) (iv_path _ _ HI)) as Hids. rewrite Forall_forall in Hids.
  destruct (Hids id Hin) as [[n Hn] Hlt]. eauto.
Qed.

Lemma wf_make_node (d : Chunk T) l : wf l -> wf (snd (make_node d l)).
Proof.
  intros [W1 W2]. constructor; cbn [make_node snd nodes head next_id].
  - intros id n Hn. destruct (decide (next_id l = id)) as [<- | Hne].
    + rewrite lookup_insert_eq in Hn. injection Hn as <-. split; [lia | discriminate].
    + rewrite lookup_insert_ne in Hn by exact Hne. destruct (W1 id n Hn) as [H1 H2]. split; [lia |].
      intros p Hp. destruct (H2 p Hp) as [H3 [m Hm]]. split; [exact H3 |].
      destruct (W1 p m Hm). rewrite lookup_insert_ne by lia. eauto.
  - intros h Hh. destruct (W2 h Hh) as [m Hm]. destruct (W1 h m Hm). rewrite lookup_insert_ne by lia. eauto.
Qed.

Lemma run_allocate ids s t c :
  Inv ids s -> threads s t = Allocate c ->
  let '(id, l) := make_node new_chunk (store s) in
  let q := match c with None => TryFirst id | Some c => LoadHead c id end in
  run t s = Ok (mkState l (set_pc t q (threads s))) /\ Inv ids (mkState l (set_pc t q (threads s))).
Proof.
  intros HI Et. set (q := match c with None => TryFirst (next_id (store s)) | Some c => LoadHead c (next_id (store s)) end).
  cbn [make_node]. split; [unfold run; rewrite Et; reflexivity |].
  assert (Hfresh : forall id, is_Some (nodes (store s) !! id) -> next_id (store s) <> id)
    by (intros id [n Hn] <-; destruct (wf_prev _ (iv_wf _ _ HI) _ n Hn); lia).
  apply Inv_off; try exact HI; rewrite ?Et; try reflexivity.
  - apply (wf_make_node new_chunk), HI.
  - intros id Hin. destruct (ids_node _ _ id HI Hin) as (n & Hn & _). apply lookup_insert_ne, Hfresh. eauto.
  - unfold q. destruct c; reflexivity.
  - unfold q. destruct c; reflexivity.
  - intros u id _ Hu. destruct (iv_float _ _ HI u id Hu) as (_ & p & Hn & _). apply lookup_insert_ne, Hfresh. eauto.
  - intros id n Hn. cbn [nodes] in Hn. destruct (decide (next_id (store s) = id)) as [<- | Hne]; [right; destruct c; reflexivity |]. left.
    rewrite lookup_insert_ne in Hn by exact Hne. split; [eauto | discriminate].
  - intros id E. assert (next_id (store s) = id) as <- by (destruct c; simpl in E; congruence). split; [| split].
    + intros Hin. destruct (ids_node _ _ _ HI Hin) as (n & Hn & _). apply (Hfresh (next_id (store s))); eauto.
    + intros u _ Hu. destruct (iv_float _ _ HI u _ Hu) as (_ & p & Hn & _). apply (Hfresh (next_id (store s))); eauto.
    + exists None. split; [apply lookup_insert_eq | discriminate].
  - unfold q. destruct c as [c |]; simpl; [| rewrite lookup_insert_eq; reflexivity].
    destruct (ids_node ids s c HI) as (n & _ & Hlt); [| exact Hlt]. apply (path_head_in (store s)).
    rewrite <- (iv_extends _ _ HI t c); [apply HI | rewrite Et; reflexivity].
Qed.

Lemma float_node ids s t id : Inv ids s -> floating (threads s t) = Some id ->
  (id ∉ ids) /\ (forall u, t <> u -> floating (threads s u) <> Some id) /\
  exists p, nodes (store s) !! id = Some (mkCB false p new_chunk) /\ forall c, p = Some c -> c ∈ ids.
Proof.
  intros HI Ht. destruct (iv_float _ _ HI t id Ht) as (H1 & H2). split; [exact H1 |]. split; [| exact H2].
  intros u Hne Hu. destruct Hne. eapply iv_floats; eassumption.
Qed.

Lemma extends_head ids s t c : Inv ids s -> extends (threads s t) = Some c -> head (store s) = Some c /\ c ∈ ids.
Proof.
  intros HI Ht. pose proof (iv_extends _ _ HI t c Ht) as Hh. split; [exact Hh |].
  apply (path_head_in (store s)). rewrite <- Hh. apply HI.
Qed.

Lemma run_store_prev ids s t c id old :
  Inv ids s -> threads s t = StorePrev c id old ->
  let s' := mkState (put_node id (mkCB false (Some c) new_chunk) (store s)) (set_pc t (CasHead c id old) (threads s)) in
  run t s = Ok s' /\ Inv ids s'.
Proof.
  intros HI Et. pose proof (iv_locals _ _ HI t) as Hl. rewrite Et in Hl. destruct Hl as [Hlt ->].
  destruct (float_node ids s t id HI) as (Hid & Huniq & p & Hn & Hp); [rewrite Et; reflexivity |].
  destruct (extends_head ids s t c HI) as [Hh Hc]; [rewrite Et; reflexivity |].
  destruct (ids_node ids s c HI Hc) as (n & Hcn & _).
  cbn zeta. split; [unfold run, set_prev, get_node; rewrite Et, Hn; reflexivity |].
  apply Inv_off; try exact HI; rewrite ?Et; try reflexivity.
  - apply wf_put; [apply HI | eauto |]. simpl. intros q E. injection E as <-. eauto.
  - intros j Hj. apply lookup_insert_ne. congruence.
  - intros u j Hne Hu. apply lookup_insert_ne. intros <-. destruct (Huniq u Hne Hu).
  - intros j m Hm. simpl in Hm. destruct (decide (id = j)) as [<- | Hne]; [right; reflexivity |]. left.
    rewrite lookup_insert_ne in Hm by exact Hne. split; [eauto |]. simpl. congruence.
  - intros j E. injection E as <-. split; [exact Hid |]. split; [exact Huniq |]. exists (Some c).
    split; [apply lookup_insert_eq |]. intros d E. injection E as <-. exact Hc.
  - simpl. rewrite lookup_insert_eq. auto.
Qed.

Lemma path_closed l o ids id n p : path l o ids -> id ∈ ids -> nodes l !! id = Some n -> prev n = Some p -> p ∈ ids.
Proof.
  intros H. induction H as [| j m ids Hm H IH]; intros Hin Hn Hp; [inversion Hin |].
  apply elem_of_cons in Hin as [-> | Hin]; [| right; eauto]. right.
  assert (m = n) as -> by congruence. rewrite Hp in H. eapply path_head_in, H.
Qed.

(** Nothing points to a control block that is not linked. *)
Lemma unlinked_prev ids s id j n : Inv ids s -> id ∉ ids -> nodes (store s) !! j = Some n -> prev n <> Some id.
Proof.
  intros HI Hid Hn E. destruct (iv_nodes _ _ HI j n Hn) as [Hj | [u Hu]].
  - apply Hid. eapply path_closed; [apply HI | exact Hj | exact Hn | exact E].
  - destruct (iv_float _ _ HI u j Hu) as (_ & p & Hn' & Hp). rewrite Hn in Hn'. injection Hn' as ->. auto.
Qed.

Lemma run_discard ids s t id h :
  Inv ids s -> threads s t = TryFirst id -> head (store s) = Some h ->
  let s' := mkState (discard id (store s)) (set_pc t Load (threads s)) in
  run t s = Ok s' /\ Inv ids s'.
Proof.
  intros HI Et Eh. destruct (float_node ids s t id HI) as (Hid & Huniq & p & Hn & Hp); [rewrite Et; reflexivity |].
  cbn zeta. split; [unfold run, try_append_first_item; rewrite Et, Eh; reflexivity |].
  assert (Hin : h ∈ ids) by (apply (path_head_in (store s)); rewrite <- Eh; apply HI).
  apply Inv_off; try exact HI; rewrite ?Et; try reflexivity.
  - pose proof (iv_wf _ _ HI) as [W1 W2]. constructor; cbn [discard nodes head next_id].
    + intros j m Hm. apply lookup_delete_Some in Hm as [Hne Hm]. destruct (W1 j m Hm) as [H1 H2]. split; [exact H1 |].
      intros q Hq. destruct (H2 q Hq) as [H3 H4]. split; [exact H3 |]. rewrite lookup_delete_ne; [exact H4 |].
      intros <-. eapply unlinked_prev; eassumption.
    + intros g Hg. rewrite lookup_delete_ne by congruence. auto.
  - intros j Hj. apply lookup_delete_ne. congruence.
  - intros u j Hne Hu. apply lookup_delete_ne. intros <-. destruct (Huniq u Hne Hu).
  - intros j m Hm. cbn [discard nodes] in Hm. apply lookup_delete_Some in Hm as [Hne Hm]. left. split; [eauto |]. simpl. congruence.
  - discriminate.
Qed.

Lemma chunk_ok_new P id : chunk_ok P id new_chunk.
Proof.
  pose proof good_size. constructor; simpl.
  - rewrite length_replicate. lia.
  - lia.
  - lia.
  - intros i it Hit _. apply lookup_replicate in Hit as [-> _]. reflexivity.
  - exists []. split; [constructor |]. split; [reflexivity |]. intros i Hi. inversion Hi.
Qed.

(** A new chunk is linked in front of the others. *)
Lemma Inv_link ids s t id :
  Inv ids s -> floating (threads s t) = Some id -> claim (threads s t) = None ->
  extends (threads s t) = head (store s) -> (prev <$> nodes (store s) !! id) = Some (head (store s)) ->
  Inv (id :: ids) (mkState (mkList (nodes (store s)) (Some id) (next_id (store s))) (set_pc t Load (threads s))).
Proof.
  intros HI Hf Ht Ee Hpr. destruct (float_node ids s t id HI Hf) as (Hid & Huniq & p & Hn & Hp).
  assert (Hall : forall u c, extends (set_pc t Load (threads s) u) = Some c -> False).
  { intros u c. destruct (set_pc_cases t u Load (threads s)) as [[<- ->] | [Hne ->]]; [discriminate |]. intros E.
    apply Hne. eapply iv_one; [exact HI | | exact E]. rewrite Ee. eapply iv_extends; eassumption. }
  assert (Hcl : forall u p, claim (set_pc t Load (threads s) u) = Some p -> claim (threads s u) = Some p).
  { intros u q. destruct (set_pc_cases t u Load (threads s)) as [[<- ->] | [_ ->]]; [discriminate | auto]. }
  assert (Hfl : forall u j, floating (set_pc t Load (threads s) u) = Some j -> floating (threads s u) = Some j /\ id <> j).
  { intros u j. destruct (set_pc_cases t u Load (threads s)) as [[<- ->] | [Hne ->]]; [discriminate |].
    intros E. split; [exact E |]. intros <-. destruct (Huniq u Hne E). }
  constructor; cbn [store threads nodes head next_id].
  - pose proof (iv_wf _ _ HI) as [W1 W2]. constructor; [exact W1 |]. cbn [head nodes]. intros h E. injection E as <-. eauto.
  - rewrite Hn in Hpr. simpl in Hpr. econstructor; [exact Hn |]. simpl. replace p with (head (store s)) by congruence.
    eapply path_same_prev; [apply HI | reflexivity].
  - intros j n Hj. destruct (iv_nodes _ _ HI j n Hj) as [Hin | [u Hu]]; [left; right; exact Hin |].
    destruct (decide (id = j)) as [<- | Hne]; [left; left |]. right. exists u. rewrite set_pc_ne; [exact Hu | congruence].
  - intros j n Hj Hin. apply elem_of_cons in Hin as [-> | Hin].
    + assert (n = mkCB false p new_chunk) as -> by congruence. split; [apply chunk_ok_new | discriminate].
    + destruct (iv_chunk _ _ HI j n Hj Hin) as [C D]. split; [| exact D].
      apply chunk_ok_stay; [exact C |]. congruence.
  - intros j n Hj Hin Hne. apply elem_of_cons in Hin as [-> | Hin]; [congruence |].
    destruct (decide (head (store s) = Some j)) as [Eh | Hh]; [| eapply iv_full; eassumption].
    apply (iv_head _ _ HI j n Eh Hj). exists t. congruence.
  - intros h n E Hh. injection E as <-. rewrite Hn in Hh. injection Hh as <-. simpl. pose proof good_size.
    split; [lia |]. intros [u Hu]. destruct (Hall u _ Hu).
  - intros h n E Hh _. injection E as <-. right. exists t. rewrite set_pc_eq. reflexivity.
  - intros u j Hu. apply Hfl in Hu as [Hu Hne]. destruct (iv_float _ _ HI u j Hu) as (H1 & q & H2 & H3).
    split; [rewrite elem_of_cons; intros [-> |]; congruence |]. exists q. split; [exact H2 |]. intros c Hc. right. auto.
  - intros u v j Hu Hv. apply Hfl in Hu as [Hu _], Hv as [Hv _]. eapply iv_floats; eassumption.
  - intros u c Hu. destruct (Hall u c Hu).
  - intros u v c Hu. destruct (Hall u c Hu).
  - intros u c i Hu. destruct (iv_claim _ _ HI u c i (Hcl u _ Hu)) as (H1 & H2 & H3). split; [right; exact H1 | auto].
  - intros u v q Hu Hv. eapply iv_claims; eauto.
  - intros u. destruct (set_pc_cases t u Load (threads s)) as [[<- ->] | [_ ->]]; [exact I |].
    pose proof (iv_locals _ _ HI u) as Hl. destruct (threads s u); simpl in *; auto; right; exact Hl.
Qed.

(** The chunk [n] after [next_item.fetch_add(1)], and where that leads. *)
Definition fetched (n : ItemControlBlock (Chunk T)) : ItemControlBlock (Chunk T) :=
  mkCB (deleted n) (prev n) (mkChunk (items (item_data n)) (next_item (item_data n) + 1) (freed_items (item_data n))).

Definition fetch_to (c : nat) (next : Z) : pc :=
  if next <? chunk_size then Assign c next else if next =? chunk_size then Allocate (Some c) else Load.

Lemma fetch_to_cases c next :
  next < chunk_size /\ fetch_to c next = Assign c next \/
  next = chunk_size /\ fetch_to c next = Allocate (Some c) \/ chunk_size < next /\ fetch_to c next = Load.
Proof.
  unfold fetch_to. destruct (Z.ltb_spec next chunk_size); [auto |].
  destruct (Z.eqb_spec next chunk_size); [auto |]. right. right. split; [lia | reflexivity].
Qed.

Lemma fetch_stable ids s t c n :
  Inv ids s -> threads s t = Fetch c -> nodes (store s) !! c = Some n -> c ∈ ids ->
  stable ids s t (fetch_to c (next_item (item_data n))) (put_node c (fetched n) (store s)).
Proof.
  intros HI Et Hn Hc. pose proof (ck_next _ _ _ (proj1 (iv_chunk _ _ HI c n Hn Hc))) as Hpos. pose proof good_size as Hg.
  assert (Hlook : nodes (put_node c (fetched n) (store s)) !! c = Some (fetched n)) by apply lookup_insert_eq.
  destruct (fetch_to_cases c (next_item (item_data n))) as [[Hx ->] | [[Hx ->] | [Hx ->]]]; constructor; rewrite ?Et; try reflexivity; auto.
  - intros h m m' _ Hm Hm' Hlt. left. destruct (decide (c = h)) as [<- | Hne].
    + rewrite Hlook in Hm'. injection Hm' as <-. simpl in Hlt. lia.
    + simpl in Hm'. rewrite lookup_insert_ne in Hm' by exact Hne. congruence.
  - intros h n' Eh Hn' E0 Hcm. simpl in Hcm. apply bool_decide_eq_true in Hcm as ->.
    rewrite Hlook in Hn'. injection Hn' as <-. simpl in E0. lia.
  - right. exists c, (next_item (item_data n)), (fetched n). split; [reflexivity |]. split; [exact Hc |]. split; [lia |].
    split; [exact Hlook |]. split; [simpl; lia |]. intros u Hu.
    destruct (iv_claim _ _ HI u c _ Hu) as (_ & _ & H). specialize (H n Hn). lia.
  - right. exists c, (fetched n). split; [reflexivity |].
    assert (Eh : head (store s) = Some c).
    { destruct (decide (head (store s) = Some c)) as [| Hh]; [assumption |]. pose proof (iv_full _ _ HI c n Hn Hc Hh). lia. }
    split; [exact Eh |]. split; [| split; [exact Hlook | simpl; lia]]. intros u Hu.
    enough (chunk_size < next_item (item_data n)) by lia. apply (iv_head _ _ HI c n Eh Hn). eauto.
  - intros h m m' _ Hm Hm' Hlt. destruct (decide (c = h)) as [<- | Hne]; [right; reflexivity | left].
    simpl in Hm'. rewrite lookup_insert_ne in Hm' by exact Hne. congruence.
  - intros h n' Eh Hn' E0 Hcm. simpl in Hcm. apply bool_decide_eq_true in Hcm as ->.
    rewrite Hlook in Hn'. injection Hn' as <-. simpl in E0. lia.
  - intros h m m' _ Hm Hm' Hlt. left. simpl in Hm'. destruct (decide (c = h)) as [<- | Hne]; [congruence |].
    rewrite lookup_insert_ne in Hm' by exact Hne. congruence.
Qed.

Lemma run_fetch ids s t c n :
  Inv ids s -> threads s t = Fetch c -> nodes (store s) !! c = Some n ->
  let s' := mkState (put_node c (fetched n) (store s)) (set_pc t (fetch_to c (next_item (item_data n))) (threads s)) in
  run t s = Ok s' /\ Inv ids s'.
Proof.
  intros HI Et Hn s'. pose proof (iv_locals _ _ HI t) as Hc. rewrite Et in Hc. simpl in Hc.
  split; [unfold run; rewrite Et, (get_ok _ _ _ Hn); cbn [mbind res_bind]; rewrite (set_data_ok _ _ _ _ Hn); reflexivity |].
  destruct (iv_chunk _ _ HI c n Hn Hc) as [C D].
  apply Inv_stable; [exact HI | apply grows_put with n; simpl; auto; lia | apply fetch_stable; assumption |].
  intros id m Hm Hin. simpl in Hm. destruct (decide (c = id)) as [<- | Hne].
  - rewrite lookup_insert_eq in Hm. injection Hm as <-. split; [| exact D]. apply chunk_ok_fetch; [exact C | rewrite Et; reflexivity |].
    intros Hl. destruct (fetch_to_cases c (next_item (item_data n))) as [[_ ->] | [[Hx _] | [Hx _]]]; [split; reflexivity | lia | lia].
  - rewrite lookup_insert_ne in Hm by exact Hne. destruct (iv_chunk _ _ HI id m Hm Hin) as [C' D'].
    split; [| exact D']. apply chunk_ok_stay; [exact C' |]. rewrite Et. discriminate.
Qed.

(** The slot of a thread at [p] whose item becomes [f] of it. *)
Lemma run_item ids s t q c i it' (f : Item T -> res (Item T)) :
  Inv ids s -> claim (threads s t) = Some (c, i) -> claim q = Some (c, i) ->
  (forall it, item_of t i (threads s t) it -> f it = Ok (it' it) /\ item_of t i q (it' it)) ->
  (counted (threads s t) = true -> counted q = true) -> (forall l, grows ids (store s) l -> locals l ids q) ->
  exists l', update_item (c, i) f (store s) = Ok l' /\ Inv ids (mkState l' (set_pc t q (threads s))).
Proof.
  intros HI Ht Eq Hf Hcn Hl. destruct (claim_item ids s t c i HI Ht) as (n & it & Hn & Hc & Hi & Hx & Hit & Hv).
  destruct (Hf it Hv) as [E Hv']. eexists. split; [apply (update_item_ok _ c n i it (it' it)); auto; lia |].
  apply (Inv_slot ids s t q c i n (it' it)); assumption.
Qed.

(** All slots of a chunk whose [freed_items] is full have been taken and removed. *)
Lemma chunk_all_counted P id d : chunk_ok P id d -> freed_items d = chunk_size ->
  forall i, 0 <= i < chunk_size -> exists u, claim (P u) = Some (id, i) /\ counted (P u) = true.
Proof.
  intros C E i Hi. destruct (ck_counted _ _ _ C) as (K & K1 & K2 & K3). apply K3.
  assert (Hs : K ⊆+ zrange 0 chunk_size).
  { apply NoDup_submseteq; [exact K1 |]. intros j Hj. apply elem_of_zrange. destruct (K3 j Hj) as [H _]. exact H. }
  assert (Hl : (length (zrange 0 chunk_size) <= length K)%nat) by (unfold zrange; rewrite length_fmap, length_seq; pose proof good_size; lia).
  rewrite (submseteq_length_Permutation _ _ Hs Hl). apply elem_of_zrange, Hi.
Qed.

Lemma run_freed ids s t c i :
  Inv ids s -> threads s t = Freed (at_pos (c, i)) ->
  exists q l', (q = EraseChunk (at_pos (c, i)) \/ q = Drop (at_pos (c, i))) /\
    run t s = Ok (mkState l' (set_pc t q (threads s))) /\ Inv ids (mkState l' (set_pc t q (threads s))).
Proof.
  intros HI Et. assert (Ht : claim (threads s t) = Some (c, i)) by (rewrite Et; reflexivity).
  destruct (claim_item ids s t c i HI Ht) as (n & it & Hn & Hc & Hi & Hx & Hit & Hv).
  destruct (iv_chunk _ _ HI c n Hn Hc) as [C D].
  set (q := if freed_items (item_data n) =? chunk_size - 1 then EraseChunk (at_pos (c, i)) else Drop (at_pos (c, i))).
  assert (Hone : forall u, claim (threads s u) = Some (c, i) -> t = u) by (intros u Hu; eapply iv_claims; eassumption).
  assert (Hnot : freed_items (item_data n) <> chunk_size).
  { intros E. destruct (chunk_all_counted _ _ _ C E i Hi) as (u & Hu & Hcu). specialize (Hone u Hu) as <-.
    rewrite Et in Hcu. discriminate. }
  exists q. eexists. split; [unfold q; destruct (_ =? _); auto |]. split.
  - unfold run. rewrite Et. cbn [at_pos ia_chunk fst snd deref mbind res_bind].
    rewrite (get_ok _ _ _ Hn). cbn [mbind res_bind]. rewrite (set_data_ok _ _ _ _ Hn). reflexivity.
  - assert (Eq : claim q = Some (c, i)) by (unfold q; destruct (_ =? _); reflexivity).
    apply (Inv_chunk ids s t q c i n); try assumption; cbn [next_item freed_items]; [reflexivity | | congruence | intros Hd; specialize (D Hd); congruence |].
    + eapply chunk_ok_count; try eassumption; [rewrite Et; reflexivity | unfold q; destruct (_ =? _); reflexivity |].
      intros jt. rewrite Et. unfold q. destruct (_ =? _); auto.
    + unfold q. destruct (Z.eqb_spec (freed_items (item_data n)) (chunk_size - 1)) as [E |]; [| simpl; eauto].
      exists (c, i). split; [reflexivity |]. intros m Hm. simpl in Hm. rewrite lookup_insert_eq in Hm. injection Hm as <-. simpl. lia.
Qed.

Lemma run_erase ids s t c i :
  Inv ids s -> threads s t = EraseChunk (at_pos (c, i)) ->
  exists l', run t s = Ok (mkState l' (set_pc t (Drop (at_pos (c, i))) (threads s))) /\
    Inv ids (mkState l' (set_pc t (Drop (at_pos (c, i))) (threads s))).
Proof.
  intros HI Et. assert (Ht : claim (threads s t) = Some (c, i)) by (rewrite Et; reflexivity).
  destruct (claim_item ids s t c i HI Ht) as (n & it & Hn & Hc & Hi & Hx & Hit & Hv).
  destruct (iv_chunk _ _ HI c n Hn Hc) as [C D].
  pose proof (iv_locals _ _ HI t) as Hl. rewrite Et in Hl. destruct Hl as ([c' i'] & Ep & Hf).
  injection Ep as <- <-. simpl in Hf. specialize (Hf n Hn).
  eexists. split; [unfold run; rewrite Et; cbn [at_pos ia_chunk fst]; rewrite (erase_spec _ _ _ Hn); reflexivity |].
  apply (Inv_chunk ids s t _ c i n); auto; [| simpl; eauto].
  apply chunk_ok_stay; [exact C |]. intros j Hj. rewrite Ht in Hj. injection Hj as <-. rewrite Et. simpl. auto.
Qed.

Lemma location_pos c i : 0 <= i < chunk_size -> location (at_pos (c, i)) = Ok (c, i).
Proof. apply location_at. Qed.

Lemma valid_pos c i : 0 <= i < chunk_size -> is_valid_idx (at_pos (c, i)) = true.
Proof. apply valid_idx_at. Qed.

(** The iterator that [push] returns holds the new item. *)
Lemma access_ok l c n i it :
  nodes l !! c = Some n -> 0 <= i < chunk_size -> items (item_data n) !! Z.to_nat i = Some it ->
  iter_offset it = 0 -> refcount it = 0 ->
  make_access (Some c) (Some i) l = Ok (at_pos (c, i),
    put_node c (mkCB (deleted n) (prev n) (put_item i (mkItem (storage it) 0 1) (item_data n))) l).
Proof.
  intros Hn Hi Hit Ho Hr. unfold make_access, acquire_fuel. cbn [acquire_next_item]. rewrite (valid_idx_at c i _ Hi).
  unfold try_acquire. rewrite (valid_idx_at c i _ Hi), (location_at c i _ Hi). cbn [mbind res_bind].
  rewrite (read_item_ok l c n i it Hn ltac:(lia) Hit). cbn [mbind res_bind].
  unfold item_acquire. rewrite Ho, Hr. cbn. rewrite (write_item_ok l c n i _ Hn). reflexivity.
Qed.

(** Steps of [run_item] with [f]: the item becomes [g] of it. *)
Ltac by_item f g HI Ht Et Hi :=
  match goal with |- exists l', run ?t ?s = Ok (mkState _ (set_pc _ ?q _)) /\ Inv ?ids _ =>
    let l' := fresh "l'" in let E := fresh "E" in let HI' := fresh "HI'" in
    edestruct (run_item ids s t q _ _ g f HI Ht) as (l' & E & HI');
      [reflexivity | rewrite Et | rewrite Et; auto; discriminate | simpl; eauto |
       exists l'; split; [unfold run; rewrite Et, ?(location_pos _ _ Hi);
         cbn [mbind res_bind]; rewrite E; reflexivity | exact HI']]
  end.

Lemma run_assign ids s t c i : Inv ids s -> threads s t = Assign c i ->
  exists l', run t s = Ok (mkState l' (set_pc t (Publish c i) (threads s))) /\ Inv ids (mkState l' (set_pc t (Publish c i) (threads s))).
Proof.
  intros HI Et. assert (Ht : claim (threads s t) = Some (c, i)) by (rewrite Et; reflexivity).
  destruct (iv_claim _ _ HI t c i Ht) as (_ & Hi & _).
  by_item (assign_value (value t)) (fun _ : Item T => mkItem (Some (value t)) 1 0) HI Ht Et Hi.
  intros it ->. split; reflexivity.
Qed.

Lemma run_publish ids s t c i : Inv ids s -> threads s t = Publish c i ->
  exists l', run t s = Ok (mkState l' (set_pc t (Access c i) (threads s))) /\ Inv ids (mkState l' (set_pc t (Access c i) (threads s))).
Proof.
  intros HI Et. assert (Ht : claim (threads s t) = Some (c, i)) by (rewrite Et; reflexivity).
  destruct (iv_claim _ _ HI t c i Ht) as (_ & Hi & _).
  by_item (set_offset 0) (fun it : Item T => mkItem (storage it) 0 (refcount it)) HI Ht Et Hi.
  intros it ->. split; reflexivity.
Qed.

Lemma run_access ids s t c i : Inv ids s -> threads s t = Access c i ->
  exists l', run t s = Ok (mkState l' (set_pc t (Pushed (at_pos (c, i))) (threads s))) /\
    Inv ids (mkState l' (set_pc t (Pushed (at_pos (c, i))) (threads s))).
Proof.
  intros HI Et. assert (Ht : claim (threads s t) = Some (c, i)) by (rewrite Et; reflexivity).
  destruct (claim_item ids s t c i HI Ht) as (n & it & Hn & Hc & Hi & Hx & Hit & Hv). rewrite Et in Hv. simpl in Hv. subst it.
  eexists. split; [unfold run; rewrite Et, (access_ok _ c n i _ Hn Hi Hit eq_refl eq_refl); reflexivity |].
  apply (Inv_slot ids s t _ c i n _ HI Ht); [reflexivity | exact Hn | reflexivity | rewrite Et; discriminate | simpl; eauto].
Qed.

(** The steps of [remove] that write the item, and dropping the iterator. *)
Lemma run_skip ids s t c i off : Inv ids s -> threads s t = Skip (at_pos (c, i)) off ->
  exists l', run t s = Ok (mkState l' (set_pc t (Release (at_pos (c, i))) (threads s))) /\
    Inv ids (mkState l' (set_pc t (Release (at_pos (c, i))) (threads s))).
Proof.
  intros HI Et. assert (Ht : claim (threads s t) = Some (c, i)) by (rewrite Et; reflexivity).
  destruct (iv_claim _ _ HI t c i Ht) as (_ & Hi & _).
  pose proof (iv_locals _ _ HI t) as Hl. rewrite Et in Hl. destruct Hl as ([c' i'] & Ep & Ho). injection Ep as <- <-. simpl in Ho.
  by_item (set_offset off) (fun it : Item T => mkItem (storage it) off (refcount it)) HI Ht Et Hi.
  intros it ->. split; [reflexivity | simpl; eauto].
Qed.

Lemma run_release ids s t c i : Inv ids s -> threads s t = Release (at_pos (c, i)) ->
  exists l', run t s = Ok (mkState l' (set_pc t (Freed (at_pos (c, i))) (threads s))) /\
    Inv ids (mkState l' (set_pc t (Freed (at_pos (c, i))) (threads s))).
Proof.
  intros HI Et. assert (Ht : claim (threads s t) = Some (c, i)) by (rewrite Et; reflexivity).
  destruct (iv_claim _ _ HI t c i Ht) as (_ & Hi & _).
  by_item (@item_release T true) (fun it : Item T => mkItem (storage it) (iter_offset it) 0) HI Ht Et Hi.
  intros it (o & Ho & ->). split; [reflexivity | simpl; eauto].
Qed.

Lemma run_drop ids s t c i : Inv ids s -> threads s t = Drop (at_pos (c, i)) ->
  let q := Removed (mkAccess (Some c) (Some i) false) in
  exists l', run t s = Ok (mkState l' (set_pc t q (threads s))) /\ Inv ids (mkState l' (set_pc t q (threads s))).
Proof.
  intros HI Et q. assert (Ht : claim (threads s t) = Some (c, i)) by (rewrite Et; reflexivity).
  destruct (iv_claim _ _ HI t c i Ht) as (_ & Hi & _).
  destruct (run_item ids s t q c i (fun it : Item T => mkItem None (iter_offset it) (-1)) (item_release true) HI Ht)
    as (l' & E & HI'); [reflexivity | rewrite Et | auto | simpl; auto |].
  - intros it (o & Ho & ->). split; [reflexivity | simpl; eauto].
  - exists l'. split; [| exact HI']. unfold run, ChunkedList.release. rewrite Et.
    cbn [at_pos ia_has]. change (unset_item (at_pos (c, i))) with (mkAccess (Some c) (Some i) false).
    rewrite (location_at c i _ Hi). cbn [mbind res_bind]. unfold update_item in E.
    destruct (read_item (c, i) (store s)) as [it |]; [| discriminate E]. cbn [mbind res_bind] in *.
    destruct (item_release true it) as [it' |]; [| discriminate E]. cbn [mbind res_bind] in *. rewrite E. reflexivity.
Qed.

Lemma item_of_offset t i p it : item_of t i p it -> 0 <= i -> 0 <= iter_offset it <= i + 1.
Proof.
  destruct p; simpl; try contradiction; try (intros -> ?; simpl; lia); intros (off & Ho & ->) _; simpl; unfold offset_ok in Ho; lia.
Qed.

(** What [remove] stores leads past no slot of another chunk. *)
Lemma run_distance ids s t c i : Inv ids s -> threads s t = Distance (at_pos (c, i)) ->
  exists off, run t s = Ok (mkState (store s) (set_pc t (Skip (at_pos (c, i)) off) (threads s))) /\
    Inv ids (mkState (store s) (set_pc t (Skip (at_pos (c, i)) off) (threads s))).
Proof.
  intros HI Et. assert (Ht : claim (threads s t) = Some (c, i)) by (rewrite Et; reflexivity).
  destruct (claim_item ids s t c i HI Ht) as (n & it & Hn & Hc & Hi & Hx & Hit & Hv). pose proof good_size as Hg.
  assert (Hoff : exists off, offset_ok i off /\
    (if i =? 0 then Ok 1 else p ← read_item (c, i - 1) (store s); Ok (u16 (iter_offset p + 1))) = Ok off).
  { destruct (Z.eqb_spec i 0) as [-> | Hne]; [exists 1; split; [unfold offset_ok; lia | reflexivity] |].
    destruct (iv_chunk _ _ HI c n Hn Hc) as [C _].
    destruct (lookup_lt_is_Some_2 (items (item_data n)) (Z.to_nat (i - 1))) as [jt Hj]; [pose proof (ck_length _ _ _ C); lia |].
    rewrite (read_item_ok _ c n (i - 1) jt Hn ltac:(lia) Hj). cbn [mbind res_bind].
    destruct (ck_taken _ _ _ C (Z.to_nat (i - 1)) jt Hj ltac:(lia)) as (u & _ & Hu). apply item_of_offset in Hu; [| lia].
    exists (iter_offset jt + 1). rewrite wrap_small by lia. split; [unfold offset_ok; lia | reflexivity]. }
  destruct Hoff as (off & Ho & E). exists off. split.
  - unfold run. rewrite Et, (location_pos c i Hi). cbn [mbind res_bind].
    destruct (if i =? 0 then _ else _) as [off' |] eqn:E'; [| congruence].
    assert (off' = off) as -> by congruence. reflexivity.
  - apply Inv_move; try exact HI; rewrite ?Et; try reflexivity; simpl; eauto; discriminate.
Qed.

Lemma run_load ids s t : Inv ids s -> threads s t = Load ->
  let q := match head (store s) with Some c => Look c | None => Allocate None end in
  run t s = Ok (mkState (store s) (set_pc t q (threads s))) /\ Inv ids (mkState (store s) (set_pc t q (threads s))).
Proof.
  intros HI Et q. split; [unfold run, rbegin; rewrite Et; reflexivity |].
  apply Inv_move; try exact HI; rewrite ?Et; unfold q; destruct (head (store s)) as [h |] eqn:Eh; try reflexivity; simpl; try contradiction; auto.
  - intros g n E _ _ _. injection E as ->. apply bool_decide_eq_true. reflexivity.
  - discriminate.
  - apply (path_head_in (store s)). rewrite <- Eh. apply HI.
Qed.

Lemma run_look ids s t c n : Inv ids s -> threads s t = Look c -> nodes (store s) !! c = Some n ->
  let q := if next_item (item_data n) <=? chunk_size then Fetch c else Load in
  run t s = Ok (mkState (store s) (set_pc t q (threads s))) /\ Inv ids (mkState (store s) (set_pc t q (threads s))).
Proof.
  intros HI Et Hn q. split; [unfold run; rewrite Et, (get_ok _ _ _ Hn); reflexivity |].
  pose proof (iv_locals _ _ HI t) as Hl. rewrite Et in Hl.
  apply Inv_move; try exact HI; rewrite ?Et; unfold q; destruct (_ <=? _) eqn:Ex; try reflexivity; simpl; try contradiction; auto.
Qed.

Lemma run_cas ids s t c id old : Inv ids s -> threads s t = CasHead c id old ->
  let s' := mkState (mkList (nodes (store s)) (Some id) (next_id (store s))) (set_pc t Load (threads s)) in
  run t s = Ok s' /\ Inv (id :: ids) s'.
Proof.
  intros HI Et. pose proof (iv_locals _ _ HI t) as Hl. rewrite Et in Hl. destruct Hl as [-> Hp].
  destruct (extends_head ids s t c HI) as [Hh _]; [rewrite Et; reflexivity |].
  cbn zeta. split; [unfold run; rewrite Et, decide_True by exact Hh; reflexivity |].
  apply Inv_link; rewrite ?Et; auto. simpl. congruence.
Qed.

Lemma run_first ids s t id : Inv ids s -> threads s t = TryFirst id -> head (store s) = None ->
  let s' := mkState (mkList (nodes (store s)) (Some id) (next_id (store s))) (set_pc t Load (threads s)) in
  run t s = Ok s' /\ Inv (id :: ids) s'.
Proof.
  intros HI Et Hh. pose proof (iv_locals _ _ HI t) as Hl. rewrite Et in Hl.
  cbn zeta. split; [unfold run, try_append_first_item; rewrite Et, Hh; reflexivity |].
  apply Inv_link; rewrite ?Et, ?Hh; auto.
Qed.

(** Every step of every thread succeeds and keeps the invariant. *)
Lemma run_inv ids s t : Inv ids s -> exists s' ids', run t s = Ok s' /\ Inv ids' s'.
Proof.
  intros HI. pose proof (iv_locals _ _ HI t) as Hl. destruct (threads s t) eqn:Et; cbn [locals] in Hl.
  - exists (mkState (store s) (set_pc t Load (threads s))), ids. split; [unfold run; rewrite Et; reflexivity |].
    apply Inv_move; try exact HI; rewrite ?Et; try reflexivity; simpl; auto; contradiction.
  - destruct (run_load ids s t HI Et); eauto.
  - destruct (ids_node ids s c HI Hl) as (n & Hn & _). destruct (run_look ids s t c n HI Et Hn); eauto.
  - destruct (ids_node ids s c HI Hl) as (n & Hn & _). destruct (run_fetch ids s t c n HI Et Hn); eauto.
  - destruct (run_assign ids s t c i HI Et) as (? & ? & ?); eauto.
  - destruct (run_publish ids s t c i HI Et) as (? & ? & ?); eauto.
  - destruct (run_access ids s t c i HI Et) as (? & ? & ?); eauto.
  - destruct Hl as ([c i] & ->). exists (mkState (store s) (set_pc t (Distance (at_pos (c, i))) (threads s))), ids.
    destruct (iv_claim _ _ HI t c i) as (_ & Hi & _); [rewrite Et; reflexivity |].
    split; [unfold run; rewrite Et, (valid_pos c i Hi); reflexivity |].
    apply Inv_move; try exact HI; rewrite ?Et; try reflexivity; simpl; eauto; discriminate.
  - pose proof (run_allocate ids s t c HI Et) as H. cbn [make_node] in H. destruct H; eauto.
  - destruct (head (store s)) as [h |] eqn:Eh; [destruct (run_discard ids s t id h HI Et Eh); eauto |].
    destruct (run_first ids s t id HI Et Eh); eauto.
  - exists (mkState (store s) (set_pc t (StorePrev c id (head (store s))) (threads s))), ids.
    destruct (extends_head ids s t c HI) as [Hh _]; [rewrite Et; reflexivity |].
    split; [unfold run; rewrite Et; reflexivity |].
    apply Inv_move; try exact HI; rewrite ?Et; try reflexivity; simpl; auto; discriminate.
  - destruct (run_store_prev ids s t c id old HI Et); eauto.
  - destruct (run_cas ids s t c id old HI Et); eauto.
  - destruct Hl as ([c i] & ->). destruct (run_distance ids s t c i HI Et) as (? & ? & ?); eauto.
  - destruct Hl as ([c i] & -> & _). destruct (run_skip ids s t c i off HI Et) as (? & ? & ?); eauto.
  - destruct Hl as ([c i] & ->). destruct (run_release ids s t c i HI Et) as (? & ? & ?); eauto.
  - destruct Hl as ([c i] & ->). destruct (run_freed ids s t c i HI Et) as (? & ? & _ & ? & ?); eauto.
  - destruct Hl as ([c i] & -> & _). destruct (run_erase ids s t c i HI Et) as (? & ? & ?); eauto.
  - destruct Hl as ([c i] & ->). destruct (run_drop ids s t c i HI Et) as (? & ? & ?); eauto.
  - exists s, ids. split; [unfold run; rewrite Et; reflexivity | exact HI].
Qed.

Lemma Inv_init s : init s -> Inv [] s.
Proof.
  intros ->. constructor; simpl; try discriminate; try (intros; discriminate); try (intros * H; rewrite lookup_empty in H; discriminate).
  - apply list_wf_empty.
  - constructor.
  - intros t. exact I.
Qed.

Lemma reachable_Inv s : reachable init step s -> exists ids, Inv ids s.
Proof.
  revert s. apply reachable_invariant.
  - intros s Hs. exists []. apply Inv_init, Hs.
  - intros s s' [ids HI] [t E]. destruct (run_inv ids s t HI) as (s'' & ids' & E' & HI'). exists ids'. congruence.
Qed.

(** ** What the threads can rely on *)

(** C24 (threads): however many threads push and remove at once, every step of every
    thread succeeds (no assertion fails, nothing is dereferenced that is not there),
    and an element that was pushed and is not being removed is in its slot with its
    value, in a chunk that is linked and not erased; no two threads have the same
    slot. *)
Theorem pushed_elements_intact s :
  reachable init step s ->
  (forall t, exists s', run t s = Ok s') /\
  (forall t a, threads s t = Pushed a -> exists c i n ids, a = at_pos (c, i) /\ 0 <= i < chunk_size /\
    path (store s) (head (store s)) ids /\ c ∈ ids /\ nodes (store s) !! c = Some n /\ deleted n = false /\
    items (item_data n) !! Z.to_nat i = Some (mkItem (Some (value t)) 0 1)) /\
  (forall t u a, threads s t = Pushed a -> threads s u = Pushed a -> t = u).
Proof.
  intros Hr. destruct (reachable_Inv s Hr) as [ids HI].
  assert (Hp : forall t a, threads s t = Pushed a -> exists c i, a = at_pos (c, i) /\ claim (threads s t) = Some (c, i)).
  { intros t a Et. pose proof (iv_locals _ _ HI t) as Hl. rewrite Et in Hl. destruct Hl as ([c i] & ->).
    exists c, i. rewrite Et. split; reflexivity. }
  split; [intros t; destruct (run_inv ids s t HI) as (s' & _ & E & _); eauto |]. split.
  - intros t a Et. destruct (Hp t a Et) as (c & i & -> & Ht).
    destruct (claim_item ids s t c i HI Ht) as (n & it & Hn & Hc & Hi & Hx & Hit & Hv).
    rewrite Et in Hv. simpl in Hv. subst it. destruct (iv_chunk _ _ HI c n Hn Hc) as [C D].
    exists c, i, n, ids. split; [reflexivity |]. split; [exact Hi |]. split; [apply HI |]. split; [exact Hc |].
    split; [exact Hn |]. split; [| exact Hit]. destruct (deleted n) eqn:Ed; [exfalso | reflexivity].
    destruct (chunk_all_counted _ _ _ C (D eq_refl) i Hi) as (u & Hu & Hcu).
    rewrite <- (iv_claims _ _ HI t u _ Ht Hu), Et in Hcu. discriminate.
  - intros t u a Et Eu. destruct (Hp t a Et) as (c & i & -> & Ht). eapply iv_claims; [exact HI | exact Ht |].
    rewrite Eu. reflexivity.
Qed.

Lemma back_In l ids p v :
  (p, v) ∈ back l ids <-> fst p ∈ ids /\ (p, v) ∈ chunk_back l (fst p).
Proof.
  assert (Hid : forall id, (p, v) ∈ chunk_back l id -> fst p = id).
  { intros id. unfold chunk_back. destruct (nodes l !! id); [| intros H; inversion H].
    intros Hv. apply below_In in Hv as (k & it & -> & _). reflexivity. }
  induction ids as [| id ids IH].
  - split; [intros H; inversion H | intros [H _]; inversion H].
  - rewrite back_cons, elem_of_app, elem_of_cons, IH. split; [| intros [[E |] Hv]; [left; rewrite <- E; exact Hv | auto]].
    intros [H | [H1 H2]]; [| auto]. rewrite (Hid id H). auto.
Qed.

Lemma below_NoDup id (its : list (Item T)) n : NoDup (below id its n).*1.
Proof.
  induction n as [| n IH]; [constructor |]. cbn [below]. destruct (its !! n) as [it |]; [| exact IH].
  destruct (if live it then storage it else None) as [v |]; [| exact IH]. cbn [fmap list_fmap fst].
  constructor; [| exact IH]. intros Hin. apply list_elem_of_fmap in Hin as ([p w] & E & Hin). simpl in E. subst p.
  apply below_In in Hin as (k & jt & E & Hk & _). injection E as E. lia.
Qed.

Lemma back_NoDup l ids : NoDup ids -> NoDup (back l ids).*1.
Proof.
  induction ids as [| id ids IH]; intros Hnd; [constructor |]. inversion Hnd; subst.
  rewrite back_cons, fmap_app. apply NoDup_app. split; [| split; [| auto]].
  - unfold chunk_back. destruct (nodes l !! id); [apply below_NoDup | constructor].
  - intros p Hp Hq. apply list_elem_of_fmap in Hp as ([p1 v1] & -> & Hp), Hq as ([p2 v2] & E & Hq). simpl in E. subst p2.
    apply back_In in Hq as [Hin _]. unfold chunk_back in Hp. destruct (nodes l !! id); [| inversion Hp].
    apply below_In in Hp as (k & it & -> & _). simpl in Hin. contradiction.
Qed.

(** All pushes that were begun have returned, and nothing is removed. *)
Definition quiet s : Prop := forall t, threads s t = Idle \/ exists a, threads s t = Pushed a.

Lemma quiet_nobody s : quiet s -> forall t, floating (threads s t) = None /\ extends (threads s t) = None /\
  counted (threads s t) = false /\ forall h, comes h (threads s t) = false.
Proof. intros Hq t. destruct (Hq t) as [-> | [a ->]]; auto. Qed.

Lemma filter_none {A} (f : A -> bool) (xs : list A) : (forall x, x ∈ xs -> f x = false) -> List.filter f xs = [].
Proof.
  induction xs as [| x xs IH]; intros Hf; [reflexivity |]. simpl. rewrite (Hf x) by left. apply IH.
  intros y Hy. apply Hf. right. exact Hy.
Qed.

(** A chunk nobody works on. *)
Lemma quiet_chunk s id d : quiet s -> chunk_ok (threads s) id d ->
  chunk_wf d /\ freed_items d = 0 /\ forall i it, items d !! i = Some it -> live it = true -> refcount it = 1.
Proof.
  intros Hq [C1 C2 C3 C4 (K & C5 & C6 & C7)].
  assert (Hused : forall i it, items d !! i = Some it -> Z.of_nat i < next_item d -> exists v, it = mkItem (Some v) 0 1).
  { intros i it Hit Hi. destruct (C3 i it Hit Hi) as (u & Hu & Hv).
    destruct (Hq u) as [E | [a E]]; rewrite E in Hu, Hv; [discriminate | eauto]. }
  assert (HK : freed_items d = 0).
  { destruct K as [| i K]; [exact C6 |]. destruct (C7 i ltac:(left)) as (_ & u & _ & Hcu).
    destruct (quiet_nobody s Hq u) as (_ & _ & E & _). congruence. }
  split; [| split; [exact HK |]].
  - constructor; try assumption.
    + intros i it Hit Hi. destruct (Hused i it Hit Hi) as [v ->]. left. simpl. split; [reflexivity |]. split; [eauto | lia].
    + rewrite HK. unfold removed_count. rewrite filter_none; [reflexivity |]. intros it Hin.
      apply elem_of_take in Hin as (i & Hit & Hi).
      destruct (Hused i it Hit ltac:(lia)) as [v ->]. reflexivity.
  - intros i it Hit Hl. destruct (decide (Z.of_nat i < next_item d)) as [Hi | Hi].
    + destruct (Hused i it Hit Hi) as [v ->]. reflexivity.
    + rewrite (C4 i it Hit) in Hl by lia. discriminate.
Qed.

Lemma quiet_Repr ids s : Inv ids s -> quiet s ->
  Repr (store s) (back (store s) ids) /\ settled (store s) /\ acquirable (store s).
Proof.
  intros HI Hq. assert (Hids : forall id n, nodes (store s) !! id = Some n -> id ∈ ids).
  { intros id n Hn. destruct (iv_nodes _ _ HI id n Hn) as [| [u Hu]]; [assumption |].
    destruct (quiet_nobody s Hq u) as (E & _). congruence. }
  assert (Hc : forall id n, nodes (store s) !! id = Some n -> chunk_ok (threads s) id (item_data n)).
  { intros id n Hn. apply (iv_chunk _ _ HI id n Hn (Hids id n Hn)). }
  split; [split; [constructor |] | split].
  - apply HI.
  - intros id n Hn. destruct (quiet_chunk s id _ Hq (Hc id n Hn)) as (H1 & H2 & _). split; [exact H1 |].
    apply (iv_chunk _ _ HI id n Hn (Hids id n Hn)).
  - intros h n Eh Hn. destruct (decide (next_item (item_data n) <= chunk_size)) as [| Hgt]; [assumption |].
    destruct (proj1 (iv_head _ _ HI h n Eh Hn)) as [u Hu]; [lia |].
    destruct (quiet_nobody s Hq u) as (_ & E & _). congruence.
  - intros id n Hh Hn. pose proof (iv_full _ _ HI id n Hn (Hids id n Hn) Hh). lia.
  - exists ids. split; [apply HI | reflexivity].
  - intros h n Eh Hn. pose proof (ck_next _ _ _ (Hc h n Hn)).
    destruct (decide (next_item (item_data n) = 0)) as [E0 |]; [right | left; lia].
    destruct (iv_empty _ _ HI h n Eh Hn E0) as [| [u Hu]]; [assumption |].
    destruct (quiet_nobody s Hq u) as (_ & _ & _ & E). rewrite E in Hu. discriminate.
  - intros id n i it Hn Hit Hl. destruct (quiet_chunk s id _ Hq (Hc id n Hn)) as (_ & _ & H).
    rewrite (H i it Hit Hl). lia.
Qed.

(** ** States in which nothing is being removed *)

Definition pushing (p : pc) : bool :=
  match p with
  | Pushed _ | Distance _ | Skip _ _ | Release _ | Freed _ | EraseChunk _ | Drop _ | Removed _ => false
  | _ => true
  end.

Definition no_removal s : Prop := forall t, pushing (threads s t) = true \/ exists a, threads s t = Pushed a.

(** The element of thread [u] can be seen at [p]. *)
Definition published s (u : nat) (p : pos) : Prop :=
  threads s u = Access (fst p) (snd p) \/ threads s u = Pushed (at_pos p).

Lemma quiet_no_removal s : quiet s -> no_removal s.
Proof. intros Hq t. destruct (Hq t) as [-> | [a E]]; [left; reflexivity | right; eauto]. Qed.

(** A taken slot is live once it is published, and skipped by one before that. *)
Lemma taken_item ids s u c i it : Inv ids s -> no_removal s -> claim (threads s u) = Some (c, i) ->
  item_of u i (threads s u) it ->
  published s u (c, i) /\ iter_offset it = 0 /\ storage it = Some (value u) /\ 0 <= refcount it <= 1 \/
  ~ published s u (c, i) /\ iter_offset it = 1.
Proof.
  intros HI Hnr Hu Hv. pose proof (iv_locals _ _ HI u) as Hl. unfold published. cbn [fst snd].
  destruct (threads s u) eqn:Eu; try discriminate Hu; cbn [locals] in Hl; simpl in Hu, Hv.
  - injection Hu as -> ->. subst it. right. split; [intros [E | E]; discriminate E | reflexivity].
  - injection Hu as -> ->. subst it. right. split; [intros [E | E]; discriminate E | reflexivity].
  - injection Hu as -> ->. subst it. left. split; [auto |]. simpl. auto with lia.
  - destruct Hl as ([c' i'] & ->). injection Hu as -> ->. subst it. left. split; [auto |]. simpl. auto with lia.
  - destruct (Hnr u) as [E | [b E]]; rewrite Eu in E; discriminate E.
  - destruct (Hnr u) as [E | [b E]]; rewrite Eu in E; discriminate E.
  - destruct (Hnr u) as [E | [b E]]; rewrite Eu in E; discriminate E.
  - destruct (Hnr u) as [E | [b E]]; rewrite Eu in E; discriminate E.
  - destruct (Hnr u) as [E | [b E]]; rewrite Eu in E; discriminate E.
  - destruct (Hnr u) as [E | [b E]]; rewrite Eu in E; discriminate E.
  - destruct (Hnr u) as [E | [b E]]; rewrite Eu in E; discriminate E.
Qed.

Lemma published_claim s u p : published s u p -> claim (threads s u) = Some p.
Proof. destruct p as [c i]. intros [-> | ->]; reflexivity. Qed.

(** The live elements of a chunk are those that can be seen. *)
Lemma below_published ids s c n m p v : Inv ids s -> no_removal s -> c ∈ ids -> nodes (store s) !! c = Some n ->
  (m <= Z.to_nat chunk_size)%nat ->
  (p, v) ∈ below c (items (item_data n)) m <->
  fst p = c /\ 0 <= snd p < Z.of_nat m /\ exists u, published s u p /\ v = value u.
Proof.
  intros HI Hnr Hc Hn Hm. destruct (iv_chunk _ _ HI c n Hn Hc) as [C _]. rewrite below_In. split.
  - intros (k & it & -> & Hk & Hit & Hl & Hst). simpl. split; [reflexivity |]. split; [lia |].
    destruct (decide (Z.of_nat k < next_item (item_data n))) as [Hx | Hx];
      [| rewrite (ck_free _ _ _ C k it Hit) in Hl by lia; discriminate].
    destruct (ck_taken _ _ _ C k it Hit Hx) as (u & Hu & Hv). exists u.
    destruct (taken_item ids s u c _ it HI Hnr Hu Hv) as [(Hp & _ & Ev & _) | [_ E]];
      [split; [exact Hp | congruence] | unfold live in Hl; rewrite E in Hl; discriminate].
  - destruct p as [c' i]. simpl. intros (-> & Hi & u & Hp & ->). pose proof (published_claim s u _ Hp) as Hu.
    destruct (claim_item ids s u c i HI Hu) as (n' & it & Hn' & _ & _ & _ & Hit & Hv). assert (n' = n) as -> by congruence.
    exists (Z.to_nat i), it. rewrite Z2Nat.id by lia. split; [reflexivity |]. split; [lia |]. split; [exact Hit |].
    destruct (taken_item ids s u c i it HI Hnr Hu Hv) as [(_ & E & Ev & _) | [Hno _]]; [| contradiction].
    split; [unfold live; rewrite E; reflexivity | exact Ev].
Qed.

Lemma back_published ids s cs p v : Inv ids s -> no_removal s -> (forall c, c ∈ cs -> c ∈ ids) ->
  (p, v) ∈ back (store s) cs <-> fst p ∈ cs /\ exists u, published s u p /\ v = value u.
Proof.
  intros HI Hnr Hcs. rewrite back_In. unfold chunk_back. split.
  - intros [Hin Hv]. split; [exact Hin |]. destruct (nodes (store s) !! fst p) as [n |] eqn:Hn; [| inversion Hv].
    apply (below_published ids s _ n _ _ _ HI Hnr (Hcs _ Hin) Hn) in Hv as (_ & _ & Hu); [exact Hu | lia].
  - intros (Hin & u & Hp & ->). split; [exact Hin |]. destruct (ids_node ids s _ HI (Hcs _ Hin)) as (n & Hn & _). rewrite Hn.
    apply (below_published ids s _ n _ _ _ HI Hnr (Hcs _ Hin) Hn); [lia |]. split; [reflexivity |]. split; [| eauto].
    destruct p as [c i]. destruct (iv_claim _ _ HI u c i (published_claim s u _ Hp)) as (_ & Hi & _). simpl. lia.
Qed.

(** Iterating does not depend on what the other threads are doing to slots of their own. *)
Lemma no_removal_iterable ids s : Inv ids s -> no_removal s -> Iterable (store s) /\ acquirable (store s).
Proof.
  intros HI Hnr.
  assert (Hcase : forall id n, nodes (store s) !! id = Some n -> chunk_ok (threads s) id (item_data n) /\ deleted n = false).
  { intros id n Hn. destruct (iv_nodes _ _ HI id n Hn) as [Hin | [u Hu]].
    - destruct (iv_chunk _ _ HI id n Hn Hin) as [C D]. split; [exact C |]. destruct (deleted n) eqn:Ed; [exfalso | reflexivity].
      destruct (chunk_all_counted _ _ _ C (D eq_refl) 0) as (u & _ & Hu); [pose proof good_size; lia |].
      destruct (Hnr u) as [E | [a E]]; [| rewrite E in Hu; discriminate]. destruct (threads s u); discriminate.
    - destruct (iv_float _ _ HI u id Hu) as (_ & p & Hn' & _). assert (n = mkCB false p new_chunk) as -> by congruence.
      split; [apply chunk_ok_new | reflexivity]. }
  split; [constructor |].
  - apply HI.
  - intros id n Hn. destruct (Hcase id n Hn) as [[C1 C2 C3 C4 _] _]. constructor; [exact C1 | | exact C4].
    intros i it Hit Hi. destruct (C3 i it Hit Hi) as (u & Hu & Hv).
    destruct (taken_item ids s u id _ it HI Hnr Hu Hv) as [(_ & E1 & E2 & E3) | [_ E]]; [left; rewrite E2; split; [exact E1 |]; split; [eauto | lia] | right].
    split; [lia |]. intros k itk Hk Ek. assert (k = i) as -> by lia. assert (itk = it) as -> by congruence. unfold live. rewrite E. reflexivity.
  - intros id Hd. unfold is_deleted in Hd. destruct (nodes (store s) !! id) as [n |] eqn:Hn; [| discriminate].
    destruct (Hcase id n Hn) as [_ E]. congruence.
  - intros id n i it Hn Hit Hl. destruct (Hcase id n Hn) as [C _].
    destruct (decide (Z.of_nat i < next_item (item_data n))) as [Hx | Hx];
      [| rewrite (ck_free _ _ _ C i it Hit) in Hl by lia; discriminate].
    destruct (ck_taken _ _ _ C i it Hit Hx) as (u & Hu & Hv).
    destruct (taken_item ids s u id _ it HI Hnr Hu Hv) as [(_ & _ & _ & E) | [_ E]]; [lia | unfold live in Hl; rewrite E in Hl; discriminate].
Qed.

(** C25 (pushes): however the pushes of any number of threads interleave, once all have
    returned the list holds exactly the pushed elements, each once and at the
    position its push returned, in a state in which the list works as
    with one thread; in particular an iteration visits them all. *)
Theorem concurrent_pushes_refine s :
  reachable init step s -> quiet s ->
  exists B, Repr (store s) B /\ settled (store s) /\ acquirable (store s) /\ NoDup B.*1 /\
    (forall p v, (p, v) ∈ B <-> exists t, threads s t = Pushed (at_pos p) /\ v = value t) /\
    exists l', collect (store s) = Ok (B.*2, l').
Proof.
  intros Hr Hq. destruct (reachable_Inv s Hr) as [ids HI]. destruct (quiet_Repr ids s HI Hq) as (HR & Hs & Ha).
  exists (back (store s) ids). split; [exact HR |]. split; [exact Hs |]. split; [exact Ha |].
  split; [apply back_NoDup; eapply path_NoDup; [apply HI | apply HI] |]. split.
  2: { destruct (iteration_correct (store s) _ HR Ha Hs) as (l' & E & _). eauto. }
  intros p v. rewrite (back_published ids) by (auto using quiet_no_removal). split.
  - intros (_ & u & [E | E] & ->); [destruct (Hq u) as [E' | [a E']]; congruence | eauto].
  - intros (t & Et & ->). split; [| exists t; split; [right; exact Et | reflexivity]].
    destruct p as [c i]. apply (iv_claim _ _ HI t c i). rewrite Et. reflexivity.
Qed.

(** The loop of [init_graph] over the entries before its own:
    [auto it = user_entry; ++it; for(; it != rend(); ++it)]. *)
Definition iterate_from (a : ItemAccess) (l : @CL T) : res (list T * @CL T) :=
  '(it, l) ← copy_access a l;
  '(it, l) ← next_access it l;
  for_each (acquire_fuel l) collect_body it [] l.

Definition older (p q : pos) : Prop := (fst p < fst q)%nat \/ fst p = fst q /\ snd p < snd q.

Lemma path_suffix l o ids c : wf l -> path l o ids -> c ∈ ids ->
  exists pre rest, ids = pre ++ c :: rest /\ path l (Some c) (c :: rest) /\ Forall (fun j => (c < j)%nat) pre.
Proof.
  intros Hwf H. induction H as [| id n ids Hn H IH]; intros Hin; [inversion Hin |].
  assert (Hb : Forall (fun j => (j < id)%nat) ids) by (apply (path_below l id ids Hwf); econstructor; eassumption).
  apply elem_of_cons in Hin as [-> | Hin].
  - exists [], ids. split; [reflexivity |]. split; [econstructor; eassumption | constructor].
  - destruct (IH Hin) as (pre & rest & -> & Hp & Hpre). exists (id :: pre), rest. split; [reflexivity |]. split; [exact Hp |].
    constructor; [| exact Hpre]. rewrite Forall_forall in Hb. apply Hb, Hin.
Qed.

(** The chunks before [c] are full. *)
Lemma older_chunks ids s c : Inv ids s -> c ∈ ids ->
  exists rest, path (store s) (Some c) (c :: rest) /\ Forall (full (store s)) rest /\
    forall d, d ∈ rest <-> (d ∈ ids /\ (d < c)%nat).
Proof.
  intros HI Hc. pose proof (iv_wf _ _ HI) as Hwf.
  destruct (path_suffix _ _ _ c Hwf (iv_path _ _ HI) Hc) as (pre & rest & -> & Hp & Hpre).
  pose proof (path_below _ _ _ Hwf Hp) as Hb. rewrite Forall_forall in Hb, Hpre. exists rest.
  split; [exact Hp |]. split.
  - rewrite Forall_forall. intros r Hr n Hn.
    assert (Hin : r ∈ pre ++ c :: rest) by (rewrite elem_of_app; right; right; exact Hr).
    enough (chunk_size < next_item (item_data n)) by lia. apply (iv_full _ _ HI r n Hn Hin). intros Eh.
    assert (Hh : exists xs, pre ++ c :: rest = r :: xs)
      by (pose proof (iv_path _ _ HI) as Hph; rewrite Eh in Hph; inversion Hph; eauto).
    destruct Hh as [xs E]. specialize (Hb r Hr). destruct pre as [| a pre]; injection E as -> E; [lia |].
    specialize (Hpre r ltac:(left)). simpl in *. lia.
  - intros d. rewrite elem_of_app, elem_of_cons. split; [intros Hd; specialize (Hb d Hd); auto |].
    intros [[Hd | [-> | Hd]] Hlt]; [specialize (Hpre d Hd); simpl in *; lia | lia | exact Hd].
Qed.

Lemma iterate_from_spec l c i rest n it v :
  Iterable l -> acquirable l -> path l (Some c) (c :: rest) -> Forall (full l) rest -> nodes l !! c = Some n ->
  0 <= i < chunk_size -> items (item_data n) !! Z.to_nat i = Some it -> live it = true -> storage it = Some v ->
  exists l', iterate_from (at_pos (c, i)) l = Ok ((below c (items (item_data n)) (Z.to_nat i) ++ back l rest).*2, l').
Proof.
  intros Hib Ha Hp Hfull Hn Hi Hit Hl Hv.
  assert (Ho : outcome (below c (items (item_data n)) (Z.to_nat (i + 1)) ++ back l rest) l (copy_access (at_pos (c, i)) l)).
  { apply acquire_next_spec; try assumption. apply (acquire_fuel_enough l c); [apply Hib | assumption | lia]. }
  replace (Z.to_nat (i + 1)) with (S (Z.to_nat i)) in Ho by lia. cbn [below] in Ho.
  rewrite Hit, Hl, Hv, Z2Nat.id in Ho by lia. destruct Ho as (l1 & l2 & E & Hsk & Hh & Hat).
  pose proof (skips_Iterable l l1 Hib Hsk) as Hib1. pose proof (acquirable_same l l1 Ha (proj1 Hsk)) as Ha1.
  destruct (next_access_spec l1 l2 (c, i) v _ Hib1 Ha1 Hat Hh) as (_ & _ & Ho).
  destruct (loop_spec l1 _ _ Hib1 Ha1 Ho) as (l' & E' & _).
  - pose proof (path_length l _ _ (ib_wf l Hib) Hp) as Hlen. destruct Hsk as ((Hid & _) & _).
    rewrite length_app. pose proof (back_length l rest). pose proof (below_length c (items (item_data n)) (Z.to_nat i)).
    unfold acquire_fuel. rewrite Hid. simpl in Hlen. nia.
  - exists l'. unfold iterate_from. rewrite E. exact E'.
Qed.

(** C26 (iteration): while any number of threads push into the list, an iteration that starts
    from an element that was pushed visits exactly the elements in the slots before
    it that are published, each once, and so all whose push returned earlier. *)
Theorem own_iteration_sees s t c i :
  reachable init step s -> no_removal s -> threads s t = Pushed (at_pos (c, i)) ->
  exists B l', iterate_from (at_pos (c, i)) (store s) = Ok (B.*2, l') /\ NoDup B.*1 /\
    forall p v, (p, v) ∈ B <-> older p (c, i) /\ exists u, published s u p /\ v = value u.
Proof.
  intros Hr Hnr Et. destruct (reachable_Inv s Hr) as [ids HI].
  assert (Ht : claim (threads s t) = Some (c, i)) by (rewrite Et; reflexivity).
  destruct (claim_item ids s t c i HI Ht) as (n & it & Hn & Hc & Hi & Hx & Hit & Hv). rewrite Et in Hv. simpl in Hv. subst it.
  destruct (no_removal_iterable ids s HI Hnr) as [Hib Ha]. destruct (older_chunks ids s c HI Hc) as (rest & Hp & Hfull & Hrest).
  destruct (iterate_from_spec _ c i rest n _ _ Hib Ha Hp Hfull Hn Hi Hit eq_refl eq_refl) as (l' & E).
  exists (below c (items (item_data n)) (Z.to_nat i) ++ back (store s) rest), l'. split; [exact E |]. split.
  - rewrite fmap_app. apply NoDup_app. split; [apply below_NoDup |].
    pose proof (path_NoDup _ _ _ (iv_wf _ _ HI) Hp) as Hnd. inversion Hnd; subst. split; [| apply back_NoDup; assumption].
    intros p Hb Hk. apply list_elem_of_fmap in Hb as ([p1 v1] & -> & Hb), Hk as ([p2 v2] & E2 & Hk). simpl in E2. subst p2.
    apply back_In in Hk as [Hin _]. apply below_In in Hb as (k & itk & -> & _). simpl in Hin. contradiction.
  - intros p v. rewrite elem_of_app, (below_published ids s c n) by (assumption || lia).
    rewrite (back_published ids) by (try assumption; intros d Hd; apply Hrest, Hd). unfold older. rewrite Hrest. cbn [fst snd].
    rewrite Z2Nat.id by lia. split; [intuition lia |].
    intros [Ho (u & Hu & Ev)]. pose proof (published_claim s u p Hu) as Hcu. destruct p as [d j].
    destruct (iv_claim _ _ HI u d j Hcu) as (Hd & Hj & _). cbn [fst snd] in *. destruct Ho as [Ho | [-> Ho]]; [right; eauto | left]. eauto with lia.
Qed.

(** ** Pushes return *)

(** Thread [t], running alone, returns from [push] within [n] steps. *)
Definition returns_within (n : nat) (t : nat) (s : State) : Prop :=
  exists k s', (k <= n)%nat /\ run_all (repeat t k) s = Ok s' /\ exists a, threads s' t = Pushed a.

Lemma returns_mono n m t s : (n <= m)%nat -> returns_within n t s -> returns_within m t s.
Proof. intros Hle (k & s' & Hk & H). exists k, s'. split; [lia | exact H]. Qed.

Lemma returns_step n t s s1 : run t s = Ok s1 -> returns_within n t s1 -> returns_within (S n) t s.
Proof.
  intros E (k & s' & Hk & Er & Ha). exists (S k), s'. split; [lia |]. split; [| exact Ha].
  cbn [repeat run_all]. rewrite E. exact Er.
Qed.

(** Takes one step of [t] by the lemma [H] about it and goes on with the invariant [HI']. *)
Ltac next_step H HI' :=
  let E := fresh "E" in destruct H as [E HI']; eapply returns_step; [exact E |]; clear E.

Lemma returns_access ids s t c i : Inv ids s -> threads s t = Access c i -> returns_within 1 t s.
Proof.
  intros HI Et. destruct (run_access ids s t c i HI Et) as (l' & E & _).
  eexists 1%nat, _. split; [lia |]. split; [cbn [repeat run_all]; rewrite E; reflexivity |].
  eexists. cbn [threads]. apply set_pc_eq.
Qed.

Lemma returns_assign ids s t c i : Inv ids s -> threads s t = Assign c i -> returns_within 3 t s.
Proof.
  intros HI Et. destruct (run_assign ids s t c i HI Et) as (l1 & E1 & HI1). eapply returns_step; [exact E1 |].
  destruct (run_publish ids _ t c i HI1 (set_pc_eq _ _ _)) as (l2 & E2 & HI2). eapply returns_step; [exact E2 |].
  eapply returns_access; [exact HI2 | apply set_pc_eq].
Qed.

Lemma returns_publish ids s t c i : Inv ids s -> threads s t = Publish c i -> returns_within 2 t s.
Proof.
  intros HI Et. destruct (run_publish ids s t c i HI Et) as (l2 & E2 & HI2). eapply returns_step; [exact E2 |].
  eapply returns_access; [exact HI2 | apply set_pc_eq].
Qed.

(** The newest chunk has a free slot. *)
Definition has_room s : Prop := exists h n, head (store s) = Some h /\ nodes (store s) !! h = Some n /\ next_item (item_data n) < chunk_size.

Lemma returns_fetch_room ids s t c n : Inv ids s -> threads s t = Fetch c -> nodes (store s) !! c = Some n ->
  next_item (item_data n) < chunk_size -> returns_within 4 t s.
Proof.
  intros HI Et Hn Hl. pose proof (run_fetch ids s t c n HI Et Hn) as H. cbn zeta in H.
  destruct (fetch_to_cases c (next_item (item_data n))) as [[_ Ef] | [[Hx _] | [Hx _]]]; [rewrite Ef in H | lia | lia]. next_step H HI'.
  eapply returns_assign; [exact HI' | apply set_pc_eq].
Qed.

Lemma returns_load_room ids s t : Inv ids s -> threads s t = Load -> has_room s -> returns_within 6 t s.
Proof.
  intros HI Et (h & n & Eh & Hn & Hl). pose proof (run_load ids s t HI Et) as H. cbn zeta in H. rewrite Eh in H. next_step H HI1.
  pose proof (run_look ids _ t h n HI1 (set_pc_eq _ _ _) Hn) as H. cbn zeta in H.
  replace (next_item (item_data n) <=? chunk_size) with true in H by lia. next_step H HI2.
  eapply returns_fetch_room; [exact HI2 | apply set_pc_eq | exact Hn | exact Hl].
Qed.

(** After a chunk was linked there is room. *)
Lemma returns_linked ids s t id : Inv (id :: ids) s -> threads s t = Load -> head (store s) = Some id ->
  (exists d p, nodes (store s) !! id = Some (mkCB d p new_chunk)) -> returns_within 6 t s.
Proof.
  intros HI Et Eh (d & p & Hn). eapply returns_load_room; [exact HI | exact Et |]. exists id, (mkCB d p new_chunk).
  pose proof good_size. simpl. split; [exact Eh |]. split; [exact Hn | lia].
Qed.

Lemma returns_cas ids s t c id old : Inv ids s -> threads s t = CasHead c id old -> returns_within 7 t s.
Proof.
  intros HI Et. destruct (float_node ids s t id HI) as (_ & _ & p & Hn & _); [rewrite Et; reflexivity |].
  pose proof (run_cas ids s t c id old HI Et) as H. cbn zeta in H. next_step H HI'.
  eapply returns_linked; [exact HI' | apply set_pc_eq | reflexivity | simpl; eauto].
Qed.

Lemma returns_store_prev ids s t c id old : Inv ids s -> threads s t = StorePrev c id old -> returns_within 8 t s.
Proof.
  intros HI Et. pose proof (run_store_prev ids s t c id old HI Et) as H. cbn zeta in H. next_step H HI'.
  eapply returns_cas; [exact HI' | apply set_pc_eq].
Qed.

Lemma run_load_head ids s t c id : Inv ids s -> threads s t = LoadHead c id ->
  let s' := mkState (store s) (set_pc t (StorePrev c id (head (store s))) (threads s)) in
  run t s = Ok s' /\ Inv ids s'.
Proof.
  intros HI Et. destruct (run_inv ids s t HI) as (s' & ids' & E & HI'). unfold run in E. rewrite Et in E. injection E as <-.
  split; [unfold run; rewrite Et; reflexivity |].
  pose proof (path_fun _ _ _ _ (iv_path _ _ HI) (iv_path _ _ HI')) as ->. exact HI'.
Qed.

Lemma returns_load_head ids s t c id : Inv ids s -> threads s t = LoadHead c id -> returns_within 9 t s.
Proof.
  intros HI Et. pose proof (run_load_head ids s t c id HI Et) as H. cbn zeta in H. next_step H HI'.
  eapply returns_store_prev; [exact HI' | apply set_pc_eq].
Qed.

Lemma returns_allocate ids s t c : Inv ids s -> threads s t = Allocate (Some c) -> returns_within 10 t s.
Proof.
  intros HI Et. pose proof (run_allocate ids s t (Some c) HI Et) as H. cbn [make_node] in H. next_step H HI'.
  eapply returns_load_head; [exact HI' | apply set_pc_eq].
Qed.

(** No thread other than [t] is appending a chunk. *)
Definition others_done (t : nat) s : Prop := forall u, t <> u -> extends (threads s u) = None.

Lemma others_done_go t q l s : others_done t s -> others_done t (mkState l (set_pc t q (threads s))).
Proof. intros Ho u Hu. cbn [threads]. rewrite set_pc_ne by exact Hu. auto. Qed.

Lemma returns_fetch ids s t c n : Inv ids s -> threads s t = Fetch c -> nodes (store s) !! c = Some n ->
  next_item (item_data n) <= chunk_size -> returns_within 11 t s.
Proof.
  intros HI Et Hn Hl. destruct (decide (next_item (item_data n) < chunk_size)) as [Hlt | Hge].
  - apply (returns_mono 4); [lia |]. eapply returns_fetch_room; eassumption.
  - pose proof (run_fetch ids s t c n HI Et Hn) as H. cbn zeta in H.
    destruct (fetch_to_cases c (next_item (item_data n))) as [[Hx _] | [[_ Ef] | [Hx _]]]; [lia | rewrite Ef in H | lia]. next_step H HI'.
    eapply returns_allocate; [exact HI' | apply set_pc_eq].
Qed.

Lemma returns_load ids s t : Inv ids s -> threads s t = Load -> others_done t s -> returns_within 13 t s.
Proof.
  intros HI Et Ho. pose proof (run_load ids s t HI Et) as H. cbn zeta in H. destruct (head (store s)) as [h |] eqn:Eh.
  - destruct (wf_head _ (iv_wf _ _ HI) h Eh) as [n Hn].
    assert (Hle : next_item (item_data n) <= chunk_size).
    { destruct (decide (next_item (item_data n) <= chunk_size)) as [| Hgt]; [assumption |].
      destruct (proj1 (iv_head _ _ HI h n Eh Hn)) as [u Hu]; [lia |].
      destruct (decide (t = u)) as [<- | Hne]; [rewrite Et in Hu; discriminate |]. rewrite (Ho u Hne) in Hu. discriminate. }
    next_step H HI1. pose proof (run_look ids _ t h n HI1 (set_pc_eq _ _ _) Hn) as H. cbn zeta in H.
    replace (next_item (item_data n) <=? chunk_size) with true in H by lia. next_step H HI2.
    eapply returns_fetch; [exact HI2 | apply set_pc_eq | exact Hn | exact Hle].
  - next_step H HI1. pose proof (run_allocate ids _ t None HI1 (set_pc_eq _ _ _)) as H. cbn [make_node] in H. next_step H HI2.
    pose proof (run_first ids _ t _ HI2 (set_pc_eq _ _ _) Eh) as H. cbn zeta in H. next_step H HI3.
    apply (returns_mono 6); [lia |].
    eapply returns_linked; [exact HI3 | apply set_pc_eq | reflexivity |]. simpl. rewrite lookup_insert_eq. eauto.
Qed.

Lemma returns_first ids s t id : Inv ids s -> threads s t = TryFirst id -> others_done t s -> returns_within 14 t s.
Proof.
  intros HI Et Ho. destruct (head (store s)) as [h |] eqn:Eh.
  - pose proof (run_discard ids s t id h HI Et Eh) as H. cbn zeta in H. next_step H HI'.
    eapply returns_load; [exact HI' | apply set_pc_eq | apply others_done_go, Ho].
  - destruct (float_node ids s t id HI) as (_ & _ & p & Hn & _); [rewrite Et; reflexivity |].
    pose proof (run_first ids s t id HI Et Eh) as H. cbn zeta in H. next_step H HI'.
    apply (returns_mono 6); [lia |]. eapply returns_linked; [exact HI' | apply set_pc_eq | reflexivity | simpl; eauto].
Qed.

Lemma returns_alone ids s t : Inv ids s -> pushing (threads s t) = true -> others_done t s -> returns_within 15 t s.
Proof.
  intros HI Hp Ho. pose proof (iv_locals _ _ HI t) as Hl. destruct (threads s t) as [ | | c | c | c i | c i | c i | a | c | id | c id | c id o | c id o
    | a | a off | a | a | a | a | a ] eqn:Et; try discriminate Hp; cbn [locals] in Hl.
  - apply (returns_mono 14); [lia |].
    assert (HI' : Inv ids (mkState (store s) (set_pc t Load (threads s)))).
    { apply Inv_move; try exact HI; rewrite ?Et; try reflexivity; simpl; auto; contradiction. }
    eapply returns_step; [unfold run; rewrite Et; reflexivity |].
    eapply returns_load; [exact HI' | apply set_pc_eq | apply others_done_go, Ho].
  - apply (returns_mono 13); [lia |]. eapply returns_load; eassumption.
  - apply (returns_mono 14); [lia |]. destruct (ids_node ids s c HI Hl) as (n & Hn & _).
    pose proof (run_look ids s t c n HI Et Hn) as H. cbn zeta in H. destruct (next_item (item_data n) <=? chunk_size) eqn:Ex; next_step H HI'.
    + apply (returns_mono 11); [lia |]. eapply returns_fetch; [exact HI' | apply set_pc_eq | exact Hn | lia].
    + eapply returns_load; [exact HI' | apply set_pc_eq | apply others_done_go, Ho].
  - apply (returns_mono 14); [lia |]. destruct (ids_node ids s c HI Hl) as (n & Hn & _).
    destruct (decide (next_item (item_data n) <= chunk_size)) as [Hle | Hgt];
      [apply (returns_mono 11); [lia |]; eapply returns_fetch; eassumption |].
    pose proof (run_fetch ids s t c n HI Et Hn) as H. cbn zeta in H.
    destruct (fetch_to_cases c (next_item (item_data n))) as [[Hx _] | [[Hx _] | [_ Ef]]]; [lia | lia | rewrite Ef in H]. next_step H HI'.
    eapply returns_load; [exact HI' | apply set_pc_eq | apply others_done_go, Ho].
  - apply (returns_mono 3); [lia |]. eapply returns_assign; eassumption.
  - apply (returns_mono 2); [lia |]. eapply returns_publish; eassumption.
  - apply (returns_mono 1); [lia |]. eapply returns_access; eassumption.
  - destruct c as [c |]; [apply (returns_mono 10); [lia |]; eapply returns_allocate; eassumption |].
    pose proof (run_allocate ids s t None HI Et) as H. cbn [make_node] in H. next_step H HI'.
    eapply returns_first; [exact HI' | apply set_pc_eq | apply others_done_go, Ho].
  - apply (returns_mono 14); [lia |]. eapply returns_first; eassumption.
  - apply (returns_mono 9); [lia |]. eapply returns_load_head; eassumption.
  - apply (returns_mono 8); [lia |]. eapply returns_store_prev; eassumption.
  - apply (returns_mono 7); [lia |]. eapply returns_cas; eassumption.
Qed.

(** Thread [u], running alone, has appended its chunk after [n] steps. *)
Definition appends_in (n : nat) (u : nat) (s : State) : Prop :=
  exists s' ids, run_all (repeat u n) s = Ok s' /\ Inv ids s' /\ (forall v, extends (threads s' v) = None) /\
    forall v, u <> v -> threads s' v = threads s v.

Lemma appends_step n u q l s : run u s = Ok (mkState l (set_pc u q (threads s))) ->
  appends_in n u (mkState l (set_pc u q (threads s))) -> appends_in (S n) u s.
Proof.
  intros E (s' & ids & Er & HI & Hn & Hs). exists s', ids. split; [cbn [repeat run_all]; rewrite E; exact Er |].
  split; [exact HI |]. split; [exact Hn |]. intros v Hv. rewrite (Hs v Hv). apply set_pc_ne, Hv.
Qed.

Lemma appends_cas ids s u c id old : Inv ids s -> threads s u = CasHead c id old -> appends_in 1 u s.
Proof.
  intros HI Et. pose proof (run_cas ids s u c id old HI Et) as H. cbn zeta in H. destruct H as [E HI'].
  eexists _, _. split; [cbn [repeat run_all]; rewrite E; reflexivity |]. split; [exact HI' |]. cbn [threads]. split.
  - intros v. destruct (set_pc_cases u v Load (threads s)) as [[<- ->] | [Hne ->]]; [reflexivity |].
    destruct (extends (threads s v)) as [d |] eqn:Ev; [exfalso | reflexivity]. apply Hne.
    assert (Eu : extends (threads s u) = Some c) by (rewrite Et; reflexivity).
    pose proof (iv_extends _ _ HI v d Ev). pose proof (iv_extends _ _ HI u c Eu).
    assert (d = c) as -> by congruence. eapply (iv_one _ _ HI); eassumption.
  - intros v Hv. apply set_pc_ne, Hv.
Qed.

Lemma appends_store_prev ids s u c id old : Inv ids s -> threads s u = StorePrev c id old -> appends_in 2 u s.
Proof.
  intros HI Et. pose proof (run_store_prev ids s u c id old HI Et) as H. cbn zeta in H. destruct H as [E HI'].
  eapply appends_step; [exact E |]. eapply appends_cas; [exact HI' | apply set_pc_eq].
Qed.

Lemma appends_load_head ids s u c id : Inv ids s -> threads s u = LoadHead c id -> appends_in 3 u s.
Proof.
  intros HI Et. pose proof (run_load_head ids s u c id HI Et) as H. cbn zeta in H. destruct H as [E HI'].
  eapply appends_step; [exact E |]. eapply appends_store_prev; [exact HI' | apply set_pc_eq].
Qed.

Lemma append_ends ids s u c : Inv ids s -> extends (threads s u) = Some c -> exists n, (n <= 4)%nat /\ appends_in n u s.
Proof.
  intros HI Hu. destruct (threads s u) as [ | | | | | | | | o | | d id | d id o | d id o | | | | | | | ] eqn:Et; try discriminate Hu.
  - simpl in Hu. subst o. exists 4%nat. split; [lia |].
    pose proof (run_allocate ids s u (Some c) HI Et) as H. cbn [make_node] in H. destruct H as [E HI'].
    eapply appends_step; [exact E |]. eapply appends_load_head; [exact HI' | apply set_pc_eq].
  - exists 3%nat. split; [lia |]. eapply appends_load_head; eassumption.
  - exists 2%nat. split; [lia |]. eapply appends_store_prev; eassumption.
  - exists 1%nat. split; [lia |]. eapply appends_cas; eassumption.
Qed.

Lemma run_all_app ts us s s1 : run_all ts s = Ok s1 -> run_all (ts ++ us) s = run_all us s1.
Proof.
  revert s. induction ts as [| t ts IH]; intros s E; [injection E as ->; reflexivity |]. cbn [app run_all] in *.
  destruct (run t s) as [s2 |]; [| discriminate E]. cbn [mbind res_bind] in *. apply IH, E.
Qed.

(** C27 (push_returns): no push is stuck: in every state the threads can reach, at most
    one thread is appending a chunk; and every push that is under way can be brought to its
    end: when only the thread that appends takes 4 steps at most, if there is one, and
    then only the thread of the push takes 15 at most, the push returns.  (That is freedom from
    obstruction; while others push, a push may try again any number of times.) *)
Theorem push_returns s t :
  reachable init step s -> pushing (threads s t) = true ->
  (forall u v c d, extends (threads s u) = Some c -> extends (threads s v) = Some d -> u = v) /\
  exists u n k s' a, (n <= 4)%nat /\ (k <= 15)%nat /\ run_all (repeat u n ++ repeat t k) s = Ok s' /\ threads s' t = Pushed a.
Proof.
  intros Hr Hp. destruct (reachable_Inv s Hr) as [ids HI].
  assert (Hone : forall u v c d, extends (threads s u) = Some c -> extends (threads s v) = Some d -> u = v).
  { intros u v c d Hu Hv. pose proof (iv_extends _ _ HI u c Hu). pose proof (iv_extends _ _ HI v d Hv).
    assert (d = c) as -> by congruence. eapply (iv_one _ _ HI); eassumption. }
  split; [exact Hone |].
  assert (Hcase : (exists u c, t <> u /\ extends (threads s u) = Some c) \/ others_done t s).
  { destruct (head (store s)) as [h |] eqn:Eh.
    - destruct (wf_head _ (iv_wf _ _ HI) h Eh) as [m Hm]. pose proof (iv_head _ _ HI h m Eh Hm) as Hh.
      destruct (decide (chunk_size < next_item (item_data m))) as [Hl | Hl].
      + apply Hh in Hl as [u Hu]. destruct (decide (t = u)) as [<- | Hne]; [| left; eauto]. right. intros v Hv.
        destruct (extends (threads s v)) as [d |] eqn:Ev; [| reflexivity]. destruct Hv. eapply Hone; eassumption.
      + right. intros v _. destruct (extends (threads s v)) as [d |] eqn:Ev; [exfalso | reflexivity]. apply Hl, Hh.
        exists v. rewrite Ev. f_equal. pose proof (iv_extends _ _ HI v d Ev). congruence.
    - right. intros v _. destruct (extends (threads s v)) as [d |] eqn:Ev; [| reflexivity].
      pose proof (iv_extends _ _ HI v d Ev). congruence. }
  destruct Hcase as [(u & c & Hne & Hu) | Ho].
  - destruct (append_ends ids s u c HI Hu) as (n & Hn & s1 & ids1 & E1 & HI1 & Hno & Hsame).
    assert (Et : threads s1 t = threads s t) by (apply Hsame; intros E; apply Hne; symmetry; exact E).
    destruct (returns_alone ids1 s1 t HI1) as (k & s' & Hk & Ek & a & Ha); [rewrite Et; exact Hp | intros v _; apply Hno |].
    exists u, n, k, s', a. rewrite (run_all_app _ _ _ _ E1). auto.
  - destruct (returns_alone ids s t HI Hp Ho) as (k & s' & Hk & Ek & a & Ha). exists t, 0%nat, k, s', a. auto with lia.
Qed.

End Invariant.
End Threads.
(** ** Examples, with chunks of two slots *)

#[local] Instance two_slots : ChunkSize := 2.
#[local] Instance two_slots_good : GoodSize two_slots.
Proof. unfold GoodSize, chunk_size, two_slots. lia. Qed.

Definition tens (t : nat) : Z := 10 * Z.of_nat t.
Definition start : State (T := Z) := mkState empty (fun _ => Idle).

Definition after (ts : list nat) : State (T := Z) := match run_all tens ts start with Ok s => s | Err _ => start end.

Lemma after_runs (ts : list nat) : is_ok (run_all tens ts start) = true -> reachable init (step tens) (after ts).
Proof.
  intros Hok. unfold after. destruct (run_all tens ts start) as [s |] eqn:E; [| discriminate Hok].
  exists start. split; [reflexivity |]. clear Hok. revert E. generalize start. induction ts as [| t ts IH]; intros s0 E.
  - injection E as ->. apply rtc_refl.
  - cbn [run_all] in E. apply bind_Ok in E as (s1 & E1 & E). eapply rtc_l; [exists t; exact E1 | apply IH, E].
Qed.

(** A schedule that goes on. *)
Lemma after_app ts us : is_ok (run_all tens (ts ++ us) start) = true -> rtc (step tens) (after ts) (after (ts ++ us)).
Proof.
  unfold after. destruct (run_all tens ts start) as [s |] eqn:E.
  - rewrite (run_all_app tens ts us start s E). clear E. destruct (run_all tens us s) as [s' |] eqn:E'; [| discriminate]. intros _.
    revert s E'. induction us as [| t us IH]; intros s E'; [injection E' as ->; apply rtc_refl |].
    cbn [run_all] in E'. apply bind_Ok in E' as (s1 & E1 & E'). eapply rtc_l; [exists t; exact E1 | apply IH, E'].
  - intros Hok. exfalso. assert (Hn : forall s0, run_all tens ts s0 = Err e -> run_all tens (ts ++ us) s0 = Err e).
    { clear. induction ts as [| t ts IH]; intros s0 E; [discriminate |]. cbn [app run_all] in *.
      destruct (run tens t s0) as [s1 |]; [apply IH, E | exact E]. }
    rewrite (Hn start E) in Hok. discriminate.
Qed.

(** The threads that have run are those of the schedule. *)
Lemma run_frame t s s' u : run tens t s = Ok s' -> t <> u -> threads s' u = threads s u.
Proof.
  intros E Hne. unfold run in E. destruct (threads s t); res_inv;
    repeat (match goal with H : context [match ?x with _ => _ end] |- _ => destruct x end; res_inv);
    cbn [threads]; try (apply set_pc_ne; exact Hne); reflexivity.
Qed.

Lemma after_idle (ts : list nat) u : u ∉ ts -> threads (after ts) u = Idle.
Proof.
  intros Hu. unfold after. destruct (run_all tens ts start) as [s |] eqn:E; [| reflexivity].
  change Idle with (threads start u). revert E. generalize start. induction ts as [| t ts IH]; intros s0 E.
  - injection E as ->. reflexivity.
  - cbn [run_all] in E. apply bind_Ok in E as (s1 & E1 & E). apply not_elem_of_cons in Hu as [Hne Hu].
    rewrite (IH Hu s1 E). eapply run_frame; [exact E1 | congruence].
Qed.

(** What holds of an idle thread and of those that have run holds of all. *)
Lemma after_all (Q : pc -> Prop) (ts us : list nat) :
  Q Idle -> Forall (fun t => Q (threads (after ts) t)) us -> forallb (fun t => existsb (Nat.eqb t) us) ts = true ->
  forall t, Q (threads (after ts) t).
Proof.
  intros Hi Hus Hts t. destruct (decide (t ∈ ts)) as [Hin | Hno]; [| rewrite after_idle; assumption].
  rewrite List.forallb_forall in Hts. apply list_elem_of_In in Hin. specialize (Hts t Hin).
  apply List.existsb_exists in Hts as (u & Hu & E). apply Nat.eqb_eq in E as ->.
  rewrite List.Forall_forall in Hus. apply Hus, Hu.
Qed.

(** Thread 1 has taken the first slot; thread 2 pushes its element behind it and
    removes it again, then thread 1 goes on. *)
Definition overtaken : list nat := (repeat 1 7 ++ repeat 2 13 ++ repeat 1 3)%nat.

(** Thread 3 pushes after that. *)
Definition push_again : list nat := repeat 3%nat 14.

(** Two elements fill the chunk; thread 3 has just linked the next one. *)
Definition new_chunk_linked : list nat := (repeat 1 10 ++ repeat 2 7 ++ repeat 3 8)%nat.

(** C28 (hidden): an iteration may miss an element that was pushed before it began: when the
    element after it was removed while its slot was taken but not yet assigned, since the
    offset [remove] stored skips it, even after every operation has returned, and still when
    another element has been pushed since; and all elements, while a new chunk is linked
    and none of its slots is taken. *)
Theorem elements_hidden :
  (exists s l s' l', reachable init (step tens) s /\
     (forall t, threads s t = Idle \/ (exists a, threads s t = Pushed a \/ threads s t = Removed a)) /\
     threads s 1%nat = Pushed (at_pos (0%nat, 0)) /\ collect (store s) = Ok ([], l) /\
     reachable init (step tens) s' /\ rtc (step tens) s s' /\ threads s' 1%nat = Pushed (at_pos (0%nat, 0)) /\
     threads s' 3%nat = Pushed (at_pos (1%nat, 0)) /\ collect (store s') = Ok ([30], l')) /\
  (exists s l, reachable init (step tens) s /\ threads s 1%nat = Pushed (at_pos (0%nat, 0)) /\
     threads s 2%nat = Pushed (at_pos (0%nat, 1)) /\ threads s 3%nat = Load /\ collect (store s) = Ok ([], l)).
Proof.
  split.
  - exists (after overtaken). eexists. exists (after (overtaken ++ push_again)). eexists.
    split; [apply after_runs; vm_compute; reflexivity |]. split.
    + refine (after_all (fun p => p = Idle \/ (exists a, p = Pushed a \/ p = Removed a)) _ [1; 2]%nat _ _ _);
        [left; reflexivity | | reflexivity].
      constructor; [right; eexists; left; vm_compute; reflexivity |].
      constructor; [right; eexists; right; vm_compute; reflexivity | constructor].
    + split; [vm_compute; reflexivity |]. split; [vm_compute; reflexivity |].
      split; [apply after_runs; vm_compute; reflexivity |]. split; [apply after_app; vm_compute; reflexivity |].
      split; [vm_compute; reflexivity |]. split; vm_compute; reflexivity.
  - exists (after new_chunk_linked). eexists. split; [apply after_runs; vm_compute; reflexivity |].
    do 3 (split; [vm_compute; reflexivity |]). vm_compute. reflexivity.
Qed.

(** Three threads take turns; the first makes the first chunk, the third the next. *)
Definition in_turns (n : nat) : list nat := concat (repeat [1; 2; 3]%nat n).

Lemma pushed_elements_intact_witness :
  threads (after (in_turns 17)) 3%nat = Pushed (at_pos (3%nat, 0)) /\
  threads (after (in_turns 17)) 1%nat = Removed (mkAccess (Some 0%nat) (Some 0) false) /\
  (forall t, exists s', run tens t (after (in_turns 17)) = Ok s') /\
  exists n ids, path (store (after (in_turns 17))) (head (store (after (in_turns 17)))) ids /\ 3%nat ∈ ids /\
    nodes (store (after (in_turns 17))) !! 3%nat = Some n /\ deleted n = false /\
    items (item_data n) !! 0%nat = Some (mkItem (Some 30) 0 1).
Proof.
  split; [vm_compute; reflexivity |]. split; [vm_compute; reflexivity |].
  destruct (pushed_elements_intact tens (after (in_turns 17))) as (H1 & H2 & _); [apply after_runs; vm_compute; reflexivity |].
  split; [exact H1 |]. destruct (H2 3%nat (at_pos (3%nat, 0))) as (c & i & n & ids & E & Hi & Hp & Hc & Hn & Hd & Hit); [vm_compute; reflexivity |].
  injection E as <- <-. exists n, ids. auto.
Defined.

(** The third thread has returned as well, before any of them removes its element. *)
Definition all_pushed : list nat := (in_turns 10 ++ repeat 3 7)%nat.

Lemma all_pushed_quiet : quiet (after all_pushed).
Proof.
  refine (after_all (fun p => p = Idle \/ exists a, p = Pushed a) _ [1; 2; 3]%nat _ _ _); [left; reflexivity | | reflexivity].
  do 3 (constructor; [right; eexists; vm_compute; reflexivity |]). constructor.
Qed.

Lemma concurrent_pushes_refine_witness :
  exists B l', Repr (store (after all_pushed)) B /\ collect (store (after all_pushed)) = Ok (B.*2, l') /\ ((0%nat, 1), 20) ∈ B.
Proof.
  destruct (concurrent_pushes_refine tens (after all_pushed)) as (B & HR & _ & _ & _ & HB & l' & E);
    [apply after_runs; vm_compute; reflexivity | exact all_pushed_quiet |].
  exists B, l'. split; [exact HR |]. split; [exact E |]. apply HB. exists 2%nat. split; vm_compute; reflexivity.
Defined.

(** Thread 3 is appending a chunk when thread 4 calls [push]. *)
Lemma push_returns_witness :
  threads (after (in_turns 8)) 3%nat = LoadHead 0 3 /\
  exists u n k s' a, (n <= 4)%nat /\ (k <= 15)%nat /\ run_all tens (repeat u n ++ repeat 4%nat k) (after (in_turns 8)) = Ok s' /\
    threads s' 4%nat = Pushed a.
Proof.
  split; [vm_compute; reflexivity |].
  apply (push_returns tens (after (in_turns 8)) 4); [apply after_runs | ]; vm_compute; reflexivity.
Defined.

(** Two pushes have returned while thread 3 is linking a chunk. *)
Lemma own_iteration_sees_witness :
  threads (after (in_turns 10)) 3%nat = CasHead 0 3 (Some 0%nat) /\
  exists B l', iterate_from (at_pos (0%nat, 1)) (store (after (in_turns 10))) = Ok (B.*2, l') /\ ((0%nat, 0), 10) ∈ B.
Proof.
  split; [vm_compute; reflexivity |].
  destruct (own_iteration_sees tens (after (in_turns 10)) 2 0 1) as (B & l' & E & _ & HB).
  - apply after_runs. vm_compute. reflexivity.
  - refine (after_all (fun p => pushing p = true \/ exists a, p = Pushed a) _ [1; 2; 3]%nat _ _ _); [left; reflexivity | | reflexivity].
    do 2 (constructor; [right; eexists; vm_compute; reflexivity |]).
    constructor; [left; vm_compute; reflexivity | constructor].
  - vm_compute. reflexivity.
  - exists B, l'. split; [exact E |]. apply HB. split; [right; simpl; lia |]. exists 1%nat. split; [right; vm_compute |]; reflexivity.
Defined.
End ConcurrentList.
